(* ===== verification/_CoqProject ===== *)
-Q . S2P
Prelude.v
GoStd.v
RoutingHeader.v
EnvelopeFrame.v
RelayDelivery.v
TrustPairing.v
DeliveryStore.v
Hub.v
MembershipCodec.v
WireModel.v
Schema.v
Admission.v
MembershipStore.v
StoreSteps.v
RosterChain.v
RosterServing.v
StoreExamples.v
RateLimit.v
Session.v
SessionStream.v
RelayConnection.v
ConnectionHub.v
RelayAccess.v
EndToEnd.v
Sql.v
Migrations.v
MigrationRuns.v
MigrationTheorems.v
MigrationData.v
MigrationExamples.v
PayloadCodec.v
PayloadSpec.v
GoNet.v
ClientAddress.v
GoWeb.v
GoCrypto.v
GoForm.v
GoUrl.v
GoPath.v
Config.v
Interleave.v
RelayHandshake.v
IdentityChallenge.v
HttpApi.v
HttpProofs.v
Enrollment.v
HttpExamples.v
AdminCredential.v
FileSystem.v
AuthorityKey.v
AuthorityBackup.v
WorkspaceBackup.v
BackupProofs.v
BackupExamples.v
AdminService.v
AdminCommand.v
StoreFile.v
Readiness.v
CommandProofs.v
AdminViews.v
AdminWeb.v
ServerConfig.v
ServerRun.v
AdminProofs.v
AdminTraces.v
AdminLogin.v
AdminExamples.v
