(* ===== verification/Prelude.v ===== *)
(** SevenMirror-Server: a verification development.

    * The program

    SevenMirror-Server is a relay for end-to-end encrypted notifications between
    the devices of private workspaces. A workspace has an Ed25519 authority; its
    administrator issues pairing codes, a device registers with one, proves that it
    holds its identity key, and is approved: the authority signs a certificate and
    the next roster of a hash-linked chain. Approved devices connect by WebSocket,
    authenticate with a token, and send each other opaque envelopes, online or
    durable; durable envelopes wait in a per-device queue that the recipient resumes
    and acknowledges. A revocation signs a new roster, and a monitor disconnects the
    device's sessions.

    * Files, and the code they model

    - [Prelude]: results and errors, 64-bit integers with their wrap-around, times,
      bytes and slices, guards ([fail_if]) and the tactics that invert them, finite
      tables ordered by an integer key. [GoStd]: the parts of Go's standard library
      that checks rest on (UTF-8, [TrimSpace], base64url, SHA-256, P-256 points),
      executable.
    - [RoutingHeader], [EnvelopeFrame], [RelayDelivery], [TrustPairing]: the binary
      codecs protocol/routingheader, protocol/envelopeframe, protocol/relaydelivery,
      protocol/trustpairing.
    - [DeliveryStore]: internal/admission/relay_delivery_store.go, the durable queue,
      and an abstract [Mailbox] (an append-only log, an acknowledgement, a loss
      horizon) that it refines.
    - [Hub]: internal/relay/hub.go. Goroutines are threads of a step relation; a rule
      is one critical section. The store behind the hub is the class [RelayStore].
    - [MembershipCodec]: protocol/membershipcodec. The protobuf runtime and Ed25519
      are classes ([Wire], [Ed25519]) with their laws ([WireLaws]: marshalling is
      inverted by unmarshalling; [Ed25519Laws]: a signature of a key pair verifies).
      [WireModel]: instances of both, which show the laws can hold and evaluate the
      codec.
    - [Schema], [Admission], [MembershipStore]: internal/admission/store.go. [Schema]:
      tables, constraints, validators; a transaction is a function from a database to
      a [result], and a failed one leaves the database. [Admission]: workspaces,
      pairing, registration, proofs, credentials, sessions, preferences, the console
      account. [MembershipStore]: approval, renaming, revocation, authority rotation,
      serving of the membership state. Random values and the challenge factory are
      arguments.
    - [StoreSteps]: the operations as transitions of the database, the life of a
      device, and the properties of every sequence of operations. [RosterChain]: the
      invariant that ties rosters, authority keys and device rows. [RosterServing]:
      what it gives to devices. [StoreExamples]: a concrete run.
    - [RateLimit]: internal/ratelimit. [Session] and [SessionStream]:
      internal/relay/websocket.go, the writer goroutine against an environment that
      may execute any calls on the queues between its accesses and fail any write or
      admission; the session protocol it follows. [RelayConnection]: the same function
      as a whole, a step relation of its reader, its writer, the channels between
      them, the context, the socket and the cleanup; [ConnectionHub]: a connection and
      the hub change a session instance by the same rules. [RelayAccess]: authentication
      frames, internal/admission/relay_authenticator.go, the admission store as the
      hub's [RelayStore], internal/relay/authorization_monitor.go. [EndToEnd]: a durable
      envelope from its sender to its recipient.
    - [Sql], [Migrations]: opening the database, the rest of
      internal/admission/store.go. [Sql]: tables as definitions with rows of typed
      values, and the statements the migrations use; [Migrations]: the eleven schema
      versions. [MigrationRuns], [MigrationTheorems], [MigrationData]: openings that
      may fail at any statement, and what they leave; [MigrationExamples].
    - [PayloadCodec]: protocol/payloadcodec; [PayloadSpec]: a declarative
      specification of the payloads it accepts.
    - [GoNet], [GoWeb], [GoForm], [GoCrypto]: the parts of net/netip, net/http and
      encoding/json, net/url and mime, and crypto that the services use, executable;
      [GoUrl], [GoPath]: [url.Parse] and the lexical paths of path/filepath.
      [ClientAddress]: internal/clientaddress and the limiters on it. [Config]:
      internal/config, internal/adminweb/config.go and the limits of cmd/server.
      [ServerConfig]: both mains, from the environment to their handlers; [ServerRun]:
      serving, monitoring and stopping, to the exit code.
    - [RelayHandshake]: internal/relay/authenticated_handler.go, a program of atomic
      actions on the attempt limiter, the authentication slots and the registry.
    - [IdentityChallenge]: internal/membership/identity_challenge.go, over the class
      [HPKE]. [HttpApi]: internal/httpapi, every handler and the mux. [HttpProofs],
      [Enrollment], [HttpExamples]: what the API guarantees.
    - [FileSystem]: directories, files and links below a root, a process on them, and
      the calls of package os, each of which may fail as an oracle says; weakest
      preconditions of programs of such calls. [AuthorityKey]:
      internal/membership/authority_key.go, over the class [PKCS8].
      [AuthorityBackup]: internal/membership/authority_backup.go. [WorkspaceBackup]:
      internal/workspacebackup and internal/admission/backup.go, over the class
      [SqliteFile] (the format of a database file and its online backup).
      [BackupProofs], [BackupExamples]: what backups guarantee.
    - [Interleave]: programs of atomic actions on a shared state, their
      interleavings, rely-guarantee rules. [AdminService]: internal/adminservice, each
      operation a program of transactions; the class [Manager] is what the console
      needs of it and [ManagerLaws] what it promises. [AdminCommand]: cmd/admin and
      internal/protecteddir, from the arguments of a command to its exit code and
      what it prints, over the class [Durations]. [CommandProofs]: what commands may
      do to the registry. [StoreFile]: [admission.Open] up to the database driver.
      [Readiness]: internal/readiness and cmd/server/healthcheck.go, over the class
      [X509].
    - [AdminCredential], [AdminViews], [AdminWeb]: internal/adminweb (credential.go,
      totp.go and account.go; the views; handler.go and timezone.go). Every handler is
      a program over the console's state, the clock and the registry. scrypt is the
      class [Scrypt], time zone data the class [Timezones]. [AdminProofs],
      [AdminTraces], [AdminLogin], [AdminExamples]: what the console guarantees.

    * What the theorems show

    - Queues: any calls for any recipients refine one mailbox per recipient; resumes
      and reads have no silent gap; appends succeed within the limits.
    - End to end: an accepted durable envelope is delivered, covered by a reset, or
      acknowledged; never lost silently.
    - Sessions: a client gets the logged envelopes in order without a gap other than
      what it acknowledged, whatever happens meanwhile, and draining ends.
    - Connections: in every interleaving a connection that should end does, as a
      whole, and reports the true cause. [policy_close_unrevoked] shows that the
      policy close is not reserved for revocations, as its documentation says.
    - Hub: in every interleaving admitted work belongs to the instance that holds the
      device's slot; a slot changes hands only when the old instance is retired and
      drained; a stale credential never displaces a newer one.
    - Store: revocation is permanent, rotation retires credentials, codes are used
      once, preference updates are not lost, authorized devices went through the
      whole life cycle.
    - Rosters: the chain is gap-free, signed and linked; its newest element is exactly
      the set of authorized devices, under the current authority; pages are
      contiguous and make progress; a revoked device sees nothing newer.
    - Across components: after a revocation no connection authenticates, no durable
      envelope is accepted, and the monitor stops every session.
    - Codecs: round trips, canonicity, soundness of what is accepted.
    - Migrations: openings converge to the current schema from any version and after
      any failures, keep the data, and give well-typed devices.
    - HTTP: the API changes the database only by the operations it offers; an honest
      device enrolls; a revoked one is denied.
    - Console: in every interleaving of its handlers, only an administrator's request
      changes the registry, the default account manages nothing, codes work once, and
      stored credentials sign in. [default_login_race] shows the one exception found:
      a login with the default password that overlaps the setup.
    - Handshakes: in every interleaving authentication slots are neither exceeded nor
      leaked, and a session starts only for an approved device with its own token.
    - Configuration: a loaded configuration always gives a server and a console; the
      registry's file is private before it is used; a readiness report is exact; a
      program stops when it is told to, and its exit code says how.
    - Backups: whichever calls fail, creation writes in its new directory only and
      restoration replaces no file; what is restored is exactly what was verified; a
      backup that was made restores.
    - Command line: the registry changes only by store operations, and a deployment
      is initialized once. [init_race] shows the exception found: two runs at the
      same time both succeed and leave two workspaces.

    * Bounds and fuel

    Loops over lists and maps are structural. [enforce_loop] has one unit of fuel per
    stored row; [drainBatch] takes fuel and returns [None] without it, and
    [MaxInt64 + 3] rounds are proved enough for any interference. Times are integers
    (nanoseconds), 64-bit counters are kept in range by the guards of the code, which
    the model states. Errors of the database driver are not modelled
    in the store: a statement fails only by a constraint; openings and migrations may
    fail at any statement. Calls on files fail as an oracle says, and a failing write
    leaves any part of its data. Links among the parents of a path and other
    processes on the same files are outside the model. Context cancellation appears
    as the failure of an admitted operation.

    * Not modelled

    The network itself (listening, TLS, deadlines) and signals: they are steps of an
    environment. HTML templates and the JSON
    text of responses: the model stops at their fields. Generated protobuf code is
    represented by its messages and [Wire]. *)

From stdpp Require Export prelude gmap strings list fin_maps sorting.
From Stdlib Require Export ZArith Lia.
From Stdlib Require Import Strings.Byte.

#[global] Open Scope Z_scope.

(** ** Results and errors

    A Go function returning [(T, error)] is a function into [result T].
    [New] is [errors.New] (a sentinel or an inline message) and [Wrapf] is
    [fmt.Errorf] with a [%w] verb. *)

Inductive error : Type :=
| New (msg : string)
| Wrapf (context : string) (cause : error).

#[export] Instance error_eq_dec : EqDecision error.
Proof. solve_decision. Defined.

(** [errors.Is]: walk the wrap chain. *)
Fixpoint errors_Is (e target : error) : bool :=
  bool_decide (e = target) ||
  match e with
  | New _ => false
  | Wrapf _ c => errors_Is c target
  end.

Inductive result (A : Type) : Type :=
| Ok (a : A)
| Err (e : error).
Arguments Ok {A} a.
Arguments Err {A} e.

Definition rbind {A B} (r : result A) (k : A → result B) : result B :=
  match r with Ok a => k a | Err e => Err e end.

Definition guard_err (b : bool) (msg : string) : result unit :=
  if b then Err (New msg) else Ok tt.

(** [fmt.Errorf] around a call that may fail. *)
Definition wrapf {A} (context : string) (r : result A) : result A :=
  match r with Ok a => Ok a | Err e => Err (Wrapf context e) end.

Lemma wrapf_Ok {A} c (r : result A) a : wrapf c r = Ok a ↔ r = Ok a.
Proof. destruct r; simpl; split; congruence. Qed.

Definition is_ok {A} (r : result A) : bool :=
  match r with Ok _ => true | Err _ => false end.

(** The value of a successful result, for evaluating concrete runs. *)
Definition from_ok {A} (d : A) (r : result A) : A :=
  match r with Ok a => a | Err _ => d end.

Lemma is_ok_from {A} (d : A) (r : result A) : is_ok r = true → r = Ok (from_ok d r).
Proof. by destruct r. Qed.

Declare Scope go_scope.
Delimit Scope go_scope with go.
Notation "'let?' x ':=' e 'in' k" := (rbind e (λ x, k))
  (at level 10, x name, k at level 200, format "'let?'  x  ':='  e  'in' '//' k") : go_scope.
Notation "'let?' ' x ':=' e 'in' k" := (rbind e (λ x, k))
  (at level 10, x strict pattern, k at level 200) : go_scope.
Notation "'fail_if' b 'with_msg' m 'in' k" := (rbind (guard_err b m) (λ _, k))
  (at level 10, b at level 100, m at level 100, k at level 200,
   format "'fail_if'  b  'with_msg'  m  'in' '//' k") : go_scope.
#[global] Open Scope go_scope.

Lemma rbind_Ok {A B} (r : result A) (k : A → result B) b :
  rbind r k = Ok b ↔ ∃ a, r = Ok a ∧ k a = Ok b.
Proof.
  destruct r; simpl; split; eauto; try discriminate; intros (x & Hx & Hk); congruence.
Qed.

Lemma rbind_Err {A B} (r : result A) (k : A → result B) e :
  rbind r k = Err e ↔ r = Err e ∨ ∃ a, r = Ok a ∧ k a = Err e.
Proof.
  destruct r; simpl; split.
  - eauto.
  - intros [?|(x & Hx & Hk)]; congruence.
  - intros Hx. left. congruence.
  - intros [?|(x & Hx & Hk)]; congruence.
Qed.

Lemma Ok_inj {A} (a b : A) : Ok a = Ok b → a = b.
Proof. congruence. Qed.

Lemma guard_err_Ok b m u : guard_err b m = Ok u ↔ b = false.
Proof. destruct b, u; simpl; split; congruence. Qed.

Lemma fail_if_Ok {B} b m (k : result B) (v : B) :
  rbind (guard_err b m) (λ _, k) = Ok v ↔ b = false ∧ k = Ok v.
Proof. destruct b; simpl; intuition congruence. Qed.

(** ** Machine integers *)

Definition MaxInt64 : Z := 2 ^ 63 - 1.
Definition u64 (z : Z) : Z := z mod 2 ^ 64.
(** [int64(x)]: two's complement reinterpretation. *)
Definition i64 (z : Z) : Z := (z + 2 ^ 63) mod 2 ^ 64 - 2 ^ 63.
Definition is_u64 (z : Z) : Prop := 0 ≤ z < 2 ^ 64.
Definition is_i64 (z : Z) : Prop := - 2 ^ 63 ≤ z < 2 ^ 63.

Lemma i64_id z : is_i64 z → i64 z = z.
Proof. unfold is_i64, i64. intros. rewrite Z.mod_small; lia. Qed.

Lemma u64_id z : is_u64 z → u64 z = z.
Proof. unfold is_u64, u64. intros. rewrite Z.mod_small; lia. Qed.

Lemma i64_small z : 0 ≤ z ≤ MaxInt64 → i64 z = z.
Proof. unfold MaxInt64. intros. apply i64_id. unfold is_i64. lia. Qed.

(** ** Time

    A [time.Time] is a number of nanoseconds since the Unix epoch; the zero
    [Time] is January 1 of year 1, UTC. A [time.Duration] is in nanoseconds. *)

Definition zeroTime : Z := -62135596800 * 1000000000.
Definition IsZero (t : Z) : bool := t =? zeroTime.
Definition Millisecond : Z := 1000000.
Definition Second : Z := 1000 * Millisecond.
Definition Minute : Z := 60 * Second.
Definition Hour : Z := 60 * Minute.
(** [t.UnixMilli()]: seconds times 1000 plus the non-negative nanosecond part
    in milliseconds, so it rounds towards minus infinity. *)
Definition UnixMilli (t : Z) : Z := t / Millisecond.

Lemma UnixMilli_mono t t' : t ≤ t' → UnixMilli t ≤ UnixMilli t'.
Proof. intros. unfold UnixMilli, Millisecond. apply Z.div_le_mono; lia. Qed.

(** ** Bytes *)

Abbreviation byte := Byte.byte.
Abbreviation bytes := (list Byte.byte).

#[export] Instance byte_eq_decision : EqDecision byte := Byte.byte_eq_dec.

#[export] Program Instance byte_countable : Countable byte :=
  inj_countable Byte.to_N Byte.of_N _.
Next Obligation. intros x. apply Byte.of_to_N. Qed.

Definition b2z (b : byte) : Z := Z.of_N (Byte.to_N b).
(** [byte(v)]: truncation to the low eight bits. *)
Definition z2b (z : Z) : byte :=
  match Byte.of_N (Z.to_N (z mod 256)) with Some b => b | None => x00 end.

Lemma b2z_range b : 0 ≤ b2z b < 256.
Proof. pose proof (Byte.to_N_bounded b). unfold b2z. lia. Qed.

Lemma z2b_b2z b : z2b (b2z b) = b.
Proof.
  pose proof (b2z_range b). unfold z2b. rewrite Z.mod_small by lia.
  unfold b2z. by rewrite N2Z.id, Byte.of_to_N.
Qed.

Lemma b2z_z2b z : b2z (z2b z) = z mod 256.
Proof.
  unfold z2b. pose proof (Z.mod_pos_bound z 256 ltac:(lia)).
  pose proof (Byte.to_of_N_option_map (Z.to_N (z mod 256))) as Hm.
  destruct (Byte.of_N _) as [b|] eqn:Hb; simpl in Hm.
  - apply Byte.to_of_N in Hb. unfold b2z. rewrite Hb. lia.
  - destruct (N.leb_spec (Z.to_N (z mod 256)) 255); [done|lia].
Qed.

Lemma b2z_inj a b : b2z a = b2z b → a = b.
Proof. intros H. by rewrite <-(z2b_b2z a), <-(z2b_b2z b), H. Qed.

Definition blen (b : bytes) : Z := Z.of_nat (length b).
Definition bs (s : string) : bytes := String.list_byte_of_string s.
(** [bytes.Equal]. *)
Definition beq (a b : bytes) : bool := bool_decide (a = b).

Lemma beq_true a b : beq a b = true ↔ a = b.
Proof. apply bool_decide_eq_true. Qed.
Lemma beq_false a b : beq a b = false ↔ a ≠ b.
Proof. apply bool_decide_eq_false. Qed.
Lemma beq_refl a : beq a a = true.
Proof. by apply beq_true. Qed.

Lemma blen_app a b : blen (a ++ b) = blen a + blen b.
Proof. unfold blen. rewrite length_app. lia. Qed.
Lemma blen_nonneg a : 0 ≤ blen a.
Proof. unfold blen. lia. Qed.

(** ** Slices: [s[i:j]] for [0 <= i <= j <= len(s)] *)

Definition slice (i j : nat) (s : bytes) : bytes := take (j - i) (drop i s).

Lemma slice_length i j s : (i ≤ j)%nat → (j ≤ length s)%nat → length (slice i j s) = (j - i)%nat.
Proof. intros. unfold slice. rewrite length_take, length_drop. lia. Qed.

Lemma slice_blen i j s (n : Z) :
  blen s = n → (i ≤ j)%nat → Z.of_nat j ≤ n → blen (slice i j s) = Z.of_nat (j - i).
Proof. unfold blen. intros. rewrite slice_length; lia. Qed.

Lemma slice_prefix (a b : bytes) n : length a = n → slice 0 n (a ++ b) = a.
Proof. intros <-. unfold slice. rewrite drop_0, Nat.sub_0_r. apply take_app_length. Qed.

Lemma slice_app_skip (a b : bytes) i j :
  (length a ≤ i)%nat → slice i j (a ++ b) = slice (i - length a) (j - length a) b.
Proof.
  intros. unfold slice. rewrite drop_app_ge by lia.
  f_equal. destruct (decide (i ≤ j)%nat); lia.
Qed.

Lemma slice_join i j k s : (i ≤ j)%nat → (j ≤ k)%nat → slice i j s ++ slice j k s = slice i k s.
Proof.
  intros. unfold slice. replace (k - i)%nat with ((j - i) + (k - j))%nat by lia.
  rewrite <-(take_take_drop (drop i s)). rewrite drop_drop.
  by replace (i + (j - i))%nat with j by lia.
Qed.

Lemma slice_full s n : length s = n → slice 0 n s = s.
Proof. intros <-. unfold slice. rewrite drop_0, Nat.sub_0_r. apply take_ge. lia. Qed.

Lemma slice_to_end i s n : length s = n → slice i n s = drop i s.
Proof. intros <-. unfold slice. apply take_ge. rewrite length_drop. lia. Qed.

(** ** All-zero tests

    [allZero] is the early-exit loop of routingheader and trustpairing;
    [allBytesZero] is the OR-accumulating loop of admission, membershipcodec
    and payloadcodec. The two agree. *)

Definition allZero (value : bytes) : bool := forallb (λ c, b2z c =? 0) value.

Definition allBytesZero (value : bytes) : bool :=
  fold_left (λ combined item, Z.lor combined (b2z item)) value 0 =? 0.

Lemma fold_lor_zero (value : bytes) acc :
  0 ≤ acc →
  (fold_left (λ combined item, Z.lor combined (b2z item)) value acc =? 0)
  = ((acc =? 0) && allZero value).
Proof.
  revert acc. induction value as [|x xs IH]; simpl; intros acc Hacc; [by rewrite andb_true_r|].
  pose proof (b2z_range x). rewrite IH by (apply Z.lor_nonneg; lia).
  rewrite andb_assoc. f_equal. apply eq_true_iff_eq.
  rewrite andb_true_iff, !Z.eqb_eq. apply Z.lor_eq_0_iff.
Qed.

Lemma allBytesZero_allZero value : allBytesZero value = allZero value.
Proof. unfold allBytesZero. by rewrite fold_lor_zero. Qed.

(** ** Big-endian integers ([encoding/binary]) *)

Fixpoint be_put (n : nat) (z : Z) : bytes :=
  match n with
  | O => []
  | S m => z2b (Z.shiftr z (8 * Z.of_nat m)) :: be_put m z
  end.

Definition be_get (b : bytes) : Z :=
  fold_left (λ acc x, Z.lor (Z.shiftl acc 8) (b2z x)) b 0.

Definition PutUint16 := be_put 2.
Definition PutUint32 := be_put 4.
Definition PutUint64 := be_put 8.

Lemma be_put_length n z : length (be_put n z) = n.
Proof. induction n; [done|]. cbn [be_put length]. by f_equal. Qed.

Lemma shl8_lor acc x : Z.lor (Z.shiftl acc 8) (b2z x) = acc * 256 + b2z x.
Proof.
  pose proof (b2z_range x).
  rewrite Z.shiftl_mul_pow2 by lia. change (2 ^ 8) with 256. symmetry. apply Z.add_nocarry_lor.
  apply Z.bits_inj'. intros i Hi. rewrite Z.land_spec, Z.bits_0. change 256 with (2 ^ 8). rewrite <-Z.shiftl_mul_pow2 by lia.
  destruct (decide (i < 8)).
  - rewrite Z.shiftl_spec_low by lia. done.
  - rewrite (Z.bits_above_log2 (b2z x)), andb_false_r; [done|lia|].
    destruct (decide (b2z x = 0)) as [->|]; [simpl; lia|].
    apply Z.log2_lt_pow2; [lia|]. apply Z.lt_le_trans with (2 ^ 8); [lia|].
    apply Z.pow_le_mono_r; lia.
Qed.

Lemma be_fold_acc b acc :
  fold_left (λ acc x, Z.lor (Z.shiftl acc 8) (b2z x)) b acc
  = acc * 256 ^ blen b + be_get b.
Proof.
  unfold be_get. revert acc. induction b as [|x xs IH]; intros acc; simpl.
  - unfold blen. simpl. lia.
  - rewrite IH, (IH (Z.lor _ _)), !shl8_lor.
    replace (blen (x :: xs)) with (1 + blen xs) by (unfold blen; simpl; lia).
    rewrite Z.pow_add_r by (pose proof (blen_nonneg xs); lia). lia.
Qed.

Lemma be_get_cons x xs : be_get (x :: xs) = b2z x * 256 ^ blen xs + be_get xs.
Proof. unfold be_get at 1. simpl. by rewrite shl8_lor, be_fold_acc. Qed.

Lemma be_get_app a b : be_get (a ++ b) = be_get a * 256 ^ blen b + be_get b.
Proof. unfold be_get at 1. by rewrite fold_left_app, be_fold_acc. Qed.

Lemma be_get_range b : 0 ≤ be_get b < 256 ^ blen b.
Proof.
  induction b as [|x xs IH]; [done|]. rewrite be_get_cons.
  replace (blen (x :: xs)) with (1 + blen xs) by (unfold blen; simpl; lia).
  pose proof (b2z_range x). pose proof (blen_nonneg xs).
  rewrite Z.pow_add_r by lia. nia.
Qed.

Lemma pow256 (k : nat) : 2 ^ (8 * Z.of_nat k) = 256 ^ Z.of_nat k.
Proof. by rewrite Z.pow_mul_r by lia. Qed.

Lemma be_get_put n z : be_get (be_put n z) = z mod 256 ^ Z.of_nat n.
Proof.
  induction n as [|n IH]; [by rewrite Z.mod_1_r|].
  cbn [be_put]. rewrite be_get_cons, IH, b2z_z2b.
  unfold blen. rewrite be_put_length, Z.shiftr_div_pow2 by lia.
  rewrite pow256, Nat2Z.inj_succ, Z.pow_succ_r, (Z.mul_comm 256) by lia.
  rewrite Z.rem_mul_r by lia. ring.
Qed.

(** Bits above the written width do not matter. *)
Lemma be_put_high k j a v :
  (k ≤ j)%nat → be_put k (a * 256 ^ Z.of_nat j + v) = be_put k v.
Proof.
  induction k as [|k IH]; [done|]. intros. cbn [be_put].
  rewrite IH by lia. f_equal. apply b2z_inj. rewrite !b2z_z2b.
  rewrite !Z.shiftr_div_pow2, pow256 by lia.
  replace (Z.of_nat j) with ((Z.of_nat j - Z.of_nat k - 1) + 1 + Z.of_nat k) by lia.
  rewrite !Z.pow_add_r by lia.
  rewrite !Z.mul_assoc, Z.div_add_l by lia.
  rewrite Z.add_comm, Z.pow_1_r. apply Z.mod_add. lia.
Qed.

Lemma be_put_get b n : length b = n → be_put n (be_get b) = b.
Proof.
  intros <-. induction b as [|x xs IH]; [done|]. simpl length. cbn [be_put].
  pose proof (be_get_range xs) as Hr. rewrite be_get_cons. unfold blen in *.
  f_equal; [|rewrite be_put_high by lia; done].
  rewrite Z.shiftr_div_pow2, pow256, Z.div_add_l, Z.div_small by lia.
  by rewrite Z.add_0_r, z2b_b2z.
Qed.

Arguments be_put : simpl never.
Arguments slice : simpl never.

Lemma be_get_put_u n w z :
  (0 ≤ z < 256 ^ w)%Z → Z.of_nat n = w → be_get (be_put n z) = z.
Proof. intros ? <-. rewrite be_get_put. by apply Z.mod_small. Qed.

Lemma be_get_bound b n : length b = n → 0 ≤ be_get b < 256 ^ Z.of_nat n.
Proof. intros <-. apply be_get_range. Qed.

(** ** Proof automation

    [go_inv] takes apart a hypothesis saying that a chain of guards and
    calls returned [Ok]; [go_bool] turns the boolean guards into propositions;
    [go_simp] evaluates guards that are known to pass. *)

Ltac go_bool :=
  repeat match goal with
  | H : _ || _ = false |- _ => apply orb_false_iff in H; destruct H
  | H : _ && _ = true |- _ => apply andb_true_iff in H; destruct H
  | H : negb _ = false |- _ => apply negb_false_iff in H
  | H : negb _ = true |- _ => apply negb_true_iff in H
  | H : beq _ _ = true |- _ => apply beq_true in H
  | H : beq _ _ = false |- _ => apply beq_false in H
  | H : bool_decide _ = true |- _ => apply bool_decide_eq_true in H
  | H : bool_decide _ = false |- _ => apply bool_decide_eq_false in H
  | H : (_ =? _)%Z = true |- _ => apply Z.eqb_eq in H
  | H : (_ =? _)%Z = false |- _ => apply Z.eqb_neq in H
  | H : (_ <? _)%Z = true |- _ => apply Z.ltb_lt in H
  | H : (_ <? _)%Z = false |- _ => apply Z.ltb_ge in H
  | H : (_ <=? _)%Z = true |- _ => apply Z.leb_le in H
  | H : (_ <=? _)%Z = false |- _ => apply Z.leb_gt in H
  | H : (_ >? _)%Z = false |- _ => rewrite Z.gtb_ltb in H
  | H : (_ >? _)%Z = true |- _ => rewrite Z.gtb_ltb in H
  | H : (_ >=? _)%Z = false |- _ => rewrite Z.geb_leb in H
  | H : (_ >=? _)%Z = true |- _ => rewrite Z.geb_leb in H
  end.

Ltac go_inv :=
  repeat match goal with
  | H : rbind (guard_err _ _) _ = Ok _ |- _ =>
      apply fail_if_Ok in H; let G := fresh "Hg" in destruct H as [G H]
  | H : rbind _ _ = Ok _ |- _ =>
      apply rbind_Ok in H; let v := fresh "v" in let R := fresh "Hr" in
      destruct H as (v & R & H); cbv beta in H
  | H : guard_err _ _ = Ok _ |- _ => apply guard_err_Ok in H
  | H : Ok _ = Ok _ |- _ => apply Ok_inj in H
  | H : Err _ = Ok _ |- _ => discriminate H
  | H : Ok _ = Err _ |- _ => discriminate H
  end.

Lemma guard_pass b m : b = false → guard_err b m = Ok tt.
Proof. by intros ->. Qed.

Ltac go_pass := rewrite guard_pass; [cbn [rbind]|].

(** Take the [else] branch of the guard at the head of the goal. *)
Ltac if_false G :=
  match goal with |- (if ?c then _ else _) = Ok _ → _ => destruct c eqn:G; [done|] end.

(** ** Fixed layouts

    [slice_norm] evaluates a slice of a concatenation whose parts have known
    lengths, which is what a fixed-width decoder does to an encoder's output. *)

Lemma slice_app_mid (a b : bytes) n i j :
  length a = n → (n ≤ i)%nat → slice i j (a ++ b) = slice (i - n) (j - n) b.
Proof. intros <-. apply slice_app_skip. Qed.

Ltac solve_len :=
  first
    [ eassumption
    | apply be_put_length
    | match goal with |- length ?a = ?n =>
        let k := eval vm_compute in (length a) in unify n k; reflexivity end ].

Ltac slice_norm :=
  repeat match goal with
  | |- context [slice ?i ?j (?a ++ ?b)] =>
      first
        [ rewrite (slice_prefix a b j) by solve_len
        | rewrite (slice_app_mid a b _ i j ltac:(solve_len) ltac:(lia)); cbn [Nat.sub] ]
  | |- context [slice 0 ?j ?a] => rewrite (slice_full a j) by solve_len
  end.

Lemma be_put_of_slice n i j s z :
  be_get (slice i j s) = z → (n + i = j)%nat → (j ≤ length s)%nat → be_put n z = slice i j s.
Proof. intros <- ??. apply be_put_get. rewrite slice_length; lia. Qed.

(** ** Tables keyed by an integer

    [by_key] is [ORDER BY key], [latest] is [ORDER BY key DESC LIMIT 1]. *)

Definition key_le {A} (a b : Z * A) : Prop := a.1 ≤ b.1.
#[export] Instance key_le_dec {A} (a b : Z * A) : Decision (key_le a b).
Proof. unfold key_le. apply _. Defined.
Definition by_key {A} (m : gmap Z A) : list (Z * A) := merge_sort key_le (map_to_list m).
Definition latest {A} (m : gmap Z A) : option (Z * A) := last (by_key m).

#[local] Instance key_le_total {A} : Total (@key_le A).
Proof. intros a b. unfold key_le. lia. Qed.
#[local] Instance key_le_trans {A} : Transitive (@key_le A).
Proof. intros a b c. unfold key_le. lia. Qed.

Lemma by_key_elem {A} (m : gmap Z A) k r : (k, r) ∈ by_key m ↔ m !! k = Some r.
Proof. unfold by_key. rewrite merge_sort_Permutation. apply elem_of_map_to_list. Qed.

Lemma by_key_nodup {A} (m : gmap Z A) : NoDup (fst <$> by_key m).
Proof. unfold by_key. rewrite merge_sort_Permutation. apply NoDup_fst_map_to_list. Qed.

Lemma sorted_le_nodup_lt {A} (l : list (Z * A)) :
  StronglySorted key_le l → NoDup (fst <$> l) → StronglySorted Z.lt (fst <$> l).
Proof.
  induction 1 as [|x l Hs IH Hx]; simpl; intros Hn; [constructor|].
  apply NoDup_cons in Hn as [Hni Hn]. constructor; [auto|].
  apply Forall_fmap, Forall_forall. intros y Hy. simpl.
  rewrite Forall_forall in Hx. specialize (Hx y Hy). unfold key_le in Hx.
  assert (x.1 ≠ y.1); [|lia]. intros E. apply Hni. rewrite E. by apply list_elem_of_fmap_2.
Qed.

Lemma by_key_sorted {A} (m : gmap Z A) : StronglySorted Z.lt (fst <$> by_key m).
Proof.
  apply sorted_le_nodup_lt; [|apply by_key_nodup].
  unfold by_key. apply StronglySorted_merge_sort; apply _.
Qed.

Lemma by_key_nil {A} (m : gmap Z A) : by_key m = [] ↔ m = ∅.
Proof.
  split.
  - intros H. apply map_empty. intros i. destruct (m !! i) eqn:E; [|done].
    apply by_key_elem in E. rewrite H in E. by apply not_elem_of_nil in E.
  - intros ->. unfold by_key. by rewrite map_to_list_empty.
Qed.

Lemma latest_Some {A} (m : gmap Z A) k r :
  latest m = Some (k, r) → m !! k = Some r ∧ ∀ j, is_Some (m !! j) → j ≤ k.
Proof.
  unfold latest. intros E. pose proof (by_key_sorted m) as Hs.
  apply last_Some in E as [l' E]. split; [apply by_key_elem; rewrite E; set_solver|].
  intros j [rj Hj]. apply by_key_elem in Hj. rewrite E in *.
  rewrite fmap_app in Hs. apply elem_of_app in Hj as [Hj|Hj]; [|set_solver].
  apply (list_elem_of_fmap_2 fst) in Hj.
  pose proof (StronglySorted_app_1_elem_of _ _ _ _ k Hs Hj ltac:(set_solver)). simpl in *. lia.
Qed.

Lemma latest_None {A} (m : gmap Z A) : latest m = None → m = ∅.
Proof. unfold latest. intros H. apply by_key_nil. by apply last_None in H. Qed.
