(* ===== verification/GoStd.v ===== *)
(** The parts of the Go standard library the server's checks rest on, as
    executable definitions: [utf8.ValidString], [strings.TrimSpace],
    [bytes.Compare], [base64.RawURLEncoding], [sha256.Sum256] and the P-256
    point checks of [crypto/elliptic]. *)

From S2P Require Import Prelude.

(** ** unicode/utf8 *)

Definition in_range (lo hi : Z) (b : byte) : bool := (lo <=? b2z b) && (b2z b <=? hi).
Definition continuation : byte → bool := in_range 0x80 0xBF.

Fixpoint utf8_ValidString (s : bytes) : bool :=
  match s with
  | [] => true
  | b0 :: r0 =>
      if b2z b0 <? 0x80 then utf8_ValidString r0
      else match r0 with
      | [] => false
      | b1 :: r1 =>
          if in_range 0xC2 0xDF b0 then continuation b1 && utf8_ValidString r1
          else match r1 with
          | [] => false
          | b2 :: r2 =>
              if in_range 0xE0 0xE0 b0
              then in_range 0xA0 0xBF b1 && continuation b2 && utf8_ValidString r2
              else if in_range 0xED 0xED b0
              then in_range 0x80 0x9F b1 && continuation b2 && utf8_ValidString r2
              else if in_range 0xE1 0xEF b0
              then continuation b1 && continuation b2 && utf8_ValidString r2
              else match r2 with
              | [] => false
              | b3 :: r3 =>
                  if in_range 0xF0 0xF0 b0
                  then in_range 0x90 0xBF b1 && continuation b2 && continuation b3 &&
                       utf8_ValidString r3
                  else if in_range 0xF4 0xF4 b0
                  then in_range 0x80 0x8F b1 && continuation b2 && continuation b3 &&
                       utf8_ValidString r3
                  else if in_range 0xF1 0xF3 b0
                  then continuation b1 && continuation b2 && continuation b3 &&
                       utf8_ValidString r3
                  else false
              end
          end
      end
  end.

Example utf8_valid_1 : utf8_ValidString (map z2b [0xE5; 0x9B; 0xBE; 0x41]) = true.
Proof. vm_compute. reflexivity. Qed.
Example utf8_surrogate : utf8_ValidString (map z2b [0xED; 0xA0; 0x80]) = false.
Proof. vm_compute. reflexivity. Qed.
Example utf8_overlong : utf8_ValidString (map z2b [0xC0; 0x80]) = false.
Proof. vm_compute. reflexivity. Qed.

(** ** strings.TrimSpace

    The UTF-8 encodings of the runes for which [unicode.IsSpace] holds. *)

Definition space_runes : list bytes := map (map z2b) (
  [[0x09]; [0x0A]; [0x0B]; [0x0C]; [0x0D]; [0x20]; [0xC2; 0x85]; [0xC2; 0xA0];
   [0xE1; 0x9A; 0x80];
   [0xE2; 0x80; 0x80]; [0xE2; 0x80; 0x81]; [0xE2; 0x80; 0x82]; [0xE2; 0x80; 0x83];
   [0xE2; 0x80; 0x84]; [0xE2; 0x80; 0x85]; [0xE2; 0x80; 0x86]; [0xE2; 0x80; 0x87];
   [0xE2; 0x80; 0x88]; [0xE2; 0x80; 0x89]; [0xE2; 0x80; 0x8A];
   [0xE2; 0x80; 0xA8]; [0xE2; 0x80; 0xA9]; [0xE2; 0x80; 0xAF]; [0xE2; 0x81; 0x9F];
   [0xE3; 0x80; 0x80]]).

Fixpoint strip_prefix (p s : bytes) : option bytes :=
  match p, s with
  | [], _ => Some s
  | a :: p', b :: s' => if Byte.eqb a b then strip_prefix p' s' else None
  | _ :: _, [] => None
  end.

Fixpoint strip_any (ps : list bytes) (s : bytes) : option bytes :=
  match ps with
  | [] => None
  | p :: ps' => match strip_prefix p s with Some r => Some r | None => strip_any ps' s end
  end.

Fixpoint trim_fuel (n : nat) (ps : list bytes) (s : bytes) : bytes :=
  match n with
  | O => s
  | S n' => match strip_any ps s with Some r => trim_fuel n' ps r | None => s end
  end.

Definition TrimSpace (s : bytes) : bytes :=
  let left := trim_fuel (length s) space_runes s in
  rev (trim_fuel (length left) (map (@rev byte) space_runes) (rev left)).

Example trim_ascii : TrimSpace (bs "  a b ") = bs "a b".
Proof. vm_compute. reflexivity. Qed.
Example trim_blank : TrimSpace (map z2b [0x20; 0xE3; 0x80; 0x80; 0xC2; 0xA0]) = [].
Proof. vm_compute. reflexivity. Qed.

Lemma strip_any_head ps c r :
  forallb (λ p, match p with x :: _ => negb (Byte.eqb x c) | [] => false end) ps = true →
  strip_any ps (c :: r) = None.
Proof.
  induction ps as [|p ps IH]; [done|]. cbn [forallb strip_any]. intros H. go_bool.
  destruct p as [|x p]; [done|]. go_bool. cbn [strip_prefix]. rewrite H. auto.
Qed.

Lemma trim_fuel_none n ps s : strip_any ps s = None → trim_fuel n ps s = s.
Proof. destruct n; simpl; [done|]. by intros ->. Qed.

Lemma TrimSpace_id c d mid :
  forallb (λ p, match p with x :: _ => negb (Byte.eqb x c) | [] => false end) space_runes = true →
  forallb (λ p, match p with x :: _ => negb (Byte.eqb x d) | [] => false end)
    (map (@rev byte) space_runes) = true →
  TrimSpace (c :: mid ++ [d]) = c :: mid ++ [d].
Proof.
  intros Hc Hd. unfold TrimSpace.
  rewrite (trim_fuel_none _ space_runes) by by apply strip_any_head.
  rewrite trim_fuel_none; [apply rev_involutive|].
  rewrite app_comm_cons, rev_app_distr. by apply strip_any_head.
Qed.

(** What [TrimSpace] returns has no space at either end, so trimming again
    changes nothing. *)

Lemma strip_prefix_app p s x r : strip_prefix p s = Some r → strip_prefix p (s ++ x) = Some (r ++ x).
Proof.
  revert s. induction p as [|a p IH]; intros s; cbn [strip_prefix]; [by intros [= <-]|].
  destruct s as [|b s]; [done|]. cbn [app]. destruct (Byte.eqb a b); [apply IH|done].
Qed.

Lemma strip_any_app ps s x : strip_any ps (s ++ x) = None → strip_any ps s = None.
Proof.
  induction ps as [|p ps IH]; [done|]. cbn [strip_any].
  destruct (strip_prefix p s) as [r|] eqn:E; [|destruct (strip_prefix p (s ++ x)); [done|exact IH]].
  by rewrite (strip_prefix_app p s x r E).
Qed.

Lemma strip_any_suffix ps s r :
  Forall (λ p, p ≠ []) ps → strip_any ps s = Some r → ∃ p, p ≠ [] ∧ s = p ++ r.
Proof.
  induction 1 as [|p ps Hp _ IH]; [done|]. cbn [strip_any].
  destruct (strip_prefix p s) as [q|] eqn:E; [|exact IH]. intros [= <-]. exists p. split; [done|].
  clear -E. revert s E. induction p as [|a p IH]; intros s; cbn [strip_prefix]; [by intros [= <-]|].
  destruct s as [|b s]; [done|]. destruct (Byte.eqb a b) eqn:Eb; [|done].
  apply Byte.byte_dec_bl in Eb as <-. intros E. by rewrite (IH s E) at 1.
Qed.

Lemma trim_fuel_spec n ps s :
  Forall (λ p, p ≠ []) ps → (length s ≤ n)%nat →
  strip_any ps (trim_fuel n ps s) = None ∧ ∃ p, s = p ++ trim_fuel n ps s.
Proof.
  intros Hps. revert s. induction n as [|n IH]; intros s Hl; cbn [trim_fuel].
  - destruct s; [|cbn in Hl; lia]. split; [|by exists []].
    destruct (strip_any ps []) as [r|] eqn:E; [|done].
    apply strip_any_suffix in E as (p & Hp & Hr); [|done]. by destruct p.
  - destruct (strip_any ps s) as [r|] eqn:E; [|split; [done|by exists []]].
    apply strip_any_suffix in E as (p & Hp & ->); [|done].
    destruct (IH r) as [Hn (q & Hq)].
    { rewrite length_app in Hl. destruct p; [done|]. cbn in Hl. lia. }
    split; [done|]. exists (p ++ q). by rewrite <-app_assoc, <-Hq.
Qed.

Lemma TrimSpace_idem s : TrimSpace (TrimSpace s) = TrimSpace s.
Proof.
  assert (Forall (λ p, p ≠ []) space_runes ∧ Forall (λ p, p ≠ []) (map (@rev byte) space_runes))
    as [H1 H2] by (split; unfold space_runes; repeat (constructor; [discriminate|]); constructor).
  unfold TrimSpace at 2 3. set (left := trim_fuel (length s) space_runes s).
  destruct (trim_fuel_spec (length s) space_runes s H1 ltac:(lia)) as [Hl _]. fold left in Hl.
  destruct (trim_fuel_spec (length left) _ (rev left) H2 ltac:(rewrite length_rev; lia)) as [Hr (q & Hq)].
  set (r := trim_fuel (length left) _ (rev left)) in *. unfold TrimSpace.
  rewrite (trim_fuel_none _ space_runes).
  - rewrite rev_involutive, trim_fuel_none by done. done.
  - apply (strip_any_app _ _ (rev q)). rewrite <-rev_app_distr, <-Hq, rev_involutive. exact Hl.
Qed.

Definition no_space_byte (c : byte) : bool :=
  forallb (λ p, match p with x :: _ => negb (Byte.eqb x c) | [] => false end)
    (space_runes ++ map (@rev byte) space_runes).

(** A text of bytes that occur at no end of a space rune is trimmed. *)
Lemma TrimSpace_plain s : forallb no_space_byte s = true → TrimSpace s = s.
Proof.
  intros Hs. unfold TrimSpace.
  assert (∀ c r, no_space_byte c = true → strip_any space_runes (c :: r) = None ∧
            strip_any (map (@rev byte) space_runes) (c :: r) = None) as Hc.
  { intros c r Hc. unfold no_space_byte in Hc. rewrite forallb_app, andb_true_iff in Hc. destruct Hc as [Ha Hb].
    split; by apply strip_any_head. }
  rewrite (trim_fuel_none _ space_runes).
  - rewrite trim_fuel_none; [apply rev_involutive|].
    destruct (rev s) as [|c r] eqn:E; [reflexivity|]. apply Hc.
    rewrite forallb_forall in Hs. apply Hs, in_rev. rewrite E. by left.
  - destruct s as [|c r]; [reflexivity|]. cbn [forallb] in Hs.
    apply andb_true_iff in Hs as [Hs _]. exact (proj1 (Hc c r Hs)).
Qed.

Definition HasPrefix (s p : bytes) : bool := match strip_prefix p s with Some _ => true | None => false end.

(** [strings.Contains]. *)
Fixpoint Contains (s sub : bytes) : bool :=
  HasPrefix s sub || match s with [] => false | _ :: r => Contains r sub end.

Lemma strip_prefix_Some p s r : strip_prefix p s = Some r ↔ s = p ++ r.
Proof.
  revert s. induction p as [|a p IH]; intros s; simpl; [split; congruence|].
  destruct s as [|b s]; [split; congruence|].
  destruct (Byte.eqb a b) eqn:E.
  - apply Byte.byte_dec_bl in E as ->. rewrite IH. split; [by intros ->|by injection 1].
  - split; [done|]. injection 1 as -> ->. by rewrite Byte.byte_dec_lb in E.
Qed.

(** ** bytes.Compare: lexicographic, three-valued *)

Fixpoint bytes_Compare (a b : bytes) : comparison :=
  match a, b with
  | [], [] => Eq
  | [], _ :: _ => Lt
  | _ :: _, [] => Gt
  | x :: a', y :: b' =>
      match (b2z x ?= b2z y) with Eq => bytes_Compare a' b' | c => c end
  end.

Definition bytes_lt (a b : bytes) : bool :=
  match bytes_Compare a b with Lt => true | _ => false end.

Lemma bytes_Compare_refl a : bytes_Compare a a = Eq.
Proof. induction a; simpl; [done|]. by rewrite Z.compare_refl. Qed.

Lemma bytes_Compare_eq a b : bytes_Compare a b = Eq ↔ a = b.
Proof.
  split; [|intros ->; apply bytes_Compare_refl]. revert b.
  induction a as [|x a IH]; intros [|y b]; simpl; try done.
  destruct (Z.compare_spec (b2z x) (b2z y)); try done.
  intros ?. f_equal; [by apply b2z_inj|auto].
Qed.

Lemma bytes_lt_irrefl a : bytes_lt a a = false.
Proof. unfold bytes_lt. by rewrite bytes_Compare_refl. Qed.

Lemma bytes_lt_trans a b c : bytes_lt a b = true → bytes_lt b c = true → bytes_lt a c = true.
Proof.
  unfold bytes_lt. revert b c.
  induction a as [|x a IH]; intros [|y b] [|z c]; simpl; try done.
  destruct (Z.compare_spec (b2z x) (b2z y)), (Z.compare_spec (b2z y) (b2z z));
    destruct (Z.compare_spec (b2z x) (b2z z)); try done; try lia. eauto.
Qed.

Lemma bytes_lt_total a b : a ≠ b → bytes_lt a b = true ∨ bytes_lt b a = true.
Proof.
  unfold bytes_lt. revert b.
  induction a as [|x a IH]; intros [|y b]; simpl; try done; auto.
  intros Hne. destruct (Z.compare_spec (b2z x) (b2z y)) as [E|E|E];
    destruct (Z.compare_spec (b2z y) (b2z x)); try lia; auto.
  apply IH. intros ->. apply Hne. f_equal. by apply b2z_inj.
Qed.

Lemma bytes_lt_asym a b : bytes_lt a b = true → bytes_lt b a = false.
Proof.
  intros H. destruct (bytes_lt b a) eqn:E; [|done].
  pose proof (bytes_lt_trans _ _ _ H E) as Hc. by rewrite bytes_lt_irrefl in Hc.
Qed.

(** ** base64.RawURLEncoding

    The URL alphabet without padding. [DecodeString] skips CR and LF and does
    not look at the unused trailing bits of the last quantum (the encoding is
    not [Strict]), so callers that need one canonical text re-encode. *)

Definition alphabet : bytes :=
  bs "ABCDEFGHIJKLMNOPQRSTUVWXYZabcdefghijklmnopqrstuvwxyz0123456789-_".

Definition sextet (v : Z) : byte := default Byte.x00 (alphabet !! Z.to_nat (Z.land v 63)).

Fixpoint index_from (c : byte) (l : bytes) (i : Z) : option Z :=
  match l with
  | [] => None
  | x :: r => if Byte.eqb x c then Some i else index_from c r (i + 1)
  end.
Definition unsextet (c : byte) : option Z := index_from c alphabet 0.

Fixpoint RawURL_Encode (src : bytes) : bytes :=
  match src with
  | a :: b :: c :: r =>
      let v := Z.lor (Z.lor (Z.shiftl (b2z a) 16) (Z.shiftl (b2z b) 8)) (b2z c) in
      sextet (Z.shiftr v 18) :: sextet (Z.shiftr v 12) :: sextet (Z.shiftr v 6) :: sextet v
        :: RawURL_Encode r
  | [a; b] =>
      let v := Z.lor (Z.shiftl (b2z a) 16) (Z.shiftl (b2z b) 8) in
      [sextet (Z.shiftr v 18); sextet (Z.shiftr v 12); sextet (Z.shiftr v 6)]
  | [a] =>
      let v := Z.shiftl (b2z a) 16 in
      [sextet (Z.shiftr v 18); sextet (Z.shiftr v 12)]
  | [] => []
  end.

Definition is_newline (c : byte) : bool := (b2z c =? 10) || (b2z c =? 13).

Fixpoint decode_quanta (src : bytes) : option bytes :=
  match src with
  | [] => Some []
  | [_] => None
  | [c0; c1] =>
      v0 ← unsextet c0; v1 ← unsextet c1;
      let v := Z.lor (Z.shiftl v0 18) (Z.shiftl v1 12) in
      Some [z2b (Z.shiftr v 16)]
  | [c0; c1; c2] =>
      v0 ← unsextet c0; v1 ← unsextet c1; v2 ← unsextet c2;
      let v := Z.lor (Z.lor (Z.shiftl v0 18) (Z.shiftl v1 12)) (Z.shiftl v2 6) in
      Some [z2b (Z.shiftr v 16); z2b (Z.shiftr v 8)]
  | c0 :: c1 :: c2 :: c3 :: r =>
      v0 ← unsextet c0; v1 ← unsextet c1; v2 ← unsextet c2; v3 ← unsextet c3;
      let v := Z.lor (Z.lor (Z.lor (Z.shiftl v0 18) (Z.shiftl v1 12)) (Z.shiftl v2 6)) v3 in
      rest ← decode_quanta r;
      Some (z2b (Z.shiftr v 16) :: z2b (Z.shiftr v 8) :: z2b v :: rest)
  end.

Definition RawURL_Decode (src : bytes) : option bytes :=
  decode_quanta (List.filter (λ c, negb (is_newline c)) src).

Example b64_ex : RawURL_Encode (bs "hello?>") = bs "aGVsbG8_Pg".
Proof. vm_compute. reflexivity. Qed.
Example b64_newline : RawURL_Decode (z2b 10 :: bs "aGVs" ++ [z2b 13; z2b 10]) = Some (bs "hel").
Proof. vm_compute. reflexivity. Qed.

Lemma sextet_props :
  forallb (λ i, match unsextet (sextet (Z.of_nat i)) with
                | Some j => (j =? Z.of_nat i) | None => false end &&
              negb (is_newline (sextet (Z.of_nat i)))) (seq 0 64) = true.
Proof. vm_compute. reflexivity. Qed.

Lemma land63 v : Z.land v 63 = v mod 64.
Proof. change 63 with (Z.ones 6). by rewrite Z.land_ones by lia. Qed.

Lemma unsextet_sextet v :
  unsextet (sextet v) = Some (v mod 64) ∧ is_newline (sextet v) = false.
Proof.
  pose proof (Z.mod_pos_bound v 64 ltac:(lia)) as Hb.
  replace (sextet v) with (sextet (Z.of_nat (Z.to_nat (v mod 64)))).
  2: { unfold sextet. rewrite !land63, Z2Nat.id, Z.mod_mod by lia. done. }
  pose proof sextet_props as H. rewrite forallb_forall in H.
  specialize (H (Z.to_nat (v mod 64)) ltac:(apply in_seq; lia)).
  go_bool. rewrite Z2Nat.id in * by lia.
  destruct (unsextet _); [|done]. go_bool. split; [congruence|done].
Qed.

Lemma filter_encode src : List.filter (λ c, negb (is_newline c)) (RawURL_Encode src) = RawURL_Encode src.
Proof.
  induction src as [src IH] using (induction_ltof1 _ (@length byte)). unfold ltof in IH.
  destruct src as [|a [|b [|c r]]]; cbn [RawURL_Encode List.filter];
    rewrite ?(proj2 (unsextet_sextet _)); cbn [negb]; try done.
  by rewrite IH by (simpl; lia).
Qed.

(** Disjoint-bit disjunctions are sums. *)
Lemma lor_shift_add a b k : 0 ≤ k → 0 ≤ b < 2 ^ k → Z.lor (Z.shiftl a k) b = a * 2 ^ k + b.
Proof.
  intros Hk Hb. rewrite <-Z.shiftl_mul_pow2 by lia. symmetry. apply Z.add_nocarry_lor.
  apply Z.bits_inj'. intros i Hi. rewrite Z.land_spec, Z.bits_0.
  destruct (decide (i < k)); [by rewrite Z.shiftl_spec_low by lia|].
  rewrite <-(Z.mod_small b (2 ^ k)) by lia.
  by rewrite Z.mod_pow2_bits_high, andb_false_r by lia.
Qed.

Lemma pack24 a b c :
  0 ≤ b < 256 → 0 ≤ c < 256 →
  Z.lor (Z.lor (Z.shiftl a 16) (Z.shiftl b 8)) c = a * 65536 + b * 256 + c.
Proof.
  intros. rewrite (lor_shift_add a (Z.shiftl b 8) 16) by (rewrite ?Z.shiftl_mul_pow2; lia).
  replace (a * 2 ^ 16 + Z.shiftl b 8) with (Z.shiftl (a * 256 + b) 8)
    by (rewrite !Z.shiftl_mul_pow2 by lia; lia).
  rewrite lor_shift_add by lia. lia.
Qed.

Lemma pack24_sextets a b c d :
  0 ≤ b < 64 → 0 ≤ c < 64 → 0 ≤ d < 64 →
  Z.lor (Z.lor (Z.lor (Z.shiftl a 18) (Z.shiftl b 12)) (Z.shiftl c 6)) d
  = a * 262144 + b * 4096 + c * 64 + d.
Proof.
  intros. rewrite (lor_shift_add a (Z.shiftl b 12) 18) by (rewrite ?Z.shiftl_mul_pow2; lia).
  replace (a * 2 ^ 18 + Z.shiftl b 12) with (Z.shiftl (a * 64 + b) 12)
    by (rewrite !Z.shiftl_mul_pow2 by lia; lia).
  rewrite (lor_shift_add _ (Z.shiftl c 6) 12) by (rewrite ?Z.shiftl_mul_pow2; lia).
  replace ((a * 64 + b) * 2 ^ 12 + Z.shiftl c 6) with (Z.shiftl ((a * 64 + b) * 64 + c) 6)
    by (rewrite !Z.shiftl_mul_pow2 by lia; lia).
  rewrite lor_shift_add by lia. lia.
Qed.

Lemma z2b_byte v b : v mod 256 = b2z b → z2b v = b.
Proof. intros H. apply b2z_inj. by rewrite b2z_z2b. Qed.

Lemma quantum3 a b c :
  let v := Z.lor (Z.lor (Z.shiftl (b2z a) 16) (Z.shiftl (b2z b) 8)) (b2z c) in
  let w := Z.lor (Z.lor (Z.lor (Z.shiftl (Z.shiftr v 18 mod 64) 18)
             (Z.shiftl (Z.shiftr v 12 mod 64) 12)) (Z.shiftl (Z.shiftr v 6 mod 64) 6)) (v mod 64) in
  z2b (Z.shiftr w 16) = a ∧ z2b (Z.shiftr w 8) = b ∧ z2b w = c.
Proof.
  intros v w. pose proof (b2z_range a). pose proof (b2z_range b). pose proof (b2z_range c).
  assert (v = b2z a * 65536 + b2z b * 256 + b2z c) as Hv by (apply pack24; lia).
  assert (w = v) as Hw.
  { unfold w. rewrite pack24_sextets by (apply Z.mod_pos_bound; lia).
    rewrite !Z.shiftr_div_pow2 by lia. cbn -[Z.modulo Z.div Z.add Z.mul].
    rewrite Hv. Z.to_euclidean_division_equations. lia. }
  rewrite Hw, Hv. rewrite !Z.shiftr_div_pow2 by lia. cbn -[Z.modulo Z.div Z.add Z.mul].
  split_and!; apply z2b_byte; Z.to_euclidean_division_equations; lia.
Qed.

Lemma quantum2 a b :
  let v := Z.lor (Z.shiftl (b2z a) 16) (Z.shiftl (b2z b) 8) in
  let w := Z.lor (Z.lor (Z.shiftl (Z.shiftr v 18 mod 64) 18)
             (Z.shiftl (Z.shiftr v 12 mod 64) 12)) (Z.shiftl (Z.shiftr v 6 mod 64) 6) in
  z2b (Z.shiftr w 16) = a ∧ z2b (Z.shiftr w 8) = b.
Proof.
  pose proof (quantum3 a b Byte.x00) as H. cbn zeta in *.
  change (b2z Byte.x00) with 0 in H. rewrite !Z.lor_0_r in H.
  replace (Z.lor (Z.shiftl (b2z a) 16) (Z.shiftl (b2z b) 8) mod 64) with 0 in H.
  - rewrite Z.lor_0_r in H. tauto.
  - pose proof (b2z_range b). rewrite lor_shift_add by (rewrite ?Z.shiftl_mul_pow2; lia).
    rewrite Z.shiftl_mul_pow2 by lia. Z.to_euclidean_division_equations. lia.
Qed.

Lemma quantum1 a :
  let v := Z.shiftl (b2z a) 16 in
  let w := Z.lor (Z.shiftl (Z.shiftr v 18 mod 64) 18) (Z.shiftl (Z.shiftr v 12 mod 64) 12) in
  z2b (Z.shiftr w 16) = a.
Proof.
  pose proof (quantum2 a Byte.x00) as H. cbn zeta in *.
  change (b2z Byte.x00) with 0 in H. rewrite Z.shiftl_0_l, !Z.lor_0_r in H.
  replace (Z.shiftr (Z.shiftl (b2z a) 16) 6 mod 64) with 0 in H.
  - rewrite Z.shiftl_0_l, Z.lor_0_r in H. tauto.
  - rewrite Z.shiftr_div_pow2, Z.shiftl_mul_pow2 by lia. cbn -[Z.modulo Z.div Z.add Z.mul].
    Z.to_euclidean_division_equations. lia.
Qed.

Lemma decode_quanta_encode src : decode_quanta (RawURL_Encode src) = Some src.
Proof.
  induction src as [src IH] using (induction_ltof1 _ (@length byte)). unfold ltof in IH.
  destruct src as [|a [|b [|c r]]]; cbn [RawURL_Encode decode_quanta]; [done| | |];
    rewrite !(proj1 (unsextet_sextet _)); cbn [mbind option_bind].
  - by rewrite (quantum1 a).
  - destruct (quantum2 a b) as [-> ->]. done.
  - rewrite IH by (simpl; lia). cbn [mbind option_bind].
    destruct (quantum3 a b c) as (-> & -> & ->). done.
Qed.

Lemma RawURL_Decode_Encode src : RawURL_Decode (RawURL_Encode src) = Some src.
Proof. unfold RawURL_Decode. rewrite filter_encode. apply decode_quanta_encode. Qed.

Lemma RawURL_Encode_inj a b : RawURL_Encode a = RawURL_Encode b → a = b.
Proof. intros H. apply (f_equal RawURL_Decode) in H. rewrite !RawURL_Decode_Encode in H. congruence. Qed.

(** ** crypto/sha256 (FIPS 180-4) on 32-bit words kept as [Z] *)

Definition w32 (z : Z) : Z := Z.land z 0xFFFFFFFF.
Definition rotr (n x : Z) : Z := Z.lor (Z.shiftr x n) (w32 (Z.shiftl x (32 - n))).
Definition xor3 (a b c : Z) : Z := Z.lxor (Z.lxor a b) c.
Definition Ch (x y z : Z) : Z := Z.lxor (Z.land x y) (Z.land (Z.lxor x 0xFFFFFFFF) z).
Definition Maj (x y z : Z) : Z := xor3 (Z.land x y) (Z.land x z) (Z.land y z).
Definition bsig0 (x : Z) : Z := xor3 (rotr 2 x) (rotr 13 x) (rotr 22 x).
Definition bsig1 (x : Z) : Z := xor3 (rotr 6 x) (rotr 11 x) (rotr 25 x).
Definition ssig0 (x : Z) : Z := xor3 (rotr 7 x) (rotr 18 x) (Z.shiftr x 3).
Definition ssig1 (x : Z) : Z := xor3 (rotr 17 x) (rotr 19 x) (Z.shiftr x 10).

(** The round constants and the initial state are the first 32 bits of the
    fractional parts of the cube and square roots of the first primes. *)
Definition primes_below (n : Z) : list Z :=
  List.filter (λ p, forallb (λ d, negb (p mod d =? 0)) (seqZ 2 (p - 2))) (seqZ 2 (n - 2)).

(** [floor (x ^ (1/3))] by bisection of [lo, lo + 2^k). *)
Fixpoint cbrt_bits (k : nat) (x lo : Z) : Z :=
  match k with
  | O => lo
  | S k' => let mid := lo + 2 ^ Z.of_nat k' in
            cbrt_bits k' x (if mid * mid * mid <=? x then mid else lo)
  end.

Definition sha_K : list Z :=
  Eval vm_compute in map (λ p, w32 (cbrt_bits 36 (p * 2 ^ 96) 0)) (primes_below 312).

Definition sha_init : list Z :=
  Eval vm_compute in map (λ p, w32 (Z.sqrt (p * 2 ^ 64))) (primes_below 20).

(** One round consumes [K_t] and [W_t]; the message schedule is a sliding
    window of the last sixteen words. *)
Definition sha_round (st : list Z) (k w : Z) : list Z :=
  match st with
  | [a; b; c; d; e; f; g; h] =>
      let t1 := h + bsig1 e + Ch e f g + k + w in
      let t2 := bsig0 a + Maj a b c in
      [w32 (t1 + t2); a; b; c; w32 (d + t1); e; f; g]
  | _ => st
  end.

Definition next_word (win : list Z) : Z :=
  match win with
  | w0 :: w1 :: _ :: _ :: _ :: _ :: _ :: _ :: _ :: w9 :: _ :: _ :: _ :: _ :: w14 :: _ =>
      w32 (ssig1 w14 + w9 + ssig0 w1 + w0)
  | _ => 0
  end.

Fixpoint sha_rounds (ks : list Z) (win st : list Z) : list Z :=
  match ks, win with
  | k :: ks', w :: rest => sha_rounds ks' (rest ++ [next_word win]) (sha_round st k w)
  | _, _ => st
  end.

Fixpoint words_of (n : nat) (b : bytes) : list Z :=
  match n with
  | O => []
  | S n' => be_get (take 4 b) :: words_of n' (drop 4 b)
  end.

Definition sha_block (st : list Z) (block : bytes) : list Z :=
  zip_with (λ a b, w32 (a + b)) st (sha_rounds sha_K (words_of 16 block) st).

Fixpoint sha_blocks (n : nat) (st : list Z) (b : bytes) : list Z :=
  match n with
  | O => st
  | S n' => sha_blocks n' (sha_block st (take 64 b)) (drop 64 b)
  end.

Definition sha_pad (msg : bytes) : bytes :=
  msg ++ [Byte.x80] ++ repeat Byte.x00 (Z.to_nat ((55 - blen msg) mod 64)) ++
  be_put 8 (8 * blen msg).

Definition Sum256 (msg : bytes) : bytes :=
  let padded := sha_pad msg in
  flat_map (be_put 4) (sha_blocks (Nat.div (length padded) 64) sha_init padded).

Example sha256_abc :
  Sum256 (bs "abc") =
  be_put 32 0xba7816bf8f01cfea414140de5dae2223b00361a396177a9cb410ff61f20015ad.
Proof. vm_compute. reflexivity. Qed.
Example sha256_two_blocks :
  Sum256 (bs "abcdbcdecdefdefgefghfghighijhijkijkljklmklmnlmnomnopnopq")
  = be_put 32 0x248d6a61d20638b8e5c026930c3e6039a33ce45964ff2167f6ecedd419db06c1.
Proof. vm_compute. reflexivity. Qed.

Lemma sha_round_length st k w : length st = 8%nat → length (sha_round st k w) = 8%nat.
Proof. intros. destruct st as [|? [|? [|? [|? [|? [|? [|? [|? [|]]]]]]]]]; done. Qed.

Lemma sha_rounds_length ks win st : length st = 8%nat → length (sha_rounds ks win st) = 8%nat.
Proof.
  revert win st. induction ks as [|k ks IH]; intros [|w win] st H; simpl; auto.
  apply IH. by apply sha_round_length.
Qed.

Lemma sha_blocks_length n st b : length st = 8%nat → length (sha_blocks n st b) = 8%nat.
Proof.
  revert st b. induction n as [|n IH]; intros st b H; simpl; [done|].
  apply IH. unfold sha_block. rewrite length_zip_with, sha_rounds_length by done. lia.
Qed.

Lemma flat_put_length l : length (flat_map (be_put 4) l) = (4 * length l)%nat.
Proof.
  induction l as [|x l IH]; [done|]. cbn [flat_map length].
  rewrite length_app, be_put_length, IH. lia.
Qed.

Lemma Sum256_length msg : length (Sum256 msg) = 32%nat.
Proof. unfold Sum256. by rewrite flat_put_length, sha_blocks_length. Qed.

(** ** crypto/elliptic P-256: [Unmarshal], [IsOnCurve], [Marshal] *)

Definition p256_P : Z := 0xffffffff00000001000000000000000000000000ffffffffffffffffffffffff.
Definition p256_B : Z := 0x5ac635d8aa3a93e7b3ebbd55769886bc651d06b0cc53b0f63bce3c3e27d2604b.

Definition P256_IsOnCurve (x y : Z) : bool :=
  (0 <=? x) && (x <? p256_P) && (0 <=? y) && (y <? p256_P) &&
  ((y * y) mod p256_P =? (x * x * x - 3 * x + p256_B) mod p256_P).

(** [nil, nil] is [None]. *)
Definition P256_Unmarshal (data : bytes) : option (Z * Z) :=
  match data with
  | b0 :: _ =>
      if negb (blen data =? 65) || negb (b2z b0 =? 4) then None
      else
        let x := be_get (slice 1 33 data) in
        let y := be_get (slice 33 65 data) in
        if P256_IsOnCurve x y then Some (x, y) else None
  | [] => None
  end.

Definition P256_Marshal (x y : Z) : bytes := z2b 4 :: be_put 32 x ++ be_put 32 y.

(** The base point, a concrete valid key. *)
Definition p256_Gx : Z := 0x6b17d1f2e12c4247f8bce6e563a440f277037d812deb33a0f4a13945d898c296.
Definition p256_Gy : Z := 0x4fe342e2fe1a7f9b8ee7eb4a7c0f9e162bce33576b315ececbb6406837bf51f5.
Definition p256_G : bytes := P256_Marshal p256_Gx p256_Gy.
Definition p256_negG : bytes := P256_Marshal p256_Gx (p256_P - p256_Gy).

Example p256_G_valid : P256_Unmarshal p256_G = Some (p256_Gx, p256_Gy).
Proof. vm_compute. reflexivity. Qed.

Lemma P256_Unmarshal_Marshal data x y :
  P256_Unmarshal data = Some (x, y) → P256_Marshal x y = data ∧ P256_IsOnCurve x y = true.
Proof.
  unfold P256_Unmarshal. destruct data as [|b0 r] eqn:Hd; [done|]. rewrite <-Hd in *.
  destruct (_ || _) eqn:Hg; [done|]. go_bool. unfold blen in *.
  destruct (P256_IsOnCurve _ _) eqn:Hc; [|done]. injection 1 as <- <-. split; [|done].
  unfold P256_Marshal.
  rewrite (be_put_of_slice 32 1 33 data _ eq_refl), (be_put_of_slice 32 33 65 data _ eq_refl) by lia.
  rewrite slice_join, slice_to_end by lia. subst data. simpl. f_equal. by apply z2b_byte.
Qed.

Lemma P256_Unmarshal_len data p : P256_Unmarshal data = Some p → blen data = 65.
Proof. unfold P256_Unmarshal. destruct data; [done|]. destruct (_ || _) eqn:Hg; [done|]. by go_bool. Qed.
