(* ===== verification/RoutingHeader.v ===== *)
(** Routing Header v1 (protocol/routingheader/header.go): the fixed-width AAD
    codec. [Encode] and [Decode] are inverse to each other in both directions,
    so a header has exactly one wire form and the relay can route on the exact
    bytes it authenticates. *)

From S2P Require Import Prelude.

Definition EncodedSize : Z := 160.
Definition SuiteID : Z := 1.
Definition MaxTTLMillis : Z := 24 * 60 * 60 * 1000.
Definition maxSafeMillis : Z := 2 ^ 53 - 1.
Definition magic : bytes := bs "SNH1".

Record Header : Type := mkHeader {
  WorkspaceID : bytes;
  SenderDeviceID : bytes;
  RecipientDeviceID : bytes;
  SenderKeyID : bytes;
  RecipientKeyID : bytes;
  MessageID : bytes;
  Sequence : Z;
  CreatedAtUnixMs : Z;
  ExpiresAtUnixMs : Z
}.

(** What the Go types of the fields guarantee: array sizes and [uint64]. *)
Definition header_typed (h : Header) : Prop :=
  length (WorkspaceID h) = 16%nat ∧ length (SenderDeviceID h) = 16%nat ∧
  length (RecipientDeviceID h) = 16%nat ∧ length (SenderKeyID h) = 32%nat ∧
  length (RecipientKeyID h) = 32%nat ∧ length (MessageID h) = 16%nat ∧
  is_u64 (Sequence h) ∧ is_u64 (CreatedAtUnixMs h) ∧ is_u64 (ExpiresAtUnixMs h).

Definition Validate (header : Header) : result unit :=
  fail_if allZero (WorkspaceID header) with_msg "workspace ID must not be zero" in
  fail_if allZero (SenderDeviceID header) with_msg "sender device ID must not be zero" in
  fail_if allZero (RecipientDeviceID header) with_msg "recipient device ID must not be zero" in
  fail_if allZero (SenderKeyID header) with_msg "sender key ID must not be zero" in
  fail_if allZero (RecipientKeyID header) with_msg "recipient key ID must not be zero" in
  fail_if allZero (MessageID header) with_msg "message ID must not be zero" in
  fail_if (Sequence header =? 0) || (Sequence header >? MaxInt64)
    with_msg "sequence must be in 1..2^63-1" in
  fail_if (CreatedAtUnixMs header >? maxSafeMillis) || (ExpiresAtUnixMs header >? maxSafeMillis)
    with_msg "timestamps must be in 0..2^53-1" in
  fail_if ExpiresAtUnixMs header <=? CreatedAtUnixMs header
    with_msg "expiry must be greater than creation time" in
  fail_if u64 (ExpiresAtUnixMs header - CreatedAtUnixMs header) >? MaxTTLMillis
    with_msg "routing header TTL exceeds 24 hours" in
  Ok tt.

Definition Encode (header : Header) : result bytes :=
  let? _ := Validate header in
  Ok (magic ++ PutUint16 SuiteID ++ PutUint16 0 ++
      WorkspaceID header ++ SenderDeviceID header ++ RecipientDeviceID header ++
      SenderKeyID header ++ RecipientKeyID header ++ MessageID header ++
      PutUint64 (Sequence header) ++ PutUint64 (CreatedAtUnixMs header) ++
      PutUint64 (ExpiresAtUnixMs header)).

Definition Decode (encoded : bytes) : result Header :=
  fail_if negb (blen encoded =? EncodedSize) with_msg "routing header must be 160 bytes" in
  fail_if negb (beq (slice 0 4 encoded) magic)
    with_msg "unsupported routing header magic/version" in
  fail_if negb (be_get (slice 4 6 encoded) =? SuiteID) with_msg "unsupported E2EE suite" in
  fail_if negb (be_get (slice 6 8 encoded) =? 0)
    with_msg "reserved routing flags must be zero" in
  let header := {|
    WorkspaceID := slice 8 24 encoded;
    SenderDeviceID := slice 24 40 encoded;
    RecipientDeviceID := slice 40 56 encoded;
    SenderKeyID := slice 56 88 encoded;
    RecipientKeyID := slice 88 120 encoded;
    MessageID := slice 120 136 encoded;
    Sequence := be_get (slice 136 144 encoded);
    CreatedAtUnixMs := be_get (slice 144 152 encoded);
    ExpiresAtUnixMs := be_get (slice 152 160 encoded) |} in
  let? _ := Validate header in
  Ok header.

(** The structural limits as a predicate. *)
Definition header_valid (h : Header) : Prop :=
  allZero (WorkspaceID h) = false ∧ allZero (SenderDeviceID h) = false ∧
  allZero (RecipientDeviceID h) = false ∧ allZero (SenderKeyID h) = false ∧
  allZero (RecipientKeyID h) = false ∧ allZero (MessageID h) = false ∧
  1 ≤ Sequence h ≤ MaxInt64 ∧
  0 ≤ CreatedAtUnixMs h < ExpiresAtUnixMs h ∧ ExpiresAtUnixMs h < 2 ^ 53 ∧
  ExpiresAtUnixMs h - CreatedAtUnixMs h ≤ MaxTTLMillis.

Lemma Validate_ok h u : header_typed h → Validate h = Ok u ↔ header_valid h.
Proof.
  intros (_ & _ & _ & _ & _ & _ & HS & HC & HE). unfold is_u64 in *.
  unfold Validate, header_valid, maxSafeMillis.
  rewrite !fail_if_Ok. destruct u. split.
  - intros H. destruct_and!. go_bool. rewrite u64_id in * by (unfold is_u64; lia).
    repeat split; try done; lia.
  - intros (-> & -> & -> & -> & -> & -> & ? & ? & ? & ?). rewrite u64_id by (unfold is_u64; lia).
    repeat split; try apply orb_false_iff; try split; lia.
Qed.

Lemma Encode_ok h b :
  header_typed h → Encode h = Ok b →
  header_valid h ∧ length b = 160%nat.
Proof.
  intros Ht H. unfold Encode in H. go_inv. apply Validate_ok in Hr; [|done].
  split; [done|]. subst b. destruct Ht as (? & ? & ? & ? & ? & ? & _).
  unfold PutUint16, PutUint64. rewrite !length_app, !be_put_length. simpl length. lia.
Qed.

Lemma Decode_typed e h : Decode e = Ok h → header_typed h.
Proof.
  intros H. unfold Decode in H. go_inv. subst h. go_bool. unfold EncodedSize, blen in *.
  assert (length e = 160%nat) as Hl by lia.
  unfold header_typed; simpl.
  repeat split; try (apply slice_length; lia);
    match goal with |- context [be_get (slice ?i ?j e)] =>
      pose proof (be_get_bound (slice i j e) (j - i) ltac:(apply slice_length; lia)) as Hb end;
    simpl in Hb; lia.
Qed.

(** [Encode] succeeds exactly on the structurally valid headers, and the
    160 bytes it produces decode to the same header. *)
Theorem routing_header_roundtrip (h : Header) :
  header_typed h →
  (header_valid h → ∃ e, Encode h = Ok e ∧ blen e = EncodedSize ∧ Decode e = Ok h) ∧
  (is_ok (Encode h) = true → header_valid h).
Proof.
  intros Ht. split.
  - intros Hv. assert (Validate h = Ok tt) as HV by by apply Validate_ok.
    unfold Encode. rewrite HV. cbn [rbind]. eexists. split; [done|].
    destruct Ht as (? & ? & ? & ? & ? & ? & ? & ? & ?).
    unfold PutUint16, PutUint64, is_u64 in *.
    assert (∀ z, 0 ≤ z < 2 ^ 64 → be_get (be_put 8 z) = z) as Hget
      by (intros; apply (be_get_put_u 8 8); lia).
    split.
    + unfold blen, EncodedSize. rewrite !length_app, !be_put_length. simpl length. lia.
    + unfold Decode, blen. rewrite !length_app, !be_put_length.
      slice_norm. rewrite !Hget by lia.
      replace {| WorkspaceID := _ |} with h by by destruct h.
      rewrite HV. unfold EncodedSize. repeat go_pass; try done.
      apply negb_false_iff, Z.eqb_eq. simpl length. lia.
  - unfold Encode. intros H. destruct (Validate h) as [u|] eqn:HV; [|done].
    by apply Validate_ok in HV.
Qed.

(** Every accepted routing header is canonical: re-encoding what
    [Decode] returned gives back exactly the received bytes, so two accepted
    byte strings with the same fields are equal. *)
Theorem routing_header_canonical (e : bytes) (h : Header) :
  Decode e = Ok h → Encode h = Ok e.
Proof.
  intros H. pose proof (Decode_typed e h H) as Ht. unfold Decode in H. go_inv.
  unfold Encode. rewrite H in Hr. rewrite Hr. cbn [rbind]. f_equal. go_bool.
  unfold EncodedSize, blen in *. assert (length e = 160%nat) as Hl by lia.
  subst h; cbn [WorkspaceID SenderDeviceID RecipientDeviceID SenderKeyID RecipientKeyID
    MessageID Sequence CreatedAtUnixMs ExpiresAtUnixMs].
  unfold PutUint16, PutUint64.
  rewrite <-Hg0.
  rewrite (be_put_of_slice 2 4 6 e SuiteID), (be_put_of_slice 2 6 8 e 0) by (lia || done).
  rewrite (be_put_of_slice 8 136 144 e _ eq_refl), (be_put_of_slice 8 144 152 e _ eq_refl),
    (be_put_of_slice 8 152 160 e _ eq_refl) by lia.
  rewrite !slice_join by lia. by apply slice_full.
Qed.

(** A concrete valid header, used by the witnesses of this and later files. *)
Definition sample_header : Header := {|
  WorkspaceID := repeat Byte.x11 16; SenderDeviceID := repeat Byte.x22 16;
  RecipientDeviceID := repeat Byte.x33 16; SenderKeyID := repeat Byte.x44 32;
  RecipientKeyID := repeat Byte.x55 32; MessageID := repeat Byte.x66 16;
  Sequence := 7; CreatedAtUnixMs := 1000; ExpiresAtUnixMs := 61000 |}.

Lemma sample_header_typed : header_typed sample_header.
Proof. unfold header_typed, is_u64; simpl; repeat split; lia. Qed.

Lemma sample_header_valid : header_valid sample_header.
Proof. unfold header_valid, MaxInt64, MaxTTLMillis; simpl; repeat split; lia. Qed.

Definition sample_header_bytes : bytes :=
  match Encode sample_header with Ok e => e | Err _ => [] end.

Lemma routing_header_roundtrip_witness :
  ∃ e, Encode sample_header = Ok e ∧ blen e = EncodedSize ∧ Decode e = Ok sample_header.
Proof.
  exact (proj1 (routing_header_roundtrip sample_header sample_header_typed) sample_header_valid).
Defined.

Lemma routing_header_canonical_witness :
  Decode sample_header_bytes = Ok sample_header ∧
  Encode sample_header = Ok sample_header_bytes.
Proof.
  assert (Decode sample_header_bytes = Ok sample_header) as H by (vm_compute; reflexivity).
  split; [exact H|]. exact (routing_header_canonical _ _ H).
Defined.
