(* ===== verification/EnvelopeFrame.v ===== *)
(** Encrypted Envelope v1 framing (protocol/envelopeframe/frame.go): magic,
    routing header, encapsulated key, length-prefixed ciphertext. *)

From S2P Require Import Prelude RoutingHeader.

Definition PrefixSize : Z := 233.
Definition EncapsulatedSize : Z := 65.
Definition MinCiphertextSize : Z := 16.
Definition MaxCiphertextSize : Z := 512 * 1024.
Definition MinFrameSize : Z := PrefixSize + MinCiphertextSize.
Definition MaxFrameSize : Z := PrefixSize + MaxCiphertextSize.
Definition magic : bytes := bs "SNE1".

Record Frame : Type := mkFrame {
  FrameRoutingHeader : bytes;
  EncapsulatedKey : bytes;
  Ciphertext : bytes
}.

(** The array types of [Frame]. *)
Definition frame_typed (f : Frame) : Prop :=
  length (FrameRoutingHeader f) = 160%nat ∧ length (EncapsulatedKey f) = 65%nat.

(** [a[0]] of a non-empty array. *)
Definition first_byte (a : bytes) : Z := b2z (default Byte.x00 (a !! 0%nat)).

Definition Validate (frame : Frame) : result unit :=
  let? _ := match RoutingHeader.Decode (FrameRoutingHeader frame) with
            | Ok h => Ok h
            | Err e => Err (Wrapf "invalid routing header" e)
            end in
  fail_if negb (first_byte (EncapsulatedKey frame) =? 4)
    with_msg "encapsulated key must be an uncompressed P-256 point" in
  fail_if (blen (Ciphertext frame) <? MinCiphertextSize) ||
          (blen (Ciphertext frame) >? MaxCiphertextSize)
    with_msg "ciphertext length is out of range" in
  Ok tt.

Definition Encode (frame : Frame) : result bytes :=
  let? _ := Validate frame in
  Ok (magic ++ FrameRoutingHeader frame ++ EncapsulatedKey frame ++
      PutUint32 (blen (Ciphertext frame)) ++ Ciphertext frame).

Definition Decode (encoded : bytes) : result Frame :=
  fail_if (blen encoded <? MinFrameSize) || (blen encoded >? MaxFrameSize)
    with_msg "encrypted envelope must be 249..524521 bytes" in
  fail_if negb (beq (slice 0 4 encoded) magic)
    with_msg "unsupported encrypted envelope magic/version" in
  let ciphertextSize := be_get (slice 229 233 encoded) in
  fail_if (ciphertextSize <? MinCiphertextSize) || (ciphertextSize >? MaxCiphertextSize)
    with_msg "ciphertext length is out of range" in
  fail_if negb (blen encoded =? PrefixSize + ciphertextSize)
    with_msg "encrypted envelope length does not match ciphertext length" in
  let frame := {| FrameRoutingHeader := slice 4 164 encoded;
                  EncapsulatedKey := slice 164 229 encoded;
                  Ciphertext := drop 233 encoded |} in
  let? _ := Validate frame in
  Ok frame.

Lemma Validate_sizes f :
  Validate f = Ok tt →
  (∃ h, RoutingHeader.Decode (FrameRoutingHeader f) = Ok h) ∧
  first_byte (EncapsulatedKey f) = 4 ∧
  MinCiphertextSize ≤ blen (Ciphertext f) ≤ MaxCiphertextSize.
Proof.
  unfold Validate. intros H. go_inv. go_bool.
  destruct (RoutingHeader.Decode _) eqn:?; [|done]. split; [eauto|]. lia.
Qed.

Lemma Decode_ok e f :
  Decode e = Ok f →
  frame_typed f ∧ Validate f = Ok tt ∧
  blen e = PrefixSize + blen (Ciphertext f) ∧
  MinFrameSize ≤ blen e ≤ MaxFrameSize ∧
  FrameRoutingHeader f = slice 4 164 e.
Proof.
  intros H. unfold Decode in H. go_inv. go_bool. destruct v. rewrite H in Hr.
  unfold frame_typed, MinFrameSize, MaxFrameSize, PrefixSize, MinCiphertextSize,
    MaxCiphertextSize, blen in *.
  split_and!; try done; subst f; cbn [FrameRoutingHeader EncapsulatedKey Ciphertext];
    try (apply slice_length; lia); try done; rewrite ?length_drop; lia.
Qed.

(** A frame that [Validate] accepts encodes to a frame within the wire
    limits which decodes to the same header bytes, key and ciphertext. *)
Theorem envelope_roundtrip (f : Frame) :
  frame_typed f → Validate f = Ok tt →
  ∃ e, Encode f = Ok e ∧ MinFrameSize ≤ blen e ≤ MaxFrameSize ∧ Decode e = Ok f.
Proof.
  intros [Hh Hk] HV. pose proof (Validate_sizes f HV) as (_ & _ & Hc).
  unfold Encode. rewrite HV. cbn [rbind]. eexists. split; [done|].
  unfold MinFrameSize, MaxFrameSize, PrefixSize, MinCiphertextSize, MaxCiphertextSize in *.
  set (e := magic ++ _).
  assert (blen e = 233 + blen (Ciphertext f)) as Hl.
  { subst e. unfold PutUint32, blen. rewrite !length_app, be_put_length.
    change (length magic) with 4%nat. lia. }
  split; [lia|].
  assert (slice 0 4 e = magic ∧ slice 4 164 e = FrameRoutingHeader f ∧
    slice 164 229 e = EncapsulatedKey f ∧ slice 229 233 e = PutUint32 (blen (Ciphertext f)) ∧
    drop 233 e = Ciphertext f) as (Hm & HH & HK & Hn & HC).
  { subst e. unfold PutUint32. split_and!; slice_norm; try done.
    do 4 rewrite drop_app_ge by (rewrite ?be_put_length, ?Hh, ?Hk; change (length magic) with 4%nat; lia).
    rewrite be_put_length, Hh, Hk. done. }
  unfold Decode. rewrite Hm, HH, HK, Hn, HC, Hl.
  unfold PutUint32. rewrite (be_get_put_u 4 4) by lia.
  unfold MinFrameSize, MaxFrameSize, PrefixSize, MinCiphertextSize, MaxCiphertextSize.
  repeat go_pass; try (apply orb_false_iff; split; lia);
    try by rewrite ?beq_refl, ?Z.eqb_refl.
  replace (mkFrame _ _ _) with f by by destruct f. by rewrite HV.
Qed.

(** An accepted envelope is canonical: the frame determines the exact
    bytes received. *)
Theorem envelope_canonical (e : bytes) (f : Frame) :
  Decode e = Ok f → Encode f = Ok e.
Proof.
  intros H. pose proof (Decode_ok e f H) as (_ & HV & Hl & Hb & _).
  unfold Decode in H. go_inv. go_bool. unfold Encode. rewrite HV. cbn [rbind]. f_equal.
  subst f; cbn [FrameRoutingHeader EncapsulatedKey Ciphertext] in *.
  unfold MinFrameSize, MaxFrameSize, PrefixSize, MinCiphertextSize, MaxCiphertextSize,
    PutUint32, blen in *.
  rewrite <-Hg0, (be_put_of_slice 4 229 233 e) by lia.
  rewrite <-(slice_to_end 233 e (length e)) by done.
  rewrite !slice_join by lia. by apply slice_full.
Qed.

Definition sample_frame : Frame := {|
  FrameRoutingHeader := sample_header_bytes;
  EncapsulatedKey := Byte.x04 :: repeat Byte.x77 64;
  Ciphertext := repeat Byte.xab 20 |}.

Definition sample_envelope : bytes :=
  match Encode sample_frame with Ok e => e | Err _ => [] end.

Lemma envelope_roundtrip_witness :
  ∃ e, Encode sample_frame = Ok e ∧ MinFrameSize ≤ blen e ≤ MaxFrameSize ∧
       Decode e = Ok sample_frame.
Proof.
  apply envelope_roundtrip.
  - split; vm_compute; reflexivity.
  - vm_compute; reflexivity.
Defined.

Lemma envelope_canonical_witness :
  Decode sample_envelope = Ok sample_frame ∧ Encode sample_frame = Ok sample_envelope.
Proof.
  assert (Decode sample_envelope = Ok sample_frame) as H by (vm_compute; reflexivity).
  split; [exact H|]. exact (envelope_canonical _ _ H).
Defined.
