(* ===== verification/RelayDelivery.v ===== *)
(** Relay Delivery v1 transport controls (protocol/relaydelivery/frame.go):
    the messages a client may send (online envelope, durable submission,
    resume, acknowledgement) and the control frames the relay answers with. *)

From S2P Require Import Prelude RoutingHeader EnvelopeFrame.

Definition ControlSize : Z := 12.
Definition DeliveryPrefixSize : Z := 12.
Definition SubmissionPrefixSize : Z := 4.
Definition MaxClientMessageSize : Z := SubmissionPrefixSize + MaxFrameSize.
Definition MaxServerMessageSize : Z := DeliveryPrefixSize + MaxFrameSize.

Definition durableSubmissionMagic : bytes := bs "SNQ1".
Definition resumeMagic : bytes := bs "SNC1".
Definition ackMagic : bytes := bs "SNC2".
Definition deliveryMagic : bytes := bs "SND1".
Definition caughtUpMagic : bytes := bs "SND2".
Definition resetMagic : bytes := bs "SNR1".

Inductive ClientMessageKind : Type :=
| ClientEnvelopeOnline
| ClientEnvelopeDurable
| ClientResume
| ClientAcknowledge.

Record ClientMessage : Type := mkClientMessage {
  Kind : ClientMessageKind;
  Cursor : Z;
  Envelope : bytes
}.

Definition DecodeClientMessage (encoded : bytes) : result ClientMessage :=
  if (blen encoded >=? MinFrameSize) && beq (slice 0 4 encoded) (bs "SNE1") then
    let? _ := EnvelopeFrame.Decode encoded in
    Ok {| Kind := ClientEnvelopeOnline; Cursor := 0; Envelope := encoded |}
  else if (blen encoded >=? SubmissionPrefixSize + MinFrameSize) &&
          beq (slice 0 4 encoded) durableSubmissionMagic then
    let envelope := drop 4 encoded in
    match EnvelopeFrame.Decode envelope with
    | Err e => Err (Wrapf "invalid durable encrypted envelope" e)
    | Ok _ => Ok {| Kind := ClientEnvelopeDurable; Cursor := 0; Envelope := envelope |}
    end
  else
    fail_if negb (blen encoded =? ControlSize) with_msg "unsupported relay delivery message" in
    let cursor := be_get (slice 4 12 encoded) in
    fail_if cursor >? MaxInt64 with_msg "relay delivery cursor is out of range" in
    if beq (slice 0 4 encoded) resumeMagic then
      Ok {| Kind := ClientResume; Cursor := cursor; Envelope := [] |}
    else if beq (slice 0 4 encoded) ackMagic then
      fail_if cursor =? 0 with_msg "relay delivery acknowledgement must be positive" in
      Ok {| Kind := ClientAcknowledge; Cursor := cursor; Envelope := [] |}
    else Err (New "unsupported relay delivery message").

Definition EncodeDurableSubmission (envelope : bytes) : result bytes :=
  let? _ := EnvelopeFrame.Decode envelope in
  Ok (durableSubmissionMagic ++ envelope).

Definition encodeControl (magic : bytes) (cursor : Z) (allowZero : bool) : result bytes :=
  fail_if (cursor >? MaxInt64) || (negb allowZero && (cursor =? 0))
    with_msg "relay delivery cursor is out of range" in
  Ok (magic ++ PutUint64 cursor).

Definition EncodeResume (cursor : Z) : result bytes := encodeControl resumeMagic cursor true.
Definition EncodeAcknowledgement (cursor : Z) : result bytes :=
  encodeControl ackMagic cursor false.

Definition EncodeDelivery (deliveryID : Z) (envelope : bytes) : result bytes :=
  fail_if (deliveryID =? 0) || (deliveryID >? MaxInt64)
    with_msg "delivery ID must be in 1..2^63-1" in
  let? _ := EnvelopeFrame.Decode envelope in
  Ok (deliveryMagic ++ PutUint64 deliveryID ++ envelope).

Definition EncodeCaughtUp (highWater : Z) : result bytes :=
  encodeControl caughtUpMagic highWater true.
Definition EncodeResetRequired (highWater : Z) : result bytes :=
  encodeControl resetMagic highWater true.

(** The wire form of a client message. *)
Definition EncodeClientMessage (m : ClientMessage) : result bytes :=
  match Kind m with
  | ClientEnvelopeOnline => let? _ := EnvelopeFrame.Decode (Envelope m) in Ok (Envelope m)
  | ClientEnvelopeDurable => EncodeDurableSubmission (Envelope m)
  | ClientResume => EncodeResume (Cursor m)
  | ClientAcknowledge => EncodeAcknowledgement (Cursor m)
  end.

(** A message with no field that its kind does not carry. *)
Definition client_message_normal (m : ClientMessage) : Prop :=
  is_u64 (Cursor m) ∧
  match Kind m with
  | ClientEnvelopeOnline | ClientEnvelopeDurable => Cursor m = 0
  | ClientResume | ClientAcknowledge => Envelope m = []
  end.

Lemma envelope_prefix e f : EnvelopeFrame.Decode e = Ok f → slice 0 4 e = bs "SNE1".
Proof. unfold EnvelopeFrame.Decode. intros H. go_inv. by go_bool. Qed.

Lemma encodeControl_ok magic cursor z b :
  length magic = 4%nat → encodeControl magic cursor z = Ok b → is_u64 cursor →
  blen b = 12 ∧ slice 0 4 b = magic ∧ be_get (slice 4 12 b) = cursor ∧ cursor ≤ MaxInt64.
Proof.
  intros Hm H Hu. unfold encodeControl in H. go_inv. go_bool. subst b.
  unfold PutUint64, is_u64 in *. split_and!; [|slice_norm; done|slice_norm|lia].
  - rewrite blen_app. unfold blen. rewrite be_put_length. lia.
  - apply (be_get_put_u 8 8); lia.
Qed.

(** [DecodeClientMessage] inverts the client-side encoders: whatever
    kind a client sends, the relay sees that kind, cursor and envelope. *)
Theorem client_message_roundtrip (m : ClientMessage) (e : bytes) :
  client_message_normal m → EncodeClientMessage m = Ok e → DecodeClientMessage e = Ok m.
Proof.
  destruct m as [k c env]. intros [Hu Hn] H. unfold EncodeClientMessage in H.
  unfold DecodeClientMessage. cbn [Kind Cursor Envelope] in *.
  destruct k; cbn in Hn; subst.
  - go_inv. subst e. pose proof (envelope_prefix _ _ Hr) as ->.
    pose proof (EnvelopeFrame.Decode_ok _ _ Hr) as (_ & _ & _ & Hb & _).
    rewrite (proj2 (Z.geb_le _ _)) by lia. rewrite beq_refl. cbn [andb]. by rewrite Hr.
  - unfold EncodeDurableSubmission in H. go_inv. subst e.
    pose proof (EnvelopeFrame.Decode_ok _ _ Hr) as (_ & _ & _ & Hb & _).
    change (drop 4 (durableSubmissionMagic ++ env)) with env. slice_norm.
    rewrite blen_app. change (blen durableSubmissionMagic) with 4.
    unfold SubmissionPrefixSize. rewrite !(proj2 (Z.geb_le _ _)) by lia.
    change (beq durableSubmissionMagic (bs "SNE1")) with false.
    rewrite beq_refl. cbn [andb]. by rewrite Hr.
  - apply encodeControl_ok in H as (Hl & Hm & Hc & ?); [|done|done].
    rewrite Hl, Hm, Hc. cbn. unfold MaxInt64 in *.
    by rewrite guard_pass by (rewrite Z.gtb_ltb; apply Z.ltb_ge; lia).
  - pose proof H as H'. unfold EncodeAcknowledgement, encodeControl in H'. go_inv. go_bool.
    cbn in H1. clear H'.
    apply encodeControl_ok in H as (Hl & Hm & Hc & ?); [|done|done].
    rewrite Hl, Hm, Hc. cbn. rewrite guard_pass by (rewrite Z.gtb_ltb; apply Z.ltb_ge; lia).
    cbn. by rewrite H1.
Qed.

(** Whatever the relay accepts from a client is canonical and bounded:
    re-encoding the decoded message gives the received bytes, the size is
    within the socket read limit, a cursor fits a signed 64-bit column and an
    acknowledgement is positive, and an envelope passed the frame decoder. *)
Theorem client_message_sound (e : bytes) (m : ClientMessage) :
  DecodeClientMessage e = Ok m →
  client_message_normal m ∧ EncodeClientMessage m = Ok e ∧
  blen e ≤ MaxClientMessageSize ∧ 0 ≤ Cursor m ≤ MaxInt64 ∧
  (Kind m = ClientAcknowledge → 1 ≤ Cursor m) ∧
  (Kind m = ClientEnvelopeOnline ∨ Kind m = ClientEnvelopeDurable →
   ∃ f, EnvelopeFrame.Decode (Envelope m) = Ok f).
Proof.
  unfold DecodeClientMessage. intros H.
  unfold client_message_normal, EncodeClientMessage, MaxClientMessageSize, SubmissionPrefixSize in *.
  destruct (_ && beq _ (bs "SNE1")) eqn:Hon.
  { go_inv. subst m. cbn [Kind Cursor Envelope]. rewrite Hr. cbn [rbind].
    pose proof (EnvelopeFrame.Decode_ok _ _ Hr) as (_ & _ & _ & Hb & _).
    unfold is_u64, MaxInt64. split_and!; try lia; eauto; discriminate. }
  destruct (_ && beq _ durableSubmissionMagic) eqn:Hdu.
  { destruct (EnvelopeFrame.Decode (drop 4 e)) as [f|] eqn:Hd; [|done]. go_inv. subst m.
    cbn [Kind Cursor Envelope]. unfold EncodeDurableSubmission. rewrite Hd. cbn [rbind].
    pose proof (EnvelopeFrame.Decode_ok _ _ Hd) as (_ & _ & _ & Hb & _). go_bool.
    unfold is_u64, MaxInt64. split_and!; try lia; eauto; try discriminate.
    - f_equal. rewrite <-H0. unfold slice. apply take_drop.
    - rewrite <-(take_drop 4 e), blen_app. unfold blen at 1. rewrite length_take. lia. }
  go_inv. go_bool. unfold ControlSize, blen in Hg.
  assert (length e = 12%nat) as Hl by lia.
  pose proof (be_get_bound (slice 4 12 e) 8 ltac:(apply slice_length; lia)) as Hb. simpl in Hb.
  set (c := be_get (slice 4 12 e)) in *.
  assert (∀ mg, slice 0 4 e = mg → mg ++ PutUint64 c = e) as Hre.
  { intros mg <-. unfold PutUint64, c. rewrite (be_put_of_slice 8 4 12 e _ eq_refl) by lia.
    rewrite slice_join by lia. by apply slice_full. }
  unfold MaxFrameSize, PrefixSize, MaxCiphertextSize, EncodeResume, EncodeAcknowledgement,
    encodeControl, blen, is_u64.
  destruct (beq _ resumeMagic) eqn:Hres.
  { go_inv. go_bool. subst m. cbn [Kind Cursor Envelope]. rewrite guard_pass
      by (rewrite Z.gtb_ltb; apply orb_false_iff; split; [apply Z.ltb_ge; lia|done]).
    cbn [rbind]. rewrite (Hre _ Hres). split_and!; try lia; try done; intros; naive_solver. }
  destruct (beq _ ackMagic) eqn:Hack; [|done]. go_inv. go_bool. subst m. cbn [Kind Cursor Envelope].
  rewrite guard_pass
    by (rewrite Z.gtb_ltb; apply orb_false_iff; split; [apply Z.ltb_ge; lia|by apply Z.eqb_neq]).
  cbn [rbind]. rewrite (Hre _ Hack). split_and!; try lia; try done; intros; naive_solver.
Qed.

Lemma client_message_roundtrip_witness :
  client_message_normal (mkClientMessage ClientAcknowledge 9 []) ∧
  DecodeClientMessage (bs "SNC2" ++ PutUint64 9)
  = Ok (mkClientMessage ClientAcknowledge 9 []).
Proof.
  assert (client_message_normal (mkClientMessage ClientAcknowledge 9 [])) as Hn
    by (split; [unfold is_u64; simpl; lia|reflexivity]).
  split; [exact Hn|]. apply client_message_roundtrip; [exact Hn|vm_compute; reflexivity].
Defined.

Lemma client_message_sound_witness :
  EncodeClientMessage (mkClientMessage ClientEnvelopeDurable 0 sample_envelope)
  = Ok (bs "SNQ1" ++ sample_envelope).
Proof.
  assert (DecodeClientMessage (bs "SNQ1" ++ sample_envelope)
    = Ok (mkClientMessage ClientEnvelopeDurable 0 sample_envelope)) as H
    by (vm_compute; reflexivity).
  exact (proj1 (proj2 (client_message_sound _ _ H))).
Defined.
