(* ===== verification/TrustPairing.v ===== *)
(** Trust pairing records (protocol/trustpairing/pairing.go): the 133-byte
    offer, the 149-byte approval, their QR text form, the pair check and the
    safety code both users compare. *)

From S2P Require Import Prelude GoStd.

Definition OfferSize : Z := 133.
Definition ApprovalSize : Z := 149.
Definition MaxTTLMillis : Z := 10 * 60 * 1000.
Definition QRPrefix : bytes := bs "sntrust1:".
Definition safetyDomain : bytes := bs "SyncNotifications-Trust-SAS-v1".
Definition crockford : bytes := bs "0123456789ABCDEFGHJKMNPQRSTVWXYZ".
Definition offerMagic : bytes := bs "SNT1".
Definition approvalMagic : bytes := bs "SNT2".

Record Offer : Type := mkOffer {
  OfferWorkspaceID : bytes;
  OfferDeviceID : bytes;
  OfferPublicKey : bytes;
  OfferNonce : bytes;
  OfferCreatedAtMS : Z;
  OfferExpiresAtMS : Z
}.

Record Approval : Type := mkApproval {
  OfferHash : bytes;
  ApprovalDeviceID : bytes;
  ApprovalPublicKey : bytes;
  ApprovalNonce : bytes;
  ApprovalCreatedAtMS : Z;
  ApprovalExpiresAtMS : Z
}.

Definition offer_typed (o : Offer) : Prop :=
  length (OfferWorkspaceID o) = 16%nat ∧ length (OfferDeviceID o) = 16%nat ∧
  length (OfferPublicKey o) = 65%nat ∧ length (OfferNonce o) = 16%nat ∧
  is_u64 (OfferCreatedAtMS o) ∧ is_u64 (OfferExpiresAtMS o).

Definition approval_typed (a : Approval) : Prop :=
  length (OfferHash a) = 32%nat ∧ length (ApprovalDeviceID a) = 16%nat ∧
  length (ApprovalPublicKey a) = 65%nat ∧ length (ApprovalNonce a) = 16%nat ∧
  is_u64 (ApprovalCreatedAtMS a) ∧ is_u64 (ApprovalExpiresAtMS a).

Definition validateTTL (created expires : Z) : result unit :=
  guard_err ((expires <=? created) || (u64 (expires - created) >? MaxTTLMillis))
    "trust record TTL must be in (0, 10 minutes]".

(** [equal]: the XOR-accumulating comparison. *)
Definition equal (a b : bytes) : bool :=
  if negb (blen a =? blen b) then false
  else fold_left (λ d p, Z.lor d (Z.lxor (b2z p.1) (b2z p.2))) (zip a b) 0 =? 0.

Definition validatePublicKey (value : bytes) : result unit :=
  fail_if negb (blen value =? 65) || negb (b2z (default Byte.x00 (value !! 0%nat)) =? 4)
    with_msg "trust public key must be an uncompressed P-256 point" in
  match P256_Unmarshal value with
  | None => Err (New "trust public key is not a valid P-256 point")
  | Some (x, y) =>
      fail_if negb (P256_IsOnCurve x y) with_msg "trust public key is not a valid P-256 point" in
      guard_err (negb (equal (P256_Marshal x y) value)) "trust public key is not canonical"
  end.

Definition validateOffer (value : Offer) : result unit :=
  fail_if allZero (OfferWorkspaceID value) || allZero (OfferDeviceID value) ||
          allZero (OfferNonce value)
    with_msg "trust offer IDs and nonce must be non-zero" in
  let? _ := validatePublicKey (OfferPublicKey value) in
  validateTTL (OfferCreatedAtMS value) (OfferExpiresAtMS value).

Definition validateApproval (value : Approval) : result unit :=
  fail_if allZero (OfferHash value) || allZero (ApprovalDeviceID value) ||
          allZero (ApprovalNonce value)
    with_msg "trust approval hash, device ID, and nonce must be non-zero" in
  let? _ := validatePublicKey (ApprovalPublicKey value) in
  validateTTL (ApprovalCreatedAtMS value) (ApprovalExpiresAtMS value).

Definition EncodeOffer (value : Offer) : result bytes :=
  let? _ := validateOffer value in
  Ok (offerMagic ++ OfferWorkspaceID value ++ OfferDeviceID value ++ OfferPublicKey value ++
      OfferNonce value ++ PutUint64 (OfferCreatedAtMS value) ++ PutUint64 (OfferExpiresAtMS value)).

Definition DecodeOffer (encoded : bytes) : result Offer :=
  fail_if negb (blen encoded =? OfferSize) with_msg "trust offer must be 133 bytes" in
  fail_if negb (beq (slice 0 4 encoded) offerMagic)
    with_msg "unsupported trust offer magic/version" in
  let value := {|
    OfferWorkspaceID := slice 4 20 encoded;
    OfferDeviceID := slice 20 36 encoded;
    OfferPublicKey := slice 36 101 encoded;
    OfferNonce := slice 101 117 encoded;
    OfferCreatedAtMS := be_get (slice 117 125 encoded);
    OfferExpiresAtMS := be_get (slice 125 133 encoded) |} in
  let? _ := validateOffer value in
  Ok value.

Definition EncodeApproval (value : Approval) : result bytes :=
  let? _ := validateApproval value in
  Ok (approvalMagic ++ OfferHash value ++ ApprovalDeviceID value ++ ApprovalPublicKey value ++
      ApprovalNonce value ++ PutUint64 (ApprovalCreatedAtMS value) ++
      PutUint64 (ApprovalExpiresAtMS value)).

Definition DecodeApproval (encoded : bytes) : result Approval :=
  fail_if negb (blen encoded =? ApprovalSize) with_msg "trust approval must be 149 bytes" in
  fail_if negb (beq (slice 0 4 encoded) approvalMagic)
    with_msg "unsupported trust approval magic/version" in
  let value := {|
    OfferHash := slice 4 36 encoded;
    ApprovalDeviceID := slice 36 52 encoded;
    ApprovalPublicKey := slice 52 117 encoded;
    ApprovalNonce := slice 117 133 encoded;
    ApprovalCreatedAtMS := be_get (slice 133 141 encoded);
    ApprovalExpiresAtMS := be_get (slice 141 149 encoded) |} in
  let? _ := validateApproval value in
  Ok value.

(** [decodeRecord] returns [any]: one of the two record types. *)
Inductive TrustRecord : Type :=
| RecOffer (o : Offer)
| RecApproval (a : Approval).

Definition decodeRecord (record : bytes) : result TrustRecord :=
  fail_if blen record <? 4 with_msg "trust record is truncated" in
  if beq (slice 0 4 record) offerMagic then
    let? o := DecodeOffer record in Ok (RecOffer o)
  else if beq (slice 0 4 record) approvalMagic then
    let? a := DecodeApproval record in Ok (RecApproval a)
  else Err (New "unsupported trust record magic/version").

Definition EncodeQR (record : bytes) : result bytes :=
  let? _ := decodeRecord record in
  Ok (QRPrefix ++ RawURL_Encode record).

Definition DecodeQR (text : bytes) : result bytes :=
  fail_if negb (HasPrefix text QRPrefix) || negb (beq (TrimSpace text) text)
    with_msg "trust QR prefix or whitespace is invalid" in
  let body := drop 9 text in
  fail_if beq body [] || Contains body (bs "=")
    with_msg "trust QR base64url is not canonical" in
  match RawURL_Decode body with
  | None => Err (New "trust QR base64url is invalid")
  | Some record =>
      fail_if negb (beq (RawURL_Encode record) body)
        with_msg "trust QR base64url is not canonical" in
      let? _ := decodeRecord record in
      Ok record
  end.

Definition ValidatePair (offerBytes approvalBytes : bytes) : result unit :=
  let? offer := DecodeOffer offerBytes in
  let? approval := DecodeApproval approvalBytes in
  fail_if negb (beq (Sum256 offerBytes) (OfferHash approval))
    with_msg "approval does not bind the exact trust offer" in
  fail_if ApprovalExpiresAtMS approval >? OfferExpiresAtMS offer
    with_msg "approval expiry exceeds offer expiry" in
  fail_if beq (OfferDeviceID offer) (ApprovalDeviceID approval)
    with_msg "offerer and approver device IDs must differ" in
  fail_if beq (OfferPublicKey offer) (ApprovalPublicKey approval)
    with_msg "offerer and approver public keys must differ" in
  Ok tt.

(** Character [i] of the safety code: five bits of the digest starting at bit
    [5*i], read through a [uint16] made of two neighbouring bytes. *)
Definition safety_char (digest : bytes) (i : nat) : byte :=
  let bit := Z.of_nat i * 5 in
  let byteIndex := Z.to_nat (bit / 8) in
  let shift := 11 - bit mod 8 in
  let hi := Z.land (Z.shiftl (b2z (default Byte.x00 (digest !! byteIndex))) 8) 0xFFFF in
  let pair := if decide (byteIndex + 1 < length digest)%nat
              then Z.lor hi (b2z (default Byte.x00 (digest !! (byteIndex + 1)%nat)))
              else hi in
  default Byte.x00 (crockford !! Z.to_nat (Z.land (Z.shiftr pair shift) 31)).

Definition safety_text (digest : bytes) : bytes :=
  let output := map (safety_char digest) (seq 0 12) in
  slice 0 4 output ++ bs "-" ++ slice 4 8 output ++ bs "-" ++ slice 8 12 output.

Definition SafetyCode (offerBytes approvalBytes : bytes) : result bytes :=
  let? _ := ValidatePair offerBytes approvalBytes in
  Ok (safety_text (Sum256 (safetyDomain ++ offerBytes ++ approvalBytes))).

(** ** Wire round trips *)

Lemma u64_roundtrip z : is_u64 z → be_get (be_put 8 z) = z.
Proof. unfold is_u64. intros. apply (be_get_put_u 8 8); lia. Qed.

Lemma EncodeOffer_Decode o e : offer_typed o → EncodeOffer o = Ok e → DecodeOffer e = Ok o.
Proof.
  intros (? & ? & ? & ? & ? & ?) He. unfold EncodeOffer in He. go_inv. subst e.
  unfold PutUint64, DecodeOffer, OfferSize, blen. rewrite !length_app, !be_put_length.
  slice_norm. rewrite !u64_roundtrip by done.
  replace (mkOffer _ _ _ _ _ _) with o by by destruct o. rewrite Hr.
  repeat go_pass; try done. apply negb_false_iff, Z.eqb_eq.
  change (length offerMagic) with 4%nat. lia.
Qed.

Lemma EncodeApproval_Decode a e :
  approval_typed a → EncodeApproval a = Ok e → DecodeApproval e = Ok a.
Proof.
  intros (? & ? & ? & ? & ? & ?) He. unfold EncodeApproval in He. go_inv. subst e.
  unfold PutUint64, DecodeApproval, ApprovalSize, blen. rewrite !length_app, !be_put_length.
  slice_norm. rewrite !u64_roundtrip by done.
  replace (mkApproval _ _ _ _ _ _) with a by by destruct a. rewrite Hr.
  repeat go_pass; try done. apply negb_false_iff, Z.eqb_eq.
  change (length approvalMagic) with 4%nat. lia.
Qed.

Lemma DecodeOffer_Encode e o : DecodeOffer e = Ok o → EncodeOffer o = Ok e.
Proof.
  intros H. unfold DecodeOffer in H. go_inv. go_bool. unfold EncodeOffer.
  rewrite H in Hr. rewrite Hr. cbn [rbind]. f_equal. unfold OfferSize, blen, PutUint64 in *.
  subst o; cbn [OfferWorkspaceID OfferDeviceID OfferPublicKey OfferNonce OfferCreatedAtMS
    OfferExpiresAtMS].
  rewrite <-Hg0, (be_put_of_slice 8 117 125 e _ eq_refl), (be_put_of_slice 8 125 133 e _ eq_refl) by lia.
  rewrite !slice_join by lia. apply slice_full. lia.
Qed.

Lemma DecodeApproval_Encode e a : DecodeApproval e = Ok a → EncodeApproval a = Ok e.
Proof.
  intros H. unfold DecodeApproval in H. go_inv. go_bool. unfold EncodeApproval.
  rewrite H in Hr. rewrite Hr. cbn [rbind]. f_equal. unfold ApprovalSize, blen, PutUint64 in *.
  subst a; cbn [OfferHash ApprovalDeviceID ApprovalPublicKey ApprovalNonce ApprovalCreatedAtMS
    ApprovalExpiresAtMS].
  rewrite <-Hg0, (be_put_of_slice 8 133 141 e _ eq_refl), (be_put_of_slice 8 141 149 e _ eq_refl) by lia.
  rewrite !slice_join by lia. apply slice_full. lia.
Qed.

Definition EncodeRecord (r : TrustRecord) : result bytes :=
  match r with RecOffer o => EncodeOffer o | RecApproval a => EncodeApproval a end.

Definition record_typed (r : TrustRecord) : Prop :=
  match r with RecOffer o => offer_typed o | RecApproval a => approval_typed a end.

Lemma slice04_app (m r : bytes) : length m = 4%nat → slice 0 4 (m ++ r) = m.
Proof. apply slice_prefix. Qed.

Lemma EncodeRecord_magic r e :
  EncodeRecord r = Ok e →
  4 ≤ blen e ∧
  slice 0 4 e = match r with RecOffer _ => offerMagic | RecApproval _ => approvalMagic end.
Proof.
  destruct r; simpl; [unfold EncodeOffer|unfold EncodeApproval]; intros H; go_inv; subst e;
    (split; [|by apply slice04_app]);
    rewrite blen_app; [change (blen offerMagic) with 4|change (blen approvalMagic) with 4];
    match goal with |- _ ≤ _ + blen ?x => pose proof (blen_nonneg x) end; lia.
Qed.

(** Both trust records survive the wire in both directions: what is
    encoded decodes, through the type-dispatching [decodeRecord], to the same
    record, and an accepted byte string is the only encoding of its record. *)
Theorem trust_record_roundtrip (r : TrustRecord) (e : bytes) :
  (record_typed r → EncodeRecord r = Ok e → decodeRecord e = Ok r) ∧
  (decodeRecord e = Ok r → EncodeRecord r = Ok e).
Proof.
  split.
  - intros Ht H. pose proof (EncodeRecord_magic r e H) as [Hl Hm]. unfold decodeRecord.
    rewrite guard_pass, Hm by (apply Z.ltb_ge; lia). cbn [rbind].
    destruct r as [o|a]; cbn [record_typed EncodeRecord] in *; cbn iota.
    + by rewrite beq_refl, (EncodeOffer_Decode o e).
    + change (beq approvalMagic offerMagic) with false.
      by rewrite beq_refl, (EncodeApproval_Decode a e).
  - unfold decodeRecord. intros H. go_inv.
    destruct (beq _ offerMagic); [|destruct (beq _ approvalMagic); [|done]];
      go_inv; subst r; simpl; auto using DecodeOffer_Encode, DecodeApproval_Encode.
Qed.

(** ** The QR text form *)

(** Every character of the encoding is a base64url digit, and no digit is a
    space byte or a padding sign. *)
Definition is_sextet (c : byte) : Prop := ∃ v, c = sextet v.

Lemma RawURL_Encode_sextets src : Forall is_sextet (RawURL_Encode src).
Proof.
  induction src as [src IH] using (induction_ltof1 _ (@length byte)). unfold ltof in IH.
  destruct src as [|a [|b [|c r]]]; cbn [RawURL_Encode];
    repeat (constructor; [eexists; reflexivity|]); auto. apply IH. simpl. lia.
Qed.

Lemma sextet_table (P : byte → bool) :
  forallb P alphabet = true → ∀ v, P (sextet v) = true.
Proof.
  intros H v. unfold sextet. rewrite land63.
  pose proof (Z.mod_pos_bound v 64 ltac:(lia)).
  destruct (alphabet !! Z.to_nat (v mod 64)) as [c|] eqn:Hc.
  - simpl. rewrite forallb_forall in H. apply H, list_elem_of_In.
    by eapply list_elem_of_lookup_2.
  - apply lookup_ge_None in Hc. change (length alphabet) with 64%nat in Hc. lia.
Qed.

Lemma no_padding src : Forall is_sextet src → Contains src (bs "=") = false.
Proof.
  induction 1 as [|c r [v ->] _ IH]; [done|]. cbn [Contains]. rewrite IH, orb_false_r.
  change (bs "=") with [Byte.x3d]. unfold HasPrefix. cbn [strip_prefix].
  pose proof (sextet_table (λ c, negb (Byte.eqb Byte.x3d c)) eq_refl v) as H. cbv beta in H.
  apply negb_true_iff in H. by rewrite H.
Qed.

Lemma QR_trimmed record : record ≠ [] →
  TrimSpace (QRPrefix ++ RawURL_Encode record) = QRPrefix ++ RawURL_Encode record.
Proof.
  intros Hne. pose proof (RawURL_Encode_sextets record) as Hs.
  destruct (RawURL_Encode record) as [|x l] eqn:He using rev_ind.
  { exfalso. apply Hne. by apply RawURL_Encode_inj. }
  clear IHl. apply Forall_app in Hs as [_ Hx]. inversion Hx as [|? ? [v ->] _]; subst.
  change QRPrefix with (Byte.x73 :: bs "ntrust1:"). rewrite <-app_comm_cons, app_assoc.
  apply TrimSpace_id; [reflexivity|].
  apply (sextet_table (λ d, forallb (λ p, match p with y :: _ => negb (Byte.eqb y d) | [] => false end)
    (map (@rev byte) space_runes))). reflexivity.
Qed.

(** The QR text of a trust record is canonical in both directions: a
    scanned text is accepted exactly when it is the encoding of the record. *)
Theorem trust_qr_roundtrip (record text : bytes) :
  EncodeQR record = Ok text ↔ DecodeQR text = Ok record.
Proof.
  split; intros H.
  - unfold EncodeQR in H. go_inv. subst text.
    assert (record ≠ []) as Hne by (intros ->; done).
    unfold DecodeQR. rewrite QR_trimmed by done.
    unfold HasPrefix. rewrite (proj2 (strip_prefix_Some QRPrefix _ (RawURL_Encode record)) eq_refl).
    change (drop 9 (QRPrefix ++ RawURL_Encode record)) with (RawURL_Encode record).
    rewrite no_padding by apply RawURL_Encode_sextets.
    rewrite RawURL_Decode_Encode, !beq_refl. cbn [negb orb guard_err rbind].
    rewrite guard_pass; [cbn [rbind]; by rewrite Hr|].
    rewrite orb_false_r. apply beq_false. intros E. apply Hne. by apply RawURL_Encode_inj.
  - unfold DecodeQR in H. go_inv. go_bool.
    destruct (RawURL_Decode (drop 9 text)) as [r|] eqn:Hd; [|done]. go_inv. go_bool. subst r.
    unfold EncodeQR. rewrite Hr. cbn [rbind]. f_equal. rewrite Hg.
    unfold HasPrefix in *. destruct (strip_prefix QRPrefix text) as [rest|] eqn:Hp; [|done].
    apply strip_prefix_Some in Hp. by rewrite Hp.
Qed.

(** ** The safety code *)

(** Digit [i] (from the left) of the 60-bit number formed by the first 60
    bits of the digest, in base 32. *)
Definition safety_digit (digest : bytes) (i : nat) : Z :=
  (be_get (take 8 digest) / 16 / 32 ^ (11 - Z.of_nat i)) mod 32.

Lemma land31 v : Z.land v 31 = v mod 32.
Proof. change 31 with (Z.ones 5). by rewrite Z.land_ones by lia. Qed.

Lemma land16 v : 0 ≤ v < 65536 → Z.land v 0xFFFF = v.
Proof. intros. change 0xFFFF with (Z.ones 16). rewrite Z.land_ones by lia. by apply Z.mod_small. Qed.

Lemma shl8_byte b : Z.land (Z.shiftl (b2z b) 8) 0xFFFF = Z.shiftl (b2z b) 8.
Proof.
  pose proof (b2z_range b). apply land16. rewrite Z.shiftl_mul_pow2 by lia. lia.
Qed.

(** Two neighbouring bytes of an 8-byte prefix as a window of its value. *)
Lemma byte_pair_window (l : bytes) k hi lo :
  length l = 8%nat → (k ≤ 6)%nat → l !! k = Some hi → l !! S k = Some lo →
  b2z hi * 256 + b2z lo = be_get l / 2 ^ (8 * Z.of_nat (6 - k)) mod 2 ^ 16.
Proof.
  intros Hl Hk Hhi Hlo. rewrite pow256.
  rewrite <-(take_drop_middle l k hi) by done.
  rewrite (drop_S l lo (S k)) by done.
  rewrite be_get_app, !be_get_cons.
  assert (blen (drop (S (S k)) l) = Z.of_nat (6 - k)) as Hr
    by (unfold blen; rewrite length_drop; lia).
  replace (blen (hi :: lo :: drop (S (S k)) l)) with (2 + Z.of_nat (6 - k))
    by (unfold blen in *; simpl length; rewrite length_drop; lia).
  replace (blen (lo :: drop (S (S k)) l)) with (1 + Z.of_nat (6 - k))
    by (unfold blen in *; simpl length; rewrite length_drop; lia).
  rewrite Hr, !Z.pow_add_r by lia.
  pose proof (be_get_range (drop (S (S k)) l)) as Hb. rewrite Hr in Hb.
  pose proof (b2z_range hi). pose proof (b2z_range lo).
  set (P := 256 ^ Z.of_nat (6 - k)) in *. set (r := be_get (drop _ l)) in *.
  set (t := be_get (take k l)).
  replace (t * (256 ^ 2 * P) + (b2z hi * (256 ^ 1 * P) + (b2z lo * P + r)))
    with ((t * 2 ^ 16 + (b2z hi * 256 + b2z lo)) * P + r) by (change (256 ^ 2) with (2 ^ 16); lia).
  rewrite Z.div_add_l, (Z.div_small r) by lia.
  rewrite Z.add_0_r, (Z.add_comm (t * 2 ^ 16)), Z.mod_add by lia. symmetry. apply Z.mod_small. lia.
Qed.

Lemma window5 m s : 0 ≤ s ≤ 11 → (m mod 2 ^ 16 / 2 ^ s) mod 32 = (m / 2 ^ s) mod 32.
Proof.
  intros Hs. change 32 with (2 ^ 5).
  apply Z.bits_inj'. intros n Hn. destruct (decide (n < 5)).
  - rewrite !Z.mod_pow2_bits_low by lia. rewrite <-!Z.shiftr_div_pow2, !Z.shiftr_spec by lia.
    by rewrite Z.mod_pow2_bits_low by lia.
  - by rewrite !Z.mod_pow2_bits_high by lia.
Qed.

Lemma safety_char_digit (digest : bytes) (i : nat) :
  (8 ≤ length digest)%nat → (i < 12)%nat →
  safety_char digest i = default Byte.x00 (crockford !! Z.to_nat (safety_digit digest i)).
Proof.
  intros Hl Hi. unfold safety_char, safety_digit.
  set (k := Z.to_nat (Z.of_nat i * 5 / 8)). set (s := 11 - Z.of_nat i * 5 mod 8).
  assert ((k ≤ 6)%nat ∧ 0 ≤ s ≤ 11 ∧ 8 * Z.of_nat (6 - k) + s = 4 + 5 * (11 - Z.of_nat i))
    as (Hk & Hs & Hsum) by (subst k s; Z.to_euclidean_division_equations; lia).
  destruct (lookup_lt_is_Some_2 digest k ltac:(lia)) as [hi Hhi].
  destruct (lookup_lt_is_Some_2 digest (S k) ltac:(lia)) as [lo Hlo].
  rewrite Nat.add_1_r, Hhi, Hlo, decide_True by lia. cbn [default from_option id].
  rewrite shl8_byte, shl8_lor, land31, Z.shiftr_div_pow2 by lia.
  rewrite (byte_pair_window (take 8 digest) k hi lo), window5; try done;
    try (rewrite ?length_take; lia); try (by rewrite lookup_take_lt by lia).
  do 4 f_equal. rewrite !Z.div_div by lia. f_equal.
  change 32 with (2 ^ 5). change 16 with (2 ^ 4).
  rewrite <-Z.pow_mul_r, <-!Z.pow_add_r by lia. f_equal. lia.
Qed.

(** The safety code both users compare is the big-endian base-32
    rendering of the first 60 bits of SHA-256 over the domain string, the
    offer and the approval: twelve Crockford digits in three dashed groups,
    so no bit of those 60 is dropped or shown twice. *)
Theorem safety_code_base32 (offerBytes approvalBytes code : bytes) :
  SafetyCode offerBytes approvalBytes = Ok code →
  let digest := Sum256 (safetyDomain ++ offerBytes ++ approvalBytes) in
  let digit i := default Byte.x00 (crockford !! Z.to_nat (safety_digit digest i)) in
  code = map digit (seq 0 4) ++ bs "-" ++ map digit (seq 4 4) ++ bs "-" ++ map digit (seq 8 4) ∧
  (∀ i, (i < 12)%nat → 0 ≤ safety_digit digest i < 32).
Proof.
  intros H digest digit. unfold SafetyCode in H. go_inv. subst code.
  split; [|intros; apply Z.mod_pos_bound; lia].
  unfold safety_text. fold digest.
  rewrite (map_ext_in (safety_char digest) digit).
  2: { intros i Hi. apply in_seq in Hi. apply safety_char_digit; [|lia].
       unfold digest. rewrite Sum256_length. lia. }
  reflexivity.
Qed.

Definition sample_offer : Offer := {|
  OfferWorkspaceID := repeat Byte.x11 16; OfferDeviceID := repeat Byte.x22 16;
  OfferPublicKey := p256_G; OfferNonce := repeat Byte.x33 16;
  OfferCreatedAtMS := 1000; OfferExpiresAtMS := 301000 |}.
Definition sample_offer_bytes : bytes :=
  match EncodeOffer sample_offer with Ok e => e | Err _ => [] end.
Definition sample_approval : Approval := {|
  OfferHash := Sum256 sample_offer_bytes; ApprovalDeviceID := repeat Byte.x44 16;
  ApprovalPublicKey := p256_negG; ApprovalNonce := repeat Byte.x55 16;
  ApprovalCreatedAtMS := 2000; ApprovalExpiresAtMS := 300000 |}.
Definition sample_approval_bytes : bytes :=
  match EncodeApproval sample_approval with Ok e => e | Err _ => [] end.

Lemma trust_record_roundtrip_witness :
  decodeRecord sample_offer_bytes = Ok (RecOffer sample_offer).
Proof.
  apply (trust_record_roundtrip (RecOffer sample_offer) sample_offer_bytes).
  - unfold record_typed, offer_typed, is_u64; simpl; repeat split; lia.
  - vm_compute; reflexivity.
Defined.

Lemma safety_code_base32_witness :
  ∃ code, SafetyCode sample_offer_bytes sample_approval_bytes = Ok code ∧ length code = 14%nat.
Proof.
  destruct (SafetyCode sample_offer_bytes sample_approval_bytes) as [code|e] eqn:H.
  - exists code. split; [reflexivity|].
    destruct (safety_code_base32 _ _ _ H) as [-> _]. reflexivity.
  - exfalso. revert H. vm_compute. discriminate.
Defined.
