(* ===== verification/DeliveryStore.v ===== *)
(** The durable relay queue (internal/admission/relay_delivery_store.go and the
    batch types of internal/relay/delivery_store.go): the tables
    [relay_delivery_state] and [relay_deliveries], the four operations of the
    relay's [DeliveryStore] interface, and the helpers they share.

    A transaction is a function from the tables to a [result]: [Ok] carries
    the committed tables, [Err] is a rollback. [fk] is the foreign key of
    [relay_delivery_state] into [devices]: whether the recipient's device row
    exists. [ORDER BY delivery_id] is a sort by key; the two SQL tables are
    keyed by the recipient. *)

From S2P Require Import Prelude.

Definition maxQueuedDeliveriesPerRecipient : Z := 4096.
Definition maxQueuedDeliveryBytesPerRecipient : Z := 64 * 1024 * 1024.

(** A [relay.PeerIdentity]: workspace and device ID. *)
Abbreviation PeerIdentity := (bytes * bytes)%type.

Record StoredDelivery : Type := mkStoredDelivery {
  ID : Z;
  StoredEnvelope : bytes
}.

Record DeliveryBatch : Type := mkDeliveryBatch {
  HighWater : Z;
  ResetRequired : bool;
  Deliveries : list StoredDelivery
}.

Definition ErrDeliveryCursorAhead : error := New "delivery cursor exceeds relay high-water".

(** A row of [relay_delivery_state]. *)
Record DeliveryState : Type := mkDeliveryState {
  next_delivery_id : Z;
  acknowledged_delivery_id : Z;
  unavailable_through_id : Z
}.

(** A row of [relay_deliveries], without its key. *)
Record DeliveryRow : Type := mkDeliveryRow {
  envelope : bytes;
  expires_at_ms : Z;
  created_at_ms : Z
}.

Record Tables : Type := mkTables {
  states : gmap PeerIdentity DeliveryState;
  deliveries : gmap PeerIdentity (gmap Z DeliveryRow)
}.

Definition empty_tables : Tables := mkTables ∅ ∅.

Definition rows_of (p : PeerIdentity) (T : Tables) : gmap Z DeliveryRow :=
  default ∅ (deliveries T !! p).

Definition set_state (p : PeerIdentity) (s : DeliveryState) (T : Tables) : Tables :=
  mkTables (<[p:=s]> (states T)) (deliveries T).
Definition set_rows (p : PeerIdentity) (m : gmap Z DeliveryRow) (T : Tables) : Tables :=
  mkTables (states T) (<[p:=m]> (deliveries T)).
Definition update_state (p : PeerIdentity) (f : DeliveryState → DeliveryState) (T : Tables)
  : Tables := mkTables (alter f p (states T)) (deliveries T).

(** [ORDER BY delivery_id]. *)
Definition ordered (m : gmap Z DeliveryRow) : list (Z * DeliveryRow) := by_key m.

(** [SELECT ... WHERE delivery_id > ? ORDER BY delivery_id LIMIT ?]. *)
Definition select_after (cursor limit : Z) (m : gmap Z DeliveryRow) : list StoredDelivery :=
  (λ r, mkStoredDelivery r.1 (envelope r.2)) <$>
    take (Z.to_nat limit) (filter (λ r, cursor < r.1) (ordered m)).

Definition max_id (m : gmap Z DeliveryRow) : option Z := fst <$> last (ordered m).
Definition min_id (m : gmap Z DeliveryRow) : option Z := fst <$> head (ordered m).
Definition count_rows (m : gmap Z DeliveryRow) : Z := Z.of_nat (size m).
Definition sum_bytes (m : gmap Z DeliveryRow) : Z :=
  foldr (λ r acc, blen (envelope r.2) + acc) 0 (map_to_list m).

Definition ensureDeliveryState (fk : PeerIdentity → bool) (recipient : PeerIdentity) (T : Tables)
  : result Tables :=
  match states T !! recipient with
  | Some _ => Ok T
  | None =>
      fail_if negb (fk recipient) with_msg "initialize relay delivery state" in
      Ok (set_state recipient (mkDeliveryState 1 0 0) T)
  end.

Definition markUnavailableThrough (recipient : PeerIdentity) (cursor : Z) : Tables → Tables :=
  update_state recipient (λ s, mkDeliveryState (next_delivery_id s) (acknowledged_delivery_id s)
    (Z.max (unavailable_through_id s) cursor)).

Definition acknowledgeThrough (recipient : PeerIdentity) (cursor : Z) (T : Tables) : Tables :=
  update_state recipient (λ s, mkDeliveryState (next_delivery_id s)
      (Z.max (acknowledged_delivery_id s) cursor) (unavailable_through_id s))
    (set_rows recipient (filter (λ r, ¬ (r.1 ≤ cursor)) (rows_of recipient T)) T).

Definition compactExpiredDeliveries (recipient : PeerIdentity) (nowUnixMs : Z) (T : Tables)
  : Tables :=
  let m := rows_of recipient T in
  match max_id (filter (λ r, expires_at_ms r.2 ≤ nowUnixMs) m) with
  | None => T
  | Some expiredThrough =>
      markUnavailableThrough recipient expiredThrough
        (set_rows recipient (filter (λ r, ¬ (expires_at_ms r.2 ≤ nowUnixMs)) m) T)
  end.

(** The eviction loop. Each iteration deletes one row, so one more unit of
    fuel than there are rows is enough (see [enforce_ok]). *)
Fixpoint enforce_loop (fuel : nat) (recipient : PeerIdentity) (T : Tables) : result Tables :=
  match fuel with
  | O => Err (New "out of fuel")
  | S fuel' =>
      let m := rows_of recipient T in
      if (count_rows m <=? maxQueuedDeliveriesPerRecipient) &&
         (sum_bytes m <=? maxQueuedDeliveryBytesPerRecipient)
      then Ok T
      else match min_id m with
      | None => Err (New "select relay delivery for eviction")
      | Some oldest =>
          enforce_loop fuel' recipient
            (markUnavailableThrough recipient oldest (set_rows recipient (delete oldest m) T))
      end
  end.

Definition enforceDeliveryCapacity (recipient : PeerIdentity) (T : Tables) : result Tables :=
  enforce_loop (S (size (rows_of recipient T))) recipient T.

Definition AppendDelivery (fk : PeerIdentity → bool) (recipient : PeerIdentity)
  (env : bytes) (expiresAt now : Z) (T : Tables) : result (Z * Tables) :=
  fail_if (blen env =? 0) || IsZero expiresAt || IsZero now || negb (expiresAt >? now)
    with_msg "delivery envelope and valid expiry are required" in
  let? T1 := ensureDeliveryState fk recipient T in
  let T2 := compactExpiredDeliveries recipient (UnixMilli now) T1 in
  match states T2 !! recipient with
  | None => Err (New "relay delivery sequence is unavailable")
  | Some s =>
      let nextID := next_delivery_id s in
      fail_if (nextID <? 1) || (nextID =? MaxInt64)
        with_msg "relay delivery sequence is unavailable" in
      let m := rows_of recipient T2 in
      fail_if bool_decide (is_Some (m !! nextID)) with_msg "store relay delivery" in
      let T3 := set_rows recipient
                  (<[nextID := mkDeliveryRow env (UnixMilli expiresAt) (UnixMilli now)]> m) T2 in
      let T4 := update_state recipient (λ s, mkDeliveryState (nextID + 1)
                  (acknowledged_delivery_id s) (unavailable_through_id s)) T3 in
      let? T5 := enforceDeliveryCapacity recipient T4 in
      Ok (u64 nextID, T5)
  end.

Definition ResumeDeliveries (fk : PeerIdentity → bool) (recipient : PeerIdentity)
  (cursor now limit : Z) (T : Tables) : result (DeliveryBatch * Tables) :=
  fail_if (cursor >? MaxInt64) || IsZero now || (limit <? 1) || (limit >? 256)
    with_msg "invalid relay delivery resume" in
  let? T1 := ensureDeliveryState fk recipient T in
  let T2 := compactExpiredDeliveries recipient (UnixMilli now) T1 in
  match states T2 !! recipient with
  | None => Err (New "read relay delivery state")
  | Some s =>
      let acknowledged := acknowledged_delivery_id s in
      let unavailable := unavailable_through_id s in
      let highWater := next_delivery_id s - 1 in
      if i64 cursor >? highWater then Err ErrDeliveryCursorAhead
      else
        let floor := if unavailable >? acknowledged then unavailable else acknowledged in
        if i64 cursor <? floor then Ok (mkDeliveryBatch (u64 highWater) true [], T2)
        else
          let T3 := if i64 cursor >? acknowledged
                    then acknowledgeThrough recipient (i64 cursor) T2 else T2 in
          Ok (mkDeliveryBatch (u64 highWater) false
                (select_after (i64 cursor) limit (rows_of recipient T3)), T3)
  end.

Definition ReadDeliveries (recipient : PeerIdentity) (after now limit : Z) (T : Tables)
  : result (DeliveryBatch * Tables) :=
  fail_if (after >? MaxInt64) || IsZero now || (limit <? 1) || (limit >? 256)
    with_msg "invalid relay delivery read" in
  let T2 := compactExpiredDeliveries recipient (UnixMilli now) T in
  match states T2 !! recipient with
  | None => Err (New "read relay delivery high-water")
  | Some s =>
      let highWater := u64 (next_delivery_id s - 1) in
      if i64 after <? unavailable_through_id s then Ok (mkDeliveryBatch highWater true [], T2)
      else Ok (mkDeliveryBatch highWater false
                 (select_after (i64 after) limit (rows_of recipient T2)), T2)
  end.

Definition AcknowledgeDelivery (fk : PeerIdentity → bool) (recipient : PeerIdentity)
  (cursor : Z) (T : Tables) : result Tables :=
  fail_if (cursor =? 0) || (cursor >? MaxInt64)
    with_msg "delivery acknowledgement must be in 1..2^63-1" in
  let? T1 := ensureDeliveryState fk recipient T in
  match states T1 !! recipient with
  | None => Err (New "read relay delivery acknowledgement state")
  | Some s =>
      if i64 cursor >=? next_delivery_id s then Err ErrDeliveryCursorAhead
      else if i64 cursor >? acknowledged_delivery_id s
      then Ok (acknowledgeThrough recipient (i64 cursor) T1)
      else Ok T1
  end.

(** ** Reading the tables after an update *)

Create HintDb dstore.

Lemma states_set_state p s T : states (set_state p s T) = <[p:=s]> (states T).
Proof. done. Qed.
Lemma states_set_rows p m T : states (set_rows p m T) = states T.
Proof. done. Qed.
Lemma rows_of_set_state p q s T : rows_of p (set_state q s T) = rows_of p T.
Proof. done. Qed.
Lemma rows_of_update p q f T : rows_of p (update_state q f T) = rows_of p T.
Proof. done. Qed.
Lemma rows_of_set_rows p m T : rows_of p (set_rows p m T) = m.
Proof. unfold rows_of, set_rows; simpl. by rewrite lookup_insert_eq. Qed.
Lemma rows_of_set_rows_ne p q m T : p ≠ q → rows_of p (set_rows q m T) = rows_of p T.
Proof. intros. unfold rows_of, set_rows; simpl. by rewrite lookup_insert_ne. Qed.
Lemma states_update p f T : states (update_state p f T) !! p = f <$> states T !! p.
Proof. unfold update_state; simpl. apply lookup_alter_eq. Qed.
Lemma states_update_ne p q f T : p ≠ q → states (update_state q f T) !! p = states T !! p.
Proof. intros. unfold update_state; simpl. by rewrite lookup_alter_ne. Qed.
#[export] Hint Rewrite states_set_state states_set_rows rows_of_set_state rows_of_update
  rows_of_set_rows states_update : dstore.

(** ** ORDER BY *)

Lemma ordered_elem m k r : (k, r) ∈ ordered m ↔ m !! k = Some r.
Proof. apply by_key_elem. Qed.
Lemma ordered_sorted m : StronglySorted Z.lt (fst <$> ordered m).
Proof. apply by_key_sorted. Qed.

Lemma max_id_Some m k :
  max_id m = Some k → is_Some (m !! k) ∧ ∀ j, is_Some (m !! j) → j ≤ k.
Proof.
  unfold max_id, ordered. intros H. destruct (last (by_key m)) as [[k' r]|] eqn:E; [|done].
  injection H as ->. apply latest_Some in E as [Hk Hmax]. eauto.
Qed.

Lemma min_id_Some m k :
  min_id m = Some k → is_Some (m !! k) ∧ ∀ j, is_Some (m !! j) → k ≤ j.
Proof.
  unfold min_id. intros H. pose proof (ordered_sorted m) as Hs.
  destruct (ordered m) as [|[k' r] l] eqn:E; [done|]. simpl in H. injection H as ->. split.
  - exists r. apply ordered_elem. rewrite E. set_solver.
  - intros j [rj Hj]. apply ordered_elem in Hj. rewrite E in Hj.
    apply elem_of_cons in Hj as [Hj|Hj]; [injection Hj as -> ->; lia|].
    simpl in Hs. apply StronglySorted_inv in Hs as [_ Hs]. rewrite Forall_forall in Hs.
    apply (list_elem_of_fmap_2 fst) in Hj. specialize (Hs _ Hj). simpl in Hs. lia.
Qed.

Lemma min_id_None m : min_id m = None → m = ∅.
Proof.
  unfold min_id. intros H. apply by_key_nil. unfold ordered in H. by destruct (by_key m).
Qed.

(** ** The queue invariant

    [log] is the ghost list of every envelope ever accepted for the recipient,
    oldest first; delivery ID [i] is position [i - 1]. *)

Record queue_ok (log : list bytes) (s : DeliveryState) (m : gmap Z DeliveryRow) : Prop := {
  q_next : next_delivery_id s = 1 + Z.of_nat (length log);
  q_range : next_delivery_id s ≤ MaxInt64;
  q_ack : 0 ≤ acknowledged_delivery_id s < next_delivery_id s;
  q_unavailable : 0 ≤ unavailable_through_id s < next_delivery_id s;
  q_rows : ∀ id r, m !! id = Some r →
    acknowledged_delivery_id s < id < next_delivery_id s ∧
    log !! Z.to_nat (id - 1) = Some (envelope r);
  q_complete : ∀ id,
    Z.max (acknowledged_delivery_id s) (unavailable_through_id s) < id < next_delivery_id s →
    is_Some (m !! id)
}.

Definition queue_rel (log : list bytes) (p : PeerIdentity) (T : Tables) : Prop :=
  match states T !! p with
  | Some s => queue_ok log s (rows_of p T)
  | None => log = [] ∧ rows_of p T = ∅
  end.

Lemma queue_ok_new : queue_ok [] (mkDeliveryState 1 0 0) ∅.
Proof.
  constructor; simpl; unfold MaxInt64; try lia.
  intros id r H. by rewrite lookup_empty in H.
Qed.

Lemma ensure_ok fk log p T T1 :
  queue_rel log p T → ensureDeliveryState fk p T = Ok T1 →
  ∃ s, states T1 !! p = Some s ∧ queue_ok log s (rows_of p T1).
Proof.
  unfold queue_rel, ensureDeliveryState. destruct (states T !! p) as [s|] eqn:Hs.
  - intros Hq [= <-]. eauto.
  - intros [-> Hr] H. go_inv. subst T1. rewrite states_set_state, lookup_insert_eq, rows_of_set_state, Hr.
    eauto using queue_ok_new.
Qed.

(** Deleting rows and raising the unavailable mark to cover what was deleted
    keeps the queue well formed: this is expiry compaction and eviction. *)
Lemma queue_ok_drop log s m m' cut :
  queue_ok log s m → 0 ≤ cut < next_delivery_id s →
  (∀ id r, m' !! id = Some r → m !! id = Some r) →
  (∀ id, is_Some (m !! id) → cut < id → is_Some (m' !! id)) →
  queue_ok log (mkDeliveryState (next_delivery_id s) (acknowledged_delivery_id s)
    (Z.max (unavailable_through_id s) cut)) m'.
Proof.
  intros [] Hc Hsub Hkeep. constructor; simpl; try lia; eauto.
  intros id Hid. apply Hkeep; [apply q_complete0; lia|lia].
Qed.

Lemma queue_ok_ack log s m c :
  queue_ok log s m → acknowledged_delivery_id s ≤ c < next_delivery_id s →
  queue_ok log (mkDeliveryState (next_delivery_id s)
    (Z.max (acknowledged_delivery_id s) c) (unavailable_through_id s))
    (filter (λ r, ¬ (r.1 ≤ c)) m).
Proof.
  intros [] Hc. constructor; simpl; try lia.
  - intros id r H. apply map_lookup_filter_Some in H as [H Hn]. simpl in Hn.
    destruct (q_rows0 _ _ H). split; [lia|done].
  - intros id Hid. destruct (q_complete0 id ltac:(lia)) as [r Hr]. exists r.
    apply map_lookup_filter_Some. simpl. split; [done|lia].
Qed.

Lemma compact_ok log p now T s :
  states T !! p = Some s → queue_ok log s (rows_of p T) →
  ∃ s', states (compactExpiredDeliveries p now T) !! p = Some s' ∧
    queue_ok log s' (rows_of p (compactExpiredDeliveries p now T)) ∧
    next_delivery_id s' = next_delivery_id s ∧
    acknowledged_delivery_id s' = acknowledged_delivery_id s ∧
    unavailable_through_id s ≤ unavailable_through_id s'.
Proof.
  intros Hs Hq. unfold compactExpiredDeliveries.
  destruct (max_id _) as [cut|] eqn:Hm; [|by exists s; split_and!].
  apply max_id_Some in Hm as [[rc Hrc] Hmax].
  apply map_lookup_filter_Some in Hrc as [Hrc _].
  destruct (q_rows _ _ _ Hq _ _ Hrc) as [Hcut _]. pose proof (q_ack _ _ _ Hq).
  unfold markUnavailableThrough. rewrite states_update, states_set_rows, Hs, rows_of_update,
    rows_of_set_rows. eexists. split; [done|]. simpl. split_and!; try done; try lia.
  apply (queue_ok_drop log s (rows_of p T)); [done|lia| |].
  - intros id r Hf. by apply map_lookup_filter_Some in Hf as [Hf _].
  - intros id [r Hr] Hlt. destruct (decide (expires_at_ms r ≤ now)) as [He|He].
    + assert (id ≤ cut); [|lia]. apply Hmax. exists r. by apply map_lookup_filter_Some.
    + exists r. by apply map_lookup_filter_Some.
Qed.

Lemma acknowledge_ok log p c T s :
  states T !! p = Some s → queue_ok log s (rows_of p T) →
  acknowledged_delivery_id s ≤ c < next_delivery_id s →
  ∃ s', states (acknowledgeThrough p c T) !! p = Some s' ∧
    queue_ok log s' (rows_of p (acknowledgeThrough p c T)) ∧
    s' = mkDeliveryState (next_delivery_id s) (Z.max (acknowledged_delivery_id s) c)
           (unavailable_through_id s).
Proof.
  intros Hs Hq Hc. unfold acknowledgeThrough.
  rewrite states_update, states_set_rows, Hs, rows_of_update, rows_of_set_rows.
  eexists. split; [done|]. split; [|done]. by apply queue_ok_ack.
Qed.

(** ** What a read returns: a contiguous run of the log *)

(** [limit] deliveries starting after [c]: consecutive IDs, the log's bytes. *)
Definition log_slice (log : list bytes) (c limit : Z) : list StoredDelivery :=
  take (Z.to_nat limit)
    (zip_with mkStoredDelivery (seqZ (c + 1) (Z.of_nat (length log) - c))
       (drop (Z.to_nat c) log)).

Lemma StronglySorted_filter_fst (P : Z * DeliveryRow → Prop) `{∀ x, Decision (P x)} l :
  StronglySorted Z.lt (fst <$> l) → StronglySorted Z.lt (fst <$> filter P l).
Proof.
  induction l as [|x l IH]; simpl; [done|]. intros Hs. apply StronglySorted_inv in Hs as [Hs Hx].
  destruct (decide (P x)) as [HP|HP].
  - rewrite filter_cons_True by done. simpl. constructor; [auto|].
    apply Forall_fmap, Forall_forall. intros y Hy. apply list_elem_of_filter in Hy as [_ Hy].
    rewrite Forall_forall in Hx. apply Hx. by apply list_elem_of_fmap_2.
  - rewrite filter_cons_False by done. auto.
Qed.

Lemma sorted_lt_nodup (l : list Z) : StronglySorted Z.lt l → NoDup l.
Proof.
  induction 1 as [|x l _ IH Hx]; constructor; [|done].
  rewrite Forall_forall in Hx. intros Hin. specialize (Hx _ Hin). lia.
Qed.

Lemma seqZ_sorted a n : StronglySorted Z.lt (seqZ a n).
Proof.
  destruct (decide (n ≤ 0)); [rewrite seqZ_nil by lia; constructor|].
  rewrite <-(Z2Nat.id n) by lia. generalize (Z.to_nat n) as k. clear. intros k. revert a.
  induction k as [|k IH]; intros a; [constructor|]. rewrite seqZ_cons by lia.
  constructor; [replace (Z.pred (Z.of_nat (S k))) with (Z.of_nat k) by lia; apply IH|].
  apply Forall_forall. intros x Hx. apply elem_of_seqZ in Hx. lia.
Qed.

Lemma select_after_slice log s m c limit :
  queue_ok log s m → unavailable_through_id s ≤ c →
  select_after c limit m = log_slice log (Z.max c (acknowledged_delivery_id s)) limit.
Proof.
  intros Hq Hc. destruct Hq as [Hn _ Ha Hu Hr Hf]. set (c' := Z.max c _).
  assert (fst <$> filter (λ r, c < r.1) (ordered m)
          = seqZ (c' + 1) (Z.of_nat (length log) - c')) as Hids.
  { apply (StronglySorted_unique_strong Z.lt); [lia| | |].
    - apply StronglySorted_filter_fst, ordered_sorted.
    - apply seqZ_sorted.
    - apply NoDup_Permutation; [|apply NoDup_seqZ|].
      + apply sorted_lt_nodup, StronglySorted_filter_fst, ordered_sorted.
      + intros x. rewrite elem_of_seqZ, list_elem_of_fmap. split.
        * intros ([k r] & -> & Hk). apply list_elem_of_filter in Hk as [Hck Hk].
          apply ordered_elem, Hr in Hk as [Hk _]. simpl in *. lia.
        * intros Hx. destruct (Hf x ltac:(lia)) as [r Hxr]. exists (x, r). split; [done|].
          apply list_elem_of_filter. rewrite ordered_elem. simpl. split; [lia|done]. }
  unfold select_after, log_slice. rewrite fmap_take. f_equal.
  apply list_eq. intros i. rewrite list_lookup_fmap, lookup_zip_with.
  pose proof (f_equal (.!! i) Hids) as Hi. simpl in Hi. rewrite list_lookup_fmap in Hi.
  rewrite <-Hi, lookup_drop.
  destruct (filter _ _ !! i) as [[k r]|] eqn:Hk; [|done]. simpl in *.
  symmetry in Hi. apply lookup_seqZ in Hi as [-> Hi].
  apply list_elem_of_lookup_2, list_elem_of_filter in Hk as [_ Hk].
  apply ordered_elem, Hr in Hk as [_ Hk].
  replace (Z.to_nat c' + i)%nat with (Z.to_nat (c' + 1 + Z.of_nat i - 1)) by lia.
  by rewrite Hk.
Qed.

(** ** The eviction loop *)

Definition within_capacity (m : gmap Z DeliveryRow) : Prop :=
  count_rows m ≤ maxQueuedDeliveriesPerRecipient ∧
  sum_bytes m ≤ maxQueuedDeliveryBytesPerRecipient.

(** Only the tables of [p] differ. *)
Definition same_elsewhere (p : PeerIdentity) (T T' : Tables) : Prop :=
  ∀ q, q ≠ p → states T' !! q = states T !! q ∧ rows_of q T' = rows_of q T.

Lemma same_elsewhere_refl p T : same_elsewhere p T T.
Proof. by intros q. Qed.
Lemma same_elsewhere_trans p T1 T2 T3 :
  same_elsewhere p T1 T2 → same_elsewhere p T2 T3 → same_elsewhere p T1 T3.
Proof. intros H1 H2 q Hq. destruct (H1 q Hq), (H2 q Hq). split; congruence. Qed.
Lemma same_elsewhere_rows p m T : same_elsewhere p T (set_rows p m T).
Proof. intros q Hq. split; [done|]. by apply rows_of_set_rows_ne. Qed.
Lemma same_elsewhere_update p f T : same_elsewhere p T (update_state p f T).
Proof. intros q Hq. split; [by apply states_update_ne|done]. Qed.
Lemma same_elsewhere_state p s T : same_elsewhere p T (set_state p s T).
Proof. intros q Hq. rewrite states_set_state, lookup_insert_ne by done. done. Qed.
#[export] Hint Resolve same_elsewhere_refl same_elsewhere_rows same_elsewhere_update
  same_elsewhere_state : dstore.

Lemma mark_elsewhere p c T : same_elsewhere p T (markUnavailableThrough p c T).
Proof. unfold markUnavailableThrough. auto with dstore. Qed.
Lemma compact_elsewhere p now T : same_elsewhere p T (compactExpiredDeliveries p now T).
Proof.
  unfold compactExpiredDeliveries. destruct (max_id _); auto with dstore.
  eapply same_elsewhere_trans; [apply same_elsewhere_rows|apply mark_elsewhere].
Qed.
Lemma acknowledge_elsewhere p c T : same_elsewhere p T (acknowledgeThrough p c T).
Proof.
  unfold acknowledgeThrough.
  eapply same_elsewhere_trans; [apply same_elsewhere_rows|apply same_elsewhere_update].
Qed.
Lemma ensure_elsewhere fk p T T' :
  ensureDeliveryState fk p T = Ok T' → same_elsewhere p T T'.
Proof.
  unfold ensureDeliveryState. destruct (states T !! p).
  - intros [= <-]. auto with dstore.
  - intros H. go_inv. subst. auto with dstore.
Qed.
#[export] Hint Resolve mark_elsewhere compact_elsewhere acknowledge_elsewhere ensure_elsewhere : dstore.

Lemma enforce_loop_ok fuel log p T s :
  states T !! p = Some s → queue_ok log s (rows_of p T) → (size (rows_of p T) < fuel)%nat →
  ∃ T' s', enforce_loop fuel p T = Ok T' ∧ states T' !! p = Some s' ∧
    queue_ok log s' (rows_of p T') ∧ within_capacity (rows_of p T') ∧
    acknowledged_delivery_id s' = acknowledged_delivery_id s ∧
    unavailable_through_id s ≤ unavailable_through_id s' ∧ same_elsewhere p T T'.
Proof.
  revert T s. induction fuel as [|fuel IH]; intros T s Hs Hq Hf; [lia|]. cbn [enforce_loop].
  destruct (_ && _) eqn:Hcap.
  { go_bool. exists T, s. split_and!; auto with dstore; [by split|lia]. }
  destruct (min_id (rows_of p T)) as [oldest|] eqn:Hm.
  2: { apply min_id_None in Hm. rewrite Hm in Hcap. by vm_compute in Hcap. }
  apply min_id_Some in Hm as [[r Hr] Hmin].
  destruct (q_rows _ _ _ Hq _ _ Hr) as [Ho _]. pose proof (q_ack _ _ _ Hq).
  set (T1 := set_rows p (delete oldest (rows_of p T)) T).
  set (s1 := mkDeliveryState (next_delivery_id s) (acknowledged_delivery_id s)
               (Z.max (unavailable_through_id s) oldest)).
  destruct (IH (markUnavailableThrough p oldest T1) s1) as (T' & s' & HT & Hs' & Hq' & Hc & Ha & Hu & He).
  - unfold markUnavailableThrough, T1. by rewrite states_update, states_set_rows, Hs.
  - unfold markUnavailableThrough, T1. rewrite rows_of_update, rows_of_set_rows.
    apply (queue_ok_drop log s (rows_of p T)); [done|lia| |].
    + intros id x. rewrite lookup_delete_Some. tauto.
    + intros id [x Hx] Hlt. exists x. apply lookup_delete_Some. split; [lia|done].
  - unfold markUnavailableThrough, T1. rewrite rows_of_update, rows_of_set_rows.
    rewrite map_size_delete_Some by eauto. assert (0 < size (rows_of p T))%nat; [|lia].
    apply Nat.neq_0_lt_0. intros E. apply map_size_empty_iff in E. rewrite E in Hr. by rewrite lookup_empty in Hr.
  - exists T', s'. subst s1. simpl in *. split_and!; try done; try lia.
    eapply same_elsewhere_trans; [|exact He].
    eapply same_elsewhere_trans; [apply same_elsewhere_rows|apply mark_elsewhere].
Qed.

Lemma enforce_ok log p T s :
  states T !! p = Some s → queue_ok log s (rows_of p T) →
  ∃ T' s', enforceDeliveryCapacity p T = Ok T' ∧ states T' !! p = Some s' ∧
    queue_ok log s' (rows_of p T') ∧ within_capacity (rows_of p T') ∧
    acknowledged_delivery_id s' = acknowledged_delivery_id s ∧
    unavailable_through_id s ≤ unavailable_through_id s' ∧ same_elsewhere p T T'.
Proof. intros. apply enforce_loop_ok; [done..|lia]. Qed.

(** ** The abstract mailbox

    What the queue promises: an append-only log of envelopes, a cumulative
    acknowledgement and a loss horizon. Reads return the log from the cursor
    on, or demand a reset when the horizon passed the cursor; an operation may
    raise the horizon (expiry, eviction), never lower it. *)

Record Mailbox : Type := mkMailbox { log : list bytes; acked : Z; lost : Z }.
Definition empty_mailbox : Mailbox := mkMailbox [] 0 0.
Definition log_end (M : Mailbox) : Z := Z.of_nat (length (log M)).

Inductive event : Type :=
| EvAppend (env : bytes) (expiresAt now : Z)
| EvResume (cursor now limit : Z)
| EvRead (after now limit : Z)
| EvAck (cursor : Z).

Inductive answer : Type :=
| AnsID (id : Z)
| AnsBatch (b : DeliveryBatch)
| AnsDone.

Inductive mailbox_step : Mailbox → event → answer → Mailbox → Prop :=
| mb_append M env ex now h :
    lost M ≤ h ≤ log_end M + 1 → log_end M + 1 < MaxInt64 →
    mailbox_step M (EvAppend env ex now) (AnsID (log_end M + 1))
      (mkMailbox (log M ++ [env]) (acked M) h)
| mb_resume_reset M c now l h :
    lost M ≤ h ≤ log_end M → c < Z.max (acked M) h →
    mailbox_step M (EvResume c now l) (AnsBatch (mkDeliveryBatch (log_end M) true []))
      (mkMailbox (log M) (acked M) h)
| mb_resume M c now l h :
    lost M ≤ h ≤ log_end M → Z.max (acked M) h ≤ c ≤ log_end M →
    mailbox_step M (EvResume c now l)
      (AnsBatch (mkDeliveryBatch (log_end M) false (log_slice (log M) c l)))
      (mkMailbox (log M) c h)
| mb_read_reset M c now l h :
    lost M ≤ h ≤ log_end M → c < h →
    mailbox_step M (EvRead c now l) (AnsBatch (mkDeliveryBatch (log_end M) true []))
      (mkMailbox (log M) (acked M) h)
| mb_read M c now l h :
    lost M ≤ h ≤ log_end M → h ≤ c →
    mailbox_step M (EvRead c now l)
      (AnsBatch (mkDeliveryBatch (log_end M) false (log_slice (log M) (Z.max c (acked M)) l)))
      (mkMailbox (log M) (acked M) h)
| mb_ack M c :
    1 ≤ c ≤ log_end M →
    mailbox_step M (EvAck c) AnsDone (mkMailbox (log M) (Z.max (acked M) c) (lost M)).

Inductive mailbox_steps : Mailbox → list (event * answer) → Mailbox → Prop :=
| mbs_nil M : mailbox_steps M [] M
| mbs_snoc M1 tr M2 e a M3 :
    mailbox_steps M1 tr M2 → mailbox_step M2 e a M3 → mailbox_steps M1 (tr ++ [(e, a)]) M3.

(** One store operation. *)
Definition exec (fk : PeerIdentity → bool) (p : PeerIdentity) (e : event) (T : Tables)
  : result (answer * Tables) :=
  match e with
  | EvAppend env ex now => let? '(id, T') := AppendDelivery fk p env ex now T in Ok (AnsID id, T')
  | EvResume c now l => let? '(b, T') := ResumeDeliveries fk p c now l T in Ok (AnsBatch b, T')
  | EvRead c now l => let? '(b, T') := ReadDeliveries p c now l T in Ok (AnsBatch b, T')
  | EvAck c => let? T' := AcknowledgeDelivery fk p c T in Ok (AnsDone, T')
  end.

(** Cursors are [uint64]. *)
Definition event_typed (e : event) : Prop :=
  match e with
  | EvAppend _ _ _ => True
  | EvResume c _ _ | EvRead c _ _ | EvAck c => is_u64 c
  end.

Definition refines (M : Mailbox) (p : PeerIdentity) (T : Tables) : Prop :=
  match states T !! p with
  | Some s => queue_ok (log M) s (rows_of p T) ∧
      acked M = acknowledged_delivery_id s ∧ lost M = unavailable_through_id s
  | None => M = empty_mailbox ∧ rows_of p T = ∅
  end.

Lemma refines_ensure fk M p T T1 :
  refines M p T → ensureDeliveryState fk p T = Ok T1 →
  ∃ s, states T1 !! p = Some s ∧ queue_ok (log M) s (rows_of p T1) ∧
    acked M = acknowledged_delivery_id s ∧ lost M = unavailable_through_id s.
Proof.
  unfold refines, ensureDeliveryState. destruct (states T !! p) as [s|] eqn:Hs.
  - intros (Hq & Ha & Hl) [= <-]. eauto 6.
  - intros [-> Hr] H. go_inv. subst T1.
    rewrite states_set_state, lookup_insert_eq, rows_of_set_state, Hr.
    eexists. split; [done|]. split; [apply queue_ok_new|done].
Qed.

Lemma gtb_max a b : (if b >? a then b else a) = Z.max a b.
Proof. rewrite Z.gtb_ltb. destruct (Z.ltb_spec a b); lia. Qed.

Lemma u64_pos z : 0 ≤ z ≤ MaxInt64 → u64 z = z.
Proof. unfold MaxInt64. intros. apply u64_id. unfold is_u64. lia. Qed.

Lemma queue_ok_append l s m env ex now :
  queue_ok l s m → next_delivery_id s < MaxInt64 →
  queue_ok (l ++ [env])
    (mkDeliveryState (next_delivery_id s + 1) (acknowledged_delivery_id s)
       (unavailable_through_id s))
    (<[next_delivery_id s := mkDeliveryRow env ex now]> m).
Proof.
  intros [] Hlt. constructor; simpl; rewrite ?length_app; simpl; try lia.
  - intros id r. rewrite lookup_insert_Some. intros [[<- <-]|[Hne Hr]]; simpl.
    + split; [lia|]. rewrite lookup_app_r by lia.
      replace (Z.to_nat _ - length l)%nat with 0%nat by lia. done.
    + destruct (q_rows0 _ _ Hr) as [? Hl]. split; [lia|]. by apply lookup_app_l_Some.
  - intros id Hid. destruct (decide (next_delivery_id s = id)) as [<-|Hne].
    + rewrite lookup_insert_eq. eauto.
    + rewrite lookup_insert_ne by done. apply q_complete0. lia.
Qed.

Lemma append_refines fk M p env ex now T id T' :
  refines M p T → AppendDelivery fk p env ex now T = Ok (id, T') →
  ∃ M', mailbox_step M (EvAppend env ex now) (AnsID id) M' ∧ refines M' p T' ∧
    same_elsewhere p T T' ∧ within_capacity (rows_of p T').
Proof.
  intros HR H. unfold AppendDelivery in H. go_inv.
  destruct (refines_ensure _ _ _ _ _ HR Hr) as (s1 & Hs1 & Hq1 & Ha1 & Hu1).
  destruct (compact_ok (log M) p (UnixMilli now) v s1 Hs1 Hq1) as (s2 & Hs2 & Hq2 & Hn2 & Ha2 & Hu2).
  rewrite Hs2 in H. go_inv. go_bool. injection H as <- <-.
  match goal with Hc : enforceDeliveryCapacity p ?X = Ok _ |- _ => set (T4 := X) in * end.
  set (T2 := compactExpiredDeliveries _ _ _) in *.
  pose proof (q_range _ _ _ Hq2). pose proof (q_next _ _ _ Hq2) as Hn. pose proof (q_unavailable _ _ _ Hq2).
  pose proof (queue_ok_append _ _ _ env (UnixMilli ex) (UnixMilli now) Hq2 ltac:(lia)) as Hq4.
  destruct (enforce_ok (log M ++ [env]) p T4 (mkDeliveryState (next_delivery_id s2 + 1)
    (acknowledged_delivery_id s2) (unavailable_through_id s2)))
    as (T5 & s5 & HT5 & Hs5 & Hq5 & Hc5 & Ha5 & Hu5 & He5).
  { unfold T4. by rewrite states_update, states_set_rows, Hs2. }
  { unfold T4. by rewrite rows_of_update, rows_of_set_rows. }
  simpl in *. rewrite Hr0 in HT5. injection HT5 as <-.
  pose proof (q_unavailable _ _ _ Hq5). pose proof (q_next _ _ _ Hq5) as Hn5.
  rewrite length_app in Hn5. simpl in Hn5.
  exists (mkMailbox (log M ++ [env]) (acked M) (unavailable_through_id s5)).
  split_and!; try done.
  - rewrite u64_pos by lia. rewrite Hn. unfold log_end. rewrite (Z.add_comm 1).
    apply mb_append; unfold log_end; lia.
  - unfold refines. rewrite Hs5. simpl. split_and!; [done|lia|done].
  - eapply same_elsewhere_trans; [by eapply ensure_elsewhere|].
    eapply same_elsewhere_trans; [apply compact_elsewhere|]. fold T2.
    eapply same_elsewhere_trans; [|exact He5]. unfold T4.
    eapply same_elsewhere_trans; [apply same_elsewhere_rows|apply same_elsewhere_update].
Qed.

Lemma resume_refines fk M p c now l T b T' :
  refines M p T → is_u64 c → ResumeDeliveries fk p c now l T = Ok (b, T') →
  ∃ M', mailbox_step M (EvResume c now l) (AnsBatch b) M' ∧ refines M' p T' ∧
    same_elsewhere p T T'.
Proof.
  intros HR Hc H. unfold ResumeDeliveries in H. go_inv. go_bool.
  destruct (refines_ensure _ _ _ _ _ HR Hr) as (s1 & Hs1 & Hq1 & Ha1 & Hu1).
  destruct (compact_ok (log M) p (UnixMilli now) v s1 Hs1 Hq1) as (s2 & Hs2 & Hq2 & Hn2 & Ha2 & Hu2).
  assert (same_elsewhere p T (compactExpiredDeliveries p (UnixMilli now) v)) as He
    by (eapply same_elsewhere_trans; [by eapply ensure_elsewhere|apply compact_elsewhere]).
  rewrite Hs2 in H. set (T2 := compactExpiredDeliveries _ _ _) in *.
  unfold is_u64 in Hc. rewrite i64_small in H by lia.
  pose proof (q_range _ _ _ Hq2). pose proof (q_next _ _ _ Hq2) as Hn.
  pose proof (q_unavailable _ _ _ Hq2). pose proof (q_ack _ _ _ Hq2).
  rewrite u64_pos in H by lia.
  assert (next_delivery_id s2 - 1 = log_end M) as Hend by (unfold log_end; lia).
  rewrite Hend in H. destruct (_ >? log_end M) eqn:Hahead; [done|]. go_bool.
  rewrite gtb_max in H. destruct (_ <? Z.max _ _) eqn:Hreset; go_bool.
  - injection H as <- <-.
    exists (mkMailbox (log M) (acked M) (unavailable_through_id s2)). split_and!; [|..|done].
    + apply mb_resume_reset; lia.
    + unfold refines. rewrite Hs2. simpl. split_and!; [done|lia|done].
  - destruct (Z.leb_spec c (acknowledged_delivery_id s2)) as [Hle|Hgt].
    + rewrite Z.gtb_ltb, (proj2 (Z.ltb_ge _ _)) in H by lia. injection H as <- <-.
      exists (mkMailbox (log M) c (unavailable_through_id s2)). split_and!; [|..|done].
      * erewrite select_after_slice by (done || lia).
        replace (Z.max c _) with c by lia. apply mb_resume; lia.
      * unfold refines. rewrite Hs2. simpl. split_and!; [done|lia|done].
    + rewrite Z.gtb_ltb, (proj2 (Z.ltb_lt _ _)) in H by lia. injection H as <- <-.
      destruct (acknowledge_ok (log M) p c T2 s2 Hs2 Hq2 ltac:(lia)) as (s3 & Hs3 & Hq3 & E3).
      exists (mkMailbox (log M) c (unavailable_through_id s2)). split_and!.
      * erewrite select_after_slice by (done || (rewrite E3; simpl; lia)).
        rewrite E3. simpl. replace (Z.max c _) with c by lia. apply mb_resume; lia.
      * unfold refines. rewrite Hs3. simpl. split; [done|]. rewrite E3. simpl. lia.
      * eapply same_elsewhere_trans; [exact He|apply acknowledge_elsewhere].
Qed.

Lemma read_refines M p c now l T b T' :
  refines M p T → is_u64 c → ReadDeliveries p c now l T = Ok (b, T') →
  ∃ M', mailbox_step M (EvRead c now l) (AnsBatch b) M' ∧ refines M' p T' ∧
    same_elsewhere p T T'.
Proof.
  intros HR Hc H. unfold ReadDeliveries in H. go_inv. go_bool. unfold is_u64 in Hc.
  rewrite i64_small in H by lia. unfold refines in HR.
  destruct (states T !! p) as [s1|] eqn:Hs1.
  2: { exfalso. revert H. unfold compactExpiredDeliveries. destruct (max_id _); [|by rewrite Hs1].
       unfold markUnavailableThrough. by rewrite states_update, states_set_rows, Hs1. }
  destruct HR as (Hq1 & Ha1 & Hu1).
  destruct (compact_ok (log M) p (UnixMilli now) T s1 Hs1 Hq1) as (s2 & Hs2 & Hq2 & Hn2 & Ha2 & Hu2).
  pose proof (compact_elsewhere p (UnixMilli now) T) as He.
  rewrite Hs2 in H. set (T2 := compactExpiredDeliveries _ _ _) in *.
  pose proof (q_range _ _ _ Hq2). pose proof (q_next _ _ _ Hq2) as Hn.
  pose proof (q_unavailable _ _ _ Hq2).
  rewrite u64_pos in H by lia.
  assert (next_delivery_id s2 - 1 = log_end M) as Hend by (unfold log_end; lia). rewrite Hend in H.
  exists (mkMailbox (log M) (acked M) (unavailable_through_id s2)).
  assert (refines (mkMailbox (log M) (acked M) (unavailable_through_id s2)) p T2)
    by (unfold refines; rewrite Hs2; simpl; split_and!; [done|lia|done]).
  destruct (_ <? _) eqn:Hreset; go_bool; injection H as <- <-; split_and!; try done.
  - apply mb_read_reset; lia.
  - erewrite select_after_slice by (done || lia). rewrite Ha2, <-Ha1. apply mb_read; lia.
Qed.

Lemma ack_refines fk M p c T T' :
  refines M p T → is_u64 c → AcknowledgeDelivery fk p c T = Ok T' →
  ∃ M', mailbox_step M (EvAck c) AnsDone M' ∧ refines M' p T' ∧ same_elsewhere p T T'.
Proof.
  intros HR Hc H. unfold AcknowledgeDelivery in H. go_inv. go_bool. unfold is_u64 in Hc.
  destruct (refines_ensure _ _ _ _ _ HR Hr) as (s1 & Hs1 & Hq1 & Ha1 & Hu1).
  pose proof (ensure_elsewhere _ _ _ _ Hr) as He.
  rewrite Hs1, i64_small in H by lia. pose proof (q_next _ _ _ Hq1) as Hn.
  destruct (_ >=? _) eqn:Hahead; [done|]. go_bool.
  exists (mkMailbox (log M) (Z.max (acked M) c) (lost M)).
  destruct (_ >? _) eqn:Hgt; go_bool; injection H as <-.
  - destruct (acknowledge_ok (log M) p c v s1 Hs1 Hq1 ltac:(lia)) as (s3 & Hs3 & Hq3 & E3).
    split_and!.
    + apply mb_ack. unfold log_end. lia.
    + unfold refines. rewrite Hs3. simpl. split; [done|]. rewrite E3. simpl. lia.
    + eapply same_elsewhere_trans; [exact He|apply acknowledge_elsewhere].
  - split_and!; [apply mb_ack; unfold log_end; lia| |done].
    unfold refines. rewrite Hs1. simpl. split_and!; [done|lia|done].
Qed.

Lemma exec_refines fk M p e T a T' :
  refines M p T → event_typed e → exec fk p e T = Ok (a, T') →
  ∃ M', mailbox_step M e a M' ∧ refines M' p T' ∧ same_elsewhere p T T'.
Proof.
  intros HR Ht H. destruct e; simpl in *; apply rbind_Ok in H as (x & Hx & H).
  - destruct x as [id T1]. injection H as <- <-.
    destruct (append_refines _ _ _ _ _ _ _ _ _ HR Hx) as (M' & ? & ? & ? & _). eauto.
  - destruct x as [b T1]. injection H as <- <-. by eapply resume_refines.
  - destruct x as [b T1]. injection H as <- <-. by eapply read_refines.
  - injection H as <- <-. by eapply ack_refines.
Qed.

Lemma refines_elsewhere M p q T T' :
  same_elsewhere p T T' → q ≠ p → refines M q T → refines M q T'.
Proof. intros He Hq. unfold refines. destruct (He q Hq) as [-> ->]. done. Qed.

Lemma refines_empty p : refines empty_mailbox p empty_tables.
Proof. done. Qed.

(** A history of calls, for any recipients, each with the device table's
    state at that time; a failed call is a rolled-back transaction. *)
Definition call : Type := (PeerIdentity → bool) * (PeerIdentity * event).

Definition run_call (st : Tables * list (PeerIdentity * (event * answer))) (c : call)
  : Tables * list (PeerIdentity * (event * answer)) :=
  match exec c.1 c.2.1 c.2.2 st.1 with
  | Ok (a, T') => (T', st.2 ++ [(c.2.1, (c.2.2, a))])
  | Err _ => st
  end.

Definition run (calls : list call) : Tables * list (PeerIdentity * (event * answer)) :=
  fold_left run_call calls (empty_tables, []).

(** The calls for [p] that succeeded, with their answers. *)
Definition history (p : PeerIdentity) (tr : list (PeerIdentity * (event * answer)))
  : list (event * answer) := snd <$> filter (λ x, x.1 = p) tr.

Lemma history_snoc_eq p tr x : history p (tr ++ [(p, x)]) = history p tr ++ [x].
Proof.
  unfold history. rewrite filter_app, fmap_app. f_equal.
  by rewrite filter_cons_True.
Qed.
Lemma history_snoc_ne p q tr x : q ≠ p → history p (tr ++ [(q, x)]) = history p tr.
Proof.
  intros. unfold history. rewrite filter_app, filter_cons_False by done.
  by rewrite app_nil_r.
Qed.

(** Every history of calls is, for each recipient, a run of its mailbox. *)
Lemma calls_refine (calls : list call) :
  Forall (λ c, event_typed c.2.2) calls →
  ∀ p, ∃ M, mailbox_steps empty_mailbox (history p (run calls).2) M ∧
            refines M p (run calls).1.
Proof.
  unfold run. induction calls as [|[fk [q e]] calls IH] using rev_ind; intros Ht p.
  { exists empty_mailbox. split; [constructor|apply refines_empty]. }
  apply Forall_app in Ht as [Ht He]. apply Forall_cons in He as [He _]. simpl in He.
  rewrite fold_left_app. simpl. set (st := fold_left _ _ _) in *.
  destruct (IH Ht p) as (M & Hst & HR). unfold run_call at 1 2. simpl.
  destruct (exec fk q e st.1) as [[a T']|] eqn:Hx; [|by exists M]. simpl.
  destruct (decide (q = p)) as [->|Hne].
  - destruct (exec_refines _ _ _ _ _ _ _ HR He Hx) as (M' & Hstep & HR' & _).
    exists M'. split; [|done]. rewrite history_snoc_eq. by econstructor.
  - destruct (IH Ht q) as (Mq & _ & HRq).
    destruct (exec_refines _ _ _ _ _ _ _ HRq He Hx) as (_ & _ & _ & Hel).
    exists M. rewrite history_snoc_ne by done. split; [done|].
    by eapply refines_elsewhere.
Qed.

(** C1: refinement. From an empty database, whatever calls are made for
    whatever recipients in whatever order, the successful calls for each
    recipient are a run of the abstract mailbox: appends get consecutive IDs,
    every batch is a contiguous run of exactly the envelopes appended, nothing
    is returned below the loss horizon without a reset, and calls for other
    recipients have no effect. *)
Theorem delivery_store_refines_mailbox (calls : list call) :
  Forall (λ c, event_typed c.2.2) calls →
  ∀ p, ∃ M, mailbox_steps empty_mailbox (history p (run calls).2) M ∧
            refines M p (run calls).1.
Proof. apply calls_refine. Qed.

Lemma log_slice_ids l c limit :
  0 ≤ c → ID <$> log_slice l c limit = seqZ (c + 1) (Z.min limit (Z.of_nat (length l) - c)).
Proof.
  intros Hc. unfold log_slice. apply list_eq. intros i. rewrite list_lookup_fmap.
  destruct (decide (Z.of_nat i < Z.min limit (Z.of_nat (length l) - c))).
  - rewrite lookup_take_lt, lookup_zip_with, !lookup_seqZ_lt, lookup_drop by lia. simpl.
    destruct (lookup_lt_is_Some_2 l (Z.to_nat c + i)%nat) as [x ->]; [lia|]. done.
  - rewrite lookup_seqZ_ge by lia. rewrite lookup_ge_None_2; [done|].
    rewrite length_take, length_zip_with, length_seqZ, length_drop. lia.
Qed.

(** No silent gap. A resume that does not demand a reset returns
    exactly the deliveries [cursor+1, cursor+2, ...] without a hole, as many
    as the limit and the high-water mark allow, and the high-water mark is the
    last ID ever assigned. *)
Theorem resume_contiguous fk M p cursor now limit T b T' :
  refines M p T → is_u64 cursor → ResumeDeliveries fk p cursor now limit T = Ok (b, T') →
  HighWater b = log_end M ∧
  (ResetRequired b = false →
     ID <$> Deliveries b = seqZ (cursor + 1) (Z.min limit (HighWater b - cursor))) ∧
  (ResetRequired b = true → Deliveries b = []).
Proof.
  intros HR Hc H. destruct (resume_refines _ _ _ _ _ _ _ _ _ HR Hc H) as (M' & Hs & _).
  inversion Hs; subst; simpl; split_and!; try done; intros _.
  apply log_slice_ids. destruct Hc. lia.
Qed.

(** An incremental read that comes back empty below the high-water mark
    without a reset means the client itself acknowledged everything up to the
    high-water mark: the "unreported gap" the session guards against is never
    lost history. *)
Theorem read_gap_only_acknowledged M p after now limit T b T' :
  refines M p T → is_u64 after → ReadDeliveries p after now limit T = Ok (b, T') →
  ResetRequired b = false → Deliveries b = [] → after < HighWater b → 1 ≤ limit →
  acked M = HighWater b.
Proof.
  intros HR Hc H Hreset Hnil Hlt Hl.
  destruct (read_refines _ _ _ _ _ _ _ _ HR Hc H) as (M' & Hs & _).
  inversion Hs; subst; simpl in *; [done|].
  assert (0 ≤ acked M ≤ log_end M) as Ha.
  { unfold refines in HR. destruct (states T !! p) as [s|].
    - destruct HR as (Hq & -> & _). destruct (q_ack _ _ _ Hq).
      pose proof (q_next _ _ _ Hq). unfold log_end. lia.
    - destruct HR as [-> _]. done. }
  apply (f_equal (fmap ID)) in Hnil. destruct Hc. rewrite log_slice_ids in Hnil by lia.
  apply (f_equal length) in Hnil. rewrite length_seqZ in Hnil. simpl in Hnil.
  unfold log_end in *. lia.
Qed.

Lemma ensure_total fk M p T :
  refines M p T → fk p = true ∨ is_Some (states T !! p) →
  ∃ T1, ensureDeliveryState fk p T = Ok T1.
Proof.
  intros HR Hfk. unfold ensureDeliveryState.
  destruct (states T !! p); [eauto|]. destruct Hfk as [->|[? ?]]; [simpl; eauto|done].
Qed.

(** [AppendDelivery] terminates and succeeds on valid input: for an
    existing device whose sequence is not exhausted it stores the envelope
    under the next ID, the eviction loop ends, and afterwards the queue holds
    at most 4096 rows and 64 MiB. *)
Theorem append_total_and_bounded fk M p env expiresAt now T :
  refines M p T → fk p = true ∨ is_Some (states T !! p) →
  0 < blen env → zeroTime < now < expiresAt → log_end M + 1 < MaxInt64 →
  ∃ T', AppendDelivery fk p env expiresAt now T = Ok (log_end M + 1, T') ∧
    within_capacity (rows_of p T').
Proof.
  intros HR Hfk Henv Ht Hmax.
  enough (∃ id T', AppendDelivery fk p env expiresAt now T = Ok (id, T')) as (id & T' & HA).
  { destruct (append_refines _ _ _ _ _ _ _ _ _ HR HA) as (M' & Hs & _ & _ & Hc).
    inversion Hs; subst. eauto. }
  destruct (ensure_total fk M p T HR Hfk) as [T1 HT1].
  destruct (refines_ensure _ _ _ _ _ HR HT1) as (s1 & Hs1 & Hq1 & _).
  destruct (compact_ok (log M) p (UnixMilli now) T1 s1 Hs1 Hq1) as (s2 & Hs2 & Hq2 & _).
  unfold AppendDelivery. go_pass.
  2: { unfold IsZero. rewrite !orb_false_iff, negb_false_iff, Z.gtb_ltb. split_and!; lia. }
  rewrite HT1. cbn [rbind]. rewrite Hs2.
  pose proof (q_next _ _ _ Hq2). unfold log_end in *.
  go_pass; [|rewrite orb_false_iff; split; [apply Z.ltb_ge|apply Z.eqb_neq]; lia].
  go_pass. 2: { apply bool_decide_eq_false. intros [r Hr]. destruct (q_rows _ _ _ Hq2 _ _ Hr). lia. }
  match goal with |- context [enforceDeliveryCapacity p ?X] => set (T4 := X) end.
  destruct (enforce_ok (log M ++ [env]) p T4 (mkDeliveryState (next_delivery_id s2 + 1)
    (acknowledged_delivery_id s2) (unavailable_through_id s2))) as (T5 & s5 & HT5 & _).
  { unfold T4. by rewrite states_update, states_set_rows, Hs2. }
  { unfold T4. rewrite rows_of_update, rows_of_set_rows. apply queue_ok_append; [done|lia]. }
  rewrite HT5. cbn [rbind]. eauto.
Qed.


(** ** Concrete runs *)

Definition sample_peer : PeerIdentity := ([Byte.x11], [Byte.x33]).
Definition sample_env : bytes := bs "ciphertext".
Definition all_devices : PeerIdentity → bool := λ _, true.

Definition sample_calls : list call :=
  [ (all_devices, (sample_peer, EvAppend sample_env (90 * Second) (1 * Second)));
    (all_devices, (sample_peer, EvAppend (bs "second") (50 * Second) (2 * Second)));
    (all_devices, (sample_peer, EvResume 0 (3 * Second) 64));
    (all_devices, (sample_peer, EvAck 1));
    (all_devices, (sample_peer, EvRead 1 (4 * Second) 64));
    (all_devices, (sample_peer, EvRead 1 (60 * Second) 64)) ].

Example sample_answers : (λ x, x.2.2) <$> (run sample_calls).2 =
  [ AnsID 1; AnsID 2;
    AnsBatch (mkDeliveryBatch 2 false [mkStoredDelivery 1 sample_env; mkStoredDelivery 2 (bs "second")]);
    AnsDone;
    AnsBatch (mkDeliveryBatch 2 false [mkStoredDelivery 2 (bs "second")]);
    AnsBatch (mkDeliveryBatch 2 true []) ].
Proof. vm_compute. reflexivity. Qed.

Lemma delivery_store_refines_mailbox_witness :
  ∃ M, mailbox_steps empty_mailbox (history sample_peer (run sample_calls).2) M ∧
       refines M sample_peer (run sample_calls).1.
Proof.
  apply delivery_store_refines_mailbox.
  repeat constructor; simpl; unfold is_u64; lia.
Defined.

Definition sample_append : result (Z * Tables) :=
  AppendDelivery all_devices sample_peer sample_env (90 * Second) (1 * Second) empty_tables.
Definition sample_tables : Tables := (from_ok (0, empty_tables) sample_append).2.

Lemma sample_refines : refines (mkMailbox [sample_env] 0 0) sample_peer sample_tables.
Proof.
  assert (sample_append = Ok ((from_ok (0, empty_tables) sample_append).1, sample_tables)) as H.
  { unfold sample_tables. rewrite <-surjective_pairing. apply is_ok_from. vm_compute. reflexivity. }
  destruct (append_refines _ _ _ _ _ _ _ _ _ (refines_empty sample_peer) H) as (M' & Hs & HR & _).
  inversion Hs; subst. unfold refines in *.
  assert (unavailable_through_id <$> states sample_tables !! sample_peer = Some 0) as E
    by (vm_compute; reflexivity).
  destruct (states sample_tables !! sample_peer) as [s|]; [|by destruct HR].
  destruct HR as (Hq & Ha & Hl). simpl in *. injection E as E. split_and!; [exact Hq|exact Ha|done].
Qed.

Lemma resume_contiguous_witness :
  let r := ResumeDeliveries all_devices sample_peer 0 (2 * Second) 64 sample_tables in
  let b := (from_ok (mkDeliveryBatch 0 true [], empty_tables) r).1 in
  is_ok r = true ∧ ID <$> Deliveries b = seqZ 1 (Z.min 64 (HighWater b)).
Proof.
  intros r b. assert (is_ok r = true) as Hok by (vm_compute; reflexivity). split; [exact Hok|].
  pose proof (is_ok_from (mkDeliveryBatch 0 true [], empty_tables) r Hok) as H.
  rewrite (surjective_pairing (from_ok _ r)) in H.
  destruct (resume_contiguous all_devices _ _ 0 _ _ _ _ _ sample_refines ltac:(unfold is_u64; lia) H)
    as (Hh & Hb & _). rewrite Z.sub_0_r in Hb. apply Hb. vm_compute. reflexivity.
Defined.

Definition acked_tables : Tables :=
  from_ok empty_tables (AcknowledgeDelivery all_devices sample_peer 1 sample_tables).

Lemma acked_refines : refines (mkMailbox [sample_env] 1 0) sample_peer acked_tables.
Proof.
  assert (AcknowledgeDelivery all_devices sample_peer 1 sample_tables = Ok acked_tables) as H
    by (apply is_ok_from; vm_compute; reflexivity).
  destruct (ack_refines _ _ _ 1 _ _ sample_refines ltac:(unfold is_u64; lia) H)
    as (M' & Hs & HR & _). inversion Hs; subst. exact HR.
Qed.

Lemma read_gap_only_acknowledged_witness :
  let r := ReadDeliveries sample_peer 0 (2 * Second) 64 acked_tables in
  let b := (from_ok (mkDeliveryBatch 0 true [], empty_tables) r).1 in
  is_ok r = true ∧ Deliveries b = [] ∧ 1 = HighWater b.
Proof.
  intros r b. assert (is_ok r = true) as Hok by (vm_compute; reflexivity). split; [exact Hok|].
  pose proof (is_ok_from (mkDeliveryBatch 0 true [], empty_tables) r Hok) as H.
  rewrite (surjective_pairing (from_ok _ r)) in H.
  assert (Deliveries b = []) as Hd by (vm_compute; reflexivity). split; [exact Hd|].
  refine (read_gap_only_acknowledged (mkMailbox [sample_env] 1 0) sample_peer 0 (2 * Second) 64
    acked_tables b _ acked_refines _ H _ Hd _ _); try (vm_compute; reflexivity);
    unfold is_u64; lia.
Defined.

Lemma append_total_and_bounded_witness :
  ∃ T', AppendDelivery all_devices sample_peer sample_env (90 * Second) (2 * Second) sample_tables
        = Ok (2, T') ∧ within_capacity (rows_of sample_peer T').
Proof.
  apply (append_total_and_bounded all_devices (mkMailbox [sample_env] 0 0)).
  - exact sample_refines.
  - left. reflexivity.
  - vm_compute. reflexivity.
  - vm_compute. split; reflexivity.
  - vm_compute. reflexivity.
Defined.

