(* ===== verification/Hub.v ===== *)
(** The session hub (internal/relay/hub.go): one slot per device, handover to
    a newer connection, retirement, admitted operations, and routing.

    Goroutines are threads of a labelled step relation. A rule is one critical
    section: what runs between taking and releasing [h.mu], one wait of a
    [select], the acquisition of a session's operation lock. The functions the
    rules use ([register_locked], [disconnect_locked], ...) are the bodies of
    those sections. The delivery store and the authorizer are an interface
    ([RelayStore]), as in the code. *)

From S2P Require Import Prelude RoutingHeader EnvelopeFrame DeliveryStore.

Definition maxHandoverAttempts : nat := 2.
Definition deliveryBatchSize : Z := 64.

Definition ErrAlreadyConnected : error := New "device already connected".
Definition ErrStaleCredential : error := New "connected session uses a newer credential version".
Definition ErrHandoverTimeout : error := New "connected session did not release its slot in time".
Definition ErrRecipientOffline : error := New "recipient is offline".
Definition ErrRecipientBusy : error := New "recipient delivery queue is full".
Definition ErrSenderMismatch : error := New "authenticated sender does not match routing header".
Definition ErrSessionOffline : error := New "connection instance is no longer active".
(** [context.Canceled] or [context.DeadlineExceeded] of an operation. *)
Definition ErrCanceled : error := New "context canceled".
Definition ErrRecipientUnauthorized : error := New "recipient is not authorized".

(** [relay.DeliveryStore] and [relay.RecipientAuthorizer] over a state [S]. *)
Class RelayStore (S : Type) : Type := {
  rs_authorized : PeerIdentity → S → result bool;
  rs_append : PeerIdentity → bytes → Z → Z → S → result (Z * S);
  rs_resume : PeerIdentity → Z → Z → Z → S → result (DeliveryBatch * S);
  rs_read : PeerIdentity → Z → Z → Z → S → result (DeliveryBatch * S);
  rs_ack : PeerIdentity → Z → S → result S
}.

Inductive sessionRetirement : Type := retirementRevoked | retirementSuperseded.

(** [deviceSession]. [retired] is [retireOnce] with the closed signal channel
    and the cancelled context; [released] is the closed [released] channel;
    [inflight] counts the read holders of [operations]; [immediate] and
    [durableWake] are the two buffered channels. *)
Record deviceSession : Type := mkSession {
  session_peer : PeerIdentity;
  credentialVersion : Z;
  queue_size : nat;
  immediate : list bytes;
  durableWake : bool;
  retired : option sessionRetirement;
  released : bool;
  inflight : nat
}.

Definition newDeviceSession (peer : PeerIdentity) (version : Z) (queueSize : nat)
  : deviceSession :=
  mkSession peer version queueSize [] false None false 0.

(** [retire]: signals exactly once; a later call keeps the first reason. *)
Definition retire (reason : sessionRetirement) (s : deviceSession) : deviceSession :=
  match retired s with
  | Some _ => s
  | None => mkSession (session_peer s) (credentialVersion s) (queue_size s) (immediate s)
              (durableWake s) (Some reason) (released s) (inflight s)
  end.

Definition markReleased (s : deviceSession) : deviceSession :=
  mkSession (session_peer s) (credentialVersion s) (queue_size s) (immediate s)
    (durableWake s) (retired s) true (inflight s).

Definition set_inflight (n : nat) (s : deviceSession) : deviceSession :=
  mkSession (session_peer s) (credentialVersion s) (queue_size s) (immediate s)
    (durableWake s) (retired s) (released s) n.

Definition push_immediate (f : bytes) (s : deviceSession) : deviceSession :=
  mkSession (session_peer s) (credentialVersion s) (queue_size s) (immediate s ++ [f])
    (durableWake s) (retired s) (released s) (inflight s).

Definition wake (s : deviceSession) : deviceSession :=
  mkSession (session_peer s) (credentialVersion s) (queue_size s) (immediate s)
    true (retired s) (released s) (inflight s).

(** [validateRoutedEnvelope]: the sender in the routing header must be the
    authenticated peer; the recipient is addressed within the same workspace. *)
Definition validateRoutedEnvelope (sender : PeerIdentity) (encodedFrame : bytes)
  : result (PeerIdentity * Header) :=
  let? frame := EnvelopeFrame.Decode encodedFrame in
  let rh := FrameRoutingHeader frame in
  if negb (beq (slice 8 24 rh) sender.1) || negb (beq (slice 24 40 rh) sender.2)
  then Err ErrSenderMismatch
  else
    let? header := RoutingHeader.Decode rh in
    Ok ((WorkspaceID header, RecipientDeviceID header), header).

Lemma decode_header_slices e h :
  RoutingHeader.Decode e = Ok h → WorkspaceID h = slice 8 24 e ∧ SenderDeviceID h = slice 24 40 e.
Proof. intros H. unfold RoutingHeader.Decode in H. go_inv. by subst h. Qed.

(** An accepted envelope is well formed, names its authenticated sender, and
    is addressed inside the sender's workspace. *)
Lemma validateRoutedEnvelope_ok sender f p header :
  validateRoutedEnvelope sender f = Ok (p, header) →
  ∃ frame, EnvelopeFrame.Decode f = Ok frame ∧
    RoutingHeader.Decode (FrameRoutingHeader frame) = Ok header ∧
    sender = (WorkspaceID header, SenderDeviceID header) ∧
    p = (WorkspaceID header, RecipientDeviceID header).
Proof.
  unfold validateRoutedEnvelope. intros H.
  destruct (EnvelopeFrame.Decode f) as [frame|e] eqn:Hf; [|done]. cbn [rbind] in H.
  destruct (_ || _) eqn:Hs; [done|].
  destruct (RoutingHeader.Decode _) as [hd|e] eqn:Hh; [|done]. cbn [rbind] in H.
  apply Ok_inj in H. injection H as <- <-.
  destruct (decode_header_slices _ _ Hh) as [Hw Hd]. exists frame.
  split_and!; try done. destruct sender as [w d]. simpl in Hs. go_bool. f_equal; congruence.
Qed.

Section Hub.
Context {S : Type} `{RelayStore S}.

Record Hub : Type := mkHub {
  devices : gmap PeerIdentity nat;
  sessions : gmap nat deviceSession;
  next_session : nat;
  store : S
}.

Definition update_session (sid : nat) (f : deviceSession → deviceSession) (h : Hub) : Hub :=
  mkHub (devices h) (alter f sid (sessions h)) (next_session h) (store h).
Definition set_store (st : S) (h : Hub) : Hub :=
  mkHub (devices h) (sessions h) (next_session h) st.

(** The argument checks of [Register]. *)
Definition register_check (version : Z) (queueSize : nat) : result unit :=
  fail_if version <? 1 with_msg "credential version must be positive" in
  fail_if (queueSize <? 1)%nat with_msg "queue size must be positive" in
  Ok tt.

(** [IsConnected] and [ConnectedSessions]: the instances that hold a slot. *)
Definition IsConnected (identity : PeerIdentity) (h : Hub) : bool :=
  bool_decide (is_Some (devices h !! identity)).

Definition ConnectedSessions (h : Hub) : list (PeerIdentity * Z * nat) :=
  omap (λ x, match sessions h !! x.2 with
             | Some s => Some (x.1, credentialVersion s, x.2)
             | None => None
             end) (map_to_list (devices h)).

(** The body of one [Register] attempt, under [h.mu]. *)
Inductive register_result : Type :=
| RegNew (sid : nat)
| RegStale
| RegWait (existing : nat).

Definition register_locked (identity : PeerIdentity) (version : Z) (queueSize : nat) (h : Hub)
  : register_result * Hub :=
  match devices h !! identity with
  | None =>
      let sid := next_session h in
      (RegNew sid,
       mkHub (<[identity := sid]> (devices h))
             (<[sid := newDeviceSession identity version queueSize]> (sessions h))
             (Datatypes.S sid) (store h))
  | Some existing =>
      match sessions h !! existing with
      | Some s =>
          if version <? credentialVersion s then (RegStale, h)
          else (RegWait existing, update_session existing (retire retirementSuperseded) h)
      | None => (RegStale, h)
      end
  end.

(** [Disconnect] under the first [h.mu]: only the observed instance; the
    result says whether this call initiated the retirement. *)
Definition disconnect_locked (peer : PeerIdentity) (sid : nat) (h : Hub) : option (bool * Hub) :=
  match devices h !! peer with
  | Some current =>
      if decide (current = sid)
      then match sessions h !! sid with
           | Some s => Some (bool_decide (retired s = None),
                             update_session sid (retire retirementRevoked) h)
           | None => None
           end
      else None
  | None => None
  end.

(** [Disconnect] under the second [h.mu], after [operations.Lock]: drop the
    slot entry. The release signal follows once [h.mu] is free again. *)
Definition disconnect_finish (peer : PeerIdentity) (sid : nat) (h : Hub) : Hub :=
  mkHub (if decide (devices h !! peer = Some sid) then delete peer (devices h) else devices h)
    (sessions h) (next_session h) (store h).

(** [beginOperation]: admitted when the observed instance still holds the slot
    and is not retired. *)
Definition session_active (peer : PeerIdentity) (sid : nat) (h : Hub) : bool :=
  match sessions h !! sid with
  | Some s => bool_decide (devices h !! peer = Some sid) && bool_decide (retired s = None)
  | None => false
  end.

(** The effect of [RouteOnline] on the recipient, under [h.mu.RLock]. *)
Definition route_online (recipient : PeerIdentity) (frame : bytes) (h : Hub) : result Hub :=
  match devices h !! recipient with
  | None => Err ErrRecipientOffline
  | Some sid =>
      match sessions h !! sid with
      | None => Err ErrRecipientOffline
      | Some s =>
          if bool_decide (retired s = None)
          then if (length (immediate s) <? queue_size s)%nat
               then Ok (update_session sid (push_immediate frame) h)
               else Err ErrRecipientBusy
          else Err ErrRecipientOffline
      end
  end.

(** The wake-up at the end of [RouteDurable]. *)
Definition wake_recipient (recipient : PeerIdentity) (h : Hub) : Hub :=
  match devices h !! recipient with
  | Some sid =>
      match sessions h !! sid with
      | Some s => if bool_decide (retired s = None) then update_session sid wake h else h
      | None => h
      end
  | None => h
  end.

(** Requests a session makes of the hub. *)
Inductive request : Type :=
| ReqRouteOnline (frame : bytes)
| ReqRouteDurable (frame : bytes) (now : Z)
| ReqResume (cursor now : Z)
| ReqRead (after now : Z)
| ReqAck (cursor : Z)
| ReqWrite.

Inductive reply : Type :=
| RepUnit
| RepBatch (b : DeliveryBatch).

(** What is left to do once the main effect of an admitted request is done.
    [RouteDurable] is three critical sections: the authorization query, the
    append transaction, the wake-up. *)
Inductive outcome : Type :=
| Finish (r : result reply)
| ThenAppend (recipient : PeerIdentity) (frame : bytes) (expiresAt now : Z)
| ThenWake (recipient : PeerIdentity).

(** [RouteDurable] up to the append: authorization, then expiry. *)
Definition route_durable (recipient : PeerIdentity) (header : Header) (frame : bytes) (now : Z)
  (h : Hub) : result outcome :=
  let? authorized := rs_authorized recipient (store h) in
  if negb authorized then Err ErrRecipientUnauthorized
  else
    let expiresAt := i64 (ExpiresAtUnixMs header) * Millisecond in
    fail_if negb (expiresAt >? now) with_msg "durable encrypted envelope is already expired" in
    Ok (ThenAppend recipient frame expiresAt now).

(** The append transaction of [RouteDurable]. *)
Definition route_append (recipient : PeerIdentity) (frame : bytes) (expiresAt now : Z) (h : Hub)
  : outcome * Hub :=
  match rs_append recipient frame expiresAt now (store h) with
  | Ok (_, st) => (ThenWake recipient, set_store st h)
  | Err e => (Finish (Err e), h)
  end.

(** The body of an admitted request of the session of [peer]. The routing
    requests reuse the recipient and header their precheck computed. *)
Definition perform (peer : PeerIdentity) (req : request) (h : Hub) : outcome * Hub :=
  match req with
  | ReqRouteOnline frame =>
      match validateRoutedEnvelope peer frame with
      | Err e => (Finish (Err e), h)
      | Ok (recipient, _) =>
          match route_online recipient frame h with
          | Ok h' => (Finish (Ok RepUnit), h')
          | Err e => (Finish (Err e), h)
          end
      end
  | ReqRouteDurable frame now =>
      match validateRoutedEnvelope peer frame with
      | Err e => (Finish (Err e), h)
      | Ok (recipient, header) =>
          match route_durable recipient header frame now h with
          | Ok o => (o, h)
          | Err e => (Finish (Err e), h)
          end
      end
  | ReqResume cursor now =>
      match rs_resume peer cursor now deliveryBatchSize (store h) with
      | Ok (b, st) => (Finish (Ok (RepBatch b)), set_store st h)
      | Err e => (Finish (Err e), h)
      end
  | ReqRead after now =>
      match rs_read peer after now deliveryBatchSize (store h) with
      | Ok (b, st) => (Finish (Ok (RepBatch b)), set_store st h)
      | Err e => (Finish (Err e), h)
      end
  | ReqAck cursor =>
      match rs_ack peer cursor (store h) with
      | Ok st => (Finish (Ok RepUnit), set_store st h)
      | Err e => (Finish (Err e), h)
      end
  | ReqWrite => (Finish (Ok RepUnit), h)
  end.

(** The checks before admission: the two routing requests validate their
    envelope before [beginOperation]. *)
Definition precheck (peer : PeerIdentity) (req : request) : result unit :=
  match req with
  | ReqRouteOnline frame | ReqRouteDurable frame _ =>
      let? _ := validateRoutedEnvelope peer frame in Ok tt
  | _ => Ok tt
  end.

(** Goroutines inside the hub. *)
Inductive thread : Type :=
| TRegister (peer : PeerIdentity) (version : Z) (queueSize : nat) (attempt : nat)
| TAwait (peer : PeerIdentity) (version : Z) (queueSize : nat) (attempt : nat) (sid : nat)
| TRegistered (peer : PeerIdentity) (sid : nat)
| TRegisterFailed (e : error)
| TDisconnect (peer : PeerIdentity) (sid : nat)
| TDraining (peer : PeerIdentity) (sid : nat) (initiated : bool)
| TReleasing (peer : PeerIdentity) (sid : nat) (initiated : bool)
| TDisconnected (initiated : bool)
| TBegin (peer : PeerIdentity) (sid : nat) (req : request)
| TRunning (peer : PeerIdentity) (sid : nat) (req : request)
| TDone (peer : PeerIdentity) (sid : nat) (o : outcome)
| TReturned (r : result reply).

Record sys : Type := mkSys { hub : Hub; threads : gmap nat thread }.

Definition put (t : nat) (th : thread) (h : Hub) (y : sys) : sys :=
  mkSys h (<[t := th]> (threads y)).

(** A thread between [beginOperation] and [finish] holds the operation lock. *)
Definition holds (sid : nat) (th : thread) : Prop :=
  match th with
  | TRunning _ s _ | TDone _ s _ => s = sid
  | _ => False
  end.
#[export] Instance holds_dec sid th : Decision (holds sid th).
Proof. destruct th; simpl; apply _. Defined.

Definition holders (sid : nat) (ts : gmap nat thread) : nat :=
  size (filter (λ x, holds sid x.2) ts).

Inductive step : sys → sys → Prop :=
(* callers: an authenticated connection, a retirement, an operation *)
| S_call_register y t peer version queueSize :
    threads y !! t = None → register_check version queueSize = Ok tt →
    step y (put t (TRegister peer version queueSize 0) (hub y) y)
| S_call_register_rejected y t version queueSize e :
    threads y !! t = None → register_check version queueSize = Err e →
    step y (put t (TRegisterFailed e) (hub y) y)
| S_call_disconnect y t peer sid s :
    threads y !! t = None → sessions (hub y) !! sid = Some s → session_peer s = peer →
    step y (put t (TDisconnect peer sid) (hub y) y)
| S_call_operation y t peer sid s req :
    threads y !! t = None → sessions (hub y) !! sid = Some s → session_peer s = peer →
    step y (put t (TBegin peer sid req) (hub y) y)
(* Register *)
| S_register_new y t peer version q a sid h' :
    threads y !! t = Some (TRegister peer version q a) →
    register_locked peer version q (hub y) = (RegNew sid, h') →
    step y (put t (TRegistered peer sid) h' y)
| S_register_stale y t peer version q a h' :
    threads y !! t = Some (TRegister peer version q a) →
    register_locked peer version q (hub y) = (RegStale, h') →
    step y (put t (TRegisterFailed ErrStaleCredential) h' y)
| S_register_wait y t peer version q a sid h' :
    threads y !! t = Some (TRegister peer version q a) →
    register_locked peer version q (hub y) = (RegWait sid, h') →
    step y (put t (TAwait peer version q a sid) h' y)
| S_await_released y t peer version q a sid s :
    threads y !! t = Some (TAwait peer version q a sid) →
    sessions (hub y) !! sid = Some s → released s = true →
    step y (put t (if (Datatypes.S a <? maxHandoverAttempts)%nat
                   then TRegister peer version q (Datatypes.S a)
                   else TRegisterFailed ErrAlreadyConnected) (hub y) y)
| S_await_timeout y t peer version q a sid :
    threads y !! t = Some (TAwait peer version q a sid) →
    step y (put t (TRegisterFailed ErrHandoverTimeout) (hub y) y)
(* Disconnect *)
| S_disconnect_other y t peer sid :
    threads y !! t = Some (TDisconnect peer sid) →
    disconnect_locked peer sid (hub y) = None →
    step y (put t (TDisconnected false) (hub y) y)
| S_disconnect_retire y t peer sid initiated h' :
    threads y !! t = Some (TDisconnect peer sid) →
    disconnect_locked peer sid (hub y) = Some (initiated, h') →
    step y (put t (TDraining peer sid initiated) h' y)
| S_disconnect_finish y t peer sid initiated s :
    threads y !! t = Some (TDraining peer sid initiated) →
    sessions (hub y) !! sid = Some s → inflight s = 0%nat →
    step y (put t (TReleasing peer sid initiated) (disconnect_finish peer sid (hub y)) y)
| S_disconnect_release y t peer sid initiated :
    threads y !! t = Some (TReleasing peer sid initiated) →
    step y (put t (TDisconnected initiated) (update_session sid markReleased (hub y)) y)
(* operations *)
| S_begin_rejected y t peer sid req e :
    threads y !! t = Some (TBegin peer sid req) → precheck peer req = Err e →
    step y (put t (TReturned (Err e)) (hub y) y)
| S_begin_cancelled y t peer sid req :
    threads y !! t = Some (TBegin peer sid req) →
    step y (put t (TReturned (Err ErrCanceled)) (hub y) y)
| S_begin_offline y t peer sid req :
    threads y !! t = Some (TBegin peer sid req) → precheck peer req = Ok tt →
    session_active peer sid (hub y) = false →
    step y (put t (TReturned (Err ErrSessionOffline)) (hub y) y)
| S_begin y t peer sid req s :
    threads y !! t = Some (TBegin peer sid req) → precheck peer req = Ok tt →
    session_active peer sid (hub y) = true → sessions (hub y) !! sid = Some s →
    step y (put t (TRunning peer sid req)
             (update_session sid (set_inflight (Datatypes.S (inflight s))) (hub y)) y)
| S_perform y t peer sid req o h' :
    threads y !! t = Some (TRunning peer sid req) →
    perform peer req (hub y) = (o, h') →
    step y (put t (TDone peer sid o) h' y)
| S_perform_cancelled y t peer sid req :
    threads y !! t = Some (TRunning peer sid req) →
    step y (put t (TDone peer sid (Finish (Err ErrCanceled))) (hub y) y)
| S_append y t peer sid recipient frame expiresAt now o h' :
    threads y !! t = Some (TDone peer sid (ThenAppend recipient frame expiresAt now)) →
    route_append recipient frame expiresAt now (hub y) = (o, h') →
    step y (put t (TDone peer sid o) h' y)
| S_append_cancelled y t peer sid recipient frame expiresAt now :
    threads y !! t = Some (TDone peer sid (ThenAppend recipient frame expiresAt now)) →
    step y (put t (TDone peer sid (Finish (Err ErrCanceled))) (hub y) y)
| S_wake y t peer sid recipient :
    threads y !! t = Some (TDone peer sid (ThenWake recipient)) →
    step y (put t (TDone peer sid (Finish (Ok RepUnit))) (wake_recipient recipient (hub y)) y)
| S_finish y t peer sid r s :
    threads y !! t = Some (TDone peer sid (Finish r)) →
    sessions (hub y) !! sid = Some s →
    step y (put t (TReturned r)
             (update_session sid (set_inflight (Nat.pred (inflight s))) (hub y)) y)
(* the session's writer goroutine takes a frame or the wake-up *)
| S_consume y sid s frame rest :
    sessions (hub y) !! sid = Some s → immediate s = frame :: rest →
    step y (mkSys (update_session sid (λ s, mkSession (session_peer s) (credentialVersion s)
             (queue_size s) rest (durableWake s) (retired s) (released s) (inflight s)) (hub y))
             (threads y))
| S_consume_wake y sid s :
    sessions (hub y) !! sid = Some s → durableWake s = true →
    step y (mkSys (update_session sid (λ s, mkSession (session_peer s) (credentialVersion s)
             (queue_size s) (immediate s) false (retired s) (released s) (inflight s)) (hub y))
             (threads y))
(* other users of the database: admission, administration, other relays *)
| S_environment y st' :
    step y (mkSys (set_store st' (hub y)) (threads y)).

Definition init (st : S) : sys := mkSys (mkHub ∅ ∅ 0 st) ∅.
Definition reachable (st : S) (y : sys) : Prop := rtc step (init st) y.

(** ** Counting the holders of an operation lock *)

Definition hold1 (sid : nat) (o : option thread) : nat :=
  match o with Some th => if decide (holds sid th) then 1 else 0 | None => 0 end%nat.

Lemma holders_put sid t th ts :
  (holders sid (<[t:=th]> ts) + hold1 sid (ts !! t) = holders sid ts + hold1 sid (Some th))%nat.
Proof.
  assert (∀ ts, ts !! t = None →
    holders sid (<[t:=th]> ts) = (holders sid ts + hold1 sid (Some th))%nat) as Hfresh.
  { intros ts' Hn. unfold holders, hold1. case_decide as Hd.
    - rewrite map_filter_insert_True by done. rewrite map_size_insert_None; [lia|].
      apply map_lookup_filter_None_2. auto.
    - rewrite map_filter_insert_False by done. rewrite delete_id by done. lia. }
  rewrite <-(insert_delete_eq ts t th). rewrite (Hfresh (delete t ts)) by apply lookup_delete_eq.
  destruct (ts !! t) as [old|] eqn:Ht; [|rewrite delete_id by done; simpl; lia].
  rewrite <-(insert_id ts t old Ht) at 2. rewrite <-(insert_delete_eq ts t old).
  assert (holders sid (<[t:=old]> (delete t ts))
          = (holders sid (delete t ts) + hold1 sid (Some old))%nat) as ->; [|lia].
  unfold holders, hold1. case_decide as Hd.
  - rewrite map_filter_insert_True by done. rewrite map_size_insert_None; [lia|].
    apply map_lookup_filter_None_2. left. apply lookup_delete_eq.
  - rewrite map_filter_insert_False by done. rewrite delete_delete_eq. lia.
Qed.

(** ** The invariant *)

(** A frame in a session's queue was accepted from some sender and is
    addressed to that session's device. *)
Definition frame_for (p : PeerIdentity) (f : bytes) : Prop :=
  ∃ sender header, validateRoutedEnvelope sender f = Ok (p, header).

Record hub_ok (h : Hub) : Prop := {
  h_slot : ∀ p sid, devices h !! p = Some sid →
    ∃ s, sessions h !! sid = Some s ∧ session_peer s = p ∧ released s = false;
  h_unslotted : ∀ sid s, sessions h !! sid = Some s → devices h !! session_peer s ≠ Some sid →
    retired s ≠ None ∧ inflight s = 0%nat;
  h_fresh : ∀ sid s, sessions h !! sid = Some s → (sid < next_session h)%nat;
  h_queue : ∀ sid s, sessions h !! sid = Some s →
    (length (immediate s) ≤ queue_size s)%nat ∧ Forall (frame_for (session_peer s)) (immediate s)
}.

(** How sessions evolve: the identity and version of an instance never
    change, a retirement is final, a release is final, and an instance that
    lost its slot never gets it back. *)
Definition session_le (s s' : deviceSession) : Prop :=
  session_peer s' = session_peer s ∧ credentialVersion s' = credentialVersion s ∧
  (∀ r, retired s = Some r → retired s' = Some r) ∧
  (released s = true → released s' = true).

Definition hub_le (h h' : Hub) : Prop :=
  ∀ sid s, sessions h !! sid = Some s →
    (∃ s', sessions h' !! sid = Some s' ∧ session_le s s') ∧
    (devices h !! session_peer s ≠ Some sid → devices h' !! session_peer s ≠ Some sid).

Lemma session_le_refl s : session_le s s.
Proof. split_and!; auto. Qed.
Lemma hub_le_refl h : hub_le h h.
Proof. intros sid s Hs. eauto using session_le_refl. Qed.
Lemma hub_le_store st h : hub_le h (set_store st h).
Proof. intros sid s Hs. eauto using session_le_refl. Qed.
Lemma hub_le_update sid f h :
  (∀ s, sessions h !! sid = Some s → session_le s (f s)) → hub_le h (update_session sid f h).
Proof.
  intros Hf i s Hs. simpl. split; [|done]. destruct (decide (i = sid)) as [->|Hne].
  - rewrite lookup_alter_eq, Hs. simpl. eauto.
  - rewrite lookup_alter_ne by done. eauto using session_le_refl.
Qed.
Lemma hub_le_trans h1 h2 h3 : hub_le h1 h2 → hub_le h2 h3 → hub_le h1 h3.
Proof.
  intros H1 H2 sid s Hs. destruct (H1 _ _ Hs) as ((s2 & Hs2 & Hp2 & Hv2 & Hr2 & Hl2) & Hd2).
  destruct (H2 _ _ Hs2) as ((s3 & Hs3 & Hp3 & Hv3 & Hr3 & Hl3) & Hd3).
  split; [|rewrite Hp2 in Hd3; auto].
  exists s3. split; [done|]. split_and!; [congruence|congruence|auto|auto].
Qed.

(** Changing one session without touching its identity. *)
Lemma hub_ok_update sid f h :
  hub_ok h →
  (∀ s, sessions h !! sid = Some s →
    session_le s (f s) ∧
    (devices h !! session_peer s = Some sid → released (f s) = released s) ∧
    (devices h !! session_peer s ≠ Some sid → inflight (f s) = 0%nat) ∧
    (length (immediate (f s)) ≤ queue_size (f s))%nat ∧
    Forall (frame_for (session_peer s)) (immediate (f s))) →
  hub_ok (update_session sid f h).
Proof.
  intros [] Hf. constructor; simpl.
  - intros p i Hd. destruct (h_slot0 _ _ Hd) as (s & Hs & Hp & Hr).
    destruct (decide (i = sid)) as [->|Hne].
    + rewrite lookup_alter_eq, Hs. destruct (Hf _ Hs) as ((Hp' & _) & Hrel & _).
      eexists. split; [done|]. split; [congruence|]. rewrite Hrel; congruence.
    + rewrite lookup_alter_ne by done. eauto.
  - intros i s Hs Hr. apply lookup_alter_Some in Hs as [(<- & s0 & Hs0 & ->)|[_ Hs]]; [|eauto].
    destruct (Hf _ Hs0) as ((Hp & _ & Hret & _) & _ & Hin & _). rewrite Hp in Hr.
    destruct (h_unslotted0 _ _ Hs0 Hr) as [Hn _]. split; [|auto].
    destruct (retired s0) as [r|]; [|done]. by rewrite (Hret r).
  - intros i s Hs. apply lookup_alter_Some in Hs as [(<- & s0 & Hs0 & ->)|[_ Hs]]; eauto.
  - intros i s Hs. apply lookup_alter_Some in Hs as [(<- & s0 & Hs0 & ->)|[_ Hs]]; [|eauto].
    destruct (Hf _ Hs0) as ((-> & _) & _ & _ & Hq). done.
Qed.

Lemma hub_ok_store st h : hub_ok h → hub_ok (set_store st h).
Proof. intros []. by constructor. Qed.

(** Updates that touch neither the queue nor the lock count. *)
Lemma hub_ok_update_flags sid f h :
  hub_ok h →
  (∀ s, sessions h !! sid = Some s →
    session_le s (f s) ∧ inflight (f s) = inflight s ∧ immediate (f s) = immediate s ∧
    queue_size (f s) = queue_size s ∧
    (devices h !! session_peer s = Some sid → released (f s) = released s)) →
  hub_ok (update_session sid f h).
Proof.
  intros Hh Hf. apply hub_ok_update; [done|]. intros s Hs.
  destruct (Hf _ Hs) as (Hle & -> & -> & -> & Hr). destruct (h_queue _ Hh _ _ Hs).
  split_and!; try done. intros Hd. by apply (h_unslotted _ Hh _ _ Hs).
Qed.

Lemma retire_le r s : session_le s (retire r s).
Proof. unfold retire. destruct (retired s) eqn:E; split_and!; simpl; auto; congruence. Qed.

Lemma retire_fields r s :
  session_peer (retire r s) = session_peer s ∧ released (retire r s) = released s ∧
  inflight (retire r s) = inflight s ∧ immediate (retire r s) = immediate s ∧
  queue_size (retire r s) = queue_size s ∧ retired (retire r s) ≠ None.
Proof. unfold retire. destruct (retired s) eqn:E; split_and!; simpl; auto; congruence. Qed.

Lemma hub_ok_retire r sid h : hub_ok h → hub_ok (update_session sid (retire r) h).
Proof.
  intros Hh. apply hub_ok_update_flags; [done|]. intros s Hs.
  destruct (retire_fields r s) as (Hp & Hr & Hi & Him & Hq & _).
  split_and!; try done. apply retire_le.
Qed.

Definition thread_ok (h : Hub) (th : thread) : Prop :=
  match th with
  | TAwait p _ _ _ sid | TRegistered p sid | TDisconnect p sid | TBegin p sid _
  | TRunning p sid _ | TDone p sid _ =>
      ∃ s, sessions h !! sid = Some s ∧ session_peer s = p
  | TDraining p sid _ =>
      ∃ s, sessions h !! sid = Some s ∧ session_peer s = p ∧ retired s ≠ None
  | TReleasing p sid _ =>
      ∃ s, sessions h !! sid = Some s ∧ session_peer s = p ∧ devices h !! p ≠ Some sid
  | _ => True
  end.

Lemma thread_ok_le h h' th : hub_le h h' → thread_ok h th → thread_ok h' th.
Proof.
  intros Hle. destruct th; simpl; try done;
    try (intros (s & Hs & Hp); destruct (Hle _ _ Hs) as ((s' & Hs' & Hp' & _) & _); exists s';
         split; [done|congruence]).
  - intros (s & Hs & Hp & Hr). destruct (Hle _ _ Hs) as ((s' & Hs' & Hp' & _ & Hr' & _) & _).
    exists s'. split_and!; [done|congruence|].
    destruct (retired s) as [r|]; [|done]. by rewrite (Hr' r).
  - intros (s & Hs & <- & Hr). destruct (Hle _ _ Hs) as ((s' & Hs' & Hp' & _) & Hd).
    exists s'. split_and!; auto.
Qed.

Record inv (y : sys) : Prop := {
  inv_hub : hub_ok (hub y);
  inv_threads : ∀ t th, threads y !! t = Some th → thread_ok (hub y) th;
  inv_count : ∀ sid s, sessions (hub y) !! sid = Some s → inflight s = holders sid (threads y)
}.

Lemma inv_put y t th h' :
  inv y → hub_ok h' → hub_le (hub y) h' → thread_ok h' th →
  (∀ sid s', sessions h' !! sid = Some s' →
     inflight s' + hold1 sid (threads y !! t) = holders sid (threads y) + hold1 sid (Some th))%nat →
  inv (put t th h' y).
Proof.
  intros [Hh Ht Hc] Hok Hle Hth Hcount. constructor; simpl; [done| |].
  - intros t' th' Hl. apply lookup_insert_Some in Hl as [[<- <-]|[_ Hl]]; [done|].
    eauto using thread_ok_le.
  - intros sid s' Hs. pose proof (holders_put sid t th (threads y)).
    specialize (Hcount _ _ Hs). lia.
Qed.

(** Sessions keep their lock counts. *)
Definition same_inflight (h h' : Hub) : Prop :=
  ∀ sid s', sessions h' !! sid = Some s' →
    ∃ s, sessions h !! sid = Some s ∧ inflight s' = inflight s.

Lemma same_inflight_refl h : same_inflight h h.
Proof. intros sid s. eauto. Qed.

Lemma same_inflight_update sid f h :
  (∀ s, inflight (f s) = inflight s) → same_inflight h (update_session sid f h).
Proof.
  intros Hf i s Hs. simpl in Hs. apply lookup_alter_Some in Hs as [(<- & s0 & Hs0 & ->)|[_ Hs]]; eauto.
Qed.

(** A hub transition that is fine for every thread. *)
Definition hub_step (h h' : Hub) : Prop := hub_ok h' ∧ hub_le h h' ∧ same_inflight h h'.

Lemma hub_step_refl h : hub_ok h → hub_step h h.
Proof. intros; unfold hub_step; split_and!; auto using hub_le_refl, same_inflight_refl. Qed.
Lemma hub_step_store st h : hub_ok h → hub_step h (set_store st h).
Proof. intros; unfold hub_step; split_and!; auto using hub_ok_store, hub_le_store.
  intros sid s. simpl. eauto.
Qed.
Lemma hub_step_retire r sid h : hub_ok h → hub_step h (update_session sid (retire r) h).
Proof.
  intros Hh. unfold hub_step. split_and!; [by apply hub_ok_retire|apply hub_le_update; intros; apply retire_le|].
  apply same_inflight_update. intros s. by apply retire_fields.
Qed.

(** A thread that keeps (or does not have) the lock, over a hub whose counts
    are unchanged; [old] is what the thread was, if it existed. *)
Lemma inv_put_keep y t old th h' :
  inv y → threads y !! t = old →
  (∀ sid, hold1 sid old = hold1 sid (Some th)) →
  hub_step (hub y) h' → thread_ok h' th → inv (put t th h' y).
Proof.
  intros Hi Ht Heq (Hok & Hle & Hsame) Hth. apply inv_put; try done.
  intros sid s' Hs. destruct (Hsame _ _ Hs) as (s & Hs0 & ->).
  rewrite (inv_count _ Hi _ _ Hs0), Ht, (Heq sid). lia.
Qed.

Lemma inv_hub_step y h' : inv y → hub_step (hub y) h' → inv (mkSys h' (threads y)).
Proof.
  intros [Hh Ht Hc] (Hok & Hle & Hsame). constructor; simpl; [done| |].
  - eauto using thread_ok_le.
  - intros sid s' Hs. destruct (Hsame _ _ Hs) as (s & Hs0 & ->). auto.
Qed.

Lemma register_new_ok peer version q h sid h' :
  hub_ok h → register_locked peer version q h = (RegNew sid, h') →
  hub_ok h' ∧ hub_le h h' ∧ sid = next_session h ∧ devices h !! peer = None ∧
  sessions h' = <[sid := newDeviceSession peer version q]> (sessions h) ∧
  sessions h !! sid = None.
Proof.
  intros Hh. pose proof Hh as []. unfold register_locked.
  destruct (devices h !! peer) as [e|] eqn:Hd.
  { destruct (sessions h !! e); [|done]. by destruct (_ <? _). }
  intros [= <- <-]. set (sid := next_session h) in *.
  assert (sessions h !! sid = None) as Hfresh.
  { destruct (sessions h !! sid) eqn:E; [|done]. apply h_fresh0 in E. unfold sid in E. lia. }
  split_and!; try done; simpl.
  - constructor; simpl.
    + intros p i Hp. apply lookup_insert_Some in Hp as [[<- <-]|[Hne Hp]].
      * rewrite lookup_insert_eq. by eexists.
      * destruct (h_slot0 _ _ Hp) as (s & Hs & ?). exists s. rewrite lookup_insert_ne; [done|].
        intros <-. congruence.
    + intros i s Hs Hr. apply lookup_insert_Some in Hs as [[<- <-]|[Hne Hs]].
      * simpl in Hr. by rewrite lookup_insert_eq in Hr.
      * apply (h_unslotted0 _ _ Hs). intros Hd'. apply Hr. rewrite lookup_insert_ne; congruence.
    + intros i s Hs. apply lookup_insert_Some in Hs as [[<- <-]|[Hne Hs]]; [lia|].
      apply h_fresh0 in Hs. fold sid in Hs. lia.
    + intros i s Hs. apply lookup_insert_Some in Hs as [[<- <-]|[Hne Hs]]; [|eauto].
      simpl. split; [lia|constructor].
  - intros i s Hs. assert (i ≠ sid) by congruence. simpl. rewrite lookup_insert_ne by done.
    split; [eauto using session_le_refl|]. intros Hn Hd'.
    apply lookup_insert_Some in Hd' as [[_ ->]|[_ Hd']]; done.
Qed.

Lemma register_wait_ok peer version q h sid h' :
  register_locked peer version q h = (RegWait sid, h') →
  h' = update_session sid (retire retirementSuperseded) h ∧ devices h !! peer = Some sid ∧
  ∃ s, sessions h !! sid = Some s ∧ credentialVersion s ≤ version.
Proof.
  unfold register_locked. destruct (devices h !! peer) as [e|]; [|done].
  destruct (sessions h !! e) as [s|] eqn:Hs; [|done].
  destruct (_ <? _) eqn:Hv; [done|]. intros [= <- <-]. go_bool. eauto.
Qed.

Lemma register_stale_ok peer version q h h' :
  register_locked peer version q h = (RegStale, h') → h' = h.
Proof.
  unfold register_locked. destruct (devices h !! peer) as [e|]; [|done].
  destruct (sessions h !! e); [destruct (_ <? _)|]; congruence.
Qed.

Lemma disconnect_locked_ok peer sid h initiated h' :
  disconnect_locked peer sid h = Some (initiated, h') →
  h' = update_session sid (retire retirementRevoked) h ∧ devices h !! peer = Some sid.
Proof.
  unfold disconnect_locked. destruct (devices h !! peer) as [c|]; [|done].
  case_decide; [|done]. destruct (sessions h !! sid); [|done]. intros [= _ <-]. subst. eauto.
Qed.

Lemma disconnect_finish_ok peer sid h s :
  hub_ok h → sessions h !! sid = Some s → session_peer s = peer → retired s ≠ None →
  inflight s = 0%nat →
  hub_step h (disconnect_finish peer sid h) ∧ devices (disconnect_finish peer sid h) !! peer ≠ Some sid.
Proof.
  intros Hh Hs Hp Hret Hin. pose proof Hh as [].
  set (h' := disconnect_finish peer sid h).
  assert (∀ p i, devices h' !! p = Some i → devices h !! p = Some i) as Hdev.
  { intros p i. unfold h', disconnect_finish. simpl. case_decide; [|done].
    intros Hl. by apply lookup_delete_Some in Hl as [_ ?]. }
  assert (devices h' !! peer ≠ Some sid) as Hgone.
  { unfold h', disconnect_finish. simpl. case_decide; [|done]. by rewrite lookup_delete_eq. }
  split; [|done]. unfold hub_step. split_and!.
  - constructor; [| |exact h_fresh0|exact h_queue0].
    + intros p i Hl. apply Hdev in Hl. apply (h_slot0 _ _ Hl).
    + intros i s' Hs' Hn. destruct (decide (devices h !! session_peer s' = Some i)) as [Hd|]; [|eauto].
      change (sessions h !! i = Some s') in Hs'.
      destruct (decide (i = sid)) as [->|Hne]; [by simplify_eq|]. exfalso. apply Hn.
      unfold h', disconnect_finish. simpl. case_decide as Hc; [|done].
      rewrite lookup_delete_ne; [done|]. congruence.
  - intros i s' Hs'. split; [exists s'; auto using session_le_refl|]. intros Hn Hd. by apply Hdev in Hd.
  - intros i s' Hs'. by exists s'.
Qed.

(** ** Every request body and the wake-up are such transitions *)

Lemma wake_recipient_ok p h : hub_ok h → hub_step h (wake_recipient p h).
Proof.
  intros Hh. unfold wake_recipient. destruct (devices h !! p) as [sid|]; [|by apply hub_step_refl].
  destruct (sessions h !! sid); [|by apply hub_step_refl].
  case_bool_decide; [|by apply hub_step_refl]. unfold hub_step. split_and!.
  - apply hub_ok_update_flags; [done|]. intros s Hs. by split_and!.
  - apply hub_le_update. intros s Hs. by split_and!.
  - by apply same_inflight_update.
Qed.

Lemma route_online_ok sender p header frame h h' :
  hub_ok h → validateRoutedEnvelope sender frame = Ok (p, header) →
  route_online p frame h = Ok h' → hub_step h h'.
Proof.
  intros Hh Hv. unfold route_online. destruct (devices h !! p) as [sid|] eqn:Hd; [|done].
  destruct (sessions h !! sid) as [s|] eqn:Hs; [|done].
  case_bool_decide; [|done]. destruct (_ <? _)%nat eqn:Hlen; [|done]. intros [= <-].
  apply Nat.ltb_lt in Hlen. unfold hub_step. split_and!.
  - apply hub_ok_update; [done|]. intros s' Hs'. simplify_eq. simpl.
    destruct (h_slot _ Hh _ _ Hd) as (s0 & Hs0 & Hp & _). simplify_eq.
    destruct (h_queue _ Hh _ _ Hs) as [Hq Hf]. split; [by split_and!|]. split; [done|].
    split; [intros Hn; by apply (h_unslotted _ Hh _ _ Hs)|].
    rewrite length_app. simpl. split; [lia|]. apply Forall_app. split; [done|].
    constructor; [|constructor]. by exists sender, header.
  - apply hub_le_update. intros s' Hs'. by split_and!.
  - by apply same_inflight_update.
Qed.

Lemma perform_ok peer req h o h' : hub_ok h → perform peer req h = (o, h') → hub_step h h'.
Proof.
  intros Hh. unfold perform.
  destruct req as [frame|frame now|cursor now|after now|cursor|].
  - destruct (validateRoutedEnvelope peer frame) as [[p hd]|e] eqn:Hv;
      [|intros [= _ <-]; by apply hub_step_refl].
    destruct (route_online p frame h) eqn:Hr; intros [= _ <-];
      eauto using hub_step_refl, route_online_ok.
  - destruct (validateRoutedEnvelope peer frame) as [[p hd]|e];
      [destruct (route_durable p hd frame now h)|]; intros [= _ <-]; by apply hub_step_refl.
  - destruct (rs_resume _ _ _ _ _) as [[]|]; intros [= _ <-];
      auto using hub_step_store, hub_step_refl.
  - destruct (rs_read _ _ _ _ _) as [[]|]; intros [= _ <-];
      auto using hub_step_store, hub_step_refl.
  - destruct (rs_ack _ _ _); intros [= _ <-]; auto using hub_step_store, hub_step_refl.
  - intros [= _ <-]. by apply hub_step_refl.
Qed.

Lemma route_append_ok p frame e now h o h' :
  hub_ok h → route_append p frame e now h = (o, h') → hub_step h h'.
Proof.
  intros Hh. unfold route_append. destruct (rs_append _ _ _ _ _) as [[]|]; intros [= _ <-];
    auto using hub_step_store, hub_step_refl.
Qed.

(** ** The invariant is preserved by every step *)

Ltac no_hold := intros ?; simpl; rewrite ?decide_False by auto; reflexivity.

Lemma inv_register y t p v q a sid h' :
  inv y → threads y !! t = Some (TRegister p v q a) →
  register_locked p v q (hub y) = (RegNew sid, h') → inv (put t (TRegistered p sid) h' y).
Proof.
  intros Hi Ht Hr. destruct (register_new_ok _ _ _ _ _ _ (inv_hub _ Hi) Hr)
    as (Hok & Hle & _ & _ & Hss & Hfresh).
  apply inv_put; [done|done|done| |].
  - simpl. rewrite Hss, lookup_insert_eq. by eexists.
  - intros i s' Hs. rewrite Ht. simpl. rewrite Nat.add_0_r.
    rewrite Hss in Hs. apply lookup_insert_Some in Hs as [[<- <-]|[_ Hs]]; simpl;
      rewrite ?Nat.add_0_r; [|by apply (inv_count _ Hi)].
    symmetry. apply map_size_empty_iff. apply map_empty. intros t'.
    apply map_lookup_filter_None_2. right. intros th Hth Hh. simpl in Hh.
    pose proof (inv_threads _ Hi _ _ Hth) as Hok'. unfold holds in Hh.
    destruct th; try done; simpl in Hok'; subst; destruct Hok' as (? & ? & _); congruence.
Qed.

Lemma inv_begin y t p sid req s :
  inv y → threads y !! t = Some (TBegin p sid req) →
  session_active p sid (hub y) = true → sessions (hub y) !! sid = Some s →
  inv (put t (TRunning p sid req)
         (update_session sid (set_inflight (Datatypes.S (inflight s))) (hub y)) y).
Proof.
  intros Hi Ht Ha Hs. unfold session_active in Ha. rewrite Hs in Ha.
  apply andb_true_iff in Ha as [Hd Hr]. apply bool_decide_eq_true in Hd, Hr.
  destruct (h_slot _ (inv_hub _ Hi) _ _ Hd) as (s0 & Hs0 & Hp & _). simplify_eq.
  apply inv_put; [done| | | |].
  - apply hub_ok_update; [apply Hi|]. intros s' Hs'. simplify_eq. simpl.
    destruct (h_queue _ (inv_hub _ Hi) _ _ Hs). split_and!; try done.
  - apply hub_le_update. intros s' Hs'. by split_and!.
  - simpl. rewrite lookup_alter_eq, Hs. by eexists.
  - intros i s' Hs'. rewrite Ht. simpl in *. apply lookup_alter_Some in Hs' as [(<- & s1 & Hs1 & ->)|[Hne Hs']].
    + simplify_eq. rewrite (decide_True (P := sid = sid)) by done. simpl.
      rewrite (inv_count _ Hi _ _ Hs). lia.
    + rewrite decide_False by done. rewrite (inv_count _ Hi _ _ Hs'). lia.
Qed.

Lemma inv_finish y t p sid r s :
  inv y → threads y !! t = Some (TDone p sid (Finish r)) → sessions (hub y) !! sid = Some s →
  inv (put t (TReturned r) (update_session sid (set_inflight (Nat.pred (inflight s))) (hub y)) y).
Proof.
  intros Hi Ht Hs. apply inv_put; [done| | |done|].
  - apply hub_ok_update; [apply Hi|]. intros s' Hs'. simplify_eq. simpl.
    destruct (h_queue _ (inv_hub _ Hi) _ _ Hs). split_and!; try done.
    intros Hn. by destruct (h_unslotted _ (inv_hub _ Hi) _ _ Hs Hn) as [_ ->].
  - apply hub_le_update. intros s' Hs'. by split_and!.
  - intros i s' Hs'. rewrite Ht. simpl in *. apply lookup_alter_Some in Hs' as [(<- & s1 & Hs1 & ->)|[Hne Hs']].
    + simplify_eq. rewrite (decide_True (P := sid = sid)) by done. simpl.
      pose proof (inv_count _ Hi _ _ Hs) as Hc.
      pose proof (holders_put sid t (TReturned r) (threads y)) as Hp. rewrite Ht in Hp. simpl in Hp.
      rewrite (decide_True (P := sid = sid)) in Hp by done. lia.
    + rewrite decide_False by done. rewrite (inv_count _ Hi _ _ Hs'). lia.
Qed.

Lemma hub_ok_consume sid f h :
  hub_ok h →
  (∀ s, sessions h !! sid = Some s → session_le s (f s) ∧ inflight (f s) = inflight s ∧
     released (f s) = released s ∧ queue_size (f s) = queue_size s ∧
     ∃ taken, immediate s = taken ++ immediate (f s)) →
  (∀ s, inflight (f s) = inflight s) →
  hub_step h (update_session sid f h).
Proof.
  intros Hh Hf Hin. unfold hub_step. split_and!.
  - apply hub_ok_update; [done|]. intros s Hs.
    destruct (Hf _ Hs) as (Hle & Hi & Hr & Hq & taken & Himm).
    destruct (h_queue _ Hh _ _ Hs) as [Hlen Hall]. rewrite Himm, length_app in Hlen.
    rewrite Himm, Forall_app in Hall. rewrite Hi, Hq. split_and!; [done|done| |lia|apply Hall].
    intros Hn. by apply (h_unslotted _ Hh _ _ Hs).
  - apply hub_le_update. intros s Hs. by apply Hf.
  - by apply same_inflight_update.
Qed.

Lemma inv_release y t p sid i :
  inv y → threads y !! t = Some (TReleasing p sid i) →
  inv (put t (TDisconnected i) (update_session sid markReleased (hub y)) y).
Proof.
  intros Hi Ht. destruct (inv_threads _ Hi _ _ Ht) as (s & Hs & Hp & Hd).
  eapply inv_put_keep; [done|done|no_hold| |done]. unfold hub_step. split_and!.
  - apply hub_ok_update_flags; [apply Hi|]. intros s' Hs'. simplify_eq. split_and!; try done.
  - apply hub_le_update. intros s' Hs'. by split_and!.
  - by apply same_inflight_update.
Qed.

Lemma inv_step y y' : inv y → step y y' → inv y'.
Proof.
  intros Hi Hstep. pose proof (inv_hub _ Hi) as Hh. pose proof (hub_step_refl _ Hh) as Hsame.
  destruct Hstep as [| | | | |y t p v q a h' Ht Hr|y t p v q a sid h' Ht Hr| | | 
    |y t p sid i h' Ht Hd|y t p sid i s Ht Hs Hin| | | | | |y t p sid req o h' Ht Hp|
    y t p sid req Ht|y t p sid rc fr ex nw o h' Ht Hp|y t p sid rc fr ex nw Ht|y t p sid rc Ht| |
    y sid s fr rest Hs Him|y sid s Hs Hw|].
  1-4: eapply inv_put_keep; [done|done|no_hold|done|]; simpl; eauto.
  - by eapply inv_register.
  - rewrite (register_stale_ok _ _ _ _ _ Hr).
    eapply inv_put_keep; [done|done|no_hold|done|done].
  - destruct (register_wait_ok _ _ _ _ _ _ Hr) as (-> & Hd & s & Hs & _).
    pose proof (hub_step_retire retirementSuperseded sid _ Hh) as Hst.
    eapply inv_put_keep; [done|done|no_hold|done|].
    destruct (h_slot _ Hh _ _ Hd) as (s0 & Hs0 & Hp & _). simplify_eq. simpl.
    rewrite lookup_alter_eq, Hs. eexists. split; [done|]. apply retire_fields.
  - eapply inv_put_keep; [done|done|intros ?; by destruct (_ <? _)%nat|done|by destruct (_ <? _)%nat].
  - eapply inv_put_keep; [done|done|no_hold|done|done].
  - eapply inv_put_keep; [done|done|no_hold|done|done].
  - destruct (disconnect_locked_ok _ _ _ _ _ Hd) as (-> & Hdev).
    eapply inv_put_keep; [done|done|no_hold|by apply hub_step_retire|].
    destruct (h_slot _ Hh _ _ Hdev) as (s0 & Hs0 & Hp & _). simpl. rewrite lookup_alter_eq, Hs0.
    eexists. destruct (retire_fields retirementRevoked s0) as (? & _ & _ & _ & _ & ?).
    split_and!; [done|congruence|done].
  - destruct (inv_threads _ Hi _ _ Ht) as (s0 & Hs0 & Hp & Hr). simplify_eq.
    destruct (disconnect_finish_ok _ _ _ _ Hh Hs eq_refl Hr Hin) as [Hst Hgone].
    eapply inv_put_keep; [done|done|no_hold|done|]. simpl. by exists s.
  - by eapply inv_release.
  - eapply inv_put_keep; [done|done|no_hold|done|done].
  - eapply inv_put_keep; [done|done|no_hold|done|done].
  - eapply inv_put_keep; [done|done|no_hold|done|done].
  - by eapply inv_begin.
  - pose proof (perform_ok _ _ _ _ _ Hh Hp) as Hst.
    eapply inv_put_keep; [done|done|by intros ?|done|].
    eapply (thread_ok_le _ _ (TRunning p sid req)); [apply Hst|by apply (inv_threads _ Hi _ _ Ht)].
  - eapply inv_put_keep; [done|done|by intros ?|done|]. by apply (inv_threads _ Hi _ _ Ht).
  - pose proof (route_append_ok _ _ _ _ _ _ _ Hh Hp) as Hst.
    eapply inv_put_keep; [done|done|by intros ?|done|].
    eapply (thread_ok_le _ _ (TDone p sid o)); [apply Hst|by apply (inv_threads _ Hi _ _ Ht)].
  - eapply inv_put_keep; [done|done|by intros ?|done|]. by apply (inv_threads _ Hi _ _ Ht).
  - pose proof (wake_recipient_ok rc _ Hh) as Hst.
    eapply inv_put_keep; [done|done|by intros ?|done|].
    eapply (thread_ok_le _ _ (TDone p sid (Finish (Ok RepUnit)))); [apply Hst|].
    by apply (inv_threads _ Hi _ _ Ht).
  - by eapply inv_finish.
  - apply inv_hub_step; [done|]. apply hub_ok_consume; [done| |done]. intros s' Hs'. simplify_eq.
    simpl. split; [by split_and!|]. split_and!; try done. by exists [fr].
  - apply inv_hub_step; [done|]. apply hub_ok_consume; [done| |done]. intros s' Hs'. simplify_eq.
    simpl. split; [by split_and!|]. split_and!; try done. by exists [].
  - apply inv_hub_step; [done|]. by apply hub_step_store.
Qed.

Lemma inv_init st : inv (init st).
Proof. constructor; simpl; [constructor; simpl|..]; intros *; rewrite lookup_empty; done. Qed.

Lemma inv_reachable st y : reachable st y → inv y.
Proof.
  intros Hr. unfold reachable in Hr. pose proof (inv_init st) as Hi.
  induction Hr; eauto using inv_step.
Qed.

(** ** Steps only move sessions forward *)

Lemma step_hub_le y y' : inv y → step y y' → hub_le (hub y) (hub y').
Proof.
  intros Hi Hstep. pose proof (inv_hub _ Hi) as Hh.
  destruct Hstep; simpl; try apply hub_le_refl; try apply hub_le_store.
  - by eapply register_new_ok.
  - rewrite (register_stale_ok _ _ _ _ _ H1). apply hub_le_refl.
  - destruct (register_wait_ok _ _ _ _ _ _ H1) as (-> & _). by apply hub_step_retire.
  - destruct (disconnect_locked_ok _ _ _ _ _ H1) as (-> & _). by apply hub_step_retire.
  - destruct (inv_threads _ Hi _ _ H0) as (s0 & Hs0 & Hp & Hr). simplify_eq.
    destruct (disconnect_finish_ok _ _ _ _ Hh H1 eq_refl Hr H2) as [Hst _]. apply Hst.
  - apply hub_le_update. intros s' Hs'. by split_and!.
  - apply hub_le_update. intros s' Hs'. by split_and!.
  - by eapply perform_ok.
  - by eapply route_append_ok.
  - by apply wake_recipient_ok.
  - apply hub_le_update. intros s' Hs'. by split_and!.
  - apply hub_le_update. intros s' Hs'. by split_and!.
  - apply hub_le_update. intros s' Hs'. by split_and!.
Qed.

Lemma steps_hub_le y y' : inv y → rtc step y y' → hub_le (hub y) (hub y').
Proof.
  intros Hi Hr. induction Hr as [|x y z Hxy _ IH]; [apply hub_le_refl|].
  eapply hub_le_trans; [by eapply step_hub_le|]. eauto using inv_step.
Qed.

Lemma holders_pos sid t th ts : ts !! t = Some th → holds sid th → holders sid ts ≠ 0%nat.
Proof.
  intros Ht Hh Hz. apply map_size_empty_iff in Hz.
  assert (filter (λ x, holds sid x.2) ts !! t = Some th) as Hl
    by (apply map_lookup_filter_Some; done).
  rewrite Hz in Hl. by rewrite lookup_empty in Hl.
Qed.

(** A thread that holds the operation lock runs for the instance in the slot. *)
Lemma holder_slot y t th sid :
  inv y → threads y !! t = Some th → holds sid th →
  ∃ s, sessions (hub y) !! sid = Some s ∧ devices (hub y) !! session_peer s = Some sid ∧
       released s = false.
Proof.
  intros Hi Ht Hh.
  assert (∃ s, sessions (hub y) !! sid = Some s) as [s Hs].
  { pose proof (inv_threads _ Hi _ _ Ht) as Hok.
    destruct th; simpl in Hh; try done; subst; destruct Hok as (s & Hs & _); eauto. }
  exists s. split; [done|]. pose proof (inv_count _ Hi _ _ Hs) as Hc.
  pose proof (holders_pos _ _ _ _ Ht Hh).
  destruct (decide (devices (hub y) !! session_peer s = Some sid)) as [Hd|Hn].
  - split; [done|]. destruct (h_slot _ (inv_hub _ Hi) _ _ Hd) as (s0 & ? & _ & ?). by simplify_eq.
  - destruct (h_unslotted _ (inv_hub _ Hi) _ _ Hs Hn). lia.
Qed.

(** ** Draining *)

(** A step that only lets an operation or a retirement already under way go
    on: no new caller, no new admission, nothing of the environment. *)
Definition completing (th th' : thread) : Prop :=
  match th, th' with
  | TRunning _ _ _, TDone _ _ _ | TDone _ _ _, TDone _ _ _ | TDone _ _ _, TReturned _
  | TDraining _ _ _, TReleasing _ _ _ | TReleasing _ _ _, TDisconnected _ => True
  | _, _ => False
  end.

Definition complete_step (y y' : sys) : Prop :=
  step y y' ∧ ∃ t th th', threads y !! t = Some th ∧ threads y' !! t = Some th' ∧ completing th th'.

Lemma complete_steps_steps y y' : rtc complete_step y y' → rtc step y y'.
Proof. apply rtc_subrel. by intros ?? []. Qed.

Lemma complete_put y t th th' h' :
  threads y !! t = Some th → completing th th' → step y (put t th' h' y) →
  complete_step y (put t th' h' y).
Proof.
  intros Ht Hc Hs. split; [done|]. exists t, th, th'. simpl. by rewrite lookup_insert_eq.
Qed.

(** Every holder can return, and its return lowers the count by one. *)
Lemma done_returns y t p sid o :
  inv y → threads y !! t = Some (TDone p sid o) →
  ∃ y' r, rtc complete_step y y' ∧ threads y' !! t = Some (TReturned r) ∧
    (∀ t', t' ≠ t → threads y' !! t' = threads y !! t').
Proof.
  intros Hi Ht.
  assert (∀ y r, inv y → threads y !! t = Some (TDone p sid (Finish r)) →
    ∃ y', complete_step y y' ∧ threads y' !! t = Some (TReturned r) ∧
      (∀ t', t' ≠ t → threads y' !! t' = threads y !! t')) as Hfin.
  { clear. intros y r Hi Ht. destruct (inv_threads _ Hi _ _ Ht) as (s & Hs & _).
    eexists. split; [by eapply complete_put; [done| |by eapply S_finish]|]. simpl.
    rewrite lookup_insert_eq. split; [done|]. intros t' Ht'. by rewrite lookup_insert_ne. }
  assert (∀ o' h', step y (put t (TDone p sid o') h' y) → (∃ r, o' = Finish r) →
    ∃ y' r, rtc complete_step y y' ∧ threads y' !! t = Some (TReturned r) ∧
      (∀ t', t' ≠ t → threads y' !! t' = threads y !! t')) as Hone.
  { intros o' h' Hst [r ->]. destruct (Hfin (put t (TDone p sid (Finish r)) h' y) r)
      as (y' & Hst' & Hret & Hother); [by eapply inv_step|simpl; by rewrite lookup_insert_eq|].
    exists y', r. split; [|split; [done|]].
    - eapply rtc_l; [by eapply complete_put; [done| |done]|]. by apply rtc_once.
    - intros t' Hne. rewrite Hother by done. simpl. by rewrite lookup_insert_ne. }
  destruct o as [r|rc fr ex nw|rc].
  - destruct (Hfin _ _ Hi Ht) as (y' & Hst & Hret & Hother). exists y', r. split; [by apply rtc_once|done].
  - eapply Hone; [by eapply S_append_cancelled|by eexists].
  - eapply Hone; [by eapply S_wake|by eexists].
Qed.

Lemma holder_returns y t th sid :
  inv y → threads y !! t = Some th → holds sid th →
  ∃ y' r, rtc complete_step y y' ∧ threads y' !! t = Some (TReturned r) ∧
    (∀ t', t' ≠ t → threads y' !! t' = threads y !! t').
Proof.
  intros Hi Ht Hh. destruct th; simpl in Hh; try done; subst.
  - set (y1 := put t (TDone peer sid (Finish (Err ErrCanceled))) (hub y) y).
    assert (complete_step y y1) as Hst
      by (eapply complete_put; [done|done|by eapply S_perform_cancelled]).
    destruct (done_returns y1 t peer sid (Finish (Err ErrCanceled))) as (y' & r & Hrtc & Hret & Ho).
    { by eapply inv_step; [|apply Hst]. } { simpl. by rewrite lookup_insert_eq. }
    exists y', r. split_and!; [by eapply rtc_l|done|]. intros t' Hne. rewrite Ho by done. simpl.
    by rewrite lookup_insert_ne.
  - by eapply done_returns.
Qed.

Lemma drain_holders n y t p sid i :
  inv y → holders sid (threads y) = n → threads y !! t = Some (TDraining p sid i) →
  ∃ y', rtc complete_step y y' ∧ threads y' !! t = Some (TDraining p sid i) ∧
    holders sid (threads y') = 0%nat.
Proof.
  revert y. induction n as [|n IH]; intros y Hi Hn Ht; [by exists y; split_and!; [constructor|..]|].
  assert (∃ u th, threads y !! u = Some th ∧ holds sid th) as (u & th & Hu & Hh).
  { unfold holders in Hn. destruct (map_choose (filter (λ x, holds sid x.2) (threads y)))
      as (u & th & Hl).
    { intros He. rewrite He, map_size_empty in Hn. lia. }
    apply map_lookup_filter_Some in Hl as [Hl Hh]. by exists u, th. }
  assert (u ≠ t) by (intros ->; rewrite Ht in Hu; by simplify_eq).
  destruct (holder_returns _ _ _ _ Hi Hu Hh) as (y1 & r & Hrtc & Hret & Hother).
  assert (inv y1) as Hi1.
  { apply complete_steps_steps in Hrtc. clear -Hi Hrtc. induction Hrtc; eauto using inv_step. }
  assert (threads y1 = <[u := TReturned r]> (threads y)) as Hy1.
  { apply map_eq. intros k. destruct (decide (k = u)) as [->|Hk].
    - by rewrite lookup_insert_eq. - rewrite lookup_insert_ne by done. auto. }
  destruct (IH y1 Hi1) as (y2 & Hrtc2 & Ht2 & Hz).
  - pose proof (holders_put sid u (TReturned r) (threads y)) as Hp. rewrite <-Hy1, Hu, Hn in Hp.
    simpl in Hp. rewrite decide_True in Hp by done. lia.
  - by rewrite Hother.
  - exists y2. split; [by etrans|done].
Qed.

Lemma drain_release y t p sid i :
  inv y → threads y !! t = Some (TDraining p sid i) →
  ∃ y', rtc complete_step y y' ∧ threads y' !! t = Some (TDisconnected i) ∧
    ∃ s, sessions (hub y') !! sid = Some s ∧ released s = true.
Proof.
  intros Hi Ht. destruct (drain_holders _ _ _ _ _ _ Hi eq_refl Ht) as (y1 & Hrtc & Ht1 & Hz).
  assert (inv y1) as Hi1.
  { apply complete_steps_steps in Hrtc. clear -Hi Hrtc. induction Hrtc; eauto using inv_step. }
  destruct (inv_threads _ Hi1 _ _ Ht1) as (s & Hs & Hp & Hr).
  pose proof (inv_count _ Hi1 _ _ Hs) as Hc. rewrite Hz in Hc.
  set (y2 := put t (TReleasing p sid i) (disconnect_finish p sid (hub y1)) y1).
  set (y3 := put t (TDisconnected i) (update_session sid markReleased (hub y2)) y2).
  assert (complete_step y1 y2) as H12
    by (eapply complete_put; [done|done|by eapply S_disconnect_finish]).
  assert (complete_step y2 y3) as H23.
  { eapply complete_put; [simpl; by rewrite lookup_insert_eq|done|].
    eapply S_disconnect_release. simpl. by rewrite lookup_insert_eq. }
  exists y3. split; [|split].
  - etrans; [done|]. eapply rtc_l; [done|]. by apply rtc_once.
  - simpl. by rewrite lookup_insert_eq.
  - simpl. rewrite lookup_alter_eq, Hs. by eexists.
Qed.

(** ** Only [Register] supersedes *)

(** Nothing is retired. *)
Definition quiet (h h' : Hub) : Prop :=
  ∀ sid s s', sessions h !! sid = Some s → sessions h' !! sid = Some s' → retired s' = retired s.

Lemma quiet_refl h h' : sessions h' = sessions h → quiet h h'.
Proof. intros E sid s s' Hs. rewrite E, Hs. by intros [= ->]. Qed.
Lemma quiet_update sid f h :
  (∀ s, retired (f s) = retired s) → quiet h (update_session sid f h).
Proof.
  intros Hf i s s' Hs Hs'. simpl in Hs'.
  apply lookup_alter_Some in Hs' as [(<- & s0 & Hs0 & ->)|[_ Hs']]; simplify_eq; auto.
Qed.

Lemma perform_quiet peer req h o h' : perform peer req h = (o, h') → quiet h h'.
Proof.
  unfold perform, route_online.
  destruct req; repeat case_match; intros; simplify_eq; auto using quiet_refl;
    by apply quiet_update.
Qed.

Lemma wake_quiet p h : quiet h (wake_recipient p h).
Proof. unfold wake_recipient. repeat case_match; try by apply quiet_refl. by apply quiet_update. Qed.

Lemma retire_reason r s s' :
  retired s = None → s' = retire r s → retired s' = Some r.
Proof. unfold retire. by intros -> ->. Qed.

Lemma step_supersede y y' sid s s' :
  inv y → step y y' → sessions (hub y) !! sid = Some s → retired s = None →
  sessions (hub y') !! sid = Some s' → retired s' = Some retirementSuperseded →
  ∃ t v q a, threads y !! t = Some (TRegister (session_peer s) v q a) ∧ credentialVersion s ≤ v.
Proof.
  intros Hi Hstep Hs Hn Hs' Hr'. pose proof (inv_hub _ Hi) as Hh.
  assert (quiet (hub y) (hub y') → False) as Hq.
  { intros Hq. specialize (Hq _ _ _ Hs Hs'). congruence. }
  destruct Hstep as [| | | |y t p v q a sid' h' Ht Hr|y t p v q a h' Ht Hr|y t p v q a e h' Ht Hr| | |
    |y t p d i h' Ht Hr| | | | | |y|y|y|y t p d rc fr ex nw o h' Ht Hr| | | | | |];
    try (exfalso; apply Hq; by apply quiet_refl);
    try (exfalso; apply Hq; apply quiet_update; by intros).
  - exfalso. apply Hq. destruct (register_new_ok _ _ _ _ _ _ Hh Hr) as (_ & _ & _ & _ & E & Hf).
    intros i s0 s1 Hs0. simpl. rewrite E, lookup_insert_ne by congruence. rewrite Hs0. congruence.
  - exfalso. apply Hq. by rewrite (register_stale_ok _ _ _ _ _ Hr) in *; apply quiet_refl.
  - destruct (register_wait_ok _ _ _ _ _ _ Hr) as (-> & Hd & s0 & Hs0 & Hv).
    destruct (h_slot _ Hh _ _ Hd) as (s1 & Hs1 & Hp & _). simplify_eq. simpl in Hs'.
    apply lookup_alter_Some in Hs' as [(<- & s2 & Hs2 & ->)|[_ Hs']]; simplify_eq.
    by exists t, v, q, a.
  - destruct (disconnect_locked_ok _ _ _ _ _ Hr) as (-> & _). simpl in Hs'.
    apply lookup_alter_Some in Hs' as [(<- & s2 & Hs2 & ->)|[_ Hs']]; simplify_eq.
    by rewrite (retire_reason _ _ _ Hn eq_refl) in Hr'.
  - exfalso. apply Hq. by eapply perform_quiet.
  - exfalso. apply Hq. unfold route_append in Hr. repeat case_match; simplify_eq; by apply quiet_refl.
  - exfalso. apply Hq. apply wake_quiet.
Qed.

(** C5: at every moment, whatever the interleaving, work admitted for a device
    runs for the one connection instance that occupies the device's slot and
    has not been released; two admitted operations of the same device always
    belong to the same instance. *)
Theorem hub_operation_owns_slot st y t th sid :
  reachable st y → threads y !! t = Some th → holds sid th →
  ∃ s, sessions (hub y) !! sid = Some s ∧ devices (hub y) !! session_peer s = Some sid ∧
    released s = false ∧
    ∀ t2 th2 sid2 s2, threads y !! t2 = Some th2 → holds sid2 th2 →
      sessions (hub y) !! sid2 = Some s2 → session_peer s2 = session_peer s → sid2 = sid.
Proof.
  intros Hr Ht Hh. apply inv_reachable in Hr as Hi.
  destruct (holder_slot _ _ _ _ Hi Ht Hh) as (s & Hs & Hd & Hrel). exists s. split_and!; try done.
  intros t2 th2 sid2 s2 Ht2 Hh2 Hs2 Hp.
  destruct (holder_slot _ _ _ _ Hi Ht2 Hh2) as (s3 & Hs3 & Hd3 & _). simplify_eq.
  rewrite Hp in Hd3. congruence.
Qed.

(** C9: a connection takes a device's slot only after every earlier instance of
    that device is retired and all the work admitted for it has returned. *)
Theorem hub_handover_drained st y t p v q a sid h' :
  reachable st y → threads y !! t = Some (TRegister p v q a) →
  register_locked p v q (hub y) = (RegNew sid, h') →
  ∀ old s, sessions (hub y) !! old = Some s → session_peer s = p →
    retired s ≠ None ∧ inflight s = 0%nat ∧
    ∀ t' th, threads y !! t' = Some th → ¬ holds old th.
Proof.
  intros Hr Ht Hreg old s Hs Hp. apply inv_reachable in Hr as Hi.
  destruct (register_new_ok _ _ _ _ _ _ (inv_hub _ Hi) Hreg) as (_ & _ & _ & Hnone & _).
  destruct (h_unslotted _ (inv_hub _ Hi) _ _ Hs) as [Hret Hin]; [rewrite Hp, Hnone; done|].
  split_and!; try done. intros t' th Ht' Hh.
  apply (holders_pos _ _ _ _ Ht' Hh). by rewrite <-(inv_count _ Hi _ _ Hs).
Qed.

(** An instance keeps its identity and credential version; a retirement is
    final and keeps its first reason; a retired instance is never admitted to
    another operation; a released instance stays released. *)
Theorem hub_retirement_final st y y' sid s :
  reachable st y → rtc step y y' → sessions (hub y) !! sid = Some s →
  ∃ s', sessions (hub y') !! sid = Some s' ∧ session_peer s' = session_peer s ∧
    credentialVersion s' = credentialVersion s ∧
    (∀ r, retired s = Some r →
       retired s' = Some r ∧ session_active (session_peer s) sid (hub y') = false) ∧
    (released s = true → released s' = true ∧ devices (hub y') !! session_peer s ≠ Some sid).
Proof.
  intros Hr Hsteps Hs. apply inv_reachable in Hr as Hi.
  destruct (steps_hub_le _ _ Hi Hsteps _ _ Hs) as ((s' & Hs' & Hp & Hv & Hret & Hrel) & Hd).
  exists s'. split_and!; try done.
  - intros r Hrs. split; [auto|]. unfold session_active. rewrite Hs', (Hret _ Hrs).
    by rewrite (bool_decide_eq_false_2 (Some r = None)), andb_false_r.
  - intros Hrl. split; [auto|]. apply Hd. intros Hslot.
    destruct (h_slot _ (inv_hub _ Hi) _ _ Hslot) as (s0 & Hs0 & _ & ?). congruence.
Qed.

(** An instance is superseded only by a registration of the same device
    whose credential version is at least its own, so a stale credential never
    displaces a newer one. *)
Theorem hub_supersede_version st y y' sid s s' :
  reachable st y → step y y' →
  sessions (hub y) !! sid = Some s → retired s = None →
  sessions (hub y') !! sid = Some s' → retired s' = Some retirementSuperseded →
  ∃ t v q a, threads y !! t = Some (TRegister (session_peer s) v q a) ∧ credentialVersion s ≤ v.
Proof. intros Hr. apply inv_reachable in Hr. by apply step_supersede. Qed.

(** An online queue never exceeds the size it was registered with, and
    every frame in it is a well-formed envelope whose routing header is valid
    and names the queue's own device as the recipient, in its own workspace. *)
Theorem hub_queue_addressed st y sid s :
  reachable st y → sessions (hub y) !! sid = Some s →
  (length (immediate s) ≤ queue_size s)%nat ∧
  ∀ f, f ∈ immediate s → ∃ frame header,
    EnvelopeFrame.Decode f = Ok frame ∧
    RoutingHeader.Decode (FrameRoutingHeader frame) = Ok header ∧
    session_peer s = (WorkspaceID header, RecipientDeviceID header).
Proof.
  intros Hr Hs. apply inv_reachable in Hr as Hi.
  destruct (h_queue _ (inv_hub _ Hi) _ _ Hs) as [Hlen Hall]. split; [done|].
  intros f Hf. rewrite Forall_forall in Hall. destruct (Hall _ Hf) as (sender & header & Hv).
  destruct (validateRoutedEnvelope_ok _ _ _ _ Hv) as (frame & ? & ? & _ & ?).
  by exists frame, header.
Qed.

(** A retirement cannot get stuck: from every reachable state, letting the
    operations already admitted and the [Disconnect] itself run to their end
    (no new admission is needed or possible) releases the instance. *)
Theorem hub_drain_completes st y t p sid i :
  reachable st y → threads y !! t = Some (TDraining p sid i) →
  ∃ y', rtc complete_step y y' ∧ threads y' !! t = Some (TDisconnected i) ∧
    ∃ s, sessions (hub y') !! sid = Some s ∧ released s = true.
Proof. intros Hr. apply inv_reachable in Hr. by apply drain_release. Qed.
End Hub.

(** ** Witnesses

    A run over the delivery tables: device A connects, starts a write, is
    superseded by a newer connection, drains, and the newer one takes the
    slot; then device B sends A an envelope. *)

#[local] Instance tables_store : RelayStore Tables := {
  rs_authorized := λ _ _, Ok true;
  rs_append := AppendDelivery (λ _, true);
  rs_resume := ResumeDeliveries (λ _, true);
  rs_read := ReadDeliveries;
  rs_ack := AcknowledgeDelivery (λ _, true)
}.

Definition peerA : PeerIdentity := (repeat Byte.x11 16, repeat Byte.x33 16).
Definition peerB : PeerIdentity := (repeat Byte.x11 16, repeat Byte.x22 16).
Definition run0 : sys := init empty_tables.
Definition run1 : sys := put 0 (TRegister peerA 1 4 0) (hub run0) run0.
Definition run2 : sys := put 0 (TRegistered peerA 0) (register_locked peerA 1 4 (hub run1)).2 run1.
Definition run3 : sys := put 1 (TBegin peerA 0 ReqWrite) (hub run2) run2.
Definition run4 : sys :=
  put 1 (TRunning peerA 0 ReqWrite) (update_session 0 (set_inflight 1) (hub run3)) run3.
Definition run5 : sys := put 2 (TRegister peerA 2 4 0) (hub run4) run4.
Definition run6 : sys := put 2 (TAwait peerA 2 4 0 0) (register_locked peerA 2 4 (hub run5)).2 run5.
Definition run7 : sys := put 3 (TDisconnect peerA 0) (hub run6) run6.
Definition run8 : sys := put 3 (TDraining peerA 0 false)
  (update_session 0 (retire retirementRevoked) (hub run7)) run7.
Definition run9 : sys := put 1 (TDone peerA 0 (Finish (Ok RepUnit))) (hub run8) run8.
Definition run10 : sys :=
  put 1 (TReturned (Ok RepUnit)) (update_session 0 (set_inflight 0) (hub run9)) run9.
Definition run11 : sys :=
  put 3 (TReleasing peerA 0 false) (disconnect_finish peerA 0 (hub run10)) run10.
Definition run12 : sys := put 3 (TDisconnected false) (update_session 0 markReleased (hub run11)) run11.
Definition run13 : sys := put 2 (TRegister peerA 2 4 1) (hub run12) run12.

Lemma pair_fst {A B} (x : A * B) a : x.1 = a → x = (a, x.2).
Proof. destruct x. by intros <-. Qed.

Ltac run_eval := vm_compute; reflexivity.

Lemma run2_reachable : reachable empty_tables run2.
Proof.
  apply (rtc_r _ run1); [apply rtc_once; apply (S_call_register run0 0 peerA 1 4); run_eval|].
  apply (S_register_new run1 0 peerA 1 4 0); [run_eval|]. apply pair_fst. run_eval.
Qed.

Lemma run4_reachable : reachable empty_tables run4.
Proof.
  apply (rtc_r _ run3); [apply (rtc_r _ run2); [exact run2_reachable|]|].
  - apply (S_call_operation run2 1 peerA 0 (newDeviceSession peerA 1 4)); run_eval.
  - apply (S_begin run3 1 peerA 0 ReqWrite (newDeviceSession peerA 1 4)); run_eval.
Qed.

Lemma run5_step : step run4 run5.
Proof. apply (S_call_register run4 2 peerA 2 4); run_eval. Qed.

Lemma run6_step : step run5 run6.
Proof. apply (S_register_wait run5 2 peerA 2 4 0); [run_eval|]. apply pair_fst. run_eval. Qed.

Lemma run8_reachable : reachable empty_tables run8.
Proof.
  apply (rtc_r _ run7); [apply (rtc_r _ run6); [apply (rtc_r _ run5); [apply (rtc_r _ run4);
    [exact run4_reachable|]|]|]|].
  - exact run5_step.
  - exact run6_step.
  - eapply (S_call_disconnect run6 3 peerA 0); run_eval.
  - apply (S_disconnect_retire run7 3 peerA 0 false); [run_eval|].
    unfold disconnect_locked. replace (devices (hub run7) !! peerA) with (Some 0%nat) by run_eval.
    rewrite decide_True by done.
    destruct (sessions (hub run7) !! 0%nat) as [s|] eqn:Hs; [|vm_compute in Hs; discriminate Hs].
    f_equal. f_equal. vm_compute in Hs. injection Hs as <-. run_eval.
Qed.

Lemma run13_reachable : reachable empty_tables run13.
Proof.
  apply (rtc_r _ run12); [apply (rtc_r _ run11); [apply (rtc_r _ run10); [apply (rtc_r _ run9);
    [apply (rtc_r _ run8); [exact run8_reachable|]|]|]|]|].
  - apply (S_perform run8 1 peerA 0 ReqWrite); [run_eval|reflexivity].
  - apply (S_finish run9 1 peerA 0 (Ok RepUnit)
      (retire retirementSuperseded (set_inflight 1 (newDeviceSession peerA 1 4)))); run_eval.
  - eapply (S_disconnect_finish run10 3 peerA 0 false); run_eval.
  - apply (S_disconnect_release run11 3 peerA 0 false); run_eval.
  - eapply (S_await_released run12 2 peerA 2 4 0 0); run_eval.
Qed.

Definition run3b : sys := put 4 (TRegister peerB 1 1 0) (hub run2) run2.
Definition run4b : sys := put 4 (TRegistered peerB 1) (register_locked peerB 1 1 (hub run3b)).2 run3b.
Definition send : request := ReqRouteOnline sample_envelope.
Definition run5b : sys := put 5 (TBegin peerB 1 send) (hub run4b) run4b.
Definition run6b : sys :=
  put 5 (TRunning peerB 1 send) (update_session 1 (set_inflight 1) (hub run5b)) run5b.
Definition run7b : sys :=
  put 5 (TDone peerB 1 (Finish (Ok RepUnit))) (perform peerB send (hub run6b)).2 run6b.

Lemma run7b_reachable : reachable empty_tables run7b.
Proof.
  apply (rtc_r _ run6b); [apply (rtc_r _ run5b); [apply (rtc_r _ run4b); [apply (rtc_r _ run3b);
    [apply (rtc_r _ run2); [exact run2_reachable|]|]|]|]|].
  - apply (S_call_register run2 4 peerB 1 1); run_eval.
  - apply (S_register_new run3b 4 peerB 1 1 0); [run_eval|]. apply pair_fst. run_eval.
  - apply (S_call_operation run4b 5 peerB 1 (newDeviceSession peerB 1 1)); run_eval.
  - apply (S_begin run5b 5 peerB 1 send (newDeviceSession peerB 1 1)); run_eval.
  - apply (S_perform run6b 5 peerB 1 send); [run_eval|]. apply pair_fst. run_eval.
Qed.

Lemma hub_operation_owns_slot_witness :
  threads run8 !! 1%nat = Some (TRunning peerA 0 ReqWrite) ∧
  ∃ s, sessions (hub run8) !! 0%nat = Some s ∧ devices (hub run8) !! session_peer s = Some 0%nat ∧
    released s = false.
Proof.
  split; [run_eval|].
  destruct (hub_operation_owns_slot empty_tables run8 1 (TRunning peerA 0 ReqWrite) 0
    run8_reachable ltac:(run_eval) eq_refl) as (s & Hs & Hd & Hr & _).
  exists s. auto.
Defined.

Lemma hub_handover_drained_witness :
  (register_locked peerA 2 4 (hub run13)).1 = RegNew 1 ∧
  ∃ s, sessions (hub run13) !! 0%nat = Some s ∧ retired s ≠ None ∧ inflight s = 0%nat.
Proof.
  assert ((register_locked peerA 2 4 (hub run13)).1 = RegNew 1) as Hreg by run_eval.
  split; [exact Hreg|].
  destruct (sessions (hub run13) !! 0%nat) as [s|] eqn:Hs; [|vm_compute in Hs; discriminate Hs].
  exists s. split; [reflexivity|].
  destruct (hub_handover_drained empty_tables run13 2 peerA 2 4 1 1 _ run13_reachable
    ltac:(run_eval) (pair_fst _ _ Hreg) 0 s Hs ltac:(vm_compute in Hs; injection Hs as <-; run_eval))
    as (? & ? & _). auto.
Defined.

Lemma hub_retirement_final_witness :
  ∃ s', sessions (hub run6) !! 0%nat = Some s' ∧ session_peer s' = peerA ∧ credentialVersion s' = 1.
Proof.
  destruct (hub_retirement_final empty_tables run5 run6 0
    (set_inflight 1 (newDeviceSession peerA 1 4))
    (rtc_r _ _ _ run4_reachable run5_step) (rtc_once _ _ run6_step) ltac:(run_eval))
    as (s' & Hs & Hp & Hv & _).
  exists s'. auto.
Defined.

Lemma hub_supersede_version_witness :
  ∃ t v q a, threads run5 !! t = Some (TRegister peerA v q a) ∧ 1 ≤ v.
Proof.
  apply (hub_supersede_version empty_tables run5 run6 0
    (set_inflight 1 (newDeviceSession peerA 1 4))
    (retire retirementSuperseded (set_inflight 1 (newDeviceSession peerA 1 4)))
    (rtc_r _ _ _ run4_reachable run5_step) run6_step); run_eval.
Defined.

Lemma hub_queue_addressed_witness :
  (immediate <$> (sessions (hub run7b) !! 0%nat)) = Some [sample_envelope] ∧
  ∃ frame header, EnvelopeFrame.Decode sample_envelope = Ok frame ∧
    RoutingHeader.Decode (FrameRoutingHeader frame) = Ok header ∧
    peerA = (WorkspaceID header, RecipientDeviceID header).
Proof.
  split; [run_eval|].
  destruct (hub_queue_addressed empty_tables run7b 0 (push_immediate sample_envelope
    (newDeviceSession peerA 1 4)) run7b_reachable ltac:(run_eval)) as [_ Hall].
  apply (Hall sample_envelope). simpl. apply list_elem_of_singleton. reflexivity.
Defined.

Lemma hub_drain_completes_witness :
  threads run8 !! 1%nat = Some (TRunning peerA 0 ReqWrite) ∧
  ∃ y', rtc complete_step run8 y' ∧ threads y' !! 3%nat = Some (TDisconnected false) ∧
    ∃ s, sessions (hub y') !! 0%nat = Some s ∧ released s = true.
Proof.
  split; [run_eval|].
  apply (hub_drain_completes empty_tables run8 3 peerA 0 false run8_reachable). run_eval.
Defined.
