(* ===== verification/MembershipCodec.v ===== *)
(** Membership messages (protocol/membershipcodec/membership.go): challenges,
    proofs, device certificates, workspace rosters and authority transitions;
    their validation, signatures and canonical encoding.

    The messages are the records protoc generates from membership.proto:
    unsigned integers and open enums are [Z], a sub-message is an [option], the
    elements of a repeated message are present, and every message keeps the
    unknown fields it was parsed with. The protobuf runtime is a parameter
    ([Wire]), with its round-trip law ([WireLaws]); so is the Ed25519 signature
    scheme ([Ed25519], [Ed25519Laws]). *)

From S2P Require Import Prelude GoStd.

Definition ProtocolVersion : Z := 1.
Definition IdentifierSize : Z := 16.
Definition DigestSize : Z := 32.
Definition P256PublicKeySize : Z := 65.
Definition Ed25519SignatureSize : Z := 64.
Definition MaxDisplayNameBytes : Z := 100.
Definition MaxMembershipMessageSize : Z := 2 ^ 20.
Definition MaxActiveCertificates : Z := 256.
Definition MaxCertificateTransitions : Z := 256.
Definition MaxRevocations : Z := 4096.
Definition MaxChallengeLifetime : Z := 10 * Minute.
Definition PublicKeySize : Z := 32.
Definition PrivateKeySize : Z := 64.

Definition domain (s : string) : bytes := bs s ++ [Byte.x00].
Definition possessionHPKEInfoDomain := domain "SyncNotifications-membership-possession-hpke-info-v1".
Definition challengeDigestDomain :=
  domain "SyncNotifications-membership-possession-challenge-digest-v1".
Definition certificateIDDomain := domain "SyncNotifications-membership-device-certificate-id-v1".
Definition certificateSignatureDomain :=
  domain "SyncNotifications-membership-device-certificate-signature-v1".
Definition rosterDigestDomain := domain "SyncNotifications-membership-workspace-roster-digest-v1".
Definition rosterSignatureDomain :=
  domain "SyncNotifications-membership-workspace-roster-signature-v1".
Definition authorityTransitionDigestDomain :=
  domain "SyncNotifications-membership-authority-transition-digest-v1".
Definition authorityTransitionOldSignatureDomain :=
  domain "SyncNotifications-membership-authority-transition-old-signature-v1".
Definition authorityTransitionNewSignatureDomain :=
  domain "SyncNotifications-membership-authority-transition-new-signature-v1".

(** ** Messages *)

Record IdentityPossessionChallenge : Type := mkChallenge {
  ch_protocol_version : Z;
  ch_workspace_id : bytes;
  ch_device_id : bytes;
  ch_identity_key_id : bytes;
  ch_challenge_secret : bytes;
  ch_issued_at_unix_ms : Z;
  ch_expires_at_unix_ms : Z;
  ch_unknown : bytes
}.

Record PendingIdentityProof : Type := mkProof {
  pr_protocol_version : Z;
  pr_workspace_id : bytes;
  pr_device_id : bytes;
  pr_identity_key_id : bytes;
  pr_challenge_digest : bytes;
  pr_challenge_secret : bytes;
  pr_unknown : bytes
}.

Definition DEVICE_TYPE_ANDROID : Z := 1.
Definition DEVICE_TYPE_CHROME : Z := 2.
Definition DEVICE_ROLE_UNSPECIFIED : Z := 0.
Definition DEVICE_ROLE_SEND_NOTIFICATIONS : Z := 1.
Definition DEVICE_ROLE_RECEIVE_NOTIFICATIONS : Z := 2.
Definition DEVICE_ROLE_INVOKE_NOTIFICATION_ACTIONS : Z := 3.
Definition DEVICE_ROLE_MANAGE_DEVICES : Z := 4.
Definition REASON_DISPLAY_NAME : Z := 1.

Record DeviceCertificate : Type := mkCertificate {
  dc_protocol_version : Z;
  dc_workspace_id : bytes;
  dc_device_id : bytes;
  dc_device_type : Z;
  dc_display_name : bytes;
  dc_roles : list Z;
  dc_identity_public_key : bytes;
  dc_identity_key_id : bytes;
  dc_issued_at_unix_ms : Z;
  dc_expires_at_unix_ms : Z;
  dc_membership_epoch : Z;
  dc_unknown : bytes
}.

Record SignedDeviceCertificate : Type := mkSignedCertificate {
  sc_certificate : option DeviceCertificate;
  sc_certificate_id : bytes;
  sc_authority_signature : bytes;
  sc_unknown : bytes
}.

Record RevokedCertificate : Type := mkRevoked {
  rv_certificate_id : bytes;
  rv_device_id : bytes;
  rv_revoked_at_unix_ms : Z;
  rv_unknown : bytes
}.

Record DeviceCertificateTransition : Type := mkTransition {
  tr_protocol_version : Z;
  tr_workspace_id : bytes;
  tr_device_id : bytes;
  tr_previous_certificate_id : bytes;
  tr_new_certificate_id : bytes;
  tr_activation_roster_epoch : Z;
  tr_previous_roster_digest : bytes;
  tr_reason : Z;
  tr_issued_at_unix_ms : Z;
  tr_unknown : bytes
}.

Record WorkspaceRoster : Type := mkRoster {
  ro_protocol_version : Z;
  ro_workspace_id : bytes;
  ro_roster_epoch : Z;
  ro_previous_roster_digest : bytes;
  ro_active_certificates : list SignedDeviceCertificate;
  ro_revocations : list RevokedCertificate;
  ro_certificate_transitions : list DeviceCertificateTransition;
  ro_unknown : bytes
}.

Record SignedWorkspaceRoster : Type := mkSignedRoster {
  sr_roster : option WorkspaceRoster;
  sr_roster_digest : bytes;
  sr_authority_signature : bytes;
  sr_unknown : bytes
}.

Record AuthorityKeyTransition : Type := mkAuthorityTransition {
  at_protocol_version : Z;
  at_workspace_id : bytes;
  at_transition_epoch : Z;
  at_previous_transition_digest : bytes;
  at_previous_authority_public_key : bytes;
  at_new_authority_public_key : bytes;
  at_activation_roster_epoch : Z;
  at_previous_roster_digest : bytes;
  at_issued_at_unix_ms : Z;
  at_unknown : bytes
}.

Record SignedAuthorityKeyTransition : Type := mkSignedAuthorityTransition {
  sat_transition : option AuthorityKeyTransition;
  sat_transition_digest : bytes;
  sat_previous_authority_signature : bytes;
  sat_new_authority_signature : bytes;
  sat_unknown : bytes
}.

#[export] Instance cert_eq_dec : EqDecision DeviceCertificate.
Proof. solve_decision. Defined.

(** What the Go field types guarantee, and no unknown fields. *)
Definition is_u32 (z : Z) : Prop := 0 ≤ z < 2 ^ 32.
Definition is_i32 (z : Z) : Prop := - 2 ^ 31 ≤ z < 2 ^ 31.
Definition challenge_typed (m : IdentityPossessionChallenge) : Prop :=
  is_u32 (ch_protocol_version m) ∧ is_u64 (ch_issued_at_unix_ms m) ∧
  is_u64 (ch_expires_at_unix_ms m).
Definition proof_typed (m : PendingIdentityProof) : Prop := is_u32 (pr_protocol_version m).
Definition cert_typed (m : DeviceCertificate) : Prop :=
  is_u32 (dc_protocol_version m) ∧ is_i32 (dc_device_type m) ∧ Forall is_i32 (dc_roles m) ∧
  is_u64 (dc_issued_at_unix_ms m) ∧ is_u64 (dc_expires_at_unix_ms m) ∧
  is_u64 (dc_membership_epoch m).
Definition opt_typed {A} (P : A → Prop) (o : option A) : Prop :=
  match o with Some a => P a | None => True end.
Definition signed_cert_typed (m : SignedDeviceCertificate) : Prop :=
  opt_typed cert_typed (sc_certificate m).
Definition revoked_typed (m : RevokedCertificate) : Prop := is_u64 (rv_revoked_at_unix_ms m).
Definition transition_typed (m : DeviceCertificateTransition) : Prop :=
  is_u32 (tr_protocol_version m) ∧ is_u64 (tr_activation_roster_epoch m) ∧ is_i32 (tr_reason m) ∧
  is_u64 (tr_issued_at_unix_ms m).
Definition roster_typed (m : WorkspaceRoster) : Prop :=
  is_u32 (ro_protocol_version m) ∧ is_u64 (ro_roster_epoch m) ∧
  Forall signed_cert_typed (ro_active_certificates m) ∧
  Forall revoked_typed (ro_revocations m) ∧
  Forall transition_typed (ro_certificate_transitions m).
Definition signed_roster_typed (m : SignedWorkspaceRoster) : Prop :=
  opt_typed roster_typed (sr_roster m).
Definition authority_transition_typed (m : AuthorityKeyTransition) : Prop :=
  is_u32 (at_protocol_version m) ∧ is_u64 (at_transition_epoch m) ∧
  is_u64 (at_activation_roster_epoch m) ∧ is_u64 (at_issued_at_unix_ms m).
Definition signed_authority_transition_typed (m : SignedAuthorityKeyTransition) : Prop :=
  opt_typed authority_transition_typed (sat_transition m).

Definition opt_all {A} (P : A → Prop) (o : option A) : Prop :=
  match o with Some a => P a | None => True end.
Definition signed_cert_known (m : SignedDeviceCertificate) : Prop :=
  sc_unknown m = [] ∧ opt_all (λ c, dc_unknown c = []) (sc_certificate m).
Definition roster_known (m : WorkspaceRoster) : Prop :=
  ro_unknown m = [] ∧ Forall signed_cert_known (ro_active_certificates m) ∧
  Forall (λ r, rv_unknown r = []) (ro_revocations m) ∧
  Forall (λ t, tr_unknown t = []) (ro_certificate_transitions m).

(** ** The protobuf runtime and the signature scheme *)

Class Proto (M : Type) : Type := {
  Marshal : M → option bytes;
  Unmarshal : bytes → option M
}.

Class Wire : Type := {
  wire_challenge :: Proto IdentityPossessionChallenge;
  wire_proof :: Proto PendingIdentityProof;
  wire_cert :: Proto DeviceCertificate;
  wire_signed_cert :: Proto SignedDeviceCertificate;
  wire_roster :: Proto WorkspaceRoster;
  wire_signed_roster :: Proto SignedWorkspaceRoster;
  wire_authority :: Proto AuthorityKeyTransition;
  wire_signed_authority :: Proto SignedAuthorityKeyTransition
}.

(** Unmarshalling yields values of the Go field types, and a message without
    unknown fields survives marshalling. *)
Definition proto_law {M} `{Proto M} (typed known : M → Prop) : Prop :=
  (∀ b m, Unmarshal b = Some m → typed m) ∧
  (∀ m b, typed m → known m → Marshal m = Some b → Unmarshal b = Some m).

Class WireLaws `{Wire} : Prop := {
  challenge_law : proto_law challenge_typed (λ m, ch_unknown m = []);
  proof_law : proto_law proof_typed (λ m, pr_unknown m = []);
  signed_cert_law : proto_law signed_cert_typed signed_cert_known;
  signed_roster_law : proto_law signed_roster_typed
    (λ m, sr_unknown m = [] ∧ opt_all roster_known (sr_roster m));
  signed_authority_law : proto_law signed_authority_transition_typed
    (λ m, sat_unknown m = [] ∧ opt_all (λ t, at_unknown t = []) (sat_transition m))
}.

Class Ed25519 : Type := {
  ed_Sign : bytes → bytes → bytes;
  ed_Verify : bytes → bytes → bytes → bool;
  ed_key_pair : bytes → Prop
}.

(** [PrivateKey.Public]: the second half of the 64-byte private key. *)
Definition ed_Public (sk : bytes) : bytes := drop 32 sk.

(** A generated private key signs 64-byte signatures its public key verifies. *)
Class Ed25519Laws `{Ed25519} : Prop := {
  ed_sign_length sk m : blen (ed_Sign sk m) = Ed25519SignatureSize;
  ed_sign_verify sk m : ed_key_pair sk → ed_Verify (ed_Public sk) m (ed_Sign sk m) = true
}.

(** ** Encoding *)

Definition domainBytes (d encoded : bytes) : bytes := d ++ encoded.
Definition domainHash (d encoded : bytes) : bytes := Sum256 (domainBytes d encoded).

Section Encode.
Context {M : Type} `{Proto M}.

Definition size_out_of_range (b : bytes) : bool :=
  (blen b =? 0) || (blen b >? MaxMembershipMessageSize).

Definition encode (value : M) : result bytes :=
  match Marshal value with
  | None => Err (New "encode membership message")
  | Some encoded =>
      fail_if size_out_of_range encoded with_msg "membership message size is out of range" in
      Ok encoded
  end.

Definition decodeCanonical (encoded : bytes) : result M :=
  fail_if size_out_of_range encoded with_msg "membership message size is out of range" in
  match Unmarshal encoded with
  | None => Err (New "decode membership message")
  | Some value =>
      match Marshal value with
      | None => Err (New "re-encode membership message")
      | Some canonical =>
          fail_if negb (beq canonical encoded)
            with_msg "membership message is not canonically encoded" in
          Ok value
      end
  end.

Lemma encode_ok v b : encode v = Ok b ↔ Marshal v = Some b ∧ size_out_of_range b = false.
Proof.
  unfold encode. destruct (Marshal v) as [e|]; [|naive_solver].
  rewrite fail_if_Ok. split; [intros [? [= ->]]; auto|intros [[= ->] ?]; auto].
Qed.

Lemma decodeCanonical_ok b v :
  decodeCanonical b = Ok v ↔
  size_out_of_range b = false ∧ Unmarshal b = Some v ∧ Marshal v = Some b.
Proof.
  unfold decodeCanonical. rewrite fail_if_Ok.
  destruct (Unmarshal b) as [m|]; [|naive_solver].
  destruct (Marshal m) as [c|] eqn:Hm; [|naive_solver].
  rewrite fail_if_Ok. split.
  - intros (? & Hb & [= <-]). go_bool. subst. auto.
  - intros (? & [= <-] & Hc). rewrite Hm in Hc. injection Hc as <-. by rewrite beq_refl.
Qed.

(** A decoded message re-encodes to the same bytes. *)
Lemma decode_encode b v : decodeCanonical b = Ok v → encode v = Ok b.
Proof. rewrite decodeCanonical_ok, encode_ok. tauto. Qed.

Lemma encode_decode typed known v b :
  proto_law typed known → typed v → known v → encode v = Ok b → decodeCanonical b = Ok v.
Proof. intros [_ Hrt] Ht Hk. rewrite encode_ok, decodeCanonical_ok. intros [? ?]. auto. Qed.
End Encode.

(** ** Validation *)

Definition validateBinding (workspaceID deviceID identityKeyID : bytes) : result unit :=
  guard_err (negb (blen workspaceID =? IdentifierSize) || allBytesZero workspaceID ||
             negb (blen deviceID =? IdentifierSize) || allBytesZero deviceID ||
             negb (blen identityKeyID =? DigestSize) || allBytesZero identityKeyID)
    "workspace, device, and identity key binding is invalid".

Definition validateChallenge (value : IdentityPossessionChallenge) : result unit :=
  fail_if negb (blen (ch_unknown value) =? 0)
    with_msg "identity possession challenge is missing or contains unknown fields" in
  fail_if negb (ch_protocol_version value =? ProtocolVersion)
    with_msg "identity possession challenge protocol version is unsupported" in
  let? _ := validateBinding (ch_workspace_id value) (ch_device_id value)
              (ch_identity_key_id value) in
  fail_if negb (blen (ch_challenge_secret value) =? DigestSize) ||
          allBytesZero (ch_challenge_secret value)
    with_msg "identity possession challenge secret must be a non-zero 32-byte value" in
  guard_err ((ch_issued_at_unix_ms value =? 0) || (ch_issued_at_unix_ms value >? MaxInt64) ||
             (ch_expires_at_unix_ms value <=? ch_issued_at_unix_ms value) ||
             (ch_expires_at_unix_ms value >? MaxInt64) ||
             (u64 (ch_expires_at_unix_ms value - ch_issued_at_unix_ms value) >?
                MaxChallengeLifetime / Millisecond))
    "identity possession challenge lifetime is invalid".

Definition validateProof (value : PendingIdentityProof) : result unit :=
  fail_if negb (blen (pr_unknown value) =? 0)
    with_msg "pending identity proof is missing or contains unknown fields" in
  fail_if negb (pr_protocol_version value =? ProtocolVersion)
    with_msg "pending identity proof protocol version is unsupported" in
  let? _ := validateBinding (pr_workspace_id value) (pr_device_id value)
              (pr_identity_key_id value) in
  guard_err (negb (blen (pr_challenge_digest value) =? DigestSize) ||
             allBytesZero (pr_challenge_digest value) ||
             negb (blen (pr_challenge_secret value) =? DigestSize) ||
             allBytesZero (pr_challenge_secret value))
    "pending identity proof digest and secret must be non-zero 32-byte values".

(** The role loop: supported and strictly increasing. *)
Fixpoint check_roles (previousRole : Z) (roles : list Z) : result unit :=
  match roles with
  | [] => Ok tt
  | role :: rest =>
      fail_if (role <? DEVICE_ROLE_SEND_NOTIFICATIONS) || (role >? DEVICE_ROLE_MANAGE_DEVICES) ||
              (role <=? previousRole)
        with_msg "device certificate roles must be supported, unique, and strictly sorted" in
      check_roles role rest
  end.

Definition validateDeviceCertificate (v : option DeviceCertificate) : result unit :=
  match v with
  | None => Err (New "device certificate is missing or contains unknown fields")
  | Some value =>
      fail_if negb (blen (dc_unknown value) =? 0)
        with_msg "device certificate is missing or contains unknown fields" in
      fail_if negb (dc_protocol_version value =? ProtocolVersion)
        with_msg "device certificate protocol version is unsupported" in
      let? _ := validateBinding (dc_workspace_id value) (dc_device_id value)
                  (dc_identity_key_id value) in
      fail_if negb (dc_device_type value =? DEVICE_TYPE_ANDROID) &&
              negb (dc_device_type value =? DEVICE_TYPE_CHROME)
        with_msg "device certificate type is unsupported" in
      let name := dc_display_name value in
      fail_if negb (utf8_ValidString name) || beq (TrimSpace name) [] ||
              (blen name >? MaxDisplayNameBytes)
        with_msg "device display name must be valid non-blank UTF-8 within size limit" in
      let roles := dc_roles value in
      fail_if (Z.of_nat (length roles) =? 0)
        with_msg "device certificate requires at least one role" in
      let? _ := check_roles DEVICE_ROLE_UNSPECIFIED roles in
      let publicKey := dc_identity_public_key value in
      fail_if negb (blen publicKey =? P256PublicKeySize)
        with_msg "device identity public key must be a 65-byte P-256 point" in
      fail_if (match P256_Unmarshal publicKey with None => true | Some _ => false end)
        with_msg "device identity public key is not a valid P-256 point" in
      fail_if negb (beq (dc_identity_key_id value) (Sum256 publicKey))
        with_msg "device identity key ID must equal SHA-256 of the public key" in
      guard_err ((dc_issued_at_unix_ms value =? 0) || (dc_issued_at_unix_ms value >? MaxInt64) ||
                 (dc_expires_at_unix_ms value >? MaxInt64) ||
                 (negb (dc_expires_at_unix_ms value =? 0) &&
                  (dc_expires_at_unix_ms value <=? dc_issued_at_unix_ms value)) ||
                 (dc_membership_epoch value =? 0) || (dc_membership_epoch value >? MaxInt64))
        "device certificate time or membership epoch is invalid"
  end.

Definition validateAuthorityKeyTransition (v : option AuthorityKeyTransition)
  (previousKey newKey : bytes) : result unit :=
  match v with
  | None => Err (New "authority transition is missing or contains unknown fields")
  | Some value =>
      fail_if negb (blen (at_unknown value) =? 0)
        with_msg "authority transition is missing or contains unknown fields" in
      fail_if negb (at_protocol_version value =? ProtocolVersion) ||
              negb (blen (at_workspace_id value) =? IdentifierSize) ||
              allBytesZero (at_workspace_id value)
        with_msg "authority transition version or workspace is invalid" in
      fail_if (at_transition_epoch value <? 2) || (at_transition_epoch value >? MaxInt64)
        with_msg "authority transition epoch is invalid" in
      let previousDigest := at_previous_transition_digest value in
      fail_if negb (blen previousDigest =? DigestSize) ||
              ((at_transition_epoch value =? 2) && negb (allBytesZero previousDigest)) ||
              ((at_transition_epoch value >? 2) && allBytesZero previousDigest)
        with_msg "authority transition previous digest is invalid for its epoch" in
      fail_if negb (blen previousKey =? PublicKeySize) || negb (blen newKey =? PublicKeySize) ||
              negb (beq previousKey (at_previous_authority_public_key value)) ||
              negb (beq newKey (at_new_authority_public_key value)) || beq previousKey newKey ||
              allBytesZero previousKey || allBytesZero newKey
        with_msg "authority transition key binding is invalid" in
      guard_err ((at_activation_roster_epoch value <? 2) ||
                 (at_activation_roster_epoch value >? MaxInt64) ||
                 negb (blen (at_previous_roster_digest value) =? DigestSize) ||
                 allBytesZero (at_previous_roster_digest value) ||
                 (at_issued_at_unix_ms value =? 0) || (at_issued_at_unix_ms value >? MaxInt64))
        "authority transition roster binding or time is invalid"
  end.

Definition protected_fields (c : DeviceCertificate) : DeviceCertificate :=
  mkCertificate (dc_protocol_version c) (dc_workspace_id c) (dc_device_id c) (dc_device_type c)
    [] (dc_roles c) (dc_identity_public_key c) (dc_identity_key_id c) 0
    (dc_expires_at_unix_ms c) 0 (dc_unknown c).

Definition ValidateDisplayNameCertificateTransition (previous current : SignedDeviceCertificate)
  (transition : DeviceCertificateTransition) : result unit :=
  match sc_certificate previous, sc_certificate current with
  | Some oldCertificate, Some newCertificate =>
      fail_if negb (beq (tr_workspace_id transition) (dc_workspace_id oldCertificate)) ||
              negb (beq (tr_device_id transition) (dc_device_id oldCertificate)) ||
              negb (beq (dc_workspace_id oldCertificate) (dc_workspace_id newCertificate)) ||
              negb (beq (dc_device_id oldCertificate) (dc_device_id newCertificate)) ||
              negb (beq (tr_previous_certificate_id transition) (sc_certificate_id previous)) ||
              negb (beq (tr_new_certificate_id transition) (sc_certificate_id current)) ||
              negb (tr_reason transition =? REASON_DISPLAY_NAME) ||
              beq (dc_display_name oldCertificate) (dc_display_name newCertificate) ||
              negb (dc_membership_epoch newCertificate =? tr_activation_roster_epoch transition) ||
              negb (dc_issued_at_unix_ms newCertificate =? tr_issued_at_unix_ms transition)
        with_msg "device display-name transition binding is invalid" in
      guard_err (negb (bool_decide
                         (protected_fields oldCertificate = protected_fields newCertificate)))
        "display-name transition changes protected certificate fields"
  | _, _ => Err (New "device display-name transition binding is invalid")
  end.

Definition PossessionHPKEInfo (workspaceID deviceID identityKeyID : bytes) : result bytes :=
  let? _ := validateBinding workspaceID deviceID identityKeyID in
  Ok (possessionHPKEInfoDomain ++ workspaceID ++ deviceID ++ identityKeyID).

Section Signed.
Context `{Wire, Ed25519}.

Definition validateSignedDeviceCertificate (value : SignedDeviceCertificate)
  (authorityPublicKey : bytes) : result unit :=
  fail_if negb (blen (sc_unknown value) =? 0)
    with_msg "signed device certificate is missing or contains unknown fields" in
  fail_if negb (blen authorityPublicKey =? PublicKeySize)
    with_msg "authority public key must be Ed25519" in
  let? _ := validateDeviceCertificate (sc_certificate value) in
  match sc_certificate value with
  | None => Err (New "device certificate is missing or contains unknown fields")
  | Some certificate =>
      let? encoded := encode certificate in
      fail_if negb (beq (sc_certificate_id value) (domainHash certificateIDDomain encoded))
        with_msg "device certificate ID does not match canonical certificate" in
      guard_err (negb (blen (sc_authority_signature value) =? Ed25519SignatureSize) ||
                 negb (ed_Verify authorityPublicKey
                         (domainBytes certificateSignatureDomain encoded)
                         (sc_authority_signature value)))
        "device certificate authority signature is invalid"
  end.

(** The certificate loop of [validateWorkspaceRoster]: the previous device ID,
    the set of active certificate IDs and the certificate of each device. *)
Fixpoint check_certificates (value : WorkspaceRoster) (authorityPublicKey : bytes)
  (previousDeviceID : option bytes) (ids : gset bytes) (byDevice : gmap bytes SignedDeviceCertificate)
  (certificates : list SignedDeviceCertificate)
  : result (gset bytes * gmap bytes SignedDeviceCertificate) :=
  match certificates with
  | [] => Ok (ids, byDevice)
  | certificate :: rest =>
      let? _ := validateSignedDeviceCertificate certificate authorityPublicKey in
      match sc_certificate certificate with
      | None => Err (New "device certificate is missing or contains unknown fields")
      | Some body =>
          fail_if negb (beq (dc_workspace_id body) (ro_workspace_id value)) ||
                  (dc_membership_epoch body >? ro_roster_epoch value)
            with_msg "active certificate is not bound to the workspace roster" in
          fail_if (match previousDeviceID with
                   | Some p => negb (bytes_lt p (dc_device_id body))
                   | None => false
                   end)
            with_msg "active certificates must be unique and strictly sorted by device ID" in
          check_certificates value authorityPublicKey (Some (dc_device_id body))
            ({[sc_certificate_id certificate]} ∪ ids)
            (<[dc_device_id body := certificate]> byDevice) rest
      end
  end.

Fixpoint check_transitions (value : WorkspaceRoster)
  (byDevice : gmap bytes SignedDeviceCertificate) (previousDeviceID : option bytes)
  (transitions : list DeviceCertificateTransition) : result unit :=
  match transitions with
  | [] => Ok tt
  | transition :: rest =>
      fail_if negb (blen (tr_unknown transition) =? 0) ||
              negb (tr_protocol_version transition =? ProtocolVersion) ||
              negb (beq (tr_workspace_id transition) (ro_workspace_id value)) ||
              negb (blen (tr_device_id transition) =? IdentifierSize) ||
              allBytesZero (tr_device_id transition) ||
              negb (blen (tr_previous_certificate_id transition) =? DigestSize) ||
              allBytesZero (tr_previous_certificate_id transition) ||
              negb (blen (tr_new_certificate_id transition) =? DigestSize) ||
              allBytesZero (tr_new_certificate_id transition) ||
              beq (tr_previous_certificate_id transition) (tr_new_certificate_id transition) ||
              negb (tr_activation_roster_epoch transition =? ro_roster_epoch value) ||
              negb (beq (tr_previous_roster_digest transition) (ro_previous_roster_digest value)) ||
              negb (tr_reason transition =? REASON_DISPLAY_NAME) ||
              (tr_issued_at_unix_ms transition =? 0) ||
              (tr_issued_at_unix_ms transition >? MaxInt64)
        with_msg "workspace roster contains an invalid certificate transition" in
      fail_if (match previousDeviceID with
               | Some p => negb (bytes_lt p (tr_device_id transition))
               | None => false
               end)
        with_msg "certificate transitions must be unique and strictly sorted by device ID" in
      fail_if (match byDevice !! tr_device_id transition with
               | Some active => negb (beq (sc_certificate_id active)
                                         (tr_new_certificate_id transition))
               | None => true
               end)
        with_msg "certificate transition does not identify the active replacement certificate" in
      check_transitions value byDevice (Some (tr_device_id transition)) rest
  end.

Fixpoint check_revocations (ids : gset bytes) (previousCertificateID : option bytes)
  (revocations : list RevokedCertificate) : result unit :=
  match revocations with
  | [] => Ok tt
  | revocation :: rest =>
      fail_if negb (blen (rv_unknown revocation) =? 0) ||
              negb (blen (rv_certificate_id revocation) =? DigestSize) ||
              allBytesZero (rv_certificate_id revocation) ||
              negb (blen (rv_device_id revocation) =? IdentifierSize) ||
              allBytesZero (rv_device_id revocation) ||
              (rv_revoked_at_unix_ms revocation =? 0) ||
              (rv_revoked_at_unix_ms revocation >? MaxInt64)
        with_msg "workspace roster contains an invalid revocation" in
      fail_if (match previousCertificateID with
               | Some p => negb (bytes_lt p (rv_certificate_id revocation))
               | None => false
               end)
        with_msg "workspace roster revocations must be unique and strictly sorted by certificate ID" in
      fail_if bool_decide (rv_certificate_id revocation ∈ ids)
        with_msg "workspace roster cannot revoke an active certificate" in
      check_revocations ids (Some (rv_certificate_id revocation)) rest
  end.

Definition validateWorkspaceRoster (v : option WorkspaceRoster) (authorityPublicKey : bytes)
  : result unit :=
  match v with
  | None => Err (New "workspace roster is missing or contains unknown fields")
  | Some value =>
      fail_if negb (blen (ro_unknown value) =? 0)
        with_msg "workspace roster is missing or contains unknown fields" in
      fail_if negb (ro_protocol_version value =? ProtocolVersion) ||
              negb (blen (ro_workspace_id value) =? IdentifierSize) ||
              allBytesZero (ro_workspace_id value) ||
              (ro_roster_epoch value =? 0) || (ro_roster_epoch value >? MaxInt64)
        with_msg "workspace roster version, workspace, or epoch is invalid" in
      let previousDigest := ro_previous_roster_digest value in
      fail_if negb (blen previousDigest =? DigestSize) ||
              ((ro_roster_epoch value =? 1) && negb (allBytesZero previousDigest)) ||
              ((ro_roster_epoch value >? 1) && allBytesZero previousDigest)
        with_msg "workspace roster previous digest is invalid for its epoch" in
      let certificates := ro_active_certificates value in
      fail_if (Z.of_nat (length certificates) >? MaxActiveCertificates)
        with_msg "workspace roster has too many active certificates" in
      let? '(ids, byDevice) :=
        check_certificates value authorityPublicKey None ∅ ∅ certificates in
      let transitions := ro_certificate_transitions value in
      fail_if (Z.of_nat (length transitions) >? MaxCertificateTransitions) ||
              ((ro_roster_epoch value =? 1) && negb (Z.of_nat (length transitions) =? 0))
        with_msg "workspace roster certificate transitions are invalid for its epoch" in
      let? _ := check_transitions value byDevice None transitions in
      let revocations := ro_revocations value in
      fail_if (Z.of_nat (length revocations) >? MaxRevocations)
        with_msg "workspace roster has too many revocations" in
      check_revocations ids None revocations
  end.

Definition validateSignedWorkspaceRoster (value : SignedWorkspaceRoster)
  (authorityPublicKey : bytes) : result unit :=
  fail_if negb (blen (sr_unknown value) =? 0)
    with_msg "signed workspace roster is missing or contains unknown fields" in
  fail_if negb (blen authorityPublicKey =? PublicKeySize)
    with_msg "authority public key must be Ed25519" in
  let? _ := validateWorkspaceRoster (sr_roster value) authorityPublicKey in
  match sr_roster value with
  | None => Err (New "workspace roster is missing or contains unknown fields")
  | Some roster =>
      let? encoded := encode roster in
      fail_if negb (beq (sr_roster_digest value) (domainHash rosterDigestDomain encoded))
        with_msg "workspace roster digest does not match canonical roster" in
      guard_err (negb (blen (sr_authority_signature value) =? Ed25519SignatureSize) ||
                 negb (ed_Verify authorityPublicKey (domainBytes rosterSignatureDomain encoded)
                         (sr_authority_signature value)))
        "workspace roster authority signature is invalid"
  end.

Definition validateSignedAuthorityKeyTransition (value : SignedAuthorityKeyTransition)
  : result unit :=
  fail_if negb (blen (sat_unknown value) =? 0)
    with_msg "signed authority transition is missing or contains unknown fields" in
  match sat_transition value with
  | None => Err (New "authority transition is missing")
  | Some transition =>
      let previousKey := at_previous_authority_public_key transition in
      let newKey := at_new_authority_public_key transition in
      let? _ := validateAuthorityKeyTransition (Some transition) previousKey newKey in
      let? encoded := encode transition in
      fail_if negb (beq (sat_transition_digest value)
                      (domainHash authorityTransitionDigestDomain encoded))
        with_msg "authority transition digest does not match canonical transition" in
      fail_if negb (blen (sat_previous_authority_signature value) =? Ed25519SignatureSize) ||
              negb (ed_Verify previousKey
                      (domainBytes authorityTransitionOldSignatureDomain encoded)
                      (sat_previous_authority_signature value))
        with_msg "previous authority transition signature is invalid" in
      guard_err (negb (blen (sat_new_authority_signature value) =? Ed25519SignatureSize) ||
                 negb (ed_Verify newKey
                         (domainBytes authorityTransitionNewSignatureDomain encoded)
                         (sat_new_authority_signature value)))
        "new authority transition signature is invalid"
  end.

(** ** Operations *)

Definition EncodeIdentityPossessionChallenge (value : IdentityPossessionChallenge)
  : result bytes :=
  let? _ := validateChallenge value in encode value.

Definition DecodeIdentityPossessionChallenge (encoded : bytes)
  : result IdentityPossessionChallenge :=
  let? value := decodeCanonical encoded in
  let? _ := validateChallenge value in
  Ok value.

Definition EncodePendingIdentityProof (value : PendingIdentityProof) : result bytes :=
  let? _ := validateProof value in encode value.

Definition DecodePendingIdentityProof (encoded : bytes) : result PendingIdentityProof :=
  let? value := decodeCanonical encoded in
  let? _ := validateProof value in
  Ok value.

Definition ChallengeDigest (challenge : IdentityPossessionChallenge) : result bytes :=
  let? encoded := EncodeIdentityPossessionChallenge challenge in
  Ok (domainHash challengeDigestDomain encoded).

Definition ValidateProofAgainstChallenge (proof : PendingIdentityProof)
  (challenge : IdentityPossessionChallenge) : result unit :=
  let? _ := validateProof proof in
  let? digest := ChallengeDigest challenge in
  guard_err (negb (beq (pr_workspace_id proof) (ch_workspace_id challenge)) ||
             negb (beq (pr_device_id proof) (ch_device_id challenge)) ||
             negb (beq (pr_identity_key_id proof) (ch_identity_key_id challenge)) ||
             negb (beq (pr_challenge_digest proof) digest) ||
             negb (beq (pr_challenge_secret proof) (ch_challenge_secret challenge)))
    "pending identity proof does not match the challenge".

Definition SignDeviceCertificate (certificate : DeviceCertificate) (authorityPrivateKey : bytes)
  : result SignedDeviceCertificate :=
  let? _ := validateDeviceCertificate (Some certificate) in
  fail_if negb (blen authorityPrivateKey =? PrivateKeySize)
    with_msg "authority private key must be Ed25519" in
  let? encoded := encode certificate in
  Ok (mkSignedCertificate (Some certificate) (domainHash certificateIDDomain encoded)
        (ed_Sign authorityPrivateKey (domainBytes certificateSignatureDomain encoded)) []).

Definition EncodeSignedDeviceCertificate (value : SignedDeviceCertificate)
  (authorityPublicKey : bytes) : result bytes :=
  let? _ := validateSignedDeviceCertificate value authorityPublicKey in encode value.

Definition DecodeSignedDeviceCertificate (encoded authorityPublicKey : bytes)
  : result SignedDeviceCertificate :=
  let? value := decodeCanonical encoded in
  let? _ := validateSignedDeviceCertificate value authorityPublicKey in
  Ok value.

Definition SignWorkspaceRoster (roster : WorkspaceRoster) (authorityPrivateKey : bytes)
  : result SignedWorkspaceRoster :=
  fail_if negb (blen authorityPrivateKey =? PrivateKeySize)
    with_msg "authority private key must be Ed25519" in
  let publicKey := ed_Public authorityPrivateKey in
  let? _ := validateWorkspaceRoster (Some roster) publicKey in
  let? encoded := encode roster in
  Ok (mkSignedRoster (Some roster) (domainHash rosterDigestDomain encoded)
        (ed_Sign authorityPrivateKey (domainBytes rosterSignatureDomain encoded)) []).

Definition EncodeSignedWorkspaceRoster (value : SignedWorkspaceRoster)
  (authorityPublicKey : bytes) : result bytes :=
  let? _ := validateSignedWorkspaceRoster value authorityPublicKey in encode value.

Definition DecodeSignedWorkspaceRoster (encoded authorityPublicKey : bytes)
  : result SignedWorkspaceRoster :=
  let? value := decodeCanonical encoded in
  let? _ := validateSignedWorkspaceRoster value authorityPublicKey in
  Ok value.

Definition SignAuthorityKeyTransition (transition : AuthorityKeyTransition)
  (previousAuthorityPrivateKey newAuthorityPrivateKey : bytes)
  : result SignedAuthorityKeyTransition :=
  fail_if negb (blen previousAuthorityPrivateKey =? PrivateKeySize) ||
          negb (blen newAuthorityPrivateKey =? PrivateKeySize)
    with_msg "authority transition private keys must be Ed25519" in
  let previousPublicKey := ed_Public previousAuthorityPrivateKey in
  let newPublicKey := ed_Public newAuthorityPrivateKey in
  let? _ := validateAuthorityKeyTransition (Some transition) previousPublicKey newPublicKey in
  let? encoded := encode transition in
  Ok (mkSignedAuthorityTransition (Some transition)
        (domainHash authorityTransitionDigestDomain encoded)
        (ed_Sign previousAuthorityPrivateKey
           (domainBytes authorityTransitionOldSignatureDomain encoded))
        (ed_Sign newAuthorityPrivateKey
           (domainBytes authorityTransitionNewSignatureDomain encoded)) []).

Definition EncodeSignedAuthorityKeyTransition (value : SignedAuthorityKeyTransition)
  : result bytes :=
  let? _ := validateSignedAuthorityKeyTransition value in encode value.

Definition DecodeSignedAuthorityKeyTransition (encoded : bytes)
  : result SignedAuthorityKeyTransition :=
  let? value := decodeCanonical encoded in
  let? _ := validateSignedAuthorityKeyTransition value in
  Ok value.

(** ** What validation accepts *)

Lemma nonempty_unknown u : negb (blen u =? 0) = false → u = [].
Proof. unfold blen. destruct u; [done|]. simpl. lia. Qed.

Lemma validateDeviceCertificate_ok c u :
  validateDeviceCertificate (Some c) = Ok u →
  dc_unknown c = [] ∧ blen (dc_workspace_id c) = IdentifierSize ∧
  blen (dc_device_id c) = IdentifierSize ∧
  is_Some (P256_Unmarshal (dc_identity_public_key c)) ∧
  dc_identity_key_id c = Sum256 (dc_identity_public_key c) ∧
  utf8_ValidString (dc_display_name c) = true ∧
  check_roles DEVICE_ROLE_UNSPECIFIED (dc_roles c) = Ok tt ∧ dc_roles c ≠ [] ∧
  1 ≤ dc_protocol_version c ≤ 1 ∧ (dc_device_type c = 1 ∨ dc_device_type c = 2) ∧
  dc_issued_at_unix_ms c ≤ MaxInt64 ∧ dc_expires_at_unix_ms c ≤ MaxInt64 ∧
  dc_membership_epoch c ≤ MaxInt64 ∧ dc_membership_epoch c ≠ 0.
Proof.
  unfold validateDeviceCertificate. intros Hv. go_inv.
  repeat match goal with x : unit |- _ => destruct x end.
  unfold validateBinding in *. go_inv. apply nonempty_unknown in Hg.
  unfold ProtocolVersion, DEVICE_TYPE_ANDROID, DEVICE_TYPE_CHROME in *.
  apply andb_false_iff in Hg1. rewrite !negb_false_iff, !Z.eqb_eq in Hg1.
  go_bool. split_and!; try done; try lia.
  - destruct (P256_Unmarshal _); [by eexists|done].
  - intros E. by rewrite E in *.
Qed.

(** The certificate loop accepts exactly a strictly sorted list of valid
    certificates bound to the roster, and collects their IDs and devices. *)
Definition cert_bound (value : WorkspaceRoster) (pk : bytes) (c : SignedDeviceCertificate)
  (body : DeviceCertificate) : Prop :=
  sc_certificate c = Some body ∧ validateSignedDeviceCertificate c pk = Ok tt ∧
  dc_workspace_id body = ro_workspace_id value ∧ dc_membership_epoch body ≤ ro_roster_epoch value.

Definition device_of (c : SignedDeviceCertificate) : bytes :=
  match sc_certificate c with Some b => dc_device_id b | None => [] end.

(** Strictly increasing, above an optional lower bound. *)
Definition increasing (lo : option bytes) (l : list bytes) : Prop :=
  StronglySorted (λ a b, bytes_lt a b = true) l ∧
  ∀ p, lo = Some p → Forall (λ x, bytes_lt p x = true) l.

Lemma increasing_cons lo x l :
  (∀ p, lo = Some p → bytes_lt p x = true) → increasing (Some x) l → increasing lo (x :: l).
Proof.
  intros Hlo [Hs Hx]. specialize (Hx _ eq_refl). split; [by constructor|].
  intros p Hp. constructor; [auto|]. eapply Forall_impl; [exact Hx|].
  intros y Hy. eapply bytes_lt_trans; [by apply Hlo|done].
Qed.

Lemma increasing_nil lo : increasing lo [].
Proof. split; [constructor|]. intros. constructor. Qed.

Lemma increasing_lt_elem x l y : increasing (Some x) l → y ∈ l → x ≠ y.
Proof.
  intros [_ Hx] Hy ->. specialize (Hx _ eq_refl). rewrite Forall_forall in Hx.
  specialize (Hx _ Hy). by rewrite bytes_lt_irrefl in Hx.
Qed.

Lemma check_certificates_ok value pk lo ids m cs ids' m' :
  check_certificates value pk lo ids m cs = Ok (ids', m') →
  Forall (λ c, ∃ b, cert_bound value pk c b) cs ∧ increasing lo (device_of <$> cs) ∧
  (∀ i, i ∈ ids' ↔ i ∈ ids ∨ i ∈ sc_certificate_id <$> cs) ∧
  (∀ d c, m' !! d = Some c → m !! d = Some c ∨ (c ∈ cs ∧ device_of c = d)).
Proof.
  revert lo ids m. induction cs as [|c cs IH]; simpl; intros lo ids m Hc.
  - go_inv. injection Hc as <- <-. split_and!; [constructor|apply increasing_nil|set_solver|auto].
  - go_inv. destruct v. destruct (sc_certificate c) as [body|] eqn:Hb; [|done]. go_inv.
    destruct (IH _ _ _ Hc) as (Hall & Hinc & Hids & Hm). go_bool.
    assert (device_of c = dc_device_id body) as Hdev by (unfold device_of; by rewrite Hb).
    split_and!.
    + constructor; [|done]. exists body. by split_and!.
    + rewrite Hdev. apply increasing_cons; [|done]. intros p ->. by go_bool.
    + intros i. rewrite Hids. set_solver.
    + intros d c' Hl. destruct (Hm _ _ Hl) as [Hi|[Hin Hd]]; [|right; set_solver].
      apply lookup_insert_Some in Hi as [[<- <-]|[_ Hi]]; [right; set_solver|auto].
Qed.

Definition transition_ok (value : WorkspaceRoster) (t : DeviceCertificateTransition) : Prop :=
  tr_unknown t = [] ∧ tr_protocol_version t = 1 ∧ tr_workspace_id t = ro_workspace_id value ∧
  tr_activation_roster_epoch t = ro_roster_epoch value ∧
  tr_previous_roster_digest t = ro_previous_roster_digest value ∧
  tr_previous_certificate_id t ≠ tr_new_certificate_id t ∧
  tr_reason t = REASON_DISPLAY_NAME ∧ tr_issued_at_unix_ms t ≠ 0 ∧ tr_issued_at_unix_ms t ≤ MaxInt64.

Lemma check_transitions_ok value m lo ts :
  check_transitions value m lo ts = Ok tt →
  Forall (transition_ok value) ts ∧ increasing lo (tr_device_id <$> ts) ∧
  Forall (λ t, ∃ c, m !! tr_device_id t = Some c ∧ sc_certificate_id c = tr_new_certificate_id t) ts.
Proof.
  revert lo. induction ts as [|t ts IH]; simpl; intros lo Hc.
  - split_and!; auto using increasing_nil.
  - go_inv. destruct (IH _ Hc) as (Hall & Hinc & Hnew). split_and!.
    + constructor; [|done]. clear -Hg. go_bool.
      unfold transition_ok, ProtocolVersion in *. split_and!; try done; try lia.
      apply nonempty_unknown. by apply negb_false_iff, Z.eqb_eq.
    + apply increasing_cons; [|done]. intros p ->. by go_bool.
    + constructor; [|done]. destruct (m !! tr_device_id t) as [c|]; [|done].
      exists c. go_bool. auto.
Qed.

Lemma check_revocations_ok ids lo rs :
  check_revocations ids lo rs = Ok tt →
  Forall (λ r, rv_unknown r = [] ∧ rv_certificate_id r ∉ ids ∧
               rv_revoked_at_unix_ms r ≠ 0 ∧ rv_revoked_at_unix_ms r ≤ MaxInt64) rs ∧
  increasing lo (rv_certificate_id <$> rs).
Proof.
  revert lo. induction rs as [|r rs IH]; simpl; intros lo Hc.
  - split; auto using increasing_nil.
  - go_inv. destruct (IH _ Hc) as (Hall & Hinc). split.
    + constructor; [|done]. clear -Hg Hg1. go_bool. split_and!; try done; try lia.
      apply nonempty_unknown. by apply negb_false_iff, Z.eqb_eq.
    + apply increasing_cons; [|done]. intros p ->. by go_bool.
Qed.

(** Everything an accepted roster promises. *)
Record roster_valid (pk : bytes) (r : WorkspaceRoster) : Prop := {
  rvd_known : ro_unknown r = [];
  rvd_version : ro_protocol_version r = ProtocolVersion;
  rvd_workspace : blen (ro_workspace_id r) = IdentifierSize ∧ allZero (ro_workspace_id r) = false;
  rvd_epoch : ro_roster_epoch r ≠ 0 ∧ ro_roster_epoch r ≤ MaxInt64;
  rvd_previous : blen (ro_previous_roster_digest r) = DigestSize ∧
    (ro_roster_epoch r = 1 → allZero (ro_previous_roster_digest r) = true) ∧
    (1 < ro_roster_epoch r → allZero (ro_previous_roster_digest r) = false);
  rvd_certs_bound : Forall (λ c, ∃ b, cert_bound r pk c b) (ro_active_certificates r);
  rvd_certs_sorted :
    StronglySorted (λ a b, bytes_lt a b = true) (device_of <$> ro_active_certificates r);
  rvd_transitions : Forall (transition_ok r) (ro_certificate_transitions r) ∧
    StronglySorted (λ a b, bytes_lt a b = true) (tr_device_id <$> ro_certificate_transitions r) ∧
    (ro_roster_epoch r = 1 → ro_certificate_transitions r = []);
  rvd_replacements : Forall (λ t, ∃ c, c ∈ ro_active_certificates r ∧ device_of c = tr_device_id t ∧
    sc_certificate_id c = tr_new_certificate_id t) (ro_certificate_transitions r);
  rvd_revocations : Forall (λ v, rv_unknown v = [] ∧ rv_revoked_at_unix_ms v ≠ 0 ∧
      rv_certificate_id v ∉ (sc_certificate_id <$> ro_active_certificates r)) (ro_revocations r) ∧
    StronglySorted (λ a b, bytes_lt a b = true) (rv_certificate_id <$> ro_revocations r);
  rvd_sizes : Z.of_nat (length (ro_active_certificates r)) ≤ MaxActiveCertificates ∧
    Z.of_nat (length (ro_certificate_transitions r)) ≤ MaxCertificateTransitions ∧
    Z.of_nat (length (ro_revocations r)) ≤ MaxRevocations
}.

Lemma digest_rule (epoch : Z) (d : bytes) :
  (epoch =? 1) && negb (allBytesZero d) = false → (epoch >? 1) && allBytesZero d = false →
  (epoch = 1 → allZero d = true) ∧ (1 < epoch → allZero d = false).
Proof.
  rewrite allBytesZero_allZero. destruct (allZero d); simpl; rewrite ?andb_true_r, ?andb_false_r;
    intros; go_bool; split; intros; try done; lia.
Qed.

Lemma validateWorkspaceRoster_ok r pk :
  validateWorkspaceRoster (Some r) pk = Ok tt → roster_valid pk r.
Proof.
  unfold validateWorkspaceRoster. intros Hv. go_inv. destruct v as [ids m]. go_inv.
  destruct v. destruct (check_certificates_ok _ _ _ _ _ _ _ _ Hr) as (Hb & [Hs _] & Hids & Hm).
  destruct (check_transitions_ok _ _ _ _ Hr0) as (Ht & [Hts _] & Hnew).
  destruct (check_revocations_ok _ _ _ Hv) as (Hrv & [Hrs _]).
  apply nonempty_unknown in Hg. rewrite allBytesZero_allZero in Hg0.
  apply orb_false_iff in Hg1 as [Hg1 Hd2]. apply orb_false_iff in Hg1 as [Hg1 Hd1].
  destruct (digest_rule _ _ Hd1 Hd2) as [Hz Hnz].
  apply orb_false_iff in Hg3 as [Hlt He1]. apply andb_false_iff in He1.
  go_bool. constructor; try done; try (split_and!; try done; lia).
  - split_and!; [done|done|]. intros E. destruct He1 as [He|He]; go_bool; [lia|].
    destruct (ro_certificate_transitions r); [done|simpl in He; lia].
  - eapply Forall_impl; [exact Hnew|]. intros t (c & Hl & Hid). exists c.
    destruct (Hm _ _ Hl) as [Hl'|[Hin Hd]]; [by rewrite lookup_empty in Hl'|auto].
  - split; [|done]. eapply Forall_impl; [exact Hrv|]. intros v (? & Hni & ? & ?).
    split_and!; try done. intros Hin. apply Hni, Hids. auto.
Qed.

Lemma validateSigned_cert_known c pk :
  validateSignedDeviceCertificate c pk = Ok tt → signed_cert_known c.
Proof.
  unfold validateSignedDeviceCertificate. intros Hv. go_inv. apply nonempty_unknown in Hg.
  split; [done|]. destruct (sc_certificate c) as [b|] eqn:E; [|done]. simpl in *.
  apply validateDeviceCertificate_ok in Hr. apply Hr.
Qed.

Lemma roster_valid_known pk r : roster_valid pk r → roster_known r.
Proof.
  intros []. split_and!; [done| | |].
  - eapply Forall_impl; [exact rvd_certs_bound0|]. intros c (b & _ & Hv & _).
    by eapply validateSigned_cert_known.
  - eapply Forall_impl; [apply rvd_revocations0|]. by intros v (? & _).
  - eapply Forall_impl; [apply rvd_transitions0|]. by intros v (? & _).
Qed.

(** Signed by the key, over the canonical bytes, with the digest of them. *)
Definition roster_signed (pk : bytes) (s : SignedWorkspaceRoster) (r : WorkspaceRoster) : Prop :=
  sr_roster s = Some r ∧ sr_unknown s = [] ∧ roster_valid pk r ∧
  ∃ e, encode r = Ok e ∧ sr_roster_digest s = domainHash rosterDigestDomain e ∧
    ed_Verify pk (domainBytes rosterSignatureDomain e) (sr_authority_signature s) = true.

Lemma validateSignedWorkspaceRoster_ok s pk :
  validateSignedWorkspaceRoster s pk = Ok tt → ∃ r, roster_signed pk s r.
Proof.
  unfold validateSignedWorkspaceRoster. intros Hv. go_inv. destruct v.
  destruct (sr_roster s) as [r|] eqn:E; [|done]. go_inv. apply nonempty_unknown in Hg. go_bool.
  exists r. split_and!; try done; [by apply validateWorkspaceRoster_ok|]. by exists v.
Qed.

Context `{!WireLaws, !Ed25519Laws}.

Lemma sign_length sk m : negb (blen (ed_Sign sk m) =? Ed25519SignatureSize) = false.
Proof. by rewrite ed_sign_length. Qed.

Lemma public_length sk :
  negb (blen sk =? PrivateKeySize) = false → negb (blen (ed_Public sk) =? PublicKeySize) = false.
Proof.
  unfold ed_Public, PrivateKeySize, PublicKeySize, blen. rewrite length_drop. intros. go_bool.
  apply negb_false_iff, Z.eqb_eq. lia.
Qed.

Lemma SignDeviceCertificate_valid c sk s :
  ed_key_pair sk → SignDeviceCertificate c sk = Ok s →
  validateSignedDeviceCertificate s (ed_Public sk) = Ok tt ∧ sc_certificate s = Some c.
Proof.
  intros Hk Hs. unfold SignDeviceCertificate in Hs. go_inv. subst s.
  unfold validateSignedDeviceCertificate.
  cbn [sc_unknown sc_certificate sc_certificate_id sc_authority_signature].
  rewrite (public_length _ Hg). change (negb (blen [] =? 0)) with false. cbn [rbind guard_err].
  rewrite Hr. cbn [rbind]. rewrite Hr0. cbn [rbind].
  rewrite beq_refl. cbn [negb guard_err rbind]. by rewrite sign_length, ed_sign_verify.
Qed.

Lemma SignWorkspaceRoster_valid r sk s :
  ed_key_pair sk → SignWorkspaceRoster r sk = Ok s →
  validateSignedWorkspaceRoster s (ed_Public sk) = Ok tt ∧ sr_roster s = Some r.
Proof.
  intros Hk Hs. unfold SignWorkspaceRoster in Hs. go_inv. subst s.
  unfold validateSignedWorkspaceRoster.
  cbn [sr_unknown sr_roster sr_roster_digest sr_authority_signature].
  rewrite (public_length _ Hg). change (negb (blen [] =? 0)) with false. cbn [rbind guard_err].
  rewrite Hr. cbn [rbind]. rewrite Hr0. cbn [rbind].
  rewrite beq_refl. cbn [negb guard_err rbind]. by rewrite sign_length, ed_sign_verify.
Qed.

Lemma validateAuthority_keys t pk nk u :
  validateAuthorityKeyTransition (Some t) pk nk = Ok u →
  at_previous_authority_public_key t = pk ∧ at_new_authority_public_key t = nk ∧ at_unknown t = [].
Proof.
  unfold validateAuthorityKeyTransition. intros Hv. go_inv. apply nonempty_unknown in Hg.
  clear -Hg Hg3. go_bool. auto.
Qed.

Lemma SignAuthorityKeyTransition_valid t sk nsk s :
  ed_key_pair sk → ed_key_pair nsk → SignAuthorityKeyTransition t sk nsk = Ok s →
  validateSignedAuthorityKeyTransition s = Ok tt ∧ sat_transition s = Some t.
Proof.
  intros Hk Hn Hs. unfold SignAuthorityKeyTransition in Hs. go_inv. subst s.
  destruct (validateAuthority_keys _ _ _ _ Hr) as (Hp & Hnk & _).
  unfold validateSignedAuthorityKeyTransition.
  cbn [sat_unknown sat_transition sat_transition_digest sat_previous_authority_signature
       sat_new_authority_signature].
  change (negb (blen [] =? 0)) with false. cbn [rbind guard_err]. rewrite Hp, Hnk, Hr. cbn [rbind].
  rewrite Hr0. cbn [rbind]. rewrite beq_refl. cbn [negb guard_err rbind].
  rewrite !sign_length, !ed_sign_verify by done. done.
Qed.

Lemma roster_roundtrip r sk s b :
  ed_key_pair sk → roster_typed r → SignWorkspaceRoster r sk = Ok s →
  EncodeSignedWorkspaceRoster s (ed_Public sk) = Ok b →
  DecodeSignedWorkspaceRoster b (ed_Public sk) = Ok s.
Proof.
  intros Hk Ht Hs He. destruct (SignWorkspaceRoster_valid _ _ _ Hk Hs) as [Hv Hro].
  unfold EncodeSignedWorkspaceRoster in He. rewrite Hv in He. cbn [rbind] in He.
  destruct (validateSignedWorkspaceRoster_ok _ _ Hv) as (r' & Hr' & Hu & Hval & _).
  unfold DecodeSignedWorkspaceRoster.
  rewrite (encode_decode _ _ s b signed_roster_law); [cbn [rbind]; by rewrite Hv| | |done].
  - unfold signed_roster_typed. by rewrite Hro.
  - rewrite Hr'. simpl. split; [done|]. by eapply roster_valid_known.
Qed.

(** Whatever the authority signs is accepted under its public key, and the
    encoded form of a signed certificate, roster or authority transition decodes
    to the same message. *)
Theorem signed_membership_roundtrip sk :
  ed_key_pair sk →
  (∀ c s b, cert_typed c → SignDeviceCertificate c sk = Ok s →
     EncodeSignedDeviceCertificate s (ed_Public sk) = encode s ∧
     (encode s = Ok b → DecodeSignedDeviceCertificate b (ed_Public sk) = Ok s)) ∧
  (∀ r s b, roster_typed r → SignWorkspaceRoster r sk = Ok s →
     EncodeSignedWorkspaceRoster s (ed_Public sk) = encode s ∧
     (encode s = Ok b → DecodeSignedWorkspaceRoster b (ed_Public sk) = Ok s)) ∧
  (∀ t nsk s b, ed_key_pair nsk → authority_transition_typed t →
     SignAuthorityKeyTransition t sk nsk = Ok s →
     EncodeSignedAuthorityKeyTransition s = encode s ∧
     (encode s = Ok b → DecodeSignedAuthorityKeyTransition b = Ok s)).
Proof.
  intros Hk. split_and!.
  - intros c s b Ht Hs. destruct (SignDeviceCertificate_valid _ _ _ Hk Hs) as [Hv Hc].
    unfold EncodeSignedDeviceCertificate, DecodeSignedDeviceCertificate. rewrite Hv.
    split; [done|]. intros He.
    rewrite (encode_decode _ _ s b signed_cert_law); [cbn [rbind]; by rewrite Hv| | |done].
    + unfold signed_cert_typed. by rewrite Hc.
    + by eapply validateSigned_cert_known.
  - intros r s b Ht Hs. destruct (SignWorkspaceRoster_valid _ _ _ Hk Hs) as [Hv _].
    assert (EncodeSignedWorkspaceRoster s (ed_Public sk) = encode s) as E
      by (unfold EncodeSignedWorkspaceRoster; by rewrite Hv).
    split; [done|]. intros He. eapply roster_roundtrip; [done|done|done|congruence].
  - intros t nsk s b Hn Ht Hs.
    destruct (SignAuthorityKeyTransition_valid _ _ _ _ Hk Hn Hs) as [Hv Hc].
    unfold EncodeSignedAuthorityKeyTransition, DecodeSignedAuthorityKeyTransition. rewrite Hv.
    split; [done|]. intros He.
    rewrite (encode_decode _ _ s b signed_authority_law); [cbn [rbind]; by rewrite Hv| | |done].
    + unfold signed_authority_transition_typed. by rewrite Hc.
    + rewrite Hc. unfold SignAuthorityKeyTransition in Hs. go_inv. subst s. simpl.
      split; [done|]. by eapply validateAuthority_keys.
Qed.

(** A membership message has one accepted byte string: what any decoder
    accepts, the matching encoder produces again, byte for byte. *)
Theorem membership_decode_canonical b :
  (∀ v, DecodeIdentityPossessionChallenge b = Ok v → EncodeIdentityPossessionChallenge v = Ok b) ∧
  (∀ v, DecodePendingIdentityProof b = Ok v → EncodePendingIdentityProof v = Ok b) ∧
  (∀ v pk, DecodeSignedDeviceCertificate b pk = Ok v → EncodeSignedDeviceCertificate v pk = Ok b) ∧
  (∀ v pk, DecodeSignedWorkspaceRoster b pk = Ok v → EncodeSignedWorkspaceRoster v pk = Ok b) ∧
  (∀ v, DecodeSignedAuthorityKeyTransition b = Ok v → EncodeSignedAuthorityKeyTransition v = Ok b).
Proof.
  split_and!;
    [ intros v Hd; unfold DecodeIdentityPossessionChallenge, EncodeIdentityPossessionChallenge in *
    | intros v Hd; unfold DecodePendingIdentityProof, EncodePendingIdentityProof in *
    | intros v pk Hd; unfold DecodeSignedDeviceCertificate, EncodeSignedDeviceCertificate in *
    | intros v pk Hd; unfold DecodeSignedWorkspaceRoster, EncodeSignedWorkspaceRoster in *
    | intros v Hd; unfold DecodeSignedAuthorityKeyTransition,
        EncodeSignedAuthorityKeyTransition in * ];
    go_inv; subst; rewrite Hr0; cbn [rbind]; by apply decode_encode.
Qed.

(** An accepted roster is well formed: active certificates strictly sorted
    by device, each signed by the authority and bound to the roster's workspace
    and epoch; each transition replaces a certificate that is active; no revoked
    certificate is active; the sizes are bounded; the genesis roster has the zero
    previous digest; and the digest and signature are over the canonical bytes. *)
Theorem decoded_roster_sound b pk s :
  DecodeSignedWorkspaceRoster b pk = Ok s →
  ∃ r, roster_signed pk s r ∧ 1 ≤ ro_roster_epoch r ≤ MaxInt64.
Proof.
  intros Hd. unfold DecodeSignedWorkspaceRoster in Hd. go_inv. subst. destruct v0.
  destruct (validateSignedWorkspaceRoster_ok _ _ Hr0) as (r & Hsig). exists r. split; [done|].
  destruct Hsig as (Hro & _ & Hval & _). apply decodeCanonical_ok in Hr as (_ & Hu & _).
  apply signed_roster_law in Hu. unfold signed_roster_typed in Hu. rewrite Hro in Hu.
  destruct Hu as (_ & He & _). unfold is_u64 in He. pose proof (rvd_epoch _ _ Hval). lia.
Qed.

(** The only proof a challenge accepts is the one made of the challenge's
    own binding, its digest and its secret. *)
Theorem possession_proof_unique proof challenge digest :
  ChallengeDigest challenge = Ok digest → allZero digest = false →
  ValidateProofAgainstChallenge proof challenge = Ok tt ↔
  proof = mkProof ProtocolVersion (ch_workspace_id challenge) (ch_device_id challenge)
            (ch_identity_key_id challenge) digest (ch_challenge_secret challenge) [].
Proof.
  intros Hd Hz. unfold ValidateProofAgainstChallenge. rewrite Hd. cbn [rbind]. split.
  - intros Hv. go_inv. unfold validateProof, validateBinding in Hr. go_inv.
    apply nonempty_unknown in Hg. go_bool. destruct proof. simpl in *. by subst.
  - intros ->. unfold ChallengeDigest in Hd. go_inv.
    unfold EncodeIdentityPossessionChallenge, validateChallenge in Hr. go_inv.
    unfold validateProof. cbn [pr_unknown pr_protocol_version pr_workspace_id pr_device_id
      pr_identity_key_id pr_challenge_digest pr_challenge_secret].
    change (negb (blen [] =? 0)) with false. cbn [rbind guard_err].
    change (negb (ProtocolVersion =? ProtocolVersion)) with false. cbn [rbind guard_err].
    match goal with Hb : validateBinding _ _ _ = Ok _ |- _ => rewrite Hb end. cbn [rbind].
    match goal with Hs : negb (blen (ch_challenge_secret _) =? _) || _ = false |- _ =>
      apply orb_false_iff in Hs as [-> ->] end.
    rewrite allBytesZero_allZero, Hz. subst digest. unfold domainHash, blen. rewrite Sum256_length.
    cbn. by rewrite !beq_refl.
Qed.

(** A display-name transition changes the display name, the issue time and
    the membership epoch of a certificate and nothing else; the new epoch and
    time are the transition's. *)
Theorem display_name_transition_protects previous current transition :
  ValidateDisplayNameCertificateTransition previous current transition = Ok tt →
  ∃ old new, sc_certificate previous = Some old ∧ sc_certificate current = Some new ∧
    new = mkCertificate (dc_protocol_version old) (dc_workspace_id old) (dc_device_id old)
            (dc_device_type old) (dc_display_name new) (dc_roles old)
            (dc_identity_public_key old) (dc_identity_key_id old)
            (tr_issued_at_unix_ms transition) (dc_expires_at_unix_ms old)
            (tr_activation_roster_epoch transition) (dc_unknown old) ∧
    dc_display_name new ≠ dc_display_name old ∧
    tr_previous_certificate_id transition = sc_certificate_id previous ∧
    tr_new_certificate_id transition = sc_certificate_id current.
Proof.
  unfold ValidateDisplayNameCertificateTransition.
  destruct (sc_certificate previous) as [old|], (sc_certificate current) as [new|]; try done.
  intros Hv. go_inv. go_bool. exists old, new. split_and!; try done.
  destruct old, new. unfold protected_fields in *. simpl in *. simplify_eq. f_equal; congruence.
Qed.
End Signed.
