(* ===== verification/WireModel.v ===== *)
(** A concrete protobuf-like runtime and signature scheme that satisfy the laws
    the membership codec relies on, and the witnesses that evaluate it. A message
    is the list of its fields in declaration order; a field is its bytes, ended by
    255, with 255 and 254 escaped by 254. *)

From S2P Require Import Prelude GoStd MembershipCodec.

(** ** Framing *)

Definition esc_byte (b : byte) : bytes :=
  match b with
  | Byte.xff | Byte.xfe => [Byte.xfe; b]
  | _ => [b]
  end.
Definition esc (f : bytes) : bytes := flat_map esc_byte f ++ [Byte.xff].
Definition pack (l : list bytes) : bytes := flat_map esc l.

Fixpoint unpack_from (acc : bytes) (b : bytes) : option (list bytes) :=
  match b with
  | [] => match acc with [] => Some [] | _ => None end
  | Byte.xff :: rest => cons (reverse acc) <$> unpack_from [] rest
  | [Byte.xfe] => None
  | Byte.xfe :: x :: rest => unpack_from (x :: acc) rest
  | x :: rest => unpack_from (x :: acc) rest
  end.
Definition unpack : bytes → option (list bytes) := unpack_from [].

Lemma unpack_esc_byte acc x rest :
  unpack_from acc (esc_byte x ++ rest) = unpack_from (x :: acc) rest.
Proof. by destruct x. Qed.

Lemma unpack_esc acc f rest :
  unpack_from acc (esc f ++ rest) = cons (reverse acc ++ f) <$> unpack_from [] rest.
Proof.
  revert acc. induction f as [|x f IH]; intros acc; [by rewrite app_nil_r|].
  unfold esc in *. cbn [flat_map]. rewrite <-!app_assoc, unpack_esc_byte, app_assoc, IH.
  do 2 f_equal. by rewrite reverse_cons, <-app_assoc.
Qed.

Lemma unpack_pack l : unpack (pack l) = Some l.
Proof.
  unfold unpack. induction l as [|f l IH]; [done|].
  change (pack (f :: l)) with (esc f ++ pack l). by rewrite unpack_esc, IH.
Qed.

(** ** Scalars, sub-messages, lists *)

Definition eu64 (z : Z) : bytes := be_put 8 z.
Definition du (bound : Z) (b : bytes) : option Z :=
  if (blen b =? 8) && (be_get b <? bound) then Some (be_get b) else None.
Definition ei32 (z : Z) : bytes := be_put 8 (z + 2 ^ 31).
Definition di32 (b : bytes) : option Z := (λ z, z - 2 ^ 31) <$> du (2 ^ 32) b.

Definition eopt {A} (f : A → list bytes) (o : option A) : bytes :=
  match o with Some a => Byte.x01 :: pack (f a) | None => [] end.
Definition dopt {A} (g : list bytes → option A) (b : bytes) : option (option A) :=
  match b with
  | [] => Some None
  | _ :: r => match unpack r with
              | Some l => Some <$> g l
              | None => None
              end
  end.
Definition elist {A} (f : A → bytes) (l : list A) : bytes := pack (f <$> l).
Definition dlist {A} (g : bytes → option A) (b : bytes) : option (list A) :=
  match unpack b with Some l => mapM g l | None => None end.

Lemma du_eu64 bound z : 0 ≤ z < bound → bound ≤ 2 ^ 64 → du bound (eu64 z) = Some z.
Proof.
  intros. unfold du, eu64, blen. rewrite be_put_length, (be_get_put_u 8 8) by lia.
  destruct (z <? bound) eqn:E; [done|]. go_bool. lia.
Qed.
Lemma du_range bound b z : du bound b = Some z → 0 ≤ z < bound.
Proof.
  unfold du. destruct (_ && _) eqn:E; [|done]. intros [= <-]. go_bool.
  pose proof (be_get_range b). lia.
Qed.
Lemma di32_ei32 z : is_i32 z → di32 (ei32 z) = Some z.
Proof.
  unfold is_i32. intros. unfold di32, ei32.
  change (be_put 8 (z + 2 ^ 31)) with (eu64 (z + 2 ^ 31)).
  rewrite du_eu64 by lia. simpl. f_equal. lia.
Qed.
Lemma di32_range b z : di32 b = Some z → is_i32 z.
Proof.
  unfold di32, is_i32. destruct (du _ b) as [v|] eqn:E; [|done]. apply du_range in E.
  intros [= <-]. lia.
Qed.

Lemma dopt_eopt {A} f g (o : option A) :
  (∀ a, o = Some a → g (f a) = Some a) → dopt g (eopt f o) = Some o.
Proof. destruct o as [a|]; [|done]. intros Hg. simpl. by rewrite unpack_pack, Hg. Qed.
Lemma dopt_typed {A} g (P : A → Prop) b o :
  (∀ l a, g l = Some a → P a) → dopt g b = Some o → opt_typed P o.
Proof.
  intros Hg. destruct b as [|x r]; simpl; [by intros [= <-]|].
  destruct (unpack r) as [l|]; [|done]. destruct (g l) as [a|] eqn:E; [|done].
  intros [= <-]. simpl. eauto.
Qed.
Lemma dlist_elist {A} f g (l : list A) :
  Forall (λ a, g (f a) = Some a) l → dlist g (elist f l) = Some l.
Proof.
  intros Hl. unfold dlist, elist. rewrite unpack_pack. apply mapM_Some.
  apply Forall2_fmap_l. induction Hl; by constructor.
Qed.
Lemma dlist_typed {A} g (P : A → Prop) b l :
  (∀ x a, g x = Some a → P a) → dlist g b = Some l → Forall P l.
Proof.
  intros Hg. unfold dlist. destruct (unpack b) as [fs|]; [|done].
  rewrite mapM_Some. induction 1; constructor; eauto.
Qed.

(** ** Messages *)

Definition challenge_fields (m : IdentityPossessionChallenge) : list bytes :=
  [eu64 (ch_protocol_version m); ch_workspace_id m; ch_device_id m; ch_identity_key_id m;
   ch_challenge_secret m; eu64 (ch_issued_at_unix_ms m); eu64 (ch_expires_at_unix_ms m)].
Definition of_challenge (l : list bytes) : option IdentityPossessionChallenge :=
  match l with
  | [v; w; d; k; s; i; e] =>
      match du (2 ^ 32) v, du (2 ^ 64) i, du (2 ^ 64) e with
      | Some v, Some i, Some e => Some (mkChallenge v w d k s i e [])
      | _, _, _ => None
      end
  | _ => None
  end.

Definition proof_fields (m : PendingIdentityProof) : list bytes :=
  [eu64 (pr_protocol_version m); pr_workspace_id m; pr_device_id m; pr_identity_key_id m;
   pr_challenge_digest m; pr_challenge_secret m].
Definition of_proof (l : list bytes) : option PendingIdentityProof :=
  match l with
  | [v; w; d; k; g; s] =>
      match du (2 ^ 32) v with Some v => Some (mkProof v w d k g s []) | None => None end
  | _ => None
  end.

Definition cert_fields (m : DeviceCertificate) : list bytes :=
  [eu64 (dc_protocol_version m); dc_workspace_id m; dc_device_id m; ei32 (dc_device_type m);
   dc_display_name m; elist ei32 (dc_roles m); dc_identity_public_key m; dc_identity_key_id m;
   eu64 (dc_issued_at_unix_ms m); eu64 (dc_expires_at_unix_ms m); eu64 (dc_membership_epoch m)].
Definition of_cert (l : list bytes) : option DeviceCertificate :=
  match l with
  | [v; w; d; t; n; r; p; k; i; e; m] =>
      match du (2 ^ 32) v, di32 t, dlist di32 r, du (2 ^ 64) i, du (2 ^ 64) e, du (2 ^ 64) m with
      | Some v, Some t, Some r, Some i, Some e, Some m => Some (mkCertificate v w d t n r p k i e m [])
      | _, _, _, _, _, _ => None
      end
  | _ => None
  end.

Definition signed_cert_fields (m : SignedDeviceCertificate) : list bytes :=
  [eopt cert_fields (sc_certificate m); sc_certificate_id m; sc_authority_signature m].
Definition of_signed_cert (l : list bytes) : option SignedDeviceCertificate :=
  match l with
  | [c; i; s] => match dopt of_cert c with
                 | Some c => Some (mkSignedCertificate c i s [])
                 | None => None
                 end
  | _ => None
  end.

Definition revoked_fields (m : RevokedCertificate) : list bytes :=
  [rv_certificate_id m; rv_device_id m; eu64 (rv_revoked_at_unix_ms m)].
Definition of_revoked (l : list bytes) : option RevokedCertificate :=
  match l with
  | [c; d; t] => match du (2 ^ 64) t with Some t => Some (mkRevoked c d t []) | None => None end
  | _ => None
  end.

Definition transition_fields (m : DeviceCertificateTransition) : list bytes :=
  [eu64 (tr_protocol_version m); tr_workspace_id m; tr_device_id m; tr_previous_certificate_id m;
   tr_new_certificate_id m; eu64 (tr_activation_roster_epoch m); tr_previous_roster_digest m;
   ei32 (tr_reason m); eu64 (tr_issued_at_unix_ms m)].
Definition of_transition (l : list bytes) : option DeviceCertificateTransition :=
  match l with
  | [v; w; d; p; n; e; g; r; i] =>
      match du (2 ^ 32) v, du (2 ^ 64) e, di32 r, du (2 ^ 64) i with
      | Some v, Some e, Some r, Some i => Some (mkTransition v w d p n e g r i [])
      | _, _, _, _ => None
      end
  | _ => None
  end.

Definition nest {A} (g : list bytes → option A) (b : bytes) : option A :=
  match unpack b with Some l => g l | None => None end.

Definition roster_fields (m : WorkspaceRoster) : list bytes :=
  [eu64 (ro_protocol_version m); ro_workspace_id m; eu64 (ro_roster_epoch m);
   ro_previous_roster_digest m;
   elist (λ c, pack (signed_cert_fields c)) (ro_active_certificates m);
   elist (λ c, pack (revoked_fields c)) (ro_revocations m);
   elist (λ c, pack (transition_fields c)) (ro_certificate_transitions m)].
Definition of_roster (l : list bytes) : option WorkspaceRoster :=
  match l with
  | [v; w; e; p; cs; rs; ts] =>
      match du (2 ^ 32) v, du (2 ^ 64) e, dlist (nest of_signed_cert) cs, dlist (nest of_revoked) rs,
            dlist (nest of_transition) ts with
      | Some v, Some e, Some cs, Some rs, Some ts => Some (mkRoster v w e p cs rs ts [])
      | _, _, _, _, _ => None
      end
  | _ => None
  end.

Definition signed_roster_fields (m : SignedWorkspaceRoster) : list bytes :=
  [eopt roster_fields (sr_roster m); sr_roster_digest m; sr_authority_signature m].
Definition of_signed_roster (l : list bytes) : option SignedWorkspaceRoster :=
  match l with
  | [r; d; s] => match dopt of_roster r with
                 | Some r => Some (mkSignedRoster r d s [])
                 | None => None
                 end
  | _ => None
  end.

Definition authority_fields (m : AuthorityKeyTransition) : list bytes :=
  [eu64 (at_protocol_version m); at_workspace_id m; eu64 (at_transition_epoch m);
   at_previous_transition_digest m; at_previous_authority_public_key m;
   at_new_authority_public_key m; eu64 (at_activation_roster_epoch m);
   at_previous_roster_digest m; eu64 (at_issued_at_unix_ms m)].
Definition of_authority (l : list bytes) : option AuthorityKeyTransition :=
  match l with
  | [v; w; e; d; p; n; a; r; i] =>
      match du (2 ^ 32) v, du (2 ^ 64) e, du (2 ^ 64) a, du (2 ^ 64) i with
      | Some v, Some e, Some a, Some i => Some (mkAuthorityTransition v w e d p n a r i [])
      | _, _, _, _ => None
      end
  | _ => None
  end.

Definition signed_authority_fields (m : SignedAuthorityKeyTransition) : list bytes :=
  [eopt authority_fields (sat_transition m); sat_transition_digest m;
   sat_previous_authority_signature m; sat_new_authority_signature m].
Definition of_signed_authority (l : list bytes) : option SignedAuthorityKeyTransition :=
  match l with
  | [t; d; p; n] => match dopt of_authority t with
                    | Some t => Some (mkSignedAuthorityTransition t d p n [])
                    | None => None
                    end
  | _ => None
  end.

Definition proto_of {M} (f : M → list bytes) (g : list bytes → option M) : Proto M :=
  {| Marshal m := Some (pack (f m)); Unmarshal := nest g |}.

#[export] Instance wire_model : Wire := {|
  wire_challenge := proto_of challenge_fields of_challenge;
  wire_proof := proto_of proof_fields of_proof;
  wire_cert := proto_of cert_fields of_cert;
  wire_signed_cert := proto_of signed_cert_fields of_signed_cert;
  wire_roster := proto_of roster_fields of_roster;
  wire_signed_roster := proto_of signed_roster_fields of_signed_roster;
  wire_authority := proto_of authority_fields of_authority;
  wire_signed_authority := proto_of signed_authority_fields of_signed_authority |}.

(** ** The laws *)

Lemma nest_pack {A} (g : list bytes → option A) l : nest g (pack l) = g l.
Proof. unfold nest. by rewrite unpack_pack. Qed.
Lemma nest_typed {A} (g : list bytes → option A) (P : A → Prop) b a :
  (∀ l a, g l = Some a → P a) → nest g b = Some a → P a.
Proof. unfold nest. destruct (unpack b); [eauto|done]. Qed.

Lemma proto_of_law {M} f g (typed known : M → Prop) :
  (∀ l m, g l = Some m → typed m) → (∀ m, typed m → known m → g (f m) = Some m) →
  @proto_law M (proto_of f g) typed known.
Proof.
  intros Ht Hrt. split; simpl; [intros b m; by apply nest_typed|].
  intros m b Hm Hk [= <-]. rewrite nest_pack. auto.
Qed.

Ltac take_fields l := repeat (destruct l as [|? l]; try done).
Ltac split_options :=
  repeat match goal with
  | |- context [match ?o with Some _ => _ | None => _ end] =>
      let E := fresh "E" in destruct o eqn:E; try done
  end.
Ltac ranges :=
  repeat match goal with
  | E : du _ _ = Some _ |- _ => apply du_range in E
  | E : di32 _ = Some _ |- _ => apply di32_range in E
  end.

Lemma of_cert_typed l m : of_cert l = Some m → cert_typed m.
Proof.
  unfold of_cert. take_fields l. split_options. intros [= <-]. ranges.
  unfold cert_typed, is_u32, is_u64; simpl. split_and!; try done; try lia.
  eapply dlist_typed; [|done]. apply di32_range.
Qed.
Lemma of_cert_fields m : cert_typed m → dc_unknown m = [] → of_cert (cert_fields m) = Some m.
Proof.
  unfold cert_typed, is_u32, is_u64. intros (? & ? & ? & ? & ? & ?) ?. unfold of_cert, cert_fields.
  rewrite !du_eu64, di32_ei32 by (done || lia). rewrite dlist_elist; [destruct m; simpl in *; by subst|].
  eapply Forall_impl; [done|]. apply di32_ei32.
Qed.
Lemma of_signed_cert_typed l m : of_signed_cert l = Some m → signed_cert_typed m.
Proof.
  unfold of_signed_cert. take_fields l. split_options. intros [= <-].
  eapply dopt_typed; [apply of_cert_typed|done].
Qed.
Lemma of_signed_cert_fields m :
  signed_cert_typed m → signed_cert_known m → of_signed_cert (signed_cert_fields m) = Some m.
Proof.
  intros Ht [Hu Hk]. unfold of_signed_cert, signed_cert_fields.
  rewrite dopt_eopt; [destruct m; simpl in *; by subst|].
  intros c Hc. unfold signed_cert_typed in Ht. rewrite Hc in Ht, Hk. by apply of_cert_fields.
Qed.
Lemma of_revoked_typed l m : of_revoked l = Some m → revoked_typed m.
Proof.
  unfold of_revoked. take_fields l. split_options. intros [= <-]. ranges.
  unfold revoked_typed, is_u64; simpl. lia.
Qed.
Lemma of_transition_typed l m : of_transition l = Some m → transition_typed m.
Proof.
  unfold of_transition. take_fields l. split_options. intros [= <-]. ranges.
  unfold transition_typed, is_u32, is_u64; simpl. split_and!; try done; lia.
Qed.
Lemma of_roster_typed l m : of_roster l = Some m → roster_typed m.
Proof.
  unfold of_roster. take_fields l. split_options. intros [= <-]. ranges.
  unfold roster_typed, is_u32, is_u64; simpl. split_and!; try lia.
  - eapply dlist_typed; [|done]. intros. eapply nest_typed; [apply of_signed_cert_typed|done].
  - eapply dlist_typed; [|done]. intros. eapply nest_typed; [apply of_revoked_typed|done].
  - eapply dlist_typed; [|done]. intros. eapply nest_typed; [apply of_transition_typed|done].
Qed.

Lemma Forall_both {A} (P Q R : A → Prop) l :
  (∀ x, P x → Q x → R x) → Forall P l → Forall Q l → Forall R l.
Proof. intros HR. induction 1; inversion 1; subst; constructor; auto. Qed.

Lemma of_roster_fields m : roster_typed m → roster_known m → of_roster (roster_fields m) = Some m.
Proof.
  unfold roster_typed, roster_known, is_u32, is_u64.
  intros (? & ? & Hc & Hr & Ht) (? & Hc' & Hr' & Ht'). unfold of_roster, roster_fields.
  rewrite !du_eu64 by lia. rewrite !dlist_elist; [destruct m; simpl in *; by subst|..].
  - eapply Forall_both; [|exact Ht|exact Ht']. intros t (? & ? & ? & ?) ?. rewrite nest_pack.
    unfold of_transition, transition_fields, is_u32, is_u64 in *.
    rewrite !du_eu64, di32_ei32 by (done || lia). destruct t; simpl in *; by subst.
  - eapply Forall_both; [|exact Hr|exact Hr']. intros v Hv ?. rewrite nest_pack.
    unfold of_revoked, revoked_fields, revoked_typed, is_u64 in *. rewrite !du_eu64 by lia.
    destruct v; simpl in *; by subst.
  - eapply Forall_both; [|exact Hc|exact Hc']. intros c ??. rewrite nest_pack.
    by apply of_signed_cert_fields.
Qed.

Lemma of_authority_typed l m : of_authority l = Some m → authority_transition_typed m.
Proof.
  unfold of_authority. take_fields l. split_options. intros [= <-]. ranges.
  unfold authority_transition_typed, is_u32, is_u64; simpl. lia.
Qed.

#[export] Instance wire_model_laws : WireLaws.
Proof.
  constructor; apply proto_of_law.
  - intros l m. unfold of_challenge. take_fields l. split_options. intros [= <-]. ranges.
    unfold challenge_typed, is_u32, is_u64; simpl. lia.
  - intros m (? & ? & ?) ?. unfold of_challenge, challenge_fields, is_u32, is_u64 in *.
    rewrite !du_eu64 by lia. destruct m; simpl in *; by subst.
  - intros l m. unfold of_proof. take_fields l. split_options. intros [= <-]. by ranges.
  - intros m Hm ?. unfold of_proof, proof_fields, proof_typed, is_u32 in *.
    rewrite !du_eu64 by lia. destruct m; simpl in *; by subst.
  - apply of_signed_cert_typed.
  - apply of_signed_cert_fields.
  - intros l m. unfold of_signed_roster. take_fields l. split_options. intros [= <-].
    eapply dopt_typed; [apply of_roster_typed|done].
  - intros m Ht [Hu Hk]. unfold of_signed_roster, signed_roster_fields.
    rewrite dopt_eopt; [destruct m; simpl in *; by subst|].
    intros r Hr. unfold signed_roster_typed in Ht. rewrite Hr in Ht, Hk. by apply of_roster_fields.
  - intros l m. unfold of_signed_authority. take_fields l. split_options. intros [= <-].
    eapply dopt_typed; [apply of_authority_typed|done].
  - intros m Ht [Hu Hk]. unfold of_signed_authority, signed_authority_fields.
    rewrite dopt_eopt; [destruct m; simpl in *; by subst|].
    intros t E. unfold signed_authority_transition_typed in Ht. rewrite E in Ht, Hk.
    destruct Ht as (? & ? & ? & ?). unfold of_authority, authority_fields, is_u32, is_u64 in *.
    rewrite !du_eu64 by lia. destruct t; simpl in *; by subst.
Qed.

(** A signature scheme with the interface's laws: the signature repeats the
    public key and the start of the message. It is here to evaluate the codec on
    concrete inputs, not to be secure. *)
Definition toy_signature (pk m : bytes) : bytes := take 64 (pk ++ m ++ repeat Byte.x00 64).

#[export] Instance ed_model : Ed25519 := {|
  ed_Sign sk m := toy_signature (ed_Public sk) m;
  ed_Verify pk m s := beq s (toy_signature pk m);
  ed_key_pair sk := blen sk = PrivateKeySize |}.

#[export] Instance ed_model_laws : Ed25519Laws.
Proof.
  constructor; simpl.
  - intros sk m. unfold toy_signature, Ed25519SignatureSize, blen.
    rewrite length_take, !length_app, repeat_length. lia.
  - intros sk m _. apply beq_refl.
Qed.

(** ** Witnesses *)

Definition sk1 : bytes := repeat Byte.x01 32 ++ repeat Byte.x02 32.
Definition sk2 : bytes := repeat Byte.x03 32 ++ repeat Byte.x04 32.
Definition ws1 : bytes := repeat Byte.x11 16.
Definition dev1 : bytes := repeat Byte.x22 16.

Definition sample_cert : DeviceCertificate :=
  mkCertificate 1 ws1 dev1 DEVICE_TYPE_ANDROID (bs "Pixel") [1; 2] p256_G (Sum256 p256_G)
    1000 0 1 [].
Definition sample_signed_cert : SignedDeviceCertificate :=
  from_ok (mkSignedCertificate None [] [] []) (SignDeviceCertificate sample_cert sk1).
Definition sample_roster : WorkspaceRoster :=
  mkRoster 1 ws1 1 (repeat Byte.x00 32) [sample_signed_cert] [] [] [].
Definition sample_signed_roster : SignedWorkspaceRoster :=
  from_ok (mkSignedRoster None [] [] []) (SignWorkspaceRoster sample_roster sk1).
Definition sample_roster_bytes : bytes := from_ok [] (encode sample_signed_roster).

Lemma sample_roster_typed : roster_typed sample_roster.
Proof.
  unfold roster_typed, sample_roster, is_u32, is_u64; simpl. split_and!; try lia; try constructor.
  - assert (sc_certificate sample_signed_cert = Some sample_cert) as E
      by (vm_compute; reflexivity).
    unfold signed_cert_typed. rewrite E. unfold sample_cert, cert_typed, is_u32, is_i32, is_u64,
      DEVICE_TYPE_ANDROID; simpl. split_and!; try lia. repeat constructor; lia.
  - constructor.
Qed.

Lemma signed_membership_roundtrip_witness :
  is_ok (SignWorkspaceRoster sample_roster sk1) = true ∧
  DecodeSignedWorkspaceRoster sample_roster_bytes (ed_Public sk1) = Ok sample_signed_roster.
Proof.
  assert (is_ok (SignWorkspaceRoster sample_roster sk1) = true) as Hs by (vm_compute; reflexivity).
  split; [exact Hs|].
  destruct (signed_membership_roundtrip sk1) as (_ & Hro & _); [vm_compute; reflexivity|].
  destruct (Hro sample_roster sample_signed_roster sample_roster_bytes sample_roster_typed)
    as [_ Hd]; [by apply is_ok_from|].
  apply Hd. apply is_ok_from. vm_compute. reflexivity.
Defined.

Lemma decoded_roster_sound_witness :
  is_ok (DecodeSignedWorkspaceRoster sample_roster_bytes (ed_Public sk1)) = true ∧
  ∃ r, roster_signed (ed_Public sk1)
         (from_ok (mkSignedRoster None [] [] [])
            (DecodeSignedWorkspaceRoster sample_roster_bytes (ed_Public sk1))) r ∧
    1 ≤ ro_roster_epoch r ≤ MaxInt64.
Proof.
  assert (is_ok (DecodeSignedWorkspaceRoster sample_roster_bytes (ed_Public sk1)) = true) as Hok
    by (vm_compute; reflexivity).
  exact (conj Hok (decoded_roster_sound sample_roster_bytes (ed_Public sk1) _
    (is_ok_from (mkSignedRoster None [] [] []) _ Hok))).
Defined.

Definition sample_challenge : IdentityPossessionChallenge :=
  mkChallenge 1 ws1 dev1 (Sum256 p256_G) (repeat Byte.x77 32) 1000 61000 [].
Definition sample_digest : bytes := from_ok [] (ChallengeDigest sample_challenge).

Lemma possession_proof_unique_witness :
  ValidateProofAgainstChallenge
    (mkProof ProtocolVersion ws1 dev1 (Sum256 p256_G) sample_digest (repeat Byte.x77 32) [])
    sample_challenge = Ok tt.
Proof.
  apply (possession_proof_unique _ sample_challenge sample_digest).
  - unfold sample_digest. apply is_ok_from. vm_compute. reflexivity.
  - vm_compute. reflexivity.
  - vm_compute. reflexivity.
Defined.

Definition renamed_cert : DeviceCertificate :=
  mkCertificate 1 ws1 dev1 DEVICE_TYPE_ANDROID (bs "Phone") [1; 2] p256_G (Sum256 p256_G)
    2000 0 2 [].
Definition renamed_signed_cert : SignedDeviceCertificate :=
  from_ok (mkSignedCertificate None [] [] []) (SignDeviceCertificate renamed_cert sk1).
Definition sample_transition : DeviceCertificateTransition :=
  mkTransition 1 ws1 dev1 (sc_certificate_id sample_signed_cert)
    (sc_certificate_id renamed_signed_cert) 2 (repeat Byte.x99 32) REASON_DISPLAY_NAME 2000 [].

Lemma display_name_transition_protects_witness :
  ∃ old new, sc_certificate sample_signed_cert = Some old ∧
    sc_certificate renamed_signed_cert = Some new ∧
    dc_identity_public_key new = dc_identity_public_key old ∧ dc_roles new = dc_roles old.
Proof.
  destruct (display_name_transition_protects sample_signed_cert renamed_signed_cert
    sample_transition) as (old & new & Ho & Hn & E & _); [vm_compute; reflexivity|].
  exists old, new. split; [exact Ho|]. split; [exact Hn|]. rewrite E. split; reflexivity.
Defined.
