(* ===== verification/Schema.v ===== *)
(** The admission database (internal/admission/store.go): its tables at schema
    version 11, the row updates and constraints the statements rely on, and the
    validators of the store's inputs.

    A table is a finite map from its primary key to the rest of the row. A
    statement that violates a CHECK, UNIQUE, PRIMARY KEY or FOREIGN KEY
    constraint fails, and a failed operation leaves the database unchanged: an
    operation is a function from a database to a [result], and [Err] carries no
    database. *)

From S2P Require Import Prelude GoStd DeliveryStore MembershipCodec.

(** ** Record updates: [r <| field := value |>] *)

Class Update {R T : Type} (proj : R → T) : Type := upd : T → R → R.
Arguments upd {R T} proj {_} _ _ /.
Notation "r <| proj := v |>" := (upd proj v r)
  (at level 12, left associativity, v at level 99, format "r  <| proj  :=  v |>").

(** [derive_update eta proj]: abstract [proj] in [λ r, mk (f1 r) (f2 r) ...]. *)
Ltac derive_update eta proj :=
  let e := eval pattern proj in eta in
  lazymatch e with ?g _ => exact (λ v, g (λ _, v)) end.

(** ** Rows *)

Definition DeviceType : Type := string.
Definition DeviceAndroid : DeviceType := "android"%string.
Definition DeviceChrome : DeviceType := "chrome"%string.

Record WorkspaceRow : Type := mkWorkspaceRow {
  ws_created_at_ms : Z;
  authority_public_key : option bytes;
  authority_epoch : Z;
  authority_transition_digest : bytes
}.

Record PairingCodeRow : Type := mkPairingCodeRow {
  pc_workspace_id : bytes;
  pc_device_type : DeviceType;
  pc_bound_name : option bytes;
  pc_created_at_ms : Z;
  pc_expires_at_ms : Z;
  pc_consumed_at_ms : option Z
}.

Inductive membershipState : Type :=
| legacy_active | pending_proof | pending_approval | approved | revoked.

Record DeviceRow : Type := mkDeviceRow {
  device_type : DeviceType;
  device_name : bytes;
  auth_token_hash : bytes;
  e2ee_public_key : bytes;
  registered_at_ms : Z;
  last_online_at_ms : Z;
  revoked_at_ms : option Z;
  credential_version : Z;
  membership_state : membershipState;
  proof_challenge_digest : option bytes;
  proof_secret_hash : option bytes;
  proof_expires_at_ms : option Z;
  proof_completed_at_ms : option Z;
  certificate_id : option bytes;
  signed_certificate : option bytes;
  approved_at_ms : option Z;
  revoked_membership_epoch : option Z;
  last_authenticated_at_ms : option Z;
  last_activity_at_ms : option Z
}.

Record RotationCodeRow : Type := mkRotationCodeRow {
  rc_workspace_id : bytes;
  rc_device_id : bytes;
  rc_created_at_ms : Z;
  rc_expires_at_ms : Z;
  rc_consumed_at_ms : option Z
}.

Record RosterRow : Type := mkRosterRow {
  ros_digest : bytes;
  ros_previous_digest : bytes;
  signed_roster : bytes;
  ros_created_at_ms : Z
}.

Record AuthorityTransitionRow : Type := mkAuthorityTransitionRow {
  atr_digest : bytes;
  atr_previous_digest : bytes;
  atr_previous_authority_public_key : bytes;
  atr_new_authority_public_key : bytes;
  atr_activation_roster_epoch : Z;
  signed_transition : bytes;
  atr_created_at_ms : Z
}.

Record AdministratorRow : Type := mkAdministratorRow {
  adm_name : bytes;
  adm_password_hash : bytes;
  adm_totp_secret : bytes;
  adm_updated_at_ms : Z
}.

Record PreferenceRow : Type := mkPreferenceRow {
  revision : Z;
  payload : bytes;
  pref_updated_at_ms : Z
}.

Record DB : Type := mkDB {
  workspaces : gmap bytes WorkspaceRow;
  pairing_codes : gmap bytes PairingCodeRow;
  device_rows : gmap PeerIdentity DeviceRow;
  rotation_codes : gmap bytes RotationCodeRow;
  rosters : gmap bytes (gmap Z RosterRow);
  authority_transitions : gmap bytes (gmap Z AuthorityTransitionRow);
  administrator : option AdministratorRow;
  preferences : gmap (bytes * bytes) PreferenceRow;
  relay : Tables
}.

Definition empty_db : DB := mkDB ∅ ∅ ∅ ∅ ∅ ∅ None ∅ empty_tables.

#[export] Instance membershipState_eq_dec : EqDecision membershipState.
Proof. solve_decision. Defined.

#[export] Hint Extern 0 (@Update WorkspaceRow _ ?proj) =>
  derive_update (λ r, mkWorkspaceRow (ws_created_at_ms r) (authority_public_key r)
    (authority_epoch r) (authority_transition_digest r)) proj : typeclass_instances.
#[export] Hint Extern 0 (@Update PairingCodeRow _ ?proj) =>
  derive_update (λ r, mkPairingCodeRow (pc_workspace_id r) (pc_device_type r) (pc_bound_name r)
    (pc_created_at_ms r) (pc_expires_at_ms r) (pc_consumed_at_ms r)) proj : typeclass_instances.
#[export] Hint Extern 0 (@Update DeviceRow _ ?proj) =>
  derive_update (λ r, mkDeviceRow (device_type r) (device_name r) (auth_token_hash r)
    (e2ee_public_key r) (registered_at_ms r) (last_online_at_ms r) (revoked_at_ms r)
    (credential_version r) (membership_state r) (proof_challenge_digest r)
    (proof_secret_hash r) (proof_expires_at_ms r) (proof_completed_at_ms r) (certificate_id r)
    (signed_certificate r) (approved_at_ms r) (revoked_membership_epoch r)
    (last_authenticated_at_ms r) (last_activity_at_ms r)) proj : typeclass_instances.
#[export] Hint Extern 0 (@Update RotationCodeRow _ ?proj) =>
  derive_update (λ r, mkRotationCodeRow (rc_workspace_id r) (rc_device_id r) (rc_created_at_ms r)
    (rc_expires_at_ms r) (rc_consumed_at_ms r)) proj : typeclass_instances.
#[export] Hint Extern 0 (@Update DB _ ?proj) =>
  derive_update (λ r, mkDB (workspaces r) (pairing_codes r) (device_rows r) (rotation_codes r)
    (rosters r) (authority_transitions r) (administrator r) (preferences r) (relay r)) proj
  : typeclass_instances.

(** ** Statements shared by the operations *)

Definition set_device (p : PeerIdentity) (d : DeviceRow) (db : DB) : DB :=
  db <| device_rows := <[p := d]> (device_rows db) |>.

Definition rosters_of (w : bytes) (db : DB) : gmap Z RosterRow := default ∅ (rosters db !! w).
Definition transitions_of (w : bytes) (db : DB) : gmap Z AuthorityTransitionRow :=
  default ∅ (authority_transitions db !! w).

(** [auth_token_hash BLOB NOT NULL UNIQUE]: some row other than [except] has it. *)
Definition hash_taken (h : bytes) (except : option PeerIdentity) (db : DB) : bool :=
  existsb (λ x, bool_decide (auth_token_hash x.2 = h) && negb (bool_decide (Some x.1 = except)))
    (map_to_list (device_rows db)).

Definition device_type_known (t : DeviceType) : bool :=
  bool_decide (t = DeviceAndroid) || bool_decide (t = DeviceChrome).

(** [INSERT INTO devices]: primary and foreign keys, CHECKs, and the trigger
    that rejects the legacy state. *)
Definition insert_device (p : PeerIdentity) (d : DeviceRow) (db : DB) : result DB :=
  fail_if bool_decide (is_Some (device_rows db !! p)) ||
          negb (bool_decide (is_Some (workspaces db !! p.1))) ||
          negb (blen p.2 =? 16) || negb (device_type_known (device_type d)) ||
          negb (blen (auth_token_hash d) =? 32) || hash_taken (auth_token_hash d) None db ||
          negb (blen (e2ee_public_key d) =? 65) ||
          bool_decide (membership_state d = legacy_active)
    with_msg "register device" in
  Ok (set_device p d db).

(** ** Validators *)

Definition pairingSecretBytes : Z := 24.
Definition rotationSecretBytes : Z := 24.
Definition authTokenBytes : Z := 32.
Definition maxDeviceNameBytes : Z := 100.
Definition maxMembershipRosterPage : nat := 256.
Definition maxMembershipRosterPageRaw : Z := 2 ^ 20.
Definition maxAuthorityTransitions : nat := 256.
Definition maxAdministratorNameBytes : Z := 64.
Definition maxPreferenceKeyBytes : Z := 64.
Definition maxPreferencePayloadBytes : Z := 256 * 1024.
Definition currentSchemaVersion : Z := 11.

Definition ErrInvalidPairingCode : error := New "invalid or expired pairing code".
Definition ErrInvalidRegistration : error := New "invalid device registration".
Definition ErrUnauthorized : error := New "device authentication failed".
Definition ErrInvalidRotation : error := New "credential rotation denied".
Definition ErrDeviceNotFound : error := New "device not found".
Definition ErrWorkspaceAuthorityUnavailable : error := New "workspace authority is unavailable".
Definition ErrInvalidMembershipProof : error := New "membership identity proof denied".
Definition ErrMembershipStateUnavailable : error := New "membership state is unavailable".
Definition ErrPreferenceKeyInvalid : error := New "preference key is invalid".
Definition ErrPreferencePayloadInvalid : error := New "preference payload is invalid".
Definition ErrPreferenceRevisionConflict : error := New "preference revision conflict".

Definition unixMillis (t : Z) : Z := UnixMilli t.

Definition validateDeviceType (value : DeviceType) : result unit :=
  guard_err (negb (device_type_known value)) "device type must be android or chrome".

Definition validateDeviceName (value : bytes) : result unit :=
  guard_err (negb (utf8_ValidString value) || beq (TrimSpace value) [] ||
             (blen value >? maxDeviceNameBytes))
    "device name must be valid non-blank UTF-8 up to 100 bytes".

(** The range loop over a valid string: a rune outside visible ASCII starts with
    a byte outside it. *)
Definition validatePreferenceKey (key : bytes) : result unit :=
  if (blen key <? 1) || (blen key >? maxPreferenceKeyBytes) || negb (utf8_ValidString key)
  then Err ErrPreferenceKeyInvalid
  else if forallb (λ c, (0x21 <=? b2z c) && (b2z c <=? 0x7e)) key then Ok tt
  else Err ErrPreferenceKeyInvalid.

Record AdministratorCredential : Type := mkAdministratorCredential {
  ac_Name : bytes;
  ac_PasswordHash : bytes;
  ac_TOTPSecret : bytes;
  ac_UpdatedAt : Z
}.

Definition validateAdministratorCredential (c : AdministratorCredential) : result unit :=
  fail_if (blen (ac_Name c) =? 0) || (blen (ac_Name c) >? maxAdministratorNameBytes)
    with_msg "administrator name must be 1 through 64 bytes" in
  fail_if (blen (ac_PasswordHash c) =? 0) || (blen (ac_PasswordHash c) >? 512)
    with_msg "administrator password hash must be 1 through 512 bytes" in
  guard_err ((blen (ac_TOTPSecret c) =? 0) || (blen (ac_TOTPSecret c) >? 128))
    "administrator TOTP secret must be 1 through 128 bytes".

(** SQL's [length] of a text stops at the first NUL. *)
Definition sql_text_empty (b : bytes) : bool :=
  match b with [] => true | c :: _ => b2z c =? 0 end.

Definition deviceReferenceDomain : bytes := domain "SyncNotifications-admin-device-ref-v1".

Definition deviceReference (workspaceID deviceID : bytes) : bytes :=
  RawURL_Encode (take 12 (Sum256 (deviceReferenceDomain ++ workspaceID ++ deviceID))).

Definition validDeviceReference (value : bytes) : bool :=
  match RawURL_Decode value with
  | Some decoded => (blen decoded =? 12) && beq (RawURL_Encode decoded) value
  | None => false
  end.

Definition membershipDeviceType (value : DeviceType) : Z :=
  if bool_decide (value = DeviceAndroid) then DEVICE_TYPE_ANDROID
  else if bool_decide (value = DeviceChrome) then DEVICE_TYPE_CHROME
  else 0.

(** [resolveDeviceReference]: scan the workspace's devices; exactly one may
    have the reference. *)
Definition workspace_devices (w : bytes) (db : DB) : list bytes :=
  snd <$> filter (λ p, p.1 = w) (fst <$> map_to_list (device_rows db)).

Fixpoint match_reference (w reference : bytes) (matched : option bytes) (ids : list bytes)
  : result (option bytes) :=
  match ids with
  | [] => Ok matched
  | id :: rest =>
      fail_if negb (blen id =? 16) with_msg "stored device ID has invalid length" in
      if beq (deviceReference w id) reference then
        match matched with
        | Some _ => Err (New "ambiguous device reference")
        | None => match_reference w reference (Some id) rest
        end
      else match_reference w reference matched rest
  end.

Definition resolveDeviceReference (w reference : bytes) (db : DB) : result bytes :=
  if negb (validDeviceReference reference) then Err ErrDeviceNotFound
  else
    let? matched := match_reference w reference None (workspace_devices w db) in
    match matched with
    | Some id => Ok id
    | None => Err ErrDeviceNotFound
    end.
