(* ===== verification/Admission.v ===== *)
(** Admission (internal/admission/store.go): workspaces, pairing codes, device
    registration and identity proofs, credentials and their rotation, sessions,
    preferences and the console account. The random values an operation draws
    are its arguments, as is the challenge factory. *)

From S2P Require Import Prelude GoStd DeliveryStore MembershipCodec Schema.

(** ** Workspaces *)

Definition CreateWorkspace (authorityPublicKey : bytes) (now : Z) (id : bytes) (db : DB)
  : result (bytes * DB) :=
  fail_if beq authorityPublicKey (repeat Byte.x00 (length authorityPublicKey))
    with_msg "workspace authority public key must not be zero" in
  fail_if bool_decide (is_Some (workspaces db !! id)) || negb (blen id =? 16) ||
          negb (blen authorityPublicKey =? 32)
    with_msg "create workspace" in
  Ok (id, db <| workspaces := <[id := mkWorkspaceRow (unixMillis now) (Some authorityPublicKey) 1
                                  (repeat Byte.x00 32)]> (workspaces db) |>).

(** [ORDER BY created_at_ms, id]. *)
Definition ws_le (a b : bytes * WorkspaceRow) : Prop :=
  ws_created_at_ms a.2 < ws_created_at_ms b.2 ∨
  (ws_created_at_ms a.2 = ws_created_at_ms b.2 ∧ bytes_lt b.1 a.1 = false).
#[export] Instance ws_le_dec a b : Decision (ws_le a b).
Proof. unfold ws_le. apply _. Defined.

Definition ListWorkspaces (db : DB) : result (list (bytes * Z)) :=
  let rows := merge_sort ws_le (map_to_list (workspaces db)) in
  fail_if existsb (λ r, negb (blen r.1 =? 16)) rows
    with_msg "stored workspace ID has invalid length" in
  Ok ((λ r, (r.1, ws_created_at_ms r.2 * Millisecond)) <$> rows).

Definition WorkspaceAuthorityPublicKey (w : bytes) (db : DB) : result bytes :=
  match workspaces db !! w with
  | Some row =>
      match authority_public_key row with
      | Some k => if blen k =? PublicKeySize then Ok k else Err ErrWorkspaceAuthorityUnavailable
      | None => Err ErrWorkspaceAuthorityUnavailable
      end
  | None => Err ErrWorkspaceAuthorityUnavailable
  end.

(** ** Pairing and registration *)

Definition IssuePairingCode (w : bytes) (deviceType : DeviceType) (boundName : bytes)
  (now ttl : Z) (secret : bytes) (db : DB) : result (bytes * DB) :=
  let? _ := validateDeviceType deviceType in
  let? _ := (if beq boundName [] then Ok tt else validateDeviceName boundName) in
  fail_if (ttl <=? 0) || (ttl >? 24 * Hour) with_msg "pairing code TTL must be in (0, 24h]" in
  let hash := Sum256 secret in
  fail_if bool_decide (is_Some (pairing_codes db !! hash)) ||
          negb (bool_decide (is_Some (workspaces db !! w)))
    with_msg "store pairing code" in
  Ok (RawURL_Encode secret,
      db <| pairing_codes := <[hash := mkPairingCodeRow w deviceType
              (if beq boundName [] then None else Some boundName) (unixMillis now)
              (unixMillis (now + ttl)) None]> (pairing_codes db) |>).

Record Registration : Type := mkRegistration {
  reg_PairingCode : bytes;
  reg_DeviceType : DeviceType;
  reg_DeviceName : bytes;
  reg_E2EEPublicKey : bytes;
  reg_Now : Z
}.

Record PendingChallenge : Type := mkPendingChallenge {
  pch_Digest : bytes;
  pch_Secret : bytes;
  pch_ExpiresAt : Z
}.

Definition invalid_registration (why : string) : error := Wrapf why ErrInvalidRegistration.

(** The [SELECT] and its guard, and the guarded [UPDATE] of the same row. *)
Definition consume_pairing_code (hash : bytes) (input : Registration) (db : DB)
  : result (bytes * DB) :=
  let nowMillis := unixMillis (reg_Now input) in
  match pairing_codes db !! hash with
  | None => Err ErrInvalidPairingCode
  | Some row =>
      if negb (blen (pc_workspace_id row) =? 16) ||
         bool_decide (is_Some (pc_consumed_at_ms row)) || (pc_expires_at_ms row <=? nowMillis) ||
         negb (bool_decide (pc_device_type row = reg_DeviceType input)) ||
         (match pc_bound_name row with
          | Some n => negb (beq n (reg_DeviceName input))
          | None => false
          end)
      then Err ErrInvalidPairingCode
      else Ok (pc_workspace_id row,
               db <| pairing_codes :=
                 <[hash := row <| pc_consumed_at_ms := Some nowMillis |>]> (pairing_codes db) |>)
  end.

Definition RegisterPending (input : Registration)
  (createChallenge : bytes → bytes → result PendingChallenge)
  (deviceID authToken : bytes) (db : DB) : result ((bytes * bytes * bytes) * DB) :=
  match validateDeviceType (reg_DeviceType input) with
  | Err _ => Err ErrInvalidPairingCode
  | Ok _ =>
  match validateDeviceName (reg_DeviceName input) with
  | Err _ => Err (invalid_registration "device name")
  | Ok _ =>
  if negb (blen (reg_E2EEPublicKey input) =? 65) ||
     negb (b2z (default Byte.x00 (reg_E2EEPublicKey input !! 0%nat)) =? 4)
  then Err (invalid_registration "E2EE public key must be a 65-byte uncompressed P-256 point")
  else
  match P256_Unmarshal (reg_E2EEPublicKey input) with
  | None => Err (invalid_registration "E2EE public key is not a valid P-256 point")
  | Some _ =>
  match RawURL_Decode (reg_PairingCode input) with
  | None => Err ErrInvalidPairingCode
  | Some secret =>
  if negb (blen secret =? pairingSecretBytes) then Err ErrInvalidPairingCode
  else
    let codeHash := Sum256 secret in
    let authHash := Sum256 authToken in
    let nowMillis := unixMillis (reg_Now input) in
    let? '(workspaceID, db1) := consume_pairing_code codeHash input db in
    match createChallenge workspaceID deviceID with
    | Err e => Err (Wrapf "create membership challenge" e)
    | Ok challenge =>
        if negb (blen (pch_Digest challenge) =? DigestSize) || allBytesZero (pch_Digest challenge) ||
           negb (blen (pch_Secret challenge) =? DigestSize) || allBytesZero (pch_Secret challenge) ||
           negb (pch_ExpiresAt challenge >? reg_Now input) ||
           (pch_ExpiresAt challenge - reg_Now input >? 10 * Minute)
        then Err (invalid_registration "invalid membership challenge")
        else
          let? db2 := insert_device (workspaceID, deviceID)
            (mkDeviceRow (reg_DeviceType input) (reg_DeviceName input) authHash
               (reg_E2EEPublicKey input) nowMillis nowMillis None 1 pending_proof
               (Some (pch_Digest challenge)) (Some (Sum256 (pch_Secret challenge)))
               (Some (unixMillis (pch_ExpiresAt challenge))) None None None None None None None) db1 in
          Ok ((workspaceID, deviceID, authToken), db2)
    end
  end end end end.

Record PendingIdentityProofInput : Type := mkPendingIdentityProof {
  pip_WorkspaceID : bytes;
  pip_DeviceID : bytes;
  pip_AuthToken : bytes;
  pip_ChallengeDigest : bytes;
  pip_ChallengeSecret : bytes;
  pip_Now : Z
}.

(** The [WHERE] clause of the proof update. *)
Definition proof_matches (input : PendingIdentityProofInput) (d : DeviceRow) : bool :=
  beq (auth_token_hash d) (Sum256 (pip_AuthToken input)) &&
  bool_decide (membership_state d = pending_proof) && bool_decide (revoked_at_ms d = None) &&
  (match proof_expires_at_ms d with Some e => e >? unixMillis (pip_Now input) | None => false end) &&
  bool_decide (proof_challenge_digest d = Some (pip_ChallengeDigest input)) &&
  bool_decide (proof_secret_hash d = Some (Sum256 (pip_ChallengeSecret input))).

Definition CompletePendingIdentityProof (input : PendingIdentityProofInput) (db : DB) : result DB :=
  if negb (blen (pip_AuthToken input) =? authTokenBytes) ||
     negb (blen (pip_ChallengeDigest input) =? 32) || negb (blen (pip_ChallengeSecret input) =? 32)
  then Err ErrInvalidMembershipProof
  else
    let p := (pip_WorkspaceID input, pip_DeviceID input) in
    match device_rows db !! p with
    | Some d =>
        if proof_matches input d
        then Ok (set_device p (d <| membership_state := pending_approval |>
                                 <| proof_completed_at_ms := Some (unixMillis (pip_Now input)) |>
                                 <| proof_secret_hash := None |>) db)
        else Err ErrInvalidMembershipProof
    | None => Err ErrInvalidMembershipProof
    end.

(** ** Listing *)

(** [ORDER BY registered_at_ms, id] within a workspace. *)
Definition device_le (a b : bytes * DeviceRow) : Prop :=
  registered_at_ms a.2 < registered_at_ms b.2 ∨
  (registered_at_ms a.2 = registered_at_ms b.2 ∧ bytes_lt b.1 a.1 = false).
#[export] Instance device_le_dec a b : Decision (device_le a b).
Proof. unfold device_le. apply _. Defined.

Definition devices_in (w : bytes) (db : DB) : list (bytes * DeviceRow) :=
  merge_sort device_le
    (omap (λ x, if decide (x.1.1 = w) then Some (x.1.2, x.2) else None)
       (map_to_list (device_rows db))).

Record PendingDeviceSummary : Type := mkPendingDeviceSummary {
  pds_Reference : bytes;
  pds_DeviceType : DeviceType;
  pds_DeviceName : bytes;
  pds_RegisteredAt : Z
}.

Definition is_pending (d : DeviceRow) : bool :=
  bool_decide (membership_state d = pending_approval) && bool_decide (revoked_at_ms d = None).

Definition ListPendingDevices (w : bytes) (db : DB) : result (list PendingDeviceSummary) :=
  let rows := List.filter (λ x, is_pending x.2) (devices_in w db) in
  fail_if existsb (λ x, negb (blen x.1 =? 16)) rows
    with_msg "stored device ID has invalid length" in
  Ok ((λ x, mkPendingDeviceSummary (deviceReference w x.1) (device_type x.2) (device_name x.2)
              (registered_at_ms x.2 * Millisecond)) <$> rows).

Record DeviceSummary : Type := mkDeviceSummary {
  dsu_Reference : bytes;
  dsu_DeviceType : DeviceType;
  dsu_DeviceName : bytes;
  dsu_MembershipState : membershipState;
  dsu_RegisteredAt : Z;
  dsu_ApprovedAt : option Z;
  dsu_LastAuthenticatedAt : option Z;
  dsu_LastActivityAt : option Z;
  dsu_RevokedAt : option Z;
  dsu_Revoked : bool
}.

Definition nullableTime (value : option Z) : option Z := (λ ms, ms * Millisecond) <$> value.

Definition device_summary (w : bytes) (x : bytes * DeviceRow) : DeviceSummary :=
  mkDeviceSummary (deviceReference w x.1) (device_type x.2) (device_name x.2)
    (membership_state x.2) (registered_at_ms x.2 * Millisecond) (nullableTime (approved_at_ms x.2))
    (nullableTime (last_authenticated_at_ms x.2)) (nullableTime (last_activity_at_ms x.2))
    (nullableTime (revoked_at_ms x.2)) (bool_decide (is_Some (revoked_at_ms x.2))).

(** The row loop with the set of references seen so far. *)
Fixpoint list_devices (w : bytes) (seen : gset bytes) (rows : list (bytes * DeviceRow))
  : result (list DeviceSummary) :=
  match rows with
  | [] => Ok []
  | x :: rest =>
      fail_if negb (blen x.1 =? 16) with_msg "stored device ID has invalid length" in
      let reference := deviceReference w x.1 in
      fail_if bool_decide (reference ∈ seen) with_msg "ambiguous device reference" in
      let? summaries := list_devices w ({[reference]} ∪ seen) rest in
      Ok (device_summary w x :: summaries)
  end.

Definition ListDevices (w : bytes) (db : DB) : result (list DeviceSummary) :=
  list_devices w ∅ (devices_in w db).

(** ** Authorization and authentication *)

Definition approved_row (d : DeviceRow) : bool :=
  bool_decide (revoked_at_ms d = None) && bool_decide (membership_state d = approved).

Definition IsDeviceAuthorized (w dev : bytes) (db : DB) : result bool :=
  match device_rows db !! (w, dev) with
  | Some d => Ok (approved_row d)
  | None => Ok false
  end.

Definition IsSessionAuthorized (w dev : bytes) (version : Z) (db : DB) : result bool :=
  if version <? 1 then Ok false
  else match device_rows db !! (w, dev) with
       | Some d => Ok (bool_decide (revoked_at_ms d = None) && (credential_version d =? version) &&
                       bool_decide (membership_state d = approved))
       | None => Ok false
       end.

Record DeviceIdentity : Type := mkDeviceIdentity {
  di_WorkspaceID : bytes;
  di_DeviceID : bytes;
  di_DeviceType : DeviceType;
  di_DeviceName : bytes;
  di_CredentialVersion : Z
}.

Definition Authenticate (w dev authToken : bytes) (now : Z) (db : DB)
  : result (DeviceIdentity * DB) :=
  if negb (blen authToken =? authTokenBytes) then Err ErrUnauthorized
  else
    let hash := Sum256 authToken in
    let nowMillis := unixMillis now in
    match device_rows db !! (w, dev) with
    | Some d =>
        if beq (auth_token_hash d) hash && approved_row d
        then Ok (mkDeviceIdentity w dev (device_type d) (device_name d) (credential_version d),
                 set_device (w, dev) (d <| last_online_at_ms := nowMillis |>
                                        <| last_authenticated_at_ms := Some nowMillis |>
                                        <| last_activity_at_ms := Some nowMillis |>) db)
        else Err ErrUnauthorized
    | None => Err ErrUnauthorized
    end.

Definition RecordDeviceActivity (w dev : bytes) (now : Z) (db : DB) : result DB :=
  let nowMillis := unixMillis now in
  match device_rows db !! (w, dev) with
  | Some d =>
      if approved_row d &&
         (match last_activity_at_ms d with
          | None => true
          | Some t => t <=? nowMillis - Minute / Millisecond
          end)
      then Ok (set_device (w, dev) (d <| last_activity_at_ms := Some nowMillis |>) db)
      else Ok db
  | None => Ok db
  end.

(** ** Credential rotation *)

Definition IssueCredentialRotationCode (w reference : bytes) (now ttl : Z) (secret : bytes) (db : DB)
  : result (bytes * DB) :=
  fail_if (ttl <=? 0) || (ttl >? 24 * Hour) with_msg "rotation code TTL must be in (0, 24h]" in
  let? deviceID := resolveDeviceReference w reference db in
  let hash := Sum256 secret in
  match device_rows db !! (w, deviceID) with
  | Some d =>
      if approved_row d then
        fail_if bool_decide (is_Some (rotation_codes db !! hash)) with_msg "store rotation code" in
        Ok (RawURL_Encode secret,
            db <| rotation_codes := <[hash := mkRotationCodeRow w deviceID (unixMillis now)
                    (unixMillis (now + ttl)) None]> (rotation_codes db) |>)
      else Err ErrDeviceNotFound
  | None => Err ErrDeviceNotFound
  end.

Record CredentialRotation : Type := mkCredentialRotation {
  cr_WorkspaceID : bytes;
  cr_DeviceID : bytes;
  cr_CurrentAuthToken : bytes;
  cr_RotationCode : bytes;
  cr_PendingAuthToken : bytes;
  cr_Now : Z
}.

Definition RotateCredential (input : CredentialRotation) (db : DB) : result (Z * DB) :=
  if negb (blen (cr_CurrentAuthToken input) =? authTokenBytes) ||
     negb (blen (cr_PendingAuthToken input) =? authTokenBytes) ||
     beq (cr_CurrentAuthToken input) (cr_PendingAuthToken input)
  then Err ErrInvalidRotation
  else
  match RawURL_Decode (cr_RotationCode input) with
  | None => Err ErrInvalidRotation
  | Some rotationSecret =>
  if negb (blen rotationSecret =? rotationSecretBytes) ||
     negb (beq (RawURL_Encode rotationSecret) (cr_RotationCode input))
  then Err ErrInvalidRotation
  else
    let codeHash := Sum256 rotationSecret in
    let currentHash := Sum256 (cr_CurrentAuthToken input) in
    let pendingHash := Sum256 (cr_PendingAuthToken input) in
    let nowMillis := unixMillis (cr_Now input) in
    let p := (cr_WorkspaceID input, cr_DeviceID input) in
    match rotation_codes db !! codeHash with
    | None => Err ErrInvalidRotation
    | Some code =>
    match device_rows db !! (rc_workspace_id code, rc_device_id code) with
    | None => Err ErrInvalidRotation
    | Some d =>
        if bool_decide (is_Some (rc_consumed_at_ms code)) || bool_decide (is_Some (revoked_at_ms d)) ||
           (rc_expires_at_ms code <=? nowMillis) ||
           negb (beq (rc_workspace_id code) (cr_WorkspaceID input)) ||
           negb (beq (rc_device_id code) (cr_DeviceID input)) ||
           negb (beq (auth_token_hash d) currentHash) || (credential_version d <? 1)
        then Err ErrInvalidRotation
        else
          let db1 := db <| rotation_codes :=
            <[codeHash := code <| rc_consumed_at_ms := Some nowMillis |>]> (rotation_codes db) |> in
          if negb (bool_decide (membership_state d = approved)) then Err ErrInvalidRotation
          else
            fail_if hash_taken pendingHash (Some p) db1 || (credential_version d =? MaxInt64)
              with_msg "rotate credential" in
            Ok (credential_version d + 1,
                set_device p (d <| auth_token_hash := pendingHash |>
                                <| credential_version := credential_version d + 1 |>) db1)
    end end
  end.

(** ** Preferences and the console account *)

Definition ReadWorkspacePreference (w key : bytes) (db : DB) : result (option PreferenceRow) :=
  let? _ := validatePreferenceKey key in
  Ok (preferences db !! (w, key)).

Definition WriteWorkspacePreference (w key : bytes) (expectedRevision : Z) (value : bytes)
  (now : Z) (db : DB) : result (Z * DB) :=
  let? _ := validatePreferenceKey key in
  if (blen value <? 1) || (blen value >? maxPreferencePayloadBytes)
  then Err ErrPreferencePayloadInvalid
  else if expectedRevision <? 0 then Err ErrPreferenceRevisionConflict
  else
    let nowMillis := unixMillis now in
    if expectedRevision =? 0 then
      match preferences db !! (w, key) with
      | Some _ => Err ErrPreferenceRevisionConflict
      | None =>
          fail_if negb (bool_decide (is_Some (workspaces db !! w)))
            with_msg "create workspace preference" in
          Ok (1, db <| preferences :=
                   <[(w, key) := mkPreferenceRow 1 value nowMillis]> (preferences db) |>)
      end
    else
      match preferences db !! (w, key) with
      | Some row =>
          if revision row =? expectedRevision then
            fail_if (revision row =? MaxInt64) with_msg "update workspace preference" in
            Ok (expectedRevision + 1,
                db <| preferences :=
                  <[(w, key) := mkPreferenceRow (revision row + 1) value nowMillis]>
                    (preferences db) |>)
          else Err ErrPreferenceRevisionConflict
      | None => Err ErrPreferenceRevisionConflict
      end.

Definition LoadAdministrator (db : DB) : option AdministratorCredential :=
  (λ r, mkAdministratorCredential (adm_name r) (adm_password_hash r) (adm_totp_secret r)
          (adm_updated_at_ms r * Millisecond)) <$> administrator db.

Definition SaveAdministrator (c : AdministratorCredential) (db : DB) : result DB :=
  let? _ := validateAdministratorCredential c in
  fail_if sql_text_empty (ac_Name c) || sql_text_empty (ac_PasswordHash c) ||
          sql_text_empty (ac_TOTPSecret c)
    with_msg "save administrator credential" in
  Ok (db <| administrator := Some (mkAdministratorRow (ac_Name c) (ac_PasswordHash c)
              (ac_TOTPSecret c) (unixMillis (ac_UpdatedAt c))) |>).
