(* ===== verification/MembershipStore.v ===== *)
(** Membership changes in the admission store (internal/admission/store.go):
    approving, renaming and revoking devices, rotating the workspace authority,
    and serving the signed roster chain. Each change signs the next roster of
    the workspace and stores it in the same transaction. *)

From S2P Require Import Prelude GoStd DeliveryStore MembershipCodec Schema Admission.

Definition zero_digest : bytes := repeat Byte.x00 32.

Record workspaceRosterDraft : Type := mkDraft {
  draft_Epoch : Z;
  draft_PreviousDigest : bytes;
  draft_ActiveCertificates : list SignedDeviceCertificate;
  draft_Revocations : list RevokedCertificate
}.

(** [sort.Slice] by device ID and by certificate ID. The signer rejects equal
    keys, so the order among them does not matter. *)
Definition cert_le (a b : SignedDeviceCertificate) : Prop :=
  bytes_lt (device_of b) (device_of a) = false.
#[export] Instance cert_le_dec a b : Decision (cert_le a b).
Proof. unfold cert_le. apply _. Defined.
Definition sort_certificates : list SignedDeviceCertificate → list SignedDeviceCertificate :=
  merge_sort cert_le.

Definition revocation_le (a b : RevokedCertificate) : Prop :=
  bytes_lt (rv_certificate_id b) (rv_certificate_id a) = false.
#[export] Instance revocation_le_dec a b : Decision (revocation_le a b).
Proof. unfold revocation_le. apply _. Defined.
Definition sort_revocations : list RevokedCertificate → list RevokedCertificate :=
  merge_sort revocation_le.

Section Membership.
Context `{Wire, Ed25519}.

(** ** The next roster *)

Definition prepareNextWorkspaceRoster (w authorityPublicKey : bytes) (db : DB)
  : result workspaceRosterDraft :=
  match latest (rosters_of w db) with
  | None => Ok (mkDraft 1 zero_digest [] [])
  | Some (_, row) =>
      let? previous := wrapf "read current workspace roster"
                         (DecodeSignedWorkspaceRoster (signed_roster row) authorityPublicKey) in
      match sr_roster previous with
      | None => Err (New "workspace roster is missing or contains unknown fields")
      | Some roster =>
          fail_if (ro_roster_epoch roster >=? MaxInt64) with_msg "workspace roster epoch exhausted" in
          Ok (mkDraft (i64 (ro_roster_epoch roster) + 1) (sr_roster_digest previous)
                (ro_active_certificates roster) (ro_revocations roster))
      end
  end.

(** [INSERT INTO workspace_rosters] with its constraints. *)
Definition insertWorkspaceRoster (w : bytes) (epoch : Z) (previousDigest : bytes)
  (roster : SignedWorkspaceRoster) (encoded : bytes) (now : Z) (db : DB) : result DB :=
  let rows := rosters_of w db in
  fail_if negb (bool_decide (is_Some (workspaces db !! w))) || (epoch <=? 0) ||
          negb (blen (sr_roster_digest roster) =? 32) || negb (blen previousDigest =? 32) ||
          bool_decide (is_Some (rows !! epoch)) ||
          existsb (λ r, beq (ros_digest r.2) (sr_roster_digest roster)) (map_to_list rows)
    with_msg "store workspace roster" in
  Ok (db <| rosters := <[w := <[epoch := mkRosterRow (sr_roster_digest roster) previousDigest
            encoded (unixMillis now)]> rows]> (rosters db) |>).

(** The workspace's authority key, when the given private key is its owner. *)
Definition authority_of (w privateKey : bytes) (db : DB) : result bytes :=
  match workspaces db !! w with
  | Some row =>
      match authority_public_key row with
      | Some k => if (blen k =? PublicKeySize) && beq (ed_Public privateKey) k
                  then Ok k else Err ErrWorkspaceAuthorityUnavailable
      | None => Err ErrWorkspaceAuthorityUnavailable
      end
  | None => Err ErrWorkspaceAuthorityUnavailable
  end.

(** ** Approval *)

Record ApprovedMembership : Type := mkApprovedMembership {
  am_DeviceReference : bytes;
  am_CertificateID : bytes;
  am_RosterEpoch : Z;
  am_RosterDigest : bytes
}.

Definition ApprovePendingMembership (w reference : bytes) (roles : list Z) (privateKey : bytes)
  (now : Z) (db : DB) : result (ApprovedMembership * DB) :=
  fail_if negb (blen privateKey =? PrivateKeySize) || (Z.of_nat (length roles) =? 0)
    with_msg "authority private key and roles are required" in
  let? deviceID := resolveDeviceReference w reference db in
  let? authorityPublicKey := authority_of w privateKey db in
  match device_rows db !! (w, deviceID) with
  | None => Err ErrDeviceNotFound
  | Some d =>
      if negb (bool_decide (revoked_at_ms d = None)) ||
         negb (bool_decide (membership_state d = pending_approval))
      then Err ErrDeviceNotFound
      else
        let? nextRoster := prepareNextWorkspaceRoster w authorityPublicKey db in
        let rosterEpoch := draft_Epoch nextRoster in
        let previousDigest := draft_PreviousDigest nextRoster in
        let? certificate := wrapf "sign device certificate" (SignDeviceCertificate
          (mkCertificate ProtocolVersion w deviceID (membershipDeviceType (device_type d))
             (device_name d) roles (e2ee_public_key d) (Sum256 (e2ee_public_key d))
             (u64 (unixMillis now)) 0 (u64 rosterEpoch) []) privateKey) in
        let activeCertificates :=
          sort_certificates (draft_ActiveCertificates nextRoster ++ [certificate]) in
        let? roster := wrapf "sign workspace roster" (SignWorkspaceRoster
          (mkRoster ProtocolVersion w (u64 rosterEpoch) previousDigest activeCertificates
             (draft_Revocations nextRoster) [] []) privateKey) in
        let? certificateEncoded := EncodeSignedDeviceCertificate certificate authorityPublicKey in
        let? rosterEncoded := EncodeSignedWorkspaceRoster roster authorityPublicKey in
        let db1 := set_device (w, deviceID)
          (d <| membership_state := approved |>
             <| certificate_id := Some (sc_certificate_id certificate) |>
             <| signed_certificate := Some certificateEncoded |>
             <| approved_at_ms := Some (unixMillis now) |>
             <| proof_challenge_digest := None |> <| proof_expires_at_ms := None |>) db in
        let? db2 := insertWorkspaceRoster w rosterEpoch previousDigest roster rosterEncoded now db1 in
        Ok (mkApprovedMembership reference (sc_certificate_id certificate) rosterEpoch
              (sr_roster_digest roster), db2)
  end.

(** ** Taking one device's certificate out of the active list *)

(** The loop [RenameDevice] and [RevokeDevice] share: keep the certificates of
    the other devices, and require that the device's own certificate is there
    and encodes to the stored bytes. *)
Fixpoint take_out (deviceID signedCertificate pk : bytes) (found : bool)
  (certificates : list SignedDeviceCertificate) : result (bool * list SignedDeviceCertificate) :=
  match certificates with
  | [] => Ok (found, [])
  | c :: rest =>
      if beq (device_of c) deviceID then
        match EncodeSignedDeviceCertificate c pk with
        | Ok encoded =>
            if beq encoded signedCertificate then take_out deviceID signedCertificate pk true rest
            else Err (New "active roster certificate does not match the device record")
        | Err _ => Err (New "active roster certificate does not match the device record")
        end
      else
        let? '(f, kept) := take_out deviceID signedCertificate pk found rest in
        Ok (f, c :: kept)
  end.

(** ** Renaming *)

Record RenamedDevice : Type := mkRenamedDevice {
  rnd_DeviceReference : bytes;
  rnd_CertificateID : bytes;
  rnd_RosterEpoch : Z;
  rnd_RosterDigest : bytes
}.

(** The stored certificate decodes under the authority and is the device's. *)
Definition stored_certificate (w deviceID pk : bytes) (d : DeviceRow)
  : result (SignedDeviceCertificate * DeviceCertificate) :=
  match DecodeSignedDeviceCertificate (default [] (signed_certificate d)) pk with
  | Err _ => Err (New "stored device certificate is invalid")
  | Ok c =>
      match sc_certificate c with
      | None => Err (New "stored device certificate is invalid")
      | Some body =>
          fail_if negb (beq (sc_certificate_id c) (default [] (certificate_id d))) ||
                  negb (beq (dc_workspace_id body) w) || negb (beq (dc_device_id body) deviceID)
            with_msg "stored device certificate is invalid" in
          Ok (c, body)
      end
  end.

Definition RenameDevice (w reference displayName privateKey : bytes) (now : Z) (db : DB)
  : result (RenamedDevice * DB) :=
  let? _ := validateDeviceName displayName in
  let? deviceID := resolveDeviceReference w reference db in
  match device_rows db !! (w, deviceID), workspaces db !! w with
  | Some d, Some wrow =>
      if negb (bool_decide (membership_state d = approved)) ||
         bool_decide (is_Some (revoked_at_ms d)) || beq (device_name d) displayName
      then Err ErrDeviceNotFound
      else if negb (blen privateKey =? PrivateKeySize) then Err ErrWorkspaceAuthorityUnavailable
      else
        let? authorityPublicKey := authority_of w privateKey db in
        let? '(previousCertificate, previousBody) :=
          stored_certificate w deviceID authorityPublicKey d in
        fail_if negb (beq (dc_display_name previousBody) (device_name d))
          with_msg "stored device certificate is invalid" in
        let? nextRoster := prepareNextWorkspaceRoster w authorityPublicKey db in
        fail_if (draft_Epoch nextRoster =? 1) with_msg "approved device has no workspace roster" in
        let? '(found, others) := take_out deviceID (default [] (signed_certificate d))
          authorityPublicKey false (draft_ActiveCertificates nextRoster) in
        fail_if negb found
          with_msg "approved device certificate is not active in the workspace roster" in
        let issuedAt := u64 (unixMillis now) in
        let rosterEpoch := draft_Epoch nextRoster in
        let previousDigest := draft_PreviousDigest nextRoster in
        let? replacement := wrapf "sign replacement device certificate" (SignDeviceCertificate
          (mkCertificate (dc_protocol_version previousBody) (dc_workspace_id previousBody)
             (dc_device_id previousBody) (dc_device_type previousBody) displayName
             (dc_roles previousBody) (dc_identity_public_key previousBody)
             (dc_identity_key_id previousBody) issuedAt (dc_expires_at_unix_ms previousBody)
             (u64 rosterEpoch) (dc_unknown previousBody)) privateKey) in
        let transition := mkTransition ProtocolVersion w deviceID
          (sc_certificate_id previousCertificate) (sc_certificate_id replacement)
          (u64 rosterEpoch) previousDigest REASON_DISPLAY_NAME issuedAt [] in
        let? _ := ValidateDisplayNameCertificateTransition previousCertificate replacement
                    transition in
        let? roster := wrapf "sign device rename roster" (SignWorkspaceRoster
          (mkRoster ProtocolVersion w (u64 rosterEpoch) previousDigest
             (sort_certificates (others ++ [replacement])) (draft_Revocations nextRoster)
             [transition] []) privateKey) in
        let? replacementEncoded := EncodeSignedDeviceCertificate replacement authorityPublicKey in
        let? rosterEncoded := EncodeSignedWorkspaceRoster roster authorityPublicKey in
        let db1 := set_device (w, deviceID)
          (d <| device_name := displayName |>
             <| certificate_id := Some (sc_certificate_id replacement) |>
             <| signed_certificate := Some replacementEncoded |>) db in
        let? db2 := insertWorkspaceRoster w rosterEpoch previousDigest roster rosterEncoded now db1 in
        Ok (mkRenamedDevice reference (sc_certificate_id replacement) rosterEpoch
              (sr_roster_digest roster), db2)
  | _, _ => Err ErrDeviceNotFound
  end.

(** ** Revocation *)

Record RevokedDevice : Type := mkRevokedDevice {
  rvk_DeviceReference : bytes;
  rvk_Changed : bool;
  rvk_RosterEpoch : Z;
  rvk_RosterDigest : bytes
}.

Definition RevokeDevice (w reference privateKey : bytes) (now : Z) (db : DB)
  : result (RevokedDevice * DB) :=
  let? deviceID := resolveDeviceReference w reference db in
  match device_rows db !! (w, deviceID) with
  | None => Err ErrDeviceNotFound
  | Some d =>
      if bool_decide (is_Some (revoked_at_ms d))
      then Ok (mkRevokedDevice reference false 0 zero_digest, db)
      else if negb (bool_decide (membership_state d = approved)) then
        Ok (mkRevokedDevice reference true 0 zero_digest,
            set_device (w, deviceID) (d <| revoked_at_ms := Some (unixMillis now) |>
                                        <| membership_state := revoked |>) db)
      else if negb (blen privateKey =? PrivateKeySize) ||
              negb (blen (default [] (certificate_id d)) =? 32) ||
              (blen (default [] (signed_certificate d)) =? 0)
      then Err ErrWorkspaceAuthorityUnavailable
      else
        let? authorityPublicKey := authority_of w privateKey db in
        let? nextRoster := prepareNextWorkspaceRoster w authorityPublicKey db in
        fail_if (draft_Epoch nextRoster =? 1) with_msg "approved device has no workspace roster" in
        let? _ := stored_certificate w deviceID authorityPublicKey d in
        let? '(found, activeCertificates) := take_out deviceID (default [] (signed_certificate d))
          authorityPublicKey false (draft_ActiveCertificates nextRoster) in
        fail_if negb found
          with_msg "approved device certificate is not active in the workspace roster" in
        let revocations := sort_revocations (draft_Revocations nextRoster ++
          [mkRevoked (default [] (certificate_id d)) deviceID (u64 (unixMillis now)) []]) in
        let rosterEpoch := draft_Epoch nextRoster in
        let previousDigest := draft_PreviousDigest nextRoster in
        let? roster := wrapf "sign workspace revocation roster" (SignWorkspaceRoster
          (mkRoster ProtocolVersion w (u64 rosterEpoch) previousDigest activeCertificates
             revocations [] []) privateKey) in
        let? rosterEncoded := EncodeSignedWorkspaceRoster roster authorityPublicKey in
        let db1 := set_device (w, deviceID)
          (d <| revoked_at_ms := Some (unixMillis now) |> <| membership_state := revoked |>
             <| revoked_membership_epoch := Some rosterEpoch |>) db in
        let? db2 := insertWorkspaceRoster w rosterEpoch previousDigest roster rosterEncoded now db1 in
        Ok (mkRevokedDevice reference true rosterEpoch (sr_roster_digest roster), db2)
  end.

(** ** Authority rotation *)

Record RotatedWorkspaceAuthority : Type := mkRotatedWorkspaceAuthority {
  rwa_AuthorityEpoch : Z;
  rwa_TransitionDigest : bytes;
  rwa_RosterEpoch : Z;
  rwa_RosterDigest : bytes;
  rwa_SignedTransition : bytes
}.

(** The reissue loop: every active certificate is signed again by the new
    authority and replaces the certificate of its device. *)
Fixpoint reissue (w newPrivateKey newPublicKey : bytes) (activationEpoch now : Z)
  (certificates : list SignedDeviceCertificate) (db : DB)
  : result (list SignedDeviceCertificate * DB) :=
  match certificates with
  | [] => Ok ([], db)
  | oldSigned :: rest =>
      match sc_certificate oldSigned with
      | None => Err (New "reissue device certificate")
      | Some c =>
          let certificate := mkCertificate (dc_protocol_version c) (dc_workspace_id c)
            (dc_device_id c) (dc_device_type c) (dc_display_name c) (dc_roles c)
            (dc_identity_public_key c) (dc_identity_key_id c) (u64 (unixMillis now))
            (dc_expires_at_unix_ms c) (u64 activationEpoch) (dc_unknown c) in
          let? newSigned := wrapf "reissue device certificate"
                              (SignDeviceCertificate certificate newPrivateKey) in
          let? encoded := EncodeSignedDeviceCertificate newSigned newPublicKey in
          match device_rows db !! (w, dc_device_id c) with
          | None => Err (New "active roster certificate does not match the device record")
          | Some d =>
              fail_if negb (bool_decide (certificate_id d = Some (sc_certificate_id oldSigned))) ||
                      negb (approved_row d)
                with_msg "active roster certificate does not match the device record" in
              let? '(active, db') := reissue w newPrivateKey newPublicKey activationEpoch now rest
                (set_device (w, dc_device_id c)
                   (d <| certificate_id := Some (sc_certificate_id newSigned) |>
                      <| signed_certificate := Some encoded |>
                      <| approved_at_ms := Some (unixMillis now) |>) db) in
              Ok (newSigned :: active, db')
          end
      end
  end.

(** [INSERT INTO workspace_authority_transitions] with its constraints. *)
Definition insert_transition (w : bytes) (epoch : Z) (row : AuthorityTransitionRow) (db : DB)
  : result DB :=
  let rows := transitions_of w db in
  fail_if negb (bool_decide (is_Some (workspaces db !! w))) || (epoch <=? 1) ||
          negb (blen (atr_digest row) =? 32) || negb (blen (atr_previous_digest row) =? 32) ||
          negb (blen (atr_previous_authority_public_key row) =? 32) ||
          negb (blen (atr_new_authority_public_key row) =? 32) ||
          (atr_activation_roster_epoch row <=? 1) || bool_decide (is_Some (rows !! epoch)) ||
          existsb (λ r, beq (atr_digest r.2) (atr_digest row)) (map_to_list rows)
    with_msg "store workspace authority transition" in
  Ok (db <| authority_transitions := <[w := <[epoch := row]> rows]> (authority_transitions db) |>).

Definition RotateWorkspaceAuthority (w previousPrivateKey newPrivateKey : bytes) (now : Z) (db : DB)
  : result (RotatedWorkspaceAuthority * DB) :=
  fail_if negb (blen previousPrivateKey =? PrivateKeySize) ||
          negb (blen newPrivateKey =? PrivateKeySize) || IsZero now
    with_msg "previous and new authority private keys and rotation time are required" in
  let previousPublicKey := ed_Public previousPrivateKey in
  let newPublicKey := ed_Public newPrivateKey in
  fail_if beq previousPublicKey newPublicKey
    with_msg "new workspace authority must differ from current authority" in
  match workspaces db !! w with
  | None => Err ErrWorkspaceAuthorityUnavailable
  | Some wrow =>
      let authorityEpoch := authority_epoch wrow in
      let previousTransitionDigest := authority_transition_digest wrow in
      if negb (bool_decide (authority_public_key wrow = Some previousPublicKey)) ||
         negb (blen previousPublicKey =? PublicKeySize) || (authorityEpoch <? 1) ||
         negb (blen previousTransitionDigest =? 32)
      then Err ErrWorkspaceAuthorityUnavailable
      else
        fail_if (authorityEpoch =? MaxInt64) with_msg "workspace authority epoch exhausted" in
        match latest (rosters_of w db) with
        | None => Err (New "workspace authority rotation requires an existing roster")
        | Some (_, row) =>
            let? previousRoster := wrapf "read activation predecessor roster"
              (DecodeSignedWorkspaceRoster (signed_roster row) previousPublicKey) in
            match sr_roster previousRoster with
            | None => Err (New "workspace roster is missing or contains unknown fields")
            | Some old =>
                fail_if (ro_roster_epoch old >=? MaxInt64)
                  with_msg "workspace roster epoch exhausted" in
                let activationEpoch := i64 (ro_roster_epoch old) + 1 in
                let transitionEpoch := authorityEpoch + 1 in
                let? transition := wrapf "sign workspace authority transition"
                  (SignAuthorityKeyTransition
                     (mkAuthorityTransition ProtocolVersion w (u64 transitionEpoch)
                        previousTransitionDigest previousPublicKey newPublicKey
                        (u64 activationEpoch) (sr_roster_digest previousRoster)
                        (u64 (unixMillis now)) [])
                     previousPrivateKey newPrivateKey) in
                let? transitionEncoded := EncodeSignedAuthorityKeyTransition transition in
                let? '(active, db1) := reissue w newPrivateKey newPublicKey activationEpoch now
                  (ro_active_certificates old) db in
                let? activationRoster := wrapf "sign authority activation roster"
                  (SignWorkspaceRoster
                     (mkRoster ProtocolVersion w (u64 activationEpoch)
                        (sr_roster_digest previousRoster) active (ro_revocations old) [] [])
                     newPrivateKey) in
                let? activationEncoded :=
                  EncodeSignedWorkspaceRoster activationRoster newPublicKey in
                let? db2 := insert_transition w transitionEpoch
                  (mkAuthorityTransitionRow (sat_transition_digest transition)
                     previousTransitionDigest previousPublicKey newPublicKey activationEpoch
                     transitionEncoded (unixMillis now)) db1 in
                let? db3 := insertWorkspaceRoster w activationEpoch (sr_roster_digest previousRoster)
                  activationRoster activationEncoded now db2 in
                Ok (mkRotatedWorkspaceAuthority transitionEpoch (sat_transition_digest transition)
                      activationEpoch (sr_roster_digest activationRoster) transitionEncoded,
                    db3 <| workspaces := <[w := wrow <| authority_public_key := Some newPublicKey |>
                                                     <| authority_epoch := transitionEpoch |>
                                                     <| authority_transition_digest :=
                                                          sat_transition_digest transition |>]>
                                           (workspaces db3) |>)
            end
        end
  end.

Definition CompletedWorkspaceAuthorityRotation (w expectedNewAuthority : bytes) (db : DB)
  : result (option RotatedWorkspaceAuthority) :=
  match workspaces db !! w with
  | None => Ok None
  | Some wrow =>
      match transitions_of w db !! authority_epoch wrow with
      | None => Ok None
      | Some trow =>
          if negb (beq (default [] (authority_public_key wrow)) expectedNewAuthority) then Ok None
          else
            match DecodeSignedAuthorityKeyTransition (signed_transition trow) with
            | Err _ => Err (New "stored workspace authority transition is invalid")
            | Ok transition =>
                match sat_transition transition with
                | None => Err (New "stored workspace authority transition is invalid")
                | Some t =>
                    fail_if negb (at_transition_epoch t =? u64 (authority_epoch wrow)) ||
                            negb (beq (at_new_authority_public_key t) expectedNewAuthority)
                      with_msg "stored workspace authority transition is invalid" in
                    match rosters_of w db !! at_activation_roster_epoch t with
                    | None => Err (New "stored authority activation roster is missing")
                    | Some rrow =>
                        fail_if negb (blen (ros_digest rrow) =? 32)
                          with_msg "stored authority activation roster is missing" in
                        Ok (Some (mkRotatedWorkspaceAuthority (authority_epoch wrow)
                              (sat_transition_digest transition)
                              (i64 (at_activation_roster_epoch t)) (ros_digest rrow)
                              (signed_transition trow)))
                    end
                end
            end
      end
  end.

(** ** Serving the membership state *)

Record MembershipStateView : Type := mkMembershipStateView {
  msv_State : membershipState;
  msv_AuthorityPublicKey : bytes;
  msv_SignedCertificate : bytes;
  msv_AuthorityTransitions : list bytes;
  msv_Rosters : list bytes;
  msv_LatestRosterEpoch : Z
}.

(** The [WHERE] clause of the device query. *)
Definition readable_device (authHash : bytes) (d : DeviceRow) : bool :=
  beq (auth_token_hash d) authHash &&
  ((bool_decide (revoked_at_ms d = None) &&
    (bool_decide (membership_state d = pending_proof) ||
     bool_decide (membership_state d = pending_approval) ||
     bool_decide (membership_state d = approved))) ||
   (bool_decide (membership_state d = revoked) &&
    bool_decide (is_Some (revoked_membership_epoch d)))).

(** The authority key in force at a roster epoch, from the transitions: the
    newest activated at or before it, else the first transition's predecessor. *)
Definition activation_le (a b : Z * AuthorityTransitionRow) : Prop :=
  atr_activation_roster_epoch a.2 ≤ atr_activation_roster_epoch b.2.
#[export] Instance activation_le_dec a b : Decision (activation_le a b).
Proof. unfold activation_le. apply _. Defined.
Definition by_activation (m : gmap Z AuthorityTransitionRow) : list (Z * AuthorityTransitionRow) :=
  merge_sort activation_le (map_to_list m).

Definition effective_key (rows : gmap Z AuthorityTransitionRow) (epoch : Z) (current : bytes)
  : bytes :=
  let key :=
    match last (List.filter (λ x, atr_activation_roster_epoch x.2 <=? epoch) (by_activation rows)) with
    | Some x => Some (atr_new_authority_public_key x.2)
    | None => atr_previous_authority_public_key ∘ snd <$> head (by_activation rows)
    end in
  match key with
  | Some k => if blen k =? PublicKeySize then k else current
  | None => current
  end.

(** The roster loop: contiguous epochs, within the page's byte budget. *)
Fixpoint roster_page (expectedEpoch : Z) (first : bool) (pageBytes : Z)
  (rows : list (Z * RosterRow)) : result (list bytes) :=
  match rows with
  | [] => Ok []
  | (epoch, row) :: rest =>
      fail_if negb (epoch =? expectedEpoch) with_msg "workspace roster chain is not contiguous" in
      if negb first && (pageBytes + blen (signed_roster row) >? maxMembershipRosterPageRaw)
      then Ok []
      else
        let? more := roster_page (expectedEpoch + 1) false
                       (pageBytes + blen (signed_roster row)) rest in
        Ok (signed_roster row :: more)
  end.

Definition in_epochs {A} (after upto : Z) (x : Z * A) : bool := (after <? x.1) && (x.1 <=? upto).

Definition ReadMembershipState (w dev authToken : bytes) (afterRosterEpoch : Z) (db : DB)
  : result MembershipStateView :=
  if negb (blen authToken =? authTokenBytes) || (afterRosterEpoch <? 0)
  then Err ErrMembershipStateUnavailable
  else
  match device_rows db !! (w, dev), workspaces db !! w with
  | Some d, Some wrow =>
      if negb (readable_device (Sum256 authToken) d) ||
         negb (blen (default [] (authority_public_key wrow)) =? PublicKeySize)
      then Err ErrMembershipStateUnavailable
      else
        let currentKey := default [] (authority_public_key wrow) in
        let signedCertificate := default [] (signed_certificate d) in
        if negb (bool_decide (membership_state d = revoked)) &&
           negb (bool_decide (membership_state d = approved))
        then Ok (mkMembershipStateView (membership_state d) currentKey signedCertificate [] [] 0)
        else
          let maximumEpoch := default MaxInt64 (revoked_membership_epoch d) in
          let authorityPublicKey :=
            if bool_decide (is_Some (revoked_membership_epoch d))
            then effective_key (transitions_of w db) maximumEpoch currentKey
            else currentKey in
          let? queryAfterEpoch :=
            (if afterRosterEpoch =? 0 then
               match DecodeSignedDeviceCertificate signedCertificate authorityPublicKey with
               | Err _ => Err (New "stored device certificate is invalid")
               | Ok c =>
                   let epoch := match sc_certificate c with
                                | Some b => dc_membership_epoch b
                                | None => 0
                                end in
                   fail_if (epoch <? 1) || (epoch >? MaxInt64)
                     with_msg "stored device certificate is invalid" in
                   Ok (i64 epoch - 1)
               end
             else Ok afterRosterEpoch) in
          let transitions := take (S maxAuthorityTransitions)
            (List.filter (λ x, (queryAfterEpoch <? atr_activation_roster_epoch x.2) &&
                          (atr_activation_roster_epoch x.2 <=? maximumEpoch))
               (by_key (transitions_of w db))) in
          fail_if (maxAuthorityTransitions <? length transitions)%nat
            with_msg "workspace authority transition chain exceeds response limit" in
          let rows := take maxMembershipRosterPage
            (List.filter (in_epochs queryAfterEpoch maximumEpoch) (by_key (rosters_of w db))) in
          let? page := roster_page (queryAfterEpoch + 1) true 0 rows in
          Ok (mkMembershipStateView approved authorityPublicKey signedCertificate
                (signed_transition ∘ snd <$> transitions) page
                (match revoked_membership_epoch d with
                 | Some e => e
                 | None => match latest (rosters_of w db) with Some (e, _) => e | None => 0 end
                 end))
  | _, _ => Err ErrMembershipStateUnavailable
  end.
End Membership.
