(* ===== verification/StoreSteps.v ===== *)
(** The admission store as a transition system: every operation that writes the
    database, what it may do to a device, a pairing code, a rotation code, a
    preference and a workspace, and the safety properties that follow for every
    sequence of operations. *)

From S2P Require Import Prelude GoStd DeliveryStore MembershipCodec Schema Admission MembershipStore.

Section Steps.
Context `{Wire, Ed25519}.

(** ** Operations *)

Inductive op : Type :=
| OCreateWorkspace (authorityPublicKey : bytes) (now : Z) (id : bytes)
| OIssuePairingCode (w : bytes) (t : DeviceType) (boundName : bytes) (now ttl : Z) (secret : bytes)
| ORegisterPending (input : Registration) (createChallenge : bytes → bytes → result PendingChallenge)
    (deviceID authToken : bytes)
| OCompleteProof (input : PendingIdentityProofInput)
| OApprove (w reference : bytes) (roles : list Z) (privateKey : bytes) (now : Z)
| ORename (w reference displayName privateKey : bytes) (now : Z)
| ORevoke (w reference privateKey : bytes) (now : Z)
| ORotateAuthority (w previousPrivateKey newPrivateKey : bytes) (now : Z)
| OIssueRotationCode (w reference : bytes) (now ttl : Z) (secret : bytes)
| ORotateCredential (input : CredentialRotation)
| OAuthenticate (w dev authToken : bytes) (now : Z)
| ORecordActivity (w dev : bytes) (now : Z)
| OWritePreference (w key : bytes) (expectedRevision : Z) (value : bytes) (now : Z)
| OSaveAdministrator (c : AdministratorCredential)
| OAppend (p : PeerIdentity) (env : bytes) (expiresAt now : Z)
| OResume (p : PeerIdentity) (cursor now limit : Z)
| ORead (p : PeerIdentity) (after now limit : Z)
| OAck (p : PeerIdentity) (cursor : Z).

(** [FOREIGN KEY ... REFERENCES devices] of the relay tables. *)
Definition device_exists (db : DB) (p : PeerIdentity) : bool :=
  bool_decide (is_Some (device_rows db !! p)).

Definition second {A B} (r : result (A * B)) : result B := let? '(_, b) := r in Ok b.
Definition with_relay (db : DB) (r : result Tables) : result DB :=
  let? T := r in Ok (db <| relay := T |>).

Definition exec (o : op) (db : DB) : result DB :=
  match o with
  | OCreateWorkspace k now id => second (CreateWorkspace k now id db)
  | OIssuePairingCode w t n now ttl s => second (IssuePairingCode w t n now ttl s db)
  | ORegisterPending i f d a => second (RegisterPending i f d a db)
  | OCompleteProof i => CompletePendingIdentityProof i db
  | OApprove w r roles k now => second (ApprovePendingMembership w r roles k now db)
  | ORename w r n k now => second (RenameDevice w r n k now db)
  | ORevoke w r k now => second (RevokeDevice w r k now db)
  | ORotateAuthority w k k' now => second (RotateWorkspaceAuthority w k k' now db)
  | OIssueRotationCode w r now ttl s => second (IssueCredentialRotationCode w r now ttl s db)
  | ORotateCredential i => second (RotateCredential i db)
  | OAuthenticate w d t now => second (Authenticate w d t now db)
  | ORecordActivity w d now => RecordDeviceActivity w d now db
  | OWritePreference w k e v now => second (WriteWorkspacePreference w k e v now db)
  | OSaveAdministrator c => SaveAdministrator c db
  | OAppend p env e now =>
      with_relay db (second (AppendDelivery (device_exists db) p env e now (relay db)))
  | OResume p c now l =>
      with_relay db (second (ResumeDeliveries (device_exists db) p c now l (relay db)))
  | ORead p c now l => with_relay db (second (ReadDeliveries p c now l (relay db)))
  | OAck p c => with_relay db (AcknowledgeDelivery (device_exists db) p c (relay db))
  end.

(** A failed operation is rolled back. *)
Definition run_op (db : DB) (o : op) : DB := from_ok db (exec o db).
Definition run (ops : list op) (db : DB) : DB := foldl run_op db ops.

(** ** What an operation may do to one device *)

Definition new_device (d : DeviceRow) : Prop :=
  membership_state d = pending_proof ∧ revoked_at_ms d = None ∧ credential_version d = 1 ∧
  proof_completed_at_ms d = None ∧ certificate_id d = None ∧ revoked_membership_epoch d = None ∧
  is_Some (P256_Unmarshal (e2ee_public_key d)) ∧ device_type_known (device_type d) = true ∧
  validateDeviceName (device_name d) = Ok tt.

Inductive device_step : DeviceRow → DeviceRow → Prop :=
| DS_same d : device_step d d
| DS_authenticated d t : approved_row d = true →
    device_step d (d <| last_online_at_ms := t |> <| last_authenticated_at_ms := Some t |>
                     <| last_activity_at_ms := Some t |>)
| DS_activity d t : approved_row d = true →
    device_step d (d <| last_activity_at_ms := Some t |>)
| DS_proof d t : membership_state d = pending_proof → revoked_at_ms d = None →
    device_step d (d <| membership_state := pending_approval |>
                     <| proof_completed_at_ms := Some t |> <| proof_secret_hash := None |>)
| DS_approve d cid cert t : membership_state d = pending_approval → revoked_at_ms d = None →
    device_step d (d <| membership_state := approved |> <| certificate_id := Some cid |>
                     <| signed_certificate := Some cert |> <| approved_at_ms := Some t |>
                     <| proof_challenge_digest := None |> <| proof_expires_at_ms := None |>)
| DS_rename d name cid cert : approved_row d = true → validateDeviceName name = Ok tt →
    device_step d (d <| device_name := name |> <| certificate_id := Some cid |>
                     <| signed_certificate := Some cert |>)
| DS_reissue d cid cert t : approved_row d = true →
    device_step d (d <| certificate_id := Some cid |> <| signed_certificate := Some cert |>
                     <| approved_at_ms := Some t |>)
| DS_revoke_pending d t : membership_state d ≠ approved → revoked_at_ms d = None →
    device_step d (d <| revoked_at_ms := Some t |> <| membership_state := revoked |>)
| DS_revoke_approved d t e : approved_row d = true →
    device_step d (d <| revoked_at_ms := Some t |> <| membership_state := revoked |>
                     <| revoked_membership_epoch := Some e |>)
| DS_rotate d h : approved_row d = true →
    device_step d (d <| auth_token_hash := h |>
                     <| credential_version := credential_version d + 1 |>).

Definition code_step {A} (consumed : A → option Z) (consume : Z → A → A) (r r' : A) : Prop :=
  r' = r ∨ (consumed r = None ∧ ∃ t, r' = consume t r).

(** Rows are never removed, and each changes by its own step. *)
Definition rows_step {K A} `{Countable K} (step : A → A → Prop) (fresh : A → Prop) (m m' : gmap K A)
  : Prop :=
  ∀ k, match m !! k, m' !! k with
       | Some r, Some r' => step r r'
       | None, Some r' => fresh r'
       | None, None => True
       | Some _, None => False
       end.

Lemma rows_step_refl {K A} `{Countable K} (step : A → A → Prop) fresh (m : gmap K A) :
  (∀ r, step r r) → rows_step step fresh m m.
Proof. intros Hr k. destruct (m !! k); auto. Qed.

Lemma rows_step_insert {K A} `{Countable K} (step : A → A → Prop) fresh (m : gmap K A) k r r' :
  (∀ r, step r r) → m !! k = Some r → step r r' → rows_step step fresh m (<[k := r']> m).
Proof.
  intros Hr Hk Hs j. destruct (decide (j = k)) as [->|Hne].
  - by rewrite Hk, lookup_insert_eq.
  - rewrite lookup_insert_ne by done. destruct (m !! j); auto.
Qed.

Lemma rows_step_new {K A} `{Countable K} (step : A → A → Prop) (fresh : A → Prop) (m : gmap K A) k r' :
  (∀ r, step r r) → m !! k = None → fresh r' → rows_step step fresh m (<[k := r']> m).
Proof.
  intros Hr Hk Hf j. destruct (decide (j = k)) as [->|Hne].
  - by rewrite Hk, lookup_insert_eq.
  - rewrite lookup_insert_ne by done. destruct (m !! j); auto.
Qed.

Definition pairing_step : PairingCodeRow → PairingCodeRow → Prop :=
  code_step pc_consumed_at_ms (λ t r, r <| pc_consumed_at_ms := Some t |>).
Definition rotation_step : RotationCodeRow → RotationCodeRow → Prop :=
  code_step rc_consumed_at_ms (λ t r, r <| rc_consumed_at_ms := Some t |>).
Definition preference_step (r r' : PreferenceRow) : Prop :=
  r' = r ∨ revision r' = revision r + 1.
Definition workspace_step (r r' : WorkspaceRow) : Prop :=
  r' = r ∨ (authority_epoch r' = authority_epoch r + 1 ∧
            ws_created_at_ms r' = ws_created_at_ms r).

(** The effect of one operation on every table the properties below are about. *)
Record db_step (db db' : DB) : Prop := {
  st_devices : rows_step (rtc device_step) new_device (device_rows db) (device_rows db');
  st_pairing : rows_step pairing_step (λ r, pc_consumed_at_ms r = None)
                 (pairing_codes db) (pairing_codes db');
  st_rotation : rows_step rotation_step (λ r, rc_consumed_at_ms r = None)
                 (rotation_codes db) (rotation_codes db');
  st_preferences : rows_step preference_step (λ r, revision r = 1) (preferences db) (preferences db');
  st_workspaces : rows_step workspace_step (λ r, authority_epoch r = 1)
                    (workspaces db) (workspaces db')
}.

Lemma db_step_refl db : db_step db db.
Proof. constructor; apply rows_step_refl; intros; first [by left|apply rtc_refl]. Qed.

(** Tables an operation does not touch. *)
Ltac same_rows := apply rows_step_refl; intros; first [by left | apply rtc_refl].
Ltac step_table := constructor; simpl; try same_rows.

Lemma set_device_step p d d' db :
  device_rows db !! p = Some d → device_step d d' → db_step db (set_device p d' db).
Proof.
  intros Hp Hs. step_table. eapply rows_step_insert; [by constructor|done|by apply rtc_once].
Qed.

Lemma insertWorkspaceRoster_ok w e pd r b now db db' :
  insertWorkspaceRoster w e pd r b now db = Ok db' →
  0 < e ∧ is_Some (workspaces db !! w) ∧ rosters_of w db !! e = None ∧
  db' = db <| rosters := <[w := <[e := mkRosterRow (sr_roster_digest r) pd b (unixMillis now)]>
                                 (rosters_of w db)]> (rosters db) |>.
Proof.
  unfold insertWorkspaceRoster. intros Hi. go_inv. go_bool.
  split_and!; [lia|done|by apply eq_None_not_Some|done].
Qed.

Lemma second_ok {A B} (r : result (A * B)) b : second r = Ok b → ∃ a, r = Ok (a, b).
Proof. unfold second. destruct r as [[a b']|]; [|done]. intros [= ->]. eauto. Qed.

Lemma insert_device_ok p d db db' :
  insert_device p d db = Ok db' →
  device_rows db !! p = None ∧ is_Some (workspaces db !! p.1) ∧ blen p.2 = 16 ∧
  device_type_known (device_type d) = true ∧ db' = set_device p d db.
Proof.
  unfold insert_device. intros Hi. go_inv. go_bool.
  split_and!; try done. by apply eq_None_not_Some.
Qed.

Lemma consume_pairing_code_ok hash input db w db' :
  consume_pairing_code hash input db = Ok (w, db') →
  ∃ row, pairing_codes db !! hash = Some row ∧ pc_consumed_at_ms row = None ∧
    w = pc_workspace_id row ∧
    db' = db <| pairing_codes := <[hash := row <| pc_consumed_at_ms :=
                  Some (unixMillis (reg_Now input)) |>]> (pairing_codes db) |>.
Proof.
  unfold consume_pairing_code. destruct (pairing_codes db !! hash) as [row|] eqn:E; [|done].
  destruct (_ || _) eqn:Hc; [done|]. intros Heq. apply Ok_inj in Heq. injection Heq as <- <-.
  exists row. go_bool. split_and!; try done. by apply eq_None_not_Some.
Qed.

Lemma RegisterPending_ok input f dev token db r db' :
  RegisterPending input f dev token db = Ok (r, db') →
  ∃ secret row d, RawURL_Decode (reg_PairingCode input) = Some secret ∧
    pairing_codes db !! Sum256 secret = Some row ∧ pc_consumed_at_ms row = None ∧
    r = (pc_workspace_id row, dev, token) ∧
    device_rows db !! (pc_workspace_id row, dev) = None ∧
    is_Some (workspaces db !! pc_workspace_id row) ∧ new_device d ∧
    db' = set_device (pc_workspace_id row, dev) d
      (db <| pairing_codes := <[Sum256 secret := row <| pc_consumed_at_ms :=
               Some (unixMillis (reg_Now input)) |>]> (pairing_codes db) |>).
Proof.
  unfold RegisterPending. destruct (validateDeviceType _) eqn:Ht; [|done].
  destruct (validateDeviceName _) as [[]|] eqn:Hn; [|done]. destruct (_ || _); [done|].
  destruct (P256_Unmarshal _) eqn:Hp; [|done].
  destruct (RawURL_Decode _) as [secret|] eqn:Hs; [|done]. destruct (negb _); [done|].
  intros Hr. apply rbind_Ok in Hr as ([w db1] & Hc & Hr).
  destruct (f w dev) as [ch|]; [|done]. destruct (_ || _); [done|].
  apply rbind_Ok in Hr as (db2 & Hi & Hr). apply Ok_inj in Hr. injection Hr as <- <-.
  apply consume_pairing_code_ok in Hc as (row & Hrow & Hcons & -> & ->).
  apply insert_device_ok in Hi as (Hnone & Hw & _ & Hk & ->).
  exists secret, row. eexists. split_and!; try done. by unfold new_device.
Qed.

Lemma RegisterPending_step input f dev token db r db' :
  RegisterPending input f dev token db = Ok (r, db') → db_step db db'.
Proof.
  intros Hr. apply RegisterPending_ok in Hr
    as (secret & row & d & _ & Hrow & Hcons & _ & Hnone & _ & Hnew & ->).
  step_table.
  - apply rows_step_new; [by constructor|done|done].
  - eapply rows_step_insert; [by left|done|]. right. eauto.
Qed.

Lemma CompleteProof_step input db db' :
  CompletePendingIdentityProof input db = Ok db' → db_step db db'.
Proof.
  unfold CompletePendingIdentityProof. destruct (_ || _); [done|].
  destruct (device_rows db !! _) as [d|] eqn:Hd; [|done].
  destruct (proof_matches input d) eqn:Hm; [|done]. intros Heq. apply Ok_inj in Heq as <-.
  eapply set_device_step; [done|]. unfold proof_matches in Hm. go_bool. by apply DS_proof.
Qed.

Lemma Authenticate_ok w dev token now db i db' :
  Authenticate w dev token now db = Ok (i, db') →
  ∃ d, device_rows db !! (w, dev) = Some d ∧ auth_token_hash d = Sum256 token ∧
    approved_row d = true ∧ di_CredentialVersion i = credential_version d ∧
    db' = set_device (w, dev) (d <| last_online_at_ms := unixMillis now |>
            <| last_authenticated_at_ms := Some (unixMillis now) |>
            <| last_activity_at_ms := Some (unixMillis now) |>) db.
Proof.
  unfold Authenticate. destruct (negb _); [done|].
  destruct (device_rows db !! _) as [d|] eqn:Hd; [|done].
  destruct (_ && _) eqn:Hm; [|done]. intros Heq. apply Ok_inj in Heq. injection Heq as <- <-.
  apply andb_true_iff in Hm as [Hh Ha]. exists d. split_and!; try done. by apply beq_true.
Qed.

Lemma RecordActivity_step w dev now db db' :
  RecordDeviceActivity w dev now db = Ok db' → db_step db db'.
Proof.
  unfold RecordDeviceActivity. destruct (device_rows db !! _) as [d|] eqn:Hd;
    [|intros [= <-]; apply db_step_refl].
  destruct (_ && _) eqn:Hm; intros Heq; apply Ok_inj in Heq as <-; [|apply db_step_refl].
  apply andb_true_iff in Hm as [Ha _]. eapply set_device_step; [done|]. by apply DS_activity.
Qed.

Lemma RotateCredential_ok input db v db' :
  RotateCredential input db = Ok (v, db') →
  ∃ secret code d,
    RawURL_Decode (cr_RotationCode input) = Some secret ∧
    rotation_codes db !! Sum256 secret = Some code ∧ rc_consumed_at_ms code = None ∧
    device_rows db !! (cr_WorkspaceID input, cr_DeviceID input) = Some d ∧
    approved_row d = true ∧ auth_token_hash d = Sum256 (cr_CurrentAuthToken input) ∧
    1 ≤ credential_version d ∧ credential_version d ≠ MaxInt64 ∧ v = credential_version d + 1 ∧
    db' = set_device (cr_WorkspaceID input, cr_DeviceID input)
      (d <| auth_token_hash := Sum256 (cr_PendingAuthToken input) |>
         <| credential_version := credential_version d + 1 |>)
      (db <| rotation_codes := <[Sum256 secret := code <| rc_consumed_at_ms :=
               Some (unixMillis (cr_Now input)) |>]> (rotation_codes db) |>).
Proof.
  unfold RotateCredential. destruct (_ || _); [done|].
  destruct (RawURL_Decode _) as [secret|] eqn:Hs; [|done]. destruct (_ || _); [done|].
  destruct (rotation_codes db !! _) as [code|] eqn:Hc; [|done].
  destruct (device_rows db !! _) as [d|] eqn:Hd; [|done].
  if_false Hg. if_false Ha. intros Hr. go_inv. apply orb_false_iff in Hg0 as [_ Hmax].
  injection Hr as <- <-. go_bool. exists secret, code, d.
  assert (rc_workspace_id code = cr_WorkspaceID input) as Ew by done.
  assert (rc_device_id code = cr_DeviceID input) as Ed by done. rewrite Ew, Ed in Hd.
  split_and!; try done; try (by apply eq_None_not_Some).
  unfold approved_row. rewrite !bool_decide_eq_true_2; try done. by apply eq_None_not_Some.
Qed.

(** ** Membership changes *)

Definition approve_body (w dev : bytes) (d : DeviceRow) (roles : list Z) (now epoch : Z)
  : DeviceCertificate :=
  mkCertificate ProtocolVersion w dev (membershipDeviceType (device_type d)) (device_name d) roles
    (e2ee_public_key d) (Sum256 (e2ee_public_key d)) (u64 (unixMillis now)) 0 (u64 epoch) [].

Definition approved_device (cert : SignedDeviceCertificate) (encoded : bytes) (now : Z)
  (d : DeviceRow) : DeviceRow :=
  d <| membership_state := approved |> <| certificate_id := Some (sc_certificate_id cert) |>
    <| signed_certificate := Some encoded |> <| approved_at_ms := Some (unixMillis now) |>
    <| proof_challenge_digest := None |> <| proof_expires_at_ms := None |>.

Lemma Approve_ok w ref roles sk now db r db' :
  ApprovePendingMembership w ref roles sk now db = Ok (r, db') →
  ∃ dev pk d draft cert ro eb rb,
    resolveDeviceReference w ref db = Ok dev ∧
    authority_of w sk db = Ok pk ∧ device_rows db !! (w, dev) = Some d ∧
    revoked_at_ms d = None ∧ membership_state d = pending_approval ∧
    prepareNextWorkspaceRoster w pk db = Ok draft ∧
    SignDeviceCertificate (approve_body w dev d roles now (draft_Epoch draft)) sk = Ok cert ∧
    SignWorkspaceRoster (mkRoster ProtocolVersion w (u64 (draft_Epoch draft))
      (draft_PreviousDigest draft) (sort_certificates (draft_ActiveCertificates draft ++ [cert]))
      (draft_Revocations draft) [] []) sk = Ok ro ∧
    EncodeSignedDeviceCertificate cert pk = Ok eb ∧ EncodeSignedWorkspaceRoster ro pk = Ok rb ∧
    insertWorkspaceRoster w (draft_Epoch draft) (draft_PreviousDigest draft) ro rb now
      (set_device (w, dev) (approved_device cert eb now d) db) = Ok db' ∧
    r = mkApprovedMembership ref (sc_certificate_id cert) (draft_Epoch draft) (sr_roster_digest ro).
Proof.
  unfold ApprovePendingMembership. intros Hr. go_inv.
  rename v into dev, v0 into pk. destruct (device_rows db !! (w, dev)) as [d|] eqn:Hd; [|done].
  revert Hr. if_false Hg'. intros Hr. apply rbind_Ok in Hr as (draft & Hdraft & Hr).
  apply rbind_Ok in Hr as (cert & Hcert & Hr). apply wrapf_Ok in Hcert.
  apply rbind_Ok in Hr as (ro & Hro & Hr). apply wrapf_Ok in Hro.
  apply rbind_Ok in Hr as (eb & Heb & Hr). apply rbind_Ok in Hr as (rb & Hrb & Hr).
  apply rbind_Ok in Hr as (db2 & Hins & Hr). apply Ok_inj in Hr. injection Hr as <- <-.
  apply orb_false_iff in Hg' as [Hrev Hst]. apply negb_false_iff, bool_decide_eq_true in Hrev, Hst.
  exists dev, pk, d, draft, cert, ro, eb, rb. done.
Qed.

Definition rename_body (b : DeviceCertificate) (name : bytes) (now epoch : Z) : DeviceCertificate :=
  mkCertificate (dc_protocol_version b) (dc_workspace_id b) (dc_device_id b) (dc_device_type b) name
    (dc_roles b) (dc_identity_public_key b) (dc_identity_key_id b) (u64 (unixMillis now))
    (dc_expires_at_unix_ms b) (u64 epoch) (dc_unknown b).

Definition renamed_device (name : bytes) (cert : SignedDeviceCertificate) (encoded : bytes)
  (d : DeviceRow) : DeviceRow :=
  d <| device_name := name |> <| certificate_id := Some (sc_certificate_id cert) |>
    <| signed_certificate := Some encoded |>.

Definition rename_transition (w dev : bytes) (previous replacement : SignedDeviceCertificate)
  (draft : workspaceRosterDraft) (now : Z) : DeviceCertificateTransition :=
  mkTransition ProtocolVersion w dev (sc_certificate_id previous) (sc_certificate_id replacement)
    (u64 (draft_Epoch draft)) (draft_PreviousDigest draft) REASON_DISPLAY_NAME
    (u64 (unixMillis now)) [].

Lemma Rename_ok w ref name sk now db r db' :
  RenameDevice w ref name sk now db = Ok (r, db') →
  ∃ dev pk d old body draft others cert ro eb rb,
    authority_of w sk db = Ok pk ∧ device_rows db !! (w, dev) = Some d ∧ approved_row d = true ∧
    validateDeviceName name = Ok tt ∧
    stored_certificate w dev pk d = Ok (old, body) ∧
    prepareNextWorkspaceRoster w pk db = Ok draft ∧ draft_Epoch draft ≠ 1 ∧
    take_out dev (default [] (signed_certificate d)) pk false (draft_ActiveCertificates draft)
      = Ok (true, others) ∧
    SignDeviceCertificate (rename_body body name now (draft_Epoch draft)) sk = Ok cert ∧
    ValidateDisplayNameCertificateTransition old cert
      (rename_transition w dev old cert draft now) = Ok tt ∧
    SignWorkspaceRoster (mkRoster ProtocolVersion w (u64 (draft_Epoch draft))
      (draft_PreviousDigest draft) (sort_certificates (others ++ [cert])) (draft_Revocations draft)
      [rename_transition w dev old cert draft now] []) sk = Ok ro ∧
    EncodeSignedDeviceCertificate cert pk = Ok eb ∧ EncodeSignedWorkspaceRoster ro pk = Ok rb ∧
    insertWorkspaceRoster w (draft_Epoch draft) (draft_PreviousDigest draft) ro rb now
      (set_device (w, dev) (renamed_device name cert eb d) db) = Ok db'.
Proof.
  unfold RenameDevice. intros Hr. apply rbind_Ok in Hr as ([] & Hname & Hr).
  apply rbind_Ok in Hr as (dev & _ & Hr).
  destruct (device_rows db !! (w, dev)) as [d|] eqn:Hd; [|done].
  destruct (workspaces db !! w) as [wrow|]; [|done]. revert Hr. if_false Hg1. if_false Hg2.
  intros Hr. apply rbind_Ok in Hr as (pk & Hpk & Hr). apply rbind_Ok in Hr as ([old body] & Hold & Hr).
  apply fail_if_Ok in Hr as [_ Hr]. apply rbind_Ok in Hr as (draft & Hdraft & Hr).
  apply fail_if_Ok in Hr as [He Hr]. apply rbind_Ok in Hr as ([found others] & Hout & Hr).
  apply fail_if_Ok in Hr as [Hf Hr]. apply negb_false_iff in Hf. subst found.
  apply rbind_Ok in Hr as (cert & Hcert & Hr). apply wrapf_Ok in Hcert.
  apply rbind_Ok in Hr as ([] & Htr & Hr).
  apply rbind_Ok in Hr as (ro & Hro & Hr). apply wrapf_Ok in Hro.
  apply rbind_Ok in Hr as (eb & Heb & Hr). apply rbind_Ok in Hr as (rb & Hrb & Hr).
  apply rbind_Ok in Hr as (db2 & Hins & Hr). apply Ok_inj in Hr. injection Hr as _ <-.
  apply Z.eqb_neq in He. exists dev, pk, d, old, body, draft, others, cert, ro, eb, rb.
  split_and!; try done. unfold approved_row. go_bool.
  rewrite !bool_decide_eq_true_2; [done|done|by apply eq_None_not_Some].
Qed.

Definition revoked_device (now : Z) (epoch : option Z) (d : DeviceRow) : DeviceRow :=
  match epoch with
  | None => d <| revoked_at_ms := Some (unixMillis now) |> <| membership_state := revoked |>
  | Some e => d <| revoked_at_ms := Some (unixMillis now) |> <| membership_state := revoked |>
                <| revoked_membership_epoch := Some e |>
  end.

Lemma Revoke_ok w ref sk now db r db' :
  RevokeDevice w ref sk now db = Ok (r, db') →
  ∃ dev d, resolveDeviceReference w ref db = Ok dev ∧ device_rows db !! (w, dev) = Some d ∧
    ((revoked_at_ms d ≠ None ∧ db' = db ∧ rvk_Changed r = false) ∨
     (revoked_at_ms d = None ∧ membership_state d ≠ approved ∧ rvk_Changed r = true ∧
      db' = set_device (w, dev) (revoked_device now None d) db) ∨
     (approved_row d = true ∧ rvk_Changed r = true ∧ ∃ pk draft others ro rb,
        authority_of w sk db = Ok pk ∧ prepareNextWorkspaceRoster w pk db = Ok draft ∧
        draft_Epoch draft ≠ 1 ∧ rvk_RosterEpoch r = draft_Epoch draft ∧
        take_out dev (default [] (signed_certificate d)) pk false (draft_ActiveCertificates draft)
          = Ok (true, others) ∧
        SignWorkspaceRoster (mkRoster ProtocolVersion w (u64 (draft_Epoch draft))
          (draft_PreviousDigest draft) others
          (sort_revocations (draft_Revocations draft ++
             [mkRevoked (default [] (certificate_id d)) dev (u64 (unixMillis now)) []])) [] []) sk
          = Ok ro ∧
        EncodeSignedWorkspaceRoster ro pk = Ok rb ∧
        insertWorkspaceRoster w (draft_Epoch draft) (draft_PreviousDigest draft) ro rb now
          (set_device (w, dev) (revoked_device now (Some (draft_Epoch draft)) d) db) = Ok db')).
Proof.
  unfold RevokeDevice. intros Hr. apply rbind_Ok in Hr as (dev & Hres & Hr).
  destruct (device_rows db !! (w, dev)) as [d|] eqn:Hd; [|done]. exists dev, d.
  split; [done|]. split; [done|].
  destruct (bool_decide (is_Some (revoked_at_ms d))) eqn:Hrev.
  { apply Ok_inj in Hr. injection Hr as <- <-. left. go_bool.
    destruct (revoked_at_ms d); [done|by destruct Hrev]. }
  assert (revoked_at_ms d = None) as Hnone by (go_bool; by apply eq_None_not_Some). right.
  destruct (negb (bool_decide (membership_state d = approved))) eqn:Hst.
  { apply Ok_inj in Hr. injection Hr as <- <-. left. go_bool. done. }
  revert Hr. if_false Hg. intros Hr. right.
  apply rbind_Ok in Hr as (pk & Hpk & Hr). apply rbind_Ok in Hr as (draft & Hdraft & Hr).
  apply fail_if_Ok in Hr as [He Hr]. apply rbind_Ok in Hr as (old & _ & Hr).
  apply rbind_Ok in Hr as ([found others] & Hout & Hr).
  apply fail_if_Ok in Hr as [Hf Hr]. apply negb_false_iff in Hf. subst found.
  apply rbind_Ok in Hr as (ro & Hro & Hr). apply wrapf_Ok in Hro.
  apply rbind_Ok in Hr as (rb & Hrb & Hr). apply rbind_Ok in Hr as (db2 & Hins & Hr).
  apply Ok_inj in Hr. injection Hr as <- <-. apply Z.eqb_neq in He.
  apply negb_false_iff, bool_decide_eq_true in Hst.
  split; [unfold approved_row; by rewrite !bool_decide_eq_true_2|]. split; [done|].
  by exists pk, draft, others, ro, rb.
Qed.

Definition reissue_body (c : DeviceCertificate) (now epoch : Z) : DeviceCertificate :=
  mkCertificate (dc_protocol_version c) (dc_workspace_id c) (dc_device_id c) (dc_device_type c)
    (dc_display_name c) (dc_roles c) (dc_identity_public_key c) (dc_identity_key_id c)
    (u64 (unixMillis now)) (dc_expires_at_unix_ms c) (u64 epoch) (dc_unknown c).

Definition reissued_device (cert : SignedDeviceCertificate) (encoded : bytes) (now : Z)
  (d : DeviceRow) : DeviceRow :=
  d <| certificate_id := Some (sc_certificate_id cert) |> <| signed_certificate := Some encoded |>
    <| approved_at_ms := Some (unixMillis now) |>.

Lemma reissue_cons w nsk npk e now c rest db active db' :
  reissue w nsk npk e now (c :: rest) db = Ok (active, db') →
  ∃ body cert eb d more,
    sc_certificate c = Some body ∧ SignDeviceCertificate (reissue_body body now e) nsk = Ok cert ∧
    EncodeSignedDeviceCertificate cert npk = Ok eb ∧
    device_rows db !! (w, dc_device_id body) = Some d ∧
    certificate_id d = Some (sc_certificate_id c) ∧ approved_row d = true ∧
    active = cert :: more ∧
    reissue w nsk npk e now rest
      (set_device (w, dc_device_id body) (reissued_device cert eb now d) db) = Ok (more, db').
Proof.
  cbn [reissue]. destruct (sc_certificate c) as [body|] eqn:Hb; [|done]. intros Hr.
  apply rbind_Ok in Hr as (cert & Hcert & Hr). apply wrapf_Ok in Hcert.
  apply rbind_Ok in Hr as (eb & Heb & Hr).
  destruct (device_rows db !! _) as [d|] eqn:Hd; [|done].
  apply fail_if_Ok in Hr as [Hg Hr]. apply rbind_Ok in Hr as ([more db1] & Hre & Hr).
  apply Ok_inj in Hr. injection Hr as <- <-. go_bool.
  by exists body, cert, eb, d, more.
Qed.

Lemma RotateAuthority_ok w sk nsk now db r db' :
  RotateWorkspaceAuthority w sk nsk now db = Ok (r, db') →
  ∃ wrow row e previous old tr te active db1 ro rb db2 db3,
    workspaces db !! w = Some wrow ∧ authority_public_key wrow = Some (ed_Public sk) ∧
    1 ≤ authority_epoch wrow ∧ blen nsk = PrivateKeySize ∧
    latest (rosters_of w db) = Some (e, row) ∧
    DecodeSignedWorkspaceRoster (signed_roster row) (ed_Public sk) = Ok previous ∧
    sr_roster previous = Some old ∧ ro_roster_epoch old < MaxInt64 ∧
    SignAuthorityKeyTransition (mkAuthorityTransition ProtocolVersion w
      (u64 (authority_epoch wrow + 1)) (authority_transition_digest wrow) (ed_Public sk)
      (ed_Public nsk) (u64 (i64 (ro_roster_epoch old) + 1)) (sr_roster_digest previous)
      (u64 (unixMillis now)) []) sk nsk = Ok tr ∧
    EncodeSignedAuthorityKeyTransition tr = Ok te ∧
    reissue w nsk (ed_Public nsk) (i64 (ro_roster_epoch old) + 1) now (ro_active_certificates old) db
      = Ok (active, db1) ∧
    SignWorkspaceRoster (mkRoster ProtocolVersion w (u64 (i64 (ro_roster_epoch old) + 1))
      (sr_roster_digest previous) active (ro_revocations old) [] []) nsk = Ok ro ∧
    EncodeSignedWorkspaceRoster ro (ed_Public nsk) = Ok rb ∧
    insert_transition w (authority_epoch wrow + 1)
      (mkAuthorityTransitionRow (sat_transition_digest tr) (authority_transition_digest wrow)
         (ed_Public sk) (ed_Public nsk) (i64 (ro_roster_epoch old) + 1) te (unixMillis now)) db1
      = Ok db2 ∧
    insertWorkspaceRoster w (i64 (ro_roster_epoch old) + 1) (sr_roster_digest previous) ro rb now db2
      = Ok db3 ∧
    db' = db3 <| workspaces := <[w := wrow <| authority_public_key := Some (ed_Public nsk) |>
                                  <| authority_epoch := authority_epoch wrow + 1 |>
                                  <| authority_transition_digest := sat_transition_digest tr |>]>
                                (workspaces db3) |>.
Proof.
  unfold RotateWorkspaceAuthority. intros Hr. apply fail_if_Ok in Hr as [Hg0 Hr].
  apply fail_if_Ok in Hr as [_ Hr]. destruct (workspaces db !! w) as [wrow|] eqn:Hw; [|done].
  revert Hr. if_false Hg1. intros Hr. apply fail_if_Ok in Hr as [_ Hr].
  destruct (latest (rosters_of w db)) as [[e row]|] eqn:Hl; [|done].
  apply rbind_Ok in Hr as (previous & Hdec & Hr). apply wrapf_Ok in Hdec.
  destruct (sr_roster previous) as [old|] eqn:Hold; [|done].
  apply fail_if_Ok in Hr as [Hmax Hr]. apply rbind_Ok in Hr as (tr & Htr & Hr).
  apply wrapf_Ok in Htr. apply rbind_Ok in Hr as (te & Hte & Hr).
  apply rbind_Ok in Hr as ([active db1] & Hre & Hr). apply rbind_Ok in Hr as (ro & Hro & Hr).
  apply wrapf_Ok in Hro. apply rbind_Ok in Hr as (rb & Hrb & Hr).
  apply rbind_Ok in Hr as (db2 & Hi2 & Hr). apply rbind_Ok in Hr as (db3 & Hi3 & Hr).
  apply Ok_inj in Hr. injection Hr as _ <-.
  exists wrow, row, e, previous, old, tr, te, active, db1, ro, rb, db2, db3.
  go_bool. split_and!; try done; lia.
Qed.

(** ** Every operation is such a step *)

Lemma db_step_rosters db m db' : db_step db db' → db_step db (db' <| rosters := m |>).
Proof. intros []. by constructor. Qed.

Lemma insertWorkspaceRoster_step w e pd r b now db db1 db' :
  db_step db db1 → insertWorkspaceRoster w e pd r b now db1 = Ok db' → db_step db db'.
Proof.
  intros Hs Hi. apply insertWorkspaceRoster_ok in Hi as (_ & _ & _ & ->). by apply db_step_rosters.
Qed.

(** The reissue loop writes device rows only. *)
Lemma reissue_step w nsk npk e now cs db active db' :
  reissue w nsk npk e now cs db = Ok (active, db') →
  rows_step (rtc device_step) (λ _, False) (device_rows db) (device_rows db') ∧
  db' = db <| device_rows := device_rows db' |>.
Proof.
  revert db active. induction cs as [|c cs IH]; intros db active Hr.
  - simpl in Hr. apply Ok_inj in Hr. injection Hr as _ <-.
    split; [|by destruct db]. apply rows_step_refl. intros. apply rtc_refl.
  - apply reissue_cons in Hr as (body & cert & eb & d & more & _ & _ & _ & Hd & _ & Ha & _ & Hr).
    apply IH in Hr as [Hs E]. split; [|by rewrite E].
    intros k. specialize (Hs k). unfold set_device in Hs. simpl in Hs.
    destruct (decide (k = (w, dc_device_id body))) as [->|Hne].
    + rewrite lookup_insert_eq in Hs. rewrite Hd. destruct (device_rows db' !! _); [|done].
      eapply rtc_l; [|done]. by apply DS_reissue.
    + by rewrite lookup_insert_ne in Hs.
Qed.

Lemma insert_transition_ok w e row db db' :
  insert_transition w e row db = Ok db' →
  transitions_of w db !! e = None ∧
  db' = db <| authority_transitions := <[w := <[e := row]> (transitions_of w db)]>
                (authority_transitions db) |>.
Proof.
  unfold insert_transition. intros Hi. go_inv. go_bool. split; [by apply eq_None_not_Some|done].
Qed.

Lemma membership_ops_step db :
  (∀ w ref roles sk now r db', ApprovePendingMembership w ref roles sk now db = Ok (r, db') →
     db_step db db') ∧
  (∀ w ref name sk now r db', RenameDevice w ref name sk now db = Ok (r, db') → db_step db db') ∧
  (∀ w ref sk now r db', RevokeDevice w ref sk now db = Ok (r, db') → db_step db db').
Proof.
  split_and!.
  - intros w ref roles sk now r db' Hr.
    apply Approve_ok in Hr as (dev & pk & d & draft & cert & ro & eb & rb & _ & _ & Hd & Hrev & Hst &
      _ & _ & _ & _ & _ & Hi & _).
    eapply insertWorkspaceRoster_step; [|done]. eapply set_device_step; [done|]. by apply DS_approve.
  - intros w ref name sk now r db' Hr.
    apply Rename_ok in Hr as (dev & pk & d & old & body & draft & others & cert & ro & eb & rb & _ &
      Hd & Ha & Hname & _ & _ & _ & _ & _ & _ & _ & _ & _ & Hi).
    eapply insertWorkspaceRoster_step; [|done]. eapply set_device_step; [done|]. by apply DS_rename.
  - intros w ref sk now r db' Hr. apply Revoke_ok in Hr as (dev & d & _ & Hd & [(_ & -> & _)|[Hp|Hc]]).
    + apply db_step_refl.
    + destruct Hp as (Hrev & Hst & _ & ->). eapply set_device_step; [done|].
      by apply DS_revoke_pending.
    + destruct Hc as (Ha & _ & pk & draft & others & ro & rb & _ & _ & _ & _ & _ & _ & _ & Hi).
      eapply insertWorkspaceRoster_step; [|done]. eapply set_device_step; [done|].
      by apply DS_revoke_approved.
Qed.

Lemma RotateAuthority_step w sk nsk now db r db' :
  RotateWorkspaceAuthority w sk nsk now db = Ok (r, db') → db_step db db'.
Proof.
  intros Hr. apply RotateAuthority_ok in Hr as (wrow & row & e & previous & old & tr & te & active &
    db1 & ro & rb & db2 & db3 & Hw & _ & _ & _ & _ & _ & _ & _ & _ & _ & Hre & _ & _ & Ht & Hi & ->).
  apply reissue_step in Hre as [Hs E]. apply insert_transition_ok in Ht as [_ ->].
  apply insertWorkspaceRoster_ok in Hi as (_ & _ & _ & ->). rewrite E. step_table.
  - intros k. specialize (Hs k). destruct (device_rows db !! k), (device_rows db1 !! k); done.
  - eapply rows_step_insert; [by left|done|]. by right.
Qed.

Lemma WritePreference_ok w k e v now db r db' :
  WriteWorkspacePreference w k e v now db = Ok (r, db') →
  (revision <$> preferences db !! (w, k)) = (if e =? 0 then None else Some e) ∧ 0 ≤ e ∧ r = e + 1 ∧
  db' = db <| preferences := <[(w, k) := mkPreferenceRow r v (unixMillis now)]> (preferences db) |>.
Proof.
  unfold WriteWorkspacePreference. intros Hr. apply rbind_Ok in Hr as (_ & _ & Hr).
  revert Hr. if_false G1. if_false G2. destruct (e =? 0) eqn:He.
  - destruct (preferences db !! (w, k)) eqn:Hp; [done|]. intros Hr.
    apply fail_if_Ok in Hr as [_ Hr]. apply Ok_inj in Hr. injection Hr as <- <-.
    apply Z.eqb_eq in He. subst e. done.
  - destruct (preferences db !! (w, k)) as [row|] eqn:Hp; [|done].
    destruct (revision row =? e) eqn:Hv; [|done]. intros Hr.
    apply fail_if_Ok in Hr as [Hm Hr]. apply Ok_inj in Hr. injection Hr as <- <-.
    go_bool. subst e. split_and!; try done; lia.
Qed.

Lemma exec_step o db db' : exec o db = Ok db' → db_step db db'.
Proof.
  destruct o; simpl; intros He; try (apply second_ok in He as [r He]).
  - unfold CreateWorkspace in He. go_inv. injection He as _ <-. step_table.
    apply rows_step_new; [by left| |done]. go_bool. by apply eq_None_not_Some.
  - unfold IssuePairingCode in He. go_inv. injection He as _ <-. step_table.
    apply rows_step_new; [by left| |done]. go_bool. by apply eq_None_not_Some.
  - by eapply RegisterPending_step.
  - by eapply CompleteProof_step.
  - destruct (membership_ops_step db) as (Ha & Hb & Hc). eauto.
  - destruct (membership_ops_step db) as (Ha & Hb & Hc). eauto.
  - destruct (membership_ops_step db) as (Ha & Hb & Hc). eauto.
  - by eapply RotateAuthority_step.
  - unfold IssueCredentialRotationCode in He. go_inv.
    destruct (device_rows db !! _) as [d|]; [|done]. destruct (approved_row d); [|done]. go_inv.
    injection He as _ <-. step_table.
    apply rows_step_new; [by left| |done]. go_bool. by apply eq_None_not_Some.
  - apply RotateCredential_ok in He as (secret & code & d & _ & Hc & Hcons & Hd & Ha & _ & _ & Hm &
      _ & ->). step_table.
    + eapply rows_step_insert; [by constructor|done|]. apply rtc_once. by apply DS_rotate.
    + eapply rows_step_insert; [by left|done|]. right. eauto.
  - apply Authenticate_ok in He as (d & Hd & _ & Ha & _ & ->). eapply set_device_step; [done|].
    by apply DS_authenticated.
  - by eapply RecordActivity_step.
  - apply WritePreference_ok in He as (Hrev & Hpos & -> & ->). step_table.
    destruct (preferences db !! (w, key)) as [row|] eqn:Hp; destruct (expectedRevision =? 0) eqn:E;
      try done; simpl in Hrev.
    + injection Hrev as <-. eapply rows_step_insert; [by left|done|]. by right.
    + apply rows_step_new; [by left|done|]. simpl. go_bool. lia.
  - unfold SaveAdministrator in He. go_inv. subst. by step_table.
  - unfold with_relay in He. go_inv. subst. by step_table.
  - unfold with_relay in He. go_inv. subst. by step_table.
  - unfold with_relay in He. go_inv. subst. by step_table.
  - unfold with_relay in He. go_inv. subst. by step_table.
Qed.

Lemma run_op_step db o : db_step db (run_op db o).
Proof.
  unfold run_op. destruct (exec o db) as [db'|] eqn:E; simpl; [by eapply exec_step|apply db_step_refl].
Qed.

(** A property of the database that every operation keeps holds after any run. *)
Lemma run_ind (P : DB → Prop) ops db :
  P db → (∀ db db', P db → db_step db db' → P db') → P (run ops db).
Proof.
  intros HP Hs. revert db HP. induction ops as [|o ops IH]; intros db HP; [done|].
  apply IH. eapply Hs; [done|]. apply run_op_step.
Qed.

(** ** The device lifecycle *)

(** A revoked row never changes again. *)
Lemma device_step_revoked d d' : device_step d d' → revoked_at_ms d ≠ None → d' = d.
Proof.
  assert (∀ d, approved_row d = true → revoked_at_ms d = None) as Ha.
  { intros x Hx. unfold approved_row in Hx. by go_bool. }
  destruct 1; intros Hr; try done; try (exfalso; by auto).
Qed.

Lemma device_steps_revoked d d' : rtc device_step d d' → revoked_at_ms d ≠ None → d' = d.
Proof.
  induction 1 as [|x y z Hxy _ IH]; [done|]. intros Hr.
  pose proof (device_step_revoked _ _ Hxy Hr). subst y. auto.
Qed.

(** Credential versions only grow, and the token changes only with the version. *)
Definition credential_le (d d' : DeviceRow) : Prop :=
  credential_version d ≤ credential_version d' ∧
  (credential_version d' = credential_version d → auth_token_hash d' = auth_token_hash d).

Lemma device_steps_credential d d' : rtc device_step d d' → credential_le d d'.
Proof.
  induction 1 as [|x y z Hxy _ [IH1 IH2]]; [by split|].
  assert (credential_le x y) as [H1 H2] by (destruct Hxy; split; simpl; try done; lia).
  split; [lia|]. intros E. rewrite IH2, H2 by lia. done.
Qed.

(** Identity columns are written once. *)
Lemma device_steps_identity d d' :
  rtc device_step d d' →
  device_type d' = device_type d ∧ e2ee_public_key d' = e2ee_public_key d ∧
  registered_at_ms d' = registered_at_ms d.
Proof.
  induction 1 as [|x y z Hxy _ (-> & -> & ->)]; [done|]. by destruct Hxy.
Qed.

(** What holds of every stored device. *)
Record device_ok (d : DeviceRow) : Prop := {
  dok_state : membership_state d ≠ legacy_active;
  dok_revoked : revoked_at_ms d ≠ None ↔ membership_state d = revoked;
  dok_proof : membership_state d = pending_approval ∨ membership_state d = approved →
    proof_completed_at_ms d ≠ None;
  dok_certificate : membership_state d = approved → certificate_id d ≠ None ∧ signed_certificate d ≠ None;
  dok_version : 1 ≤ credential_version d;
  dok_key : is_Some (P256_Unmarshal (e2ee_public_key d));
  dok_type : device_type_known (device_type d) = true;
  dok_name : validateDeviceName (device_name d) = Ok tt;
  dok_epoch : revoked_membership_epoch d ≠ None → membership_state d = revoked
}.

Lemma new_device_ok d : new_device d → device_ok d.
Proof.
  intros (Hs & Hr & Hv & Hp & Hc & He & Hk & Ht & Hn).
  constructor; rewrite ?Hs, ?Hr, ?He; try done; try lia; try (by intros [|]).
Qed.

Lemma device_step_ok d d' : device_step d d' → device_ok d → device_ok d'.
Proof.
  assert (∀ d, approved_row d = true → revoked_at_ms d = None ∧ membership_state d = approved) as Ha.
  { intros x Hx. unfold approved_row in Hx. by go_bool. }
  destruct 1; intros []; try done;
    try (match goal with Hx : approved_row _ = true |- _ => apply Ha in Hx as [Hx1 Hx2] end);
    constructor; simpl; try done; try congruence; try lia; try (intros [|]; congruence);
    try (rewrite Hx2 in *); intuition congruence.
Qed.

Lemma device_steps_ok d d' : rtc device_step d d' → device_ok d → device_ok d'.
Proof. induction 1; eauto using device_step_ok. Qed.

Definition devices_ok (db : DB) : Prop := ∀ p d, device_rows db !! p = Some d → device_ok d.

Lemma devices_ok_step db db' : devices_ok db → db_step db db' → devices_ok db'.
Proof.
  intros Hok Hs p d' Hd'. pose proof (st_devices _ _ Hs p) as Hp. rewrite Hd' in Hp.
  destruct (device_rows db !! p) as [d|] eqn:Hd; [|by apply new_device_ok].
  eapply device_steps_ok; [done|]. by eapply Hok.
Qed.

Lemma run_devices_ok ops : devices_ok (run ops empty_db).
Proof. apply run_ind; [|by apply devices_ok_step]. intros p d. simpl. by rewrite lookup_empty. Qed.

(** One device across a run. *)
Lemma run_device ops db p d :
  device_rows db !! p = Some d →
  ∃ d', device_rows (run ops db) !! p = Some d' ∧ rtc device_step d d'.
Proof.
  intros Hd. apply (run_ind (λ db, ∃ d', device_rows db !! p = Some d' ∧ rtc device_step d d')).
  - exists d. split; [done|]. apply rtc_refl.
  - intros db1 db2 (d1 & Hd1 & Hr1) Hs. pose proof (st_devices _ _ Hs p) as Hp.
    rewrite Hd1 in Hp. destruct (device_rows db2 !! p) as [d2|]; [|done].
    exists d2. split; [done|]. by etrans.
Qed.

Lemma run_pairing ops db h row t :
  pairing_codes db !! h = Some row → pc_consumed_at_ms row = Some t →
  ∃ row', pairing_codes (run ops db) !! h = Some row' ∧ pc_consumed_at_ms row' = Some t.
Proof.
  intros Hd Ht. apply (run_ind (λ db, ∃ row', pairing_codes db !! h = Some row' ∧
    pc_consumed_at_ms row' = Some t)); [eauto|].
  intros db1 db2 (r1 & Hr1 & Hc1) Hs. pose proof (st_pairing _ _ Hs h) as Hp. rewrite Hr1 in Hp.
  destruct (pairing_codes db2 !! h) as [r2|]; [|done]. exists r2. split; [done|].
  destruct Hp as [->|[Hn _]]; [done|congruence].
Qed.

Lemma run_rotation ops db h row t :
  rotation_codes db !! h = Some row → rc_consumed_at_ms row = Some t →
  ∃ row', rotation_codes (run ops db) !! h = Some row' ∧ rc_consumed_at_ms row' = Some t.
Proof.
  intros Hd Ht. apply (run_ind (λ db, ∃ row', rotation_codes db !! h = Some row' ∧
    rc_consumed_at_ms row' = Some t)); [eauto|].
  intros db1 db2 (r1 & Hr1 & Hc1) Hs. pose proof (st_rotation _ _ Hs h) as Hp. rewrite Hr1 in Hp.
  destruct (rotation_codes db2 !! h) as [r2|]; [|done]. exists r2. split; [done|].
  destruct Hp as [->|[Hn _]]; [done|congruence].
Qed.

Lemma run_preference ops db k row :
  preferences db !! k = Some row →
  ∃ row', preferences (run ops db) !! k = Some row' ∧ revision row ≤ revision row'.
Proof.
  intros Hd. apply (run_ind (λ db, ∃ row', preferences db !! k = Some row' ∧
    revision row ≤ revision row')); [eauto with lia|].
  intros db1 db2 (r1 & Hr1 & Hc1) Hs. pose proof (st_preferences _ _ Hs k) as Hp. rewrite Hr1 in Hp.
  destruct (preferences db2 !! k) as [r2|]; [|done]. exists r2. split; [done|].
  destruct Hp as [->|Hn]; lia.
Qed.

(** ** Properties *)

Lemma revoked_row_denied p d db :
  device_rows db !! p = Some d → revoked_at_ms d ≠ None →
  IsDeviceAuthorized p.1 p.2 db = Ok false ∧ (∀ v, IsSessionAuthorized p.1 p.2 v db = Ok false) ∧
  (∀ token now, Authenticate p.1 p.2 token now db = Err ErrUnauthorized).
Proof.
  destruct p as [w dev]. intros Hd Hr.
  assert (approved_row d = false) as Ha.
  { unfold approved_row. by rewrite bool_decide_eq_false_2. }
  unfold IsDeviceAuthorized, IsSessionAuthorized, Authenticate. simpl. rewrite Hd, Ha.
  split_and!; [done| |].
  - intros v. rewrite (bool_decide_eq_false_2 (revoked_at_ms d = None)) by done. by destruct (v <? 1).
  - intros token now. destruct (negb _); [done|]. by rewrite andb_false_r.
Qed.

(** A successful revocation, and everything after it. *)
Lemma Revoke_revokes w ref sk now db r db1 dev ops :
  RevokeDevice w ref sk now db = Ok (r, db1) → resolveDeviceReference w ref db = Ok dev →
  ∃ d, device_rows db1 !! (w, dev) = Some d ∧ device_rows (run ops db1) !! (w, dev) = Some d ∧
    revoked_at_ms d ≠ None.
Proof.
  intros Hr Hres.
  assert (∃ d, device_rows db1 !! (w, dev) = Some d ∧ revoked_at_ms d ≠ None) as (d & Hd & Hrev).
  { apply Revoke_ok in Hr as (dev' & d & Hres' & Hd & Hcases). assert (dev' = dev) as -> by congruence.
    destruct Hcases as [(Hrev & -> & _)|[(_ & _ & _ & ->)|(_ & _ & pk & dr & o & ro & rb & Hi)]].
    - eauto.
    - unfold set_device. simpl. rewrite lookup_insert_eq. by eexists.
    - destruct Hi as (_ & _ & _ & _ & _ & _ & _ & Hi).
      apply insertWorkspaceRoster_ok in Hi as (_ & _ & _ & ->). unfold set_device. simpl.
      rewrite lookup_insert_eq. by eexists. }
  destruct (run_device ops db1 (w, dev) d Hd) as (d' & Hd' & Hsteps).
  apply device_steps_revoked in Hsteps; [subst d'|done]. eauto.
Qed.

(** C7: revocation is permanent. Once [RevokeDevice] has succeeded for a device,
    then after any further sequence of operations its row is unchanged, it is
    not an authorized recipient, no session of any credential version is
    authorized, and no token authenticates it. *)
Theorem revocation_is_permanent w ref sk now db r db1 dev ops :
  RevokeDevice w ref sk now db = Ok (r, db1) → resolveDeviceReference w ref db = Ok dev →
  let db2 := run ops db1 in
  device_rows db2 !! (w, dev) = device_rows db1 !! (w, dev) ∧
  IsDeviceAuthorized w dev db2 = Ok false ∧ (∀ v, IsSessionAuthorized w dev v db2 = Ok false) ∧
  (∀ token now', Authenticate w dev token now' db2 = Err ErrUnauthorized).
Proof.
  intros Hr Hres db2.
  destruct (Revoke_revokes _ _ _ _ _ _ _ _ ops Hr Hres) as (d & Hd & Hd' & Hrev).
  split; [unfold db2; by rewrite Hd, Hd'|]. by apply (revoked_row_denied (w, dev) d db2).
Qed.


(** C11: a pairing code registers at most one device: after a registration with
    it, no registration whose code decodes to the same secret succeeds, whatever
    happens in between. *)
Theorem pairing_code_single_use i f dev token db r db1 ops i' f' dev' token' :
  RegisterPending i f dev token db = Ok (r, db1) →
  RawURL_Decode (reg_PairingCode i') = RawURL_Decode (reg_PairingCode i) →
  is_ok (RegisterPending i' f' dev' token' (run ops db1)) = false.
Proof.
  intros Hr Hcode. apply RegisterPending_ok in Hr as (secret & row & d & Hs & Hrow & _ & _ & _ & _ & _ & ->).
  destruct (is_ok _) eqn:Hok; [|done]. exfalso.
  destruct (RegisterPending i' _ _ _ _) as [[r' db3]|] eqn:Hr'; [|done].
  apply RegisterPending_ok in Hr' as (secret' & row' & d' & Hs' & Hrow' & Hc' & _).
  assert (secret' = secret) as -> by congruence.
  match goal with _ : pairing_codes (run ops ?x) !! _ = _ |- _ => set (db2 := x) in * end.
  destruct (run_pairing ops db2 (Sum256 secret) (row <| pc_consumed_at_ms :=
    Some (unixMillis (reg_Now i)) |>) (unixMillis (reg_Now i))) as (row2 & Hrow2 & Hc2).
  - unfold db2, set_device. simpl. by rewrite lookup_insert_eq.
  - done.
  - congruence.
Qed.

(** A credential rotation code is used at most once, whatever happens in
    between. *)
Theorem rotation_code_single_use i db v db1 ops i' :
  RotateCredential i db = Ok (v, db1) →
  RawURL_Decode (cr_RotationCode i') = RawURL_Decode (cr_RotationCode i) →
  is_ok (RotateCredential i' (run ops db1)) = false.
Proof.
  intros Hr Hcode. apply RotateCredential_ok in Hr as (secret & code & d & Hs & Hrow & _ & _ & _ & _ & _ & _ & _ & ->).
  destruct (is_ok _) eqn:Hok; [|done]. exfalso.
  destruct (RotateCredential i' _) as [[v' db3]|] eqn:Hr'; [|done].
  apply RotateCredential_ok in Hr' as (secret' & code' & d' & Hs' & Hrow' & Hc' & _).
  assert (secret' = secret) as -> by congruence.
  match goal with _ : rotation_codes (run ops ?x) !! _ = _ |- _ => set (db2 := x) in * end.
  destruct (run_rotation ops db2 (Sum256 secret) (code <| rc_consumed_at_ms :=
    Some (unixMillis (cr_Now i)) |>) (unixMillis (cr_Now i))) as (row2 & Hrow2 & Hc2).
  - unfold db2, set_device. simpl. by rewrite lookup_insert_eq.
  - done.
  - congruence.
Qed.

(** Optimistic concurrency of preferences. A successful write was made
    against exactly the stored revision, is what a read returns next, and makes
    every later write with the same expected revision fail: no update is lost. *)
Theorem preference_no_lost_update w k e value now db r db1 :
  WriteWorkspacePreference w k e value now db = Ok (r, db1) →
  revision <$> preferences db !! (w, k) = (if e =? 0 then None else Some e) ∧ r = e + 1 ∧
  ReadWorkspacePreference w k db1 = Ok (Some (mkPreferenceRow r value (unixMillis now))) ∧
  ∀ ops value' now', is_ok (WriteWorkspacePreference w k e value' now' (run ops db1)) = false.
Proof.
  intros Hw. pose proof Hw as Hok. apply WritePreference_ok in Hw as (Hrev & Hpos & -> & ->).
  split_and!; try done.
  - unfold ReadWorkspacePreference, WriteWorkspacePreference in *.
    apply rbind_Ok in Hok as (u & -> & _). simpl. by rewrite lookup_insert_eq.
  - intros ops value' now'.
    destruct (is_ok _) eqn:Hi; [|done]. exfalso.
    destruct (WriteWorkspacePreference w k e value' now' _) as [[r' db3]|] eqn:Hw'; [|done].
    apply WritePreference_ok in Hw' as (Hrev' & _ & _ & _).
    match type of Hrev' with context [run ops ?x] =>
      destruct (run_preference ops x (w, k) (mkPreferenceRow (e + 1) value (unixMillis now)))
        as (row' & Hrow' & Hle); [simpl; by rewrite lookup_insert_eq|] end.
    rewrite Hrow' in Hrev'. simpl in Hrev', Hle. destruct (e =? 0); simplify_eq. lia.
Qed.

(** C12: in every database the operations can produce, an authorized device has
    completed its identity proof, holds a certificate, is not revoked, and has a
    valid P-256 identity key, a valid name and type and a positive credential
    version; and the revocation time is set exactly for revoked devices. *)
Theorem authorized_device_lifecycle ops p d :
  device_rows (run ops empty_db) !! p = Some d →
  device_ok d ∧
  (IsDeviceAuthorized p.1 p.2 (run ops empty_db) = Ok true →
   membership_state d = approved ∧ revoked_at_ms d = None ∧ proof_completed_at_ms d ≠ None ∧
   certificate_id d ≠ None ∧ signed_certificate d ≠ None).
Proof.
  intros Hd. pose proof (run_devices_ok ops p d Hd) as Hok. split; [done|].
  destruct p as [w dev]. unfold IsDeviceAuthorized. simpl. rewrite Hd. intros Ha.
  apply Ok_inj in Ha. unfold approved_row in Ha. go_bool. destruct Hok. intuition auto.
Qed.
End Steps.
