(* ===== verification/RosterChain.v ===== *)
(** The signed roster chain. For every workspace the stored rosters form a
    hash-linked chain of consecutive epochs, each decodable and signed; and the
    active certificates of the newest roster, which the current authority signed,
    are exactly the certificates of the approved devices. Every operation of the
    store keeps this. *)

From S2P Require Import Prelude GoStd DeliveryStore MembershipCodec Schema Admission.
From S2P Require Import MembershipStore StoreSteps.

(** What the roster must say about a device, when the device is approved. *)
Record view : Type := mkView {
  v_certificate_id : option bytes;
  v_signed_certificate : option bytes;
  v_name : bytes;
  v_key : bytes;
  v_type : DeviceType
}.

Definition row_view (d : DeviceRow) : option view :=
  if approved_row d
  then Some (mkView (certificate_id d) (signed_certificate d) (device_name d) (e2ee_public_key d)
               (device_type d))
  else None.

Definition device_view (db : DB) (p : PeerIdentity) : option view :=
  match device_rows db !! p with Some d => row_view d | None => None end.

Definition key_of (w : bytes) (db : DB) : option bytes :=
  match workspaces db !! w with Some r => authority_public_key r | None => None end.

Section Chain.
Context {wire : Wire} {ed : Ed25519} {wire_laws : WireLaws} {ed_laws : Ed25519Laws}.

Definition row_decodes (w : bytes) (e : Z) (row : RosterRow) (pk : bytes)
  (s : SignedWorkspaceRoster) (r : WorkspaceRoster) : Prop :=
  DecodeSignedWorkspaceRoster (signed_roster row) pk = Ok s ∧ sr_roster s = Some r ∧
  ro_roster_epoch r = e ∧ ro_workspace_id r = w ∧ sr_roster_digest s = ros_digest row ∧
  ro_previous_roster_digest r = ros_previous_digest row.

Record chain_ok (w : bytes) (rows : gmap Z RosterRow) (n : Z) : Prop := {
  ch_range : 0 ≤ n ≤ MaxInt64;
  ch_dom : ∀ e, is_Some (rows !! e) ↔ 1 ≤ e ≤ n;
  ch_rows : ∀ e row, rows !! e = Some row → ∃ pk s r, row_decodes w e row pk s r;
  ch_genesis : ∀ row, rows !! 1 = Some row → ros_previous_digest row = zero_digest;
  ch_link : ∀ e row prev, rows !! e = Some row → rows !! (e - 1) = Some prev →
    ros_previous_digest row = ros_digest prev
}.

Definition cert_matches (pk : bytes) (c : SignedDeviceCertificate) (v : view) : Prop :=
  v_certificate_id v = Some (sc_certificate_id c) ∧
  (∃ b, EncodeSignedDeviceCertificate c pk = Ok b ∧ v_signed_certificate v = Some b) ∧
  ∃ body, sc_certificate c = Some body ∧ dc_display_name body = v_name v ∧
    dc_identity_public_key body = v_key v ∧ dc_device_type body = membershipDeviceType (v_type v).

(** The certificates of [certs] are those of the approved devices of [w]. *)
Definition certs_match (pk : bytes) (certs : list SignedDeviceCertificate) (w : bytes) (db : DB)
  : Prop :=
  (∀ dev v, device_view db (w, dev) = Some v →
     ∃ c, c ∈ certs ∧ device_of c = dev ∧ cert_matches pk c v) ∧
  (∀ c, c ∈ certs → ∃ v, device_view db (w, device_of c) = Some v ∧ cert_matches pk c v).

Definition ws_ok (w : bytes) (db : DB) : Prop :=
  ∃ n, chain_ok w (rosters_of w db) n ∧
    (n = 0 → ∀ dev, device_view db (w, dev) = None) ∧
    (0 < n → ∃ pk row s r, key_of w db = Some pk ∧ rosters_of w db !! n = Some row ∧
       row_decodes w n row pk s r ∧ certs_match pk (ro_active_certificates r) w db).

Definition db_ok (db : DB) : Prop := ∀ w, ws_ok w db.

Lemma certs_match_same pk certs w db db' :
  (∀ dev, device_view db' (w, dev) = device_view db (w, dev)) →
  certs_match pk certs w db → certs_match pk certs w db'.
Proof.
  intros Hv [H1 H2]. split.
  - intros dev v. rewrite Hv. auto.
  - intros c Hc. rewrite Hv. auto.
Qed.

(** An operation that keeps the rosters, the authority key and what the roster
    says of each device keeps the invariant. *)
Lemma ws_ok_same w db db' :
  rosters_of w db' = rosters_of w db →
  (key_of w db' = key_of w db ∨ key_of w db = None) →
  (∀ dev, device_view db' (w, dev) = device_view db (w, dev)) →
  ws_ok w db → ws_ok w db'.
Proof.
  intros Hro Hk Hv (n & Hc & H0 & Hn). exists n. rewrite Hro. split; [done|]. split.
  - intros E dev. rewrite Hv. auto.
  - intros Hpos. destruct (Hn Hpos) as (pk & row & s & r & Hpk & Hrow & Hd & Hm).
    exists pk, row, s, r. split; [destruct Hk; congruence|]. split_and!; try done.
    by eapply certs_match_same.
Qed.

Lemma set_device_view_same p d d' db :
  device_rows db !! p = Some d → row_view d' = row_view d →
  ∀ q, device_view (set_device p d' db) q = device_view db q.
Proof.
  intros Hd Hv q. unfold device_view, set_device. simpl.
  destruct (decide (q = p)) as [->|Hne].
  - by rewrite lookup_insert_eq, Hd.
  - by rewrite lookup_insert_ne.
Qed.

Lemma set_device_view_ne p d db q : q ≠ p → device_view (set_device p d db) q = device_view db q.
Proof. intros Hne. unfold device_view, set_device. simpl. by rewrite lookup_insert_ne. Qed.

Lemma set_device_view_eq p d db : device_view (set_device p d db) p = row_view d.
Proof. unfold device_view, set_device. simpl. by rewrite lookup_insert_eq. Qed.

(** ** Extending the chain *)

Definition link_digest (rows : gmap Z RosterRow) (n : Z) : bytes :=
  match rows !! n with Some row => ros_digest row | None => zero_digest end.

Lemma chain_extend w rows n pk s r b now :
  chain_ok w rows n → n < MaxInt64 →
  DecodeSignedWorkspaceRoster b pk = Ok s → sr_roster s = Some r → ro_roster_epoch r = n + 1 →
  ro_workspace_id r = w → ro_previous_roster_digest r = link_digest rows n →
  chain_ok w (<[n + 1 := mkRosterRow (sr_roster_digest s) (link_digest rows n) b now]> rows) (n + 1).
Proof.
  intros [Hr Hd Hrows Hg Hl] Hmax Hdec Hs He Hw Hp.
  assert (rows !! (n + 1) = None) as Hfresh.
  { apply eq_None_not_Some. rewrite Hd. lia. }
  constructor; [lia| | | |].
  - intros e. destruct (decide (e = n + 1)) as [->|Hne].
    + rewrite lookup_insert_eq. split; [lia|by eexists].
    + rewrite lookup_insert_ne by done. rewrite Hd. lia.
  - intros e row Hrow. apply lookup_insert_Some in Hrow as [[<- <-]|[Hne Hrow]]; [|eauto].
    exists pk, s, r. by split_and!.
  - intros row Hrow. apply lookup_insert_Some in Hrow as [[E <-]|[Hne Hrow]]; [|eauto]. simpl.
    unfold link_digest. replace n with 0 by lia.
    destruct (rows !! 0) eqn:E0; [|done]. assert (1 ≤ 0 ≤ n) by (apply Hd; by eexists). lia.
  - intros e row prev Hrow Hprev. apply lookup_insert_Some in Hrow as [[<- <-]|[Hne Hrow]].
    + replace (n + 1 - 1) with n in Hprev by lia. rewrite lookup_insert_ne in Hprev by lia.
      simpl. unfold link_digest. by rewrite Hprev.
    + rewrite lookup_insert_ne in Hprev; [eauto|]. intros E.
      assert (1 ≤ e ≤ n) by (apply Hd; by eexists). lia.
Qed.

(** ** Field types of what the store signs *)

Lemma u64_range z : is_u64 (u64 z).
Proof. unfold is_u64, u64. apply Z.mod_pos_bound. lia. Qed.

Lemma check_roles_typed prev roles :
  check_roles prev roles = Ok tt → Forall is_i32 roles.
Proof.
  revert prev. induction roles as [|x rs IH]; simpl; intros prev Hc; [constructor|].
  go_inv. constructor; [|eauto]. clear -Hg.
  unfold DEVICE_ROLE_SEND_NOTIFICATIONS, DEVICE_ROLE_MANAGE_DEVICES in *. go_bool.
  unfold is_i32. lia.
Qed.

Lemma SignDeviceCertificate_ok b sk c :
  SignDeviceCertificate b sk = Ok c →
  sc_certificate c = Some b ∧ validateDeviceCertificate (Some b) = Ok tt ∧ device_of c = dc_device_id b.
Proof.
  unfold SignDeviceCertificate. intros Hs. go_inv. subst c. destruct v. done.
Qed.

Lemma signed_typed b sk c :
  SignDeviceCertificate b sk = Ok c → is_u64 (dc_issued_at_unix_ms b) →
  is_u64 (dc_expires_at_unix_ms b) → is_u64 (dc_membership_epoch b) → signed_cert_typed c.
Proof.
  intros Hs Hi He Hm. apply SignDeviceCertificate_ok in Hs as (Hc & Hv & _).
  unfold signed_cert_typed. rewrite Hc. simpl.
  apply validateDeviceCertificate_ok in Hv as (_ & _ & _ & _ & _ & _ & Hr & _ & Hver & Ht & _).
  unfold cert_typed, is_u32, is_i32. split_and!; try done; try lia.
  by eapply check_roles_typed.
Qed.

Lemma approve_body_typed w dev d roles now e sk c :
  SignDeviceCertificate (approve_body w dev d roles now e) sk = Ok c → signed_cert_typed c.
Proof. intros Hs. eapply signed_typed; [done| | |]; simpl; try apply u64_range. unfold is_u64. lia. Qed.

(** ** The draft of the next roster *)

Definition valid_certs (certs : list SignedDeviceCertificate) : Prop :=
  Forall signed_cert_typed certs ∧ NoDup (device_of <$> certs).

Lemma sorted_lt_nodup_bytes (l : list bytes) :
  StronglySorted (λ a b, bytes_lt a b = true) l → NoDup l.
Proof.
  induction 1 as [|x l Hs IH Hx]; constructor; [|done]. intros Hin.
  rewrite Forall_forall in Hx. specialize (Hx _ Hin). by rewrite bytes_lt_irrefl in Hx.
Qed.

Lemma decoded_facts b pk s r :
  DecodeSignedWorkspaceRoster b pk = Ok s → sr_roster s = Some r →
  roster_typed r ∧ roster_valid pk r ∧ 1 ≤ ro_roster_epoch r ≤ MaxInt64.
Proof.
  intros Hd Hr. unfold DecodeSignedWorkspaceRoster in Hd. go_inv. subst. destruct v0.
  apply decodeCanonical_ok in Hr0 as (_ & Hu & _). apply signed_roster_law in Hu.
  unfold signed_roster_typed in Hu. rewrite Hr in Hu. simpl in Hu.
  destruct (validateSignedWorkspaceRoster_ok _ _ Hr1) as (r' & Hr' & _ & Hval & _).
  assert (r' = r) as -> by congruence. split_and!; try done.
  - destruct Hu as (_ & He & _). unfold is_u64 in He. pose proof (rvd_epoch _ _ Hval). lia.
  - apply (rvd_epoch _ _ Hval).
Qed.

Lemma prepare_ok w pk db draft :
  ws_ok w db → key_of w db = Some pk → prepareNextWorkspaceRoster w pk db = Ok draft →
  ∃ n, chain_ok w (rosters_of w db) n ∧ n < MaxInt64 ∧ draft_Epoch draft = n + 1 ∧
    draft_PreviousDigest draft = link_digest (rosters_of w db) n ∧
    certs_match pk (draft_ActiveCertificates draft) w db ∧
    valid_certs (draft_ActiveCertificates draft) ∧ Forall revoked_typed (draft_Revocations draft).
Proof.
  intros (n & Hc & H0 & Hn) Hk. unfold prepareNextWorkspaceRoster.
  destruct (latest (rosters_of w db)) as [[e row]|] eqn:Hl.
  - apply latest_Some in Hl as [Hrow Hmax]. pose proof (ch_dom _ _ _ Hc) as Hdom.
    assert (1 ≤ e ≤ n) as He by (apply Hdom; by eexists).
    assert (n ≤ e) by (apply Hmax, Hdom; lia). assert (e = n) as -> by lia.
    intros Hp. apply rbind_Ok in Hp as (s & Hdec & Hp). apply wrapf_Ok in Hdec.
    destruct (sr_roster s) as [r|] eqn:Hr; [|done]. apply fail_if_Ok in Hp as [Hlt Hp].
    apply Ok_inj in Hp as <-. simpl.
    destruct (Hn ltac:(lia)) as (pk' & row' & s' & r' & Hk' & Hrow' & Hd' & Hm').
    assert (pk' = pk) as -> by congruence. assert (row' = row) as -> by congruence.
    destruct Hd' as (Hdec' & Hr' & Hep & _ & Hdig & _).
    assert (s' = s) as -> by congruence. assert (r' = r) as -> by congruence. subst n.
    destruct (decoded_facts _ _ _ _ Hdec Hr) as (Ht & Hval & Hrange).
    exists (ro_roster_epoch r). go_bool. rewrite i64_small by lia. split_and!; try done; try lia.
    + unfold link_digest. by rewrite Hrow.
    + destruct Ht as (_ & _ & Ht & _). split; [done|].
      apply sorted_lt_nodup_bytes. apply (rvd_certs_sorted _ _ Hval).
    + apply Ht.
  - apply latest_None in Hl. intros Hp. apply Ok_inj in Hp as <-. simpl.
    assert (n = 0) as ->.
    { destruct (decide (n = 0)); [done|]. pose proof (ch_dom _ _ _ Hc 1) as Hdom.
      rewrite Hl, lookup_empty in Hdom. pose proof (ch_range _ _ _ Hc).
      assert (is_Some (None : option RosterRow)) as [? ?]; [apply Hdom; lia|done]. }
    exists 0. unfold MaxInt64. split_and!; try done; try lia; try constructor.
    + unfold link_digest. by rewrite Hl, lookup_empty.
    + intros dev v Hv. by rewrite (H0 eq_refl) in Hv.
    + intros c Hcin. by apply not_elem_of_nil in Hcin.
    + constructor.
    + constructor.
Qed.

(** Storing the next roster: what the four membership operations share. *)
Lemma ws_extend w db db1 db' n sk s r b now :
  ed_key_pair sk → chain_ok w (rosters_of w db) n → n < MaxInt64 →
  rosters_of w db1 = rosters_of w db → roster_typed r →
  r = mkRoster ProtocolVersion w (u64 (n + 1)) (link_digest (rosters_of w db) n)
        (ro_active_certificates r) (ro_revocations r) (ro_certificate_transitions r) [] →
  SignWorkspaceRoster r sk = Ok s → EncodeSignedWorkspaceRoster s (ed_Public sk) = Ok b →
  insertWorkspaceRoster w (n + 1) (link_digest (rosters_of w db) n) s b now db1 = Ok db' →
  ∃ row, chain_ok w (rosters_of w db') (n + 1) ∧ rosters_of w db' !! (n + 1) = Some row ∧
    row_decodes w (n + 1) row (ed_Public sk) s r ∧
    device_rows db' = device_rows db1 ∧ workspaces db' = workspaces db1 ∧
    (∀ w', w' ≠ w → rosters_of w' db' = rosters_of w' db1).
Proof.
  intros Hk Hc Hn Hro Ht Hshape Hs He Hi. pose proof (ch_range _ _ _ Hc) as Hrange.
  assert (u64 (n + 1) = n + 1) as Hu by (apply u64_id; unfold is_u64, MaxInt64 in *; lia).
  pose proof (roster_roundtrip _ _ _ _ Hk Ht Hs He) as Hdec.
  destruct (SignWorkspaceRoster_valid _ _ _ Hk Hs) as [_ Hsr].
  assert (ro_roster_epoch r = n + 1) as Hep by (rewrite Hshape; simpl; done).
  assert (ro_workspace_id r = w) as Hw by (rewrite Hshape; done).
  assert (ro_previous_roster_digest r = link_digest (rosters_of w db) n) as Hp
    by (rewrite Hshape; done).
  apply insertWorkspaceRoster_ok in Hi as (_ & _ & _ & ->). rewrite Hro.
  eexists. split_and!.
  - unfold rosters_of at 1. simpl. rewrite lookup_insert_eq. simpl. by eapply chain_extend.
  - unfold rosters_of at 1. simpl. rewrite lookup_insert_eq. simpl. by rewrite lookup_insert_eq.
  - by split_and!.
  - done.
  - done.
  - intros w' Hne. unfold rosters_of. simpl. by rewrite lookup_insert_ne.
Qed.

(** ** The membership operations keep the invariant *)

Lemma authority_of_ok w sk db pk :
  authority_of w sk db = Ok pk → key_of w db = Some pk ∧ pk = ed_Public sk.
Proof.
  unfold authority_of, key_of. destruct (workspaces db !! w) as [row|]; [|done].
  destruct (authority_public_key row) as [k|]; [|done].
  destruct (_ && _) eqn:E; [|done]. intros [= <-]. go_bool. auto.
Qed.

Lemma sort_certificates_perm l : sort_certificates l ≡ₚ l.
Proof. apply merge_sort_Permutation. Qed.
Lemma sort_revocations_perm l : sort_revocations l ≡ₚ l.
Proof. apply merge_sort_Permutation. Qed.

Lemma take_out_ok dev sc pk f certs f' kept :
  take_out dev sc pk f certs = Ok (f', kept) →
  (∀ c, c ∈ kept ↔ c ∈ certs ∧ device_of c ≠ dev) ∧
  (f' = true → f = true ∨ ∃ c, c ∈ certs ∧ device_of c = dev ∧
     EncodeSignedDeviceCertificate c pk = Ok sc).
Proof.
  revert f kept. induction certs as [|c cs IH]; intros f kept Ht; simpl in Ht.
  - apply Ok_inj in Ht. injection Ht as <- <-. split; [set_solver|auto].
  - destruct (beq (device_of c) dev) eqn:Hd.
    + destruct (EncodeSignedDeviceCertificate c pk) as [e|] eqn:He; [|done].
      destruct (beq e sc) eqn:Hb; [|done]. apply IH in Ht as [Hk Hf]. go_bool. subst. split.
      * intros c'. rewrite Hk. set_solver.
      * intros _. right. exists c. split_and!; [set_solver|done|done].
    + apply rbind_Ok in Ht as ([f1 k1] & Ht & E). apply Ok_inj in E. injection E as <- <-.
      apply IH in Ht as [Hk Hf]. go_bool. split.
      * intros c'. rewrite !elem_of_cons, Hk. naive_solver.
      * intros Ht1. destruct (Hf Ht1) as [|(c' & ? & ? & ?)]; [auto|]. right. exists c'. set_solver.
Qed.

(** Other workspaces are untouched. *)
Lemma ws_ok_other w w' dev d' db db1 db' :
  w' ≠ w → ws_ok w' db → db1 = set_device (w, dev) d' db →
  device_rows db' = device_rows db1 → workspaces db' = workspaces db1 →
  rosters_of w' db' = rosters_of w' db1 → ws_ok w' db'.
Proof.
  intros Hne Hok -> Hdev Hws Hro. apply (ws_ok_same w' db); [done| | |done].
  - left. unfold key_of. by rewrite Hws.
  - intros x. unfold device_view. rewrite Hdev. simpl. rewrite lookup_insert_ne; [done|congruence].
Qed.

(** One device of the workspace gets a new certificate: the certificates of the
    other devices stay, [c] replaces whatever the device had. *)
Lemma certs_match_replace pk certs rest w dev db db' c v :
  certs_match pk certs w db → (∀ x, x ∈ rest ↔ x ∈ certs ∧ device_of x ≠ dev) →
  (∀ q, q ≠ dev → device_view db' (w, q) = device_view db (w, q)) →
  device_view db' (w, dev) = Some v → device_of c = dev → cert_matches pk c v →
  certs_match pk (sort_certificates (rest ++ [c])) w db'.
Proof.
  intros [Hm1 Hm2] Hrest Hoth Hdev Hc Hcm.
  assert (∀ x, x ∈ sort_certificates (rest ++ [c]) ↔ x ∈ rest ∨ x = c) as Hin.
  { intros x. rewrite sort_certificates_perm, elem_of_app, list_elem_of_singleton. done. }
  split.
  - intros q v' Hv'. destruct (decide (q = dev)) as [->|Hne].
    + assert (v' = v) as -> by congruence. exists c. rewrite Hin. auto.
    + rewrite Hoth in Hv' by done. destruct (Hm1 _ _ Hv') as (x & Hx & Hxd & Hxm).
      exists x. rewrite Hin, Hrest. split; [left; split; [done|congruence]|done].
  - intros x Hx. apply Hin in Hx as [Hx| ->].
    + apply Hrest in Hx as [Hx Hxd]. rewrite Hoth by done. auto.
    + rewrite Hc. eauto.
Qed.

Lemma Approve_chain w ref roles sk now db r db' :
  db_ok db → ed_key_pair sk → ApprovePendingMembership w ref roles sk now db = Ok (r, db') → db_ok db'.
Proof.
  intros Hok Hk Hr. apply Approve_ok in Hr as (dev & pk & d & draft & cert & ro & eb & rb & _ & Hpk &
    Hd & Hrev & Hst & Hdraft & Hcert & Hro & Heb & Hrb & Hi & _).
  apply authority_of_ok in Hpk as [Hkey ->].
  destruct (prepare_ok _ _ _ _ (Hok w) Hkey Hdraft)
    as (n & Hc & Hn & Hep & Hpd & Hm & [Hty Hnd] & Hrt). rewrite Hep, Hpd in *.
  set (db1 := set_device (w, dev) (approved_device cert eb now d) db) in *.
  pose proof (approve_body_typed _ _ _ _ _ _ _ _ Hcert) as Hct.
  destruct (SignDeviceCertificate_ok _ _ _ Hcert) as (Hbody & _ & Hdevof). simpl in Hdevof.
  assert (device_view db (w, dev) = None) as Hnone.
  { unfold device_view, row_view, approved_row. rewrite Hd, Hst. simpl. by rewrite andb_false_r. }
  match type of Hro with SignWorkspaceRoster ?x _ = _ => assert (roster_typed x) as Ht end.
  { unfold roster_typed. simpl. split_and!; try done.
    - apply u64_range.
    - rewrite sort_certificates_perm. apply Forall_app. split; [done|]. by repeat constructor. }
  destruct (ws_extend w db db1 db' n sk ro _ rb now Hk Hc Hn eq_refl Ht eq_refl Hro Hrb Hi)
    as (row & Hc' & Hrow & Hdec & Hdevs & Hws & Hoth).
  intros w'. destruct (decide (w' = w)) as [->|Hne].
  - exists (n + 1). pose proof (ch_range _ _ _ Hc). split; [done|]. split; [lia|]. intros _.
    exists (ed_Public sk), row, ro. eexists. split; [unfold key_of; by rewrite Hws|].
    split; [done|]. split; [done|]. simpl.
    apply (certs_match_replace _ (draft_ActiveCertificates draft) _ w dev db db' cert
      (mkView (Some (sc_certificate_id cert)) (Some eb) (device_name d) (e2ee_public_key d)
         (device_type d))); try done.
    + intros x. split; [|tauto]. intros Hx. split; [done|]. intros E.
      destruct (proj2 Hm _ Hx) as (v & Hv & _). rewrite E in Hv. congruence.
    + intros q Hq. unfold device_view. rewrite Hdevs. unfold db1. simpl.
      rewrite lookup_insert_ne; [done|congruence].
    + unfold device_view. rewrite Hdevs. unfold db1. simpl. rewrite lookup_insert_eq.
      unfold row_view, approved_row. simpl. by rewrite Hrev.
    + split_and!; [done|by exists eb|]. eexists. split; [done|]. done.
  - eapply ws_ok_other; [done|apply Hok|reflexivity|done|done|by apply Hoth].
Qed.

Lemma encoded_cert_decodes c pk b :
  signed_cert_typed c → EncodeSignedDeviceCertificate c pk = Ok b →
  DecodeSignedDeviceCertificate b pk = Ok c.
Proof.
  intros Ht He. unfold EncodeSignedDeviceCertificate in He.
  apply rbind_Ok in He as ([] & Hv & He). unfold DecodeSignedDeviceCertificate.
  rewrite (encode_decode _ _ c b signed_cert_law); [|done| |done].
  - cbn [rbind]. by rewrite Hv.
  - by eapply validateSigned_cert_known.
Qed.

Lemma stored_certificate_ok w dev pk d old body :
  stored_certificate w dev pk d = Ok (old, body) →
  DecodeSignedDeviceCertificate (default [] (signed_certificate d)) pk = Ok old ∧
  sc_certificate old = Some body ∧ dc_device_id body = dev.
Proof.
  unfold stored_certificate. destruct (DecodeSignedDeviceCertificate _ _) as [c|]; [|done].
  destruct (sc_certificate c) as [b|] eqn:Hb; [|done]. intros Hs. apply fail_if_Ok in Hs as [Hg Hs].
  apply Ok_inj in Hs. injection Hs as <- <-. go_bool. auto.
Qed.

Lemma row_view_approved d :
  approved_row d = true →
  row_view d = Some (mkView (certificate_id d) (signed_certificate d) (device_name d)
                       (e2ee_public_key d) (device_type d)).
Proof. intros Ha. unfold row_view. by rewrite Ha. Qed.

Lemma Rename_chain w ref name sk now db r db' :
  db_ok db → ed_key_pair sk → RenameDevice w ref name sk now db = Ok (r, db') → db_ok db'.
Proof.
  intros Hok Hk Hr. apply Rename_ok in Hr as (dev & pk & d & old & body & draft & others & cert & ro &
    eb & rb & Hpk & Hd & Ha & _ & Hold & Hdraft & _ & Hout & Hcert & _ & Hro & Heb & Hrb & Hi).
  apply authority_of_ok in Hpk as [Hkey ->].
  destruct (prepare_ok _ _ _ _ (Hok w) Hkey Hdraft)
    as (n & Hc & Hn & Hep & Hpd & Hm & [Hty Hnd] & Hrt).
  unfold rename_transition in *. rewrite Hep, Hpd in *.
  apply take_out_ok in Hout as [Hkept Hfound].
  destruct (Hfound eq_refl) as [|(c0 & Hc0 & Hc0d & Hc0e)]; [done|].
  destruct (stored_certificate_ok _ _ _ _ _ _ Hold) as (Hdec0 & Hbody0 & Hbd).
  pose proof Hty as Hty'. rewrite Forall_forall in Hty'. specialize (Hty' _ Hc0).
  pose proof (encoded_cert_decodes _ _ _ Hty' Hc0e) as Hdec0'.
  assert (c0 = old) as -> by congruence. clear Hdec0'.
  unfold signed_cert_typed in Hty'. rewrite Hbody0 in Hty'. simpl in Hty'.
  destruct (proj2 Hm _ Hc0) as (v & Hv & _ & _ & body' & Hb' & Hbn & Hbk & Hbt).
  assert (body' = body) as -> by congruence. rewrite Hc0d in Hv.
  unfold device_view in Hv. rewrite Hd, (row_view_approved _ Ha) in Hv. injection Hv as <-.
  simpl in Hbn, Hbk, Hbt.
  set (db1 := set_device (w, dev) (renamed_device name cert eb d) db) in *.
  assert (signed_cert_typed cert) as Hct.
  { eapply signed_typed; [exact Hcert| | |]; simpl; try apply u64_range. apply Hty'. }
  destruct (SignDeviceCertificate_ok _ _ _ Hcert) as (Hbody & _ & Hdevof). simpl in Hdevof.
  match type of Hro with SignWorkspaceRoster ?x _ = _ => assert (roster_typed x) as Ht end.
  { unfold roster_typed. simpl. split_and!; try done.
    - apply u64_range.
    - rewrite sort_certificates_perm. apply Forall_app. split; [|by repeat constructor].
      apply Forall_forall. intros x Hx. apply Hkept in Hx as [Hx _].
      rewrite Forall_forall in Hty. auto.
    - constructor; [|constructor]. unfold transition_typed. simpl.
      split_and!; try apply u64_range; done. }
  destruct (ws_extend w db db1 db' n sk ro _ rb now Hk Hc Hn eq_refl Ht eq_refl Hro Hrb Hi)
    as (row & Hc' & Hrow & Hdec & Hdevs & Hws & Hoth).
  intros w'. destruct (decide (w' = w)) as [->|Hne].
  - exists (n + 1). pose proof (ch_range _ _ _ Hc). split; [done|]. split; [lia|]. intros _.
    exists (ed_Public sk), row, ro. eexists. split; [unfold key_of; by rewrite Hws|].
    split; [done|]. split; [done|]. simpl.
    apply (certs_match_replace _ (draft_ActiveCertificates draft) _ w dev db db' cert
      (mkView (Some (sc_certificate_id cert)) (Some eb) name (e2ee_public_key d) (device_type d)));
      try done.
    + intros q Hq. unfold device_view. rewrite Hdevs. unfold db1. simpl.
      rewrite lookup_insert_ne; [done|congruence].
    + unfold device_view. rewrite Hdevs. unfold db1. simpl. rewrite lookup_insert_eq.
      rewrite row_view_approved; [done|exact Ha].
    + congruence.
    + split_and!; [done|by exists eb|]. eexists. split; [done|]. done.
  - eapply ws_ok_other; [done|apply Hok|reflexivity|done|done|by apply Hoth].
Qed.

Lemma Revoke_chain w ref sk now db r db' :
  db_ok db → ed_key_pair sk → RevokeDevice w ref sk now db = Ok (r, db') → db_ok db'.
Proof.
  intros Hok Hk Hr. apply Revoke_ok in Hr as (dev & d & _ & Hd & [(_ & -> & _)|[Hp|Hcert]]); [done| |].
  - destruct Hp as (Hrev & Hst & _ & ->). intros w'. apply (ws_ok_same w' db); [done|by left| |done].
    intros q. eapply set_device_view_same; [done|]. unfold row_view, approved_row. simpl.
    by rewrite (bool_decide_eq_false_2 (membership_state d = approved)), andb_false_r.
  - destruct Hcert as (Ha & _ & pk & draft & others & ro & rb & Hpk & Hdraft & _ & _ & Hout & Hro & Hrb & Hi).
    apply authority_of_ok in Hpk as [Hkey ->].
    destruct (prepare_ok _ _ _ _ (Hok w) Hkey Hdraft)
      as (n & Hc & Hn & Hep & Hpd & Hm & [Hty Hnd] & Hrt). rewrite Hep, Hpd in *.
    apply take_out_ok in Hout as [Hkept _].
    set (db1 := set_device (w, dev) (revoked_device now (Some (n + 1)) d) db) in *.
    match type of Hro with SignWorkspaceRoster ?x _ = _ => assert (roster_typed x) as Ht end.
    { unfold roster_typed. simpl. split_and!; try done.
      - apply u64_range.
      - apply Forall_forall. intros x Hx. apply Hkept in Hx as [Hx _].
        rewrite Forall_forall in Hty. auto.
      - rewrite sort_revocations_perm. apply Forall_app. split; [done|]. repeat constructor; simpl;
          apply u64_range. }
    destruct (ws_extend w db db1 db' n sk ro _ rb now Hk Hc Hn eq_refl Ht eq_refl Hro Hrb Hi)
      as (row & Hc' & Hrow & Hdec & Hdevs & Hws & Hoth).
    intros w'. destruct (decide (w' = w)) as [->|Hne].
    + exists (n + 1). pose proof (ch_range _ _ _ Hc). split; [done|]. split; [lia|]. intros _.
      exists (ed_Public sk), row, ro. eexists. split; [unfold key_of; by rewrite Hws|].
      split; [done|]. split; [done|]. simpl.
      assert (∀ q, q ≠ dev → device_view db' (w, q) = device_view db (w, q)) as Hq.
      { intros q Hq. unfold device_view. rewrite Hdevs. unfold db1. simpl.
        rewrite lookup_insert_ne; [done|congruence]. }
      assert (device_view db' (w, dev) = None) as Hnone.
      { unfold device_view. rewrite Hdevs. unfold db1. simpl. by rewrite lookup_insert_eq. }
      split.
      * intros q v Hv. destruct (decide (q = dev)) as [->|Hne]; [congruence|].
        rewrite Hq in Hv by done. destruct (proj1 Hm _ _ Hv) as (c & Hcin & Hcd & Hcm).
        exists c. rewrite Hkept. split_and!; [done|congruence|done|done].
      * intros c Hcin. apply Hkept in Hcin as [Hcin Hcd]. rewrite Hq by done. by apply (proj2 Hm).
    + eapply ws_ok_other; [done|apply Hok|reflexivity|done|done|by apply Hoth].
Qed.

(** The reissue loop replaces, device by device, the old certificate with one
    the new authority signed over the same body. *)
Definition reissued_pair (w npk : bytes) (e now : Z) (db db1 : DB) (c c' : SignedDeviceCertificate)
  : Prop :=
  device_of c' = device_of c ∧ ∃ body d eb,
    sc_certificate c = Some body ∧ sc_certificate c' = Some (reissue_body body now e) ∧
    EncodeSignedDeviceCertificate c' npk = Ok eb ∧
    device_rows db !! (w, device_of c) = Some d ∧ approved_row d = true ∧
    device_rows db1 !! (w, device_of c) = Some (reissued_device c' eb now d).

Lemma reissue_ok w nsk npk e now cs db active db1 :
  reissue w nsk npk e now cs db = Ok (active, db1) → NoDup (device_of <$> cs) →
  Forall signed_cert_typed cs →
  Forall signed_cert_typed active ∧
  (∀ q, q ∉ device_of <$> cs → device_rows db1 !! (w, q) = device_rows db !! (w, q)) ∧
  (∀ w' q, w' ≠ w → device_rows db1 !! (w', q) = device_rows db !! (w', q)) ∧
  Forall2 (reissued_pair w npk e now db db1) cs active.
Proof.
  revert db active. induction cs as [|c cs IH]; intros db active Hr Hnd Hty.
  - simpl in Hr. apply Ok_inj in Hr. injection Hr as <- <-. split_and!; auto.
  - apply reissue_cons in Hr as (body & cert & eb & d & more & Hb & Hs & He & Hd & _ & Ha & -> & Hr).
    assert (device_of c = dc_device_id body) as Hdev by (unfold device_of; by rewrite Hb).
    rewrite fmap_cons in Hnd. apply NoDup_cons in Hnd as [Hni Hnd].
    apply Forall_cons in Hty as [Hct Hty]. unfold signed_cert_typed in Hct. rewrite Hb in Hct.
    destruct (SignDeviceCertificate_ok _ _ _ Hs) as (Hcb & _ & Hcd). simpl in Hcd.
    destruct (IH _ _ Hr Hnd Hty) as (Hty' & Hout & Hother & Hpairs).
    assert (device_rows db1 !! (w, dc_device_id body) = Some (reissued_device cert eb now d)) as Hnew.
    { rewrite Hout; [|by rewrite <-Hdev]. unfold set_device. simpl. by rewrite lookup_insert_eq. }
    split_and!.
    + constructor; [|done]. eapply signed_typed; [exact Hs| | |]; simpl; try apply u64_range.
      apply Hct.
    + intros q Hq. rewrite fmap_cons in Hq. apply not_elem_of_cons in Hq as [Hq1 Hq2].
      rewrite Hout by done. unfold set_device. simpl. rewrite lookup_insert_ne; [done|congruence].
    + intros w' q Hw. rewrite Hother by done. unfold set_device. simpl.
      rewrite lookup_insert_ne; [done|congruence].
    + constructor.
      * split; [congruence|]. exists body, d, eb. rewrite Hdev. by split_and!.
      * eapply Forall2_impl; [|intros x y Hxy; exact Hxy].
        apply Forall2_same_length_lookup in Hpairs as [Hl Hp].
        apply Forall2_same_length_lookup. split; [done|]. intros i x y Hx Hy.
        destruct (Hp i x y Hx Hy) as (E & bx & dx & ex & P1 & P2 & P3 & P4 & P5 & P6).
        split; [done|]. exists bx, dx, ex. split_and!; try done.
        unfold set_device in P4. simpl in P4. rewrite lookup_insert_ne in P4; [done|].
        intros [= E2]. apply Hni. rewrite Hdev, E2. apply list_elem_of_fmap_2.
        by eapply list_elem_of_lookup_2.
Qed.

Lemma reissue_match pk npk e now cs active w db db1 :
  certs_match pk cs w db → Forall2 (reissued_pair w npk e now db db1) cs active →
  (∀ q, q ∉ device_of <$> cs → device_rows db1 !! (w, q) = device_rows db !! (w, q)) →
  certs_match npk active w db1.
Proof.
  intros [Hm1 Hm2] Hp Hout.
  assert (∀ c c', c ∈ cs → reissued_pair w npk e now db db1 c c' →
    ∃ v, device_view db1 (w, device_of c) = Some v ∧ cert_matches npk c' v) as Hkey.
  { intros c c' Hc (Hd & body & d & eb & Hb & Hb' & He & Hrow & Ha & Hrow').
    destruct (Hm2 _ Hc) as (v & Hv & _ & _ & body0 & Hb0 & Hn & Hk & Ht).
    assert (body0 = body) as -> by congruence.
    unfold device_view in Hv |- *. rewrite Hrow, (row_view_approved _ Ha) in Hv. injection Hv as <-.
    simpl in Hn, Hk, Ht. rewrite Hrow'. rewrite row_view_approved by exact Ha.
    eexists. split; [done|]. split_and!; [done|by exists eb|]. eexists. split; [done|]. done. }
  split.
  - intros dev v Hv. destruct (decide (dev ∈ device_of <$> cs)) as [Hin|Hni].
    + apply list_elem_of_fmap in Hin as (c & -> & Hc).
      apply list_elem_of_lookup in Hc as [i Hi]. pose proof (Forall2_lookup_l _ _ _ _ _ Hp Hi) as (c' & Hi' & Hpair).
      destruct (Hkey c c') as (v' & Hv' & Hm); [by eapply list_elem_of_lookup_2|done|].
      assert (v' = v) as -> by congruence. exists c'. split; [by eapply list_elem_of_lookup_2|].
      split; [apply Hpair|done].
    + assert (device_view db (w, dev) = Some v) as Hv'.
      { unfold device_view in *. by rewrite <-Hout. }
      destruct (Hm1 _ _ Hv') as (c & Hc & <- & _). exfalso. apply Hni. by apply list_elem_of_fmap_2.
  - intros c' Hc'. apply list_elem_of_lookup in Hc' as [i Hi'].
    pose proof (Forall2_lookup_r _ _ _ _ _ Hp Hi') as (c & Hi & Hpair).
    destruct (Hkey c c') as (v & Hv & Hm); [by eapply list_elem_of_lookup_2|done|].
    exists v. destruct Hpair as [-> _]. done.
Qed.

Lemma RotateAuthority_chain w sk nsk now db r db' :
  db_ok db → ed_key_pair sk → ed_key_pair nsk →
  RotateWorkspaceAuthority w sk nsk now db = Ok (r, db') → db_ok db'.
Proof.
  intros Hok Hk Hnk Hr. apply RotateAuthority_ok in Hr as (wrow & row & e & previous & old & tr & te &
    active & db1 & ro & rb & db2 & db3 & Hw & Hpk & _ & _ & Hl & Hdec & Hold & Hmax & _ & _ & Hre & Hro &
    Hrb & Ht & Hi & ->).
  assert (key_of w db = Some (ed_Public sk)) as Hkey by (unfold key_of; by rewrite Hw).
  assert (prepareNextWorkspaceRoster w (ed_Public sk) db = Ok (mkDraft (i64 (ro_roster_epoch old) + 1)
    (sr_roster_digest previous) (ro_active_certificates old) (ro_revocations old))) as Hdraft.
  { unfold prepareNextWorkspaceRoster. rewrite Hl, Hdec. cbn [wrapf rbind]. rewrite Hold.
    go_pass; [done|]. rewrite Z.geb_leb. by apply Z.leb_gt. }
  destruct (prepare_ok _ _ _ _ (Hok w) Hkey Hdraft)
    as (n & Hc & Hn & Hep & Hpd & Hm & [Hty Hnd] & Hrt). simpl in *. rewrite Hep, Hpd in *.
  destruct (reissue_ok _ _ _ _ _ _ _ _ _ Hre Hnd Hty) as (Hty' & Hout & Hother & Hpairs).
  apply reissue_step in Hre as [_ E1]. apply insert_transition_ok in Ht as [_ E2].
  assert (rosters_of w db2 = rosters_of w db) as Hsame by (rewrite E2, E1; done).
  match type of Hro with SignWorkspaceRoster ?x _ = _ => assert (roster_typed x) as Htyped end.
  { unfold roster_typed. simpl. split_and!; try done. apply u64_range. }
  destruct (ws_extend w db db2 db3 n nsk ro _ rb now Hnk Hc Hn Hsame Htyped eq_refl Hro Hrb Hi)
    as (row' & Hc' & Hrow & Hdec' & Hdevs & Hws & Hoth).
  assert (device_rows db3 = device_rows db1) as Hdev3 by (rewrite Hdevs, E2; done).
  assert (workspaces db3 = workspaces db) as Hws3 by (rewrite Hws, E2, E1; done).
  intros w'. destruct (decide (w' = w)) as [->|Hne].
  - exists (n + 1). pose proof (ch_range _ _ _ Hc). split; [done|]. split; [lia|]. intros _.
    exists (ed_Public nsk), row', ro. eexists.
    split; [unfold key_of; simpl; by rewrite lookup_insert_eq|].
    split; [done|]. split; [done|]. simpl.
    eapply certs_match_same; [|by eapply reissue_match].
    intros dev. unfold device_view. simpl. by rewrite Hdev3.
  - apply (ws_ok_same w' db); [|left| |apply Hok].
    + change (rosters_of w' db3 = rosters_of w' db). rewrite Hoth by done. rewrite E2, E1. done.
    + unfold key_of. simpl. rewrite lookup_insert_ne by done. by rewrite Hws3.
    + intros dev. unfold device_view. simpl. rewrite Hdev3. by rewrite Hother.
Qed.

(** ** Every operation keeps the invariant *)

(** The authority keys an operation signs with are key pairs of the scheme. *)
Definition op_keys (o : op) : Prop :=
  match o with
  | OApprove _ _ _ sk _ => ed_key_pair sk
  | ORename _ _ _ sk _ => ed_key_pair sk
  | ORevoke _ _ sk _ => ed_key_pair sk
  | ORotateAuthority _ sk nsk _ => ed_key_pair sk ∧ ed_key_pair nsk
  | _ => True
  end.

(** Operations that touch neither rosters, authority keys nor certified columns. *)
Lemma db_ok_same db db' :
  rosters db' = rosters db → (∀ w, key_of w db' = key_of w db ∨ key_of w db = None) →
  (∀ p, device_view db' p = device_view db p) → db_ok db → db_ok db'.
Proof.
  intros Hr Hk Hv Hok w. apply (ws_ok_same w db); [|done|done|apply Hok].
  unfold rosters_of. by rewrite Hr.
Qed.

Lemma db_ok_untouched db db' :
  rosters db' = rosters db → workspaces db' = workspaces db → device_rows db' = device_rows db →
  db_ok db → db_ok db'.
Proof.
  intros Hr Hw Hd. apply db_ok_same; [done| |].
  - intros w. left. unfold key_of. by rewrite Hw.
  - intros p. unfold device_view. by rewrite Hd.
Qed.

Lemma db_ok_device p d d' db db' :
  device_rows db !! p = Some d → device_rows db' = <[p := d']> (device_rows db) →
  rosters db' = rosters db → workspaces db' = workspaces db → row_view d' = row_view d →
  db_ok db → db_ok db'.
Proof.
  intros Hd Hdev Hr Hw Hv. apply db_ok_same; [done| |].
  - intros w. left. unfold key_of. by rewrite Hw.
  - intros q. rewrite <-(set_device_view_same p d d' db Hd Hv q). unfold device_view, set_device.
    simpl. by rewrite Hdev.
Qed.

Lemma Register_chain i f dev token db r db' :
  db_ok db → RegisterPending i f dev token db = Ok (r, db') → db_ok db'.
Proof.
  intros Hok Hr. apply RegisterPending_ok in Hr
    as (secret & row & d & _ & _ & _ & _ & Hnone & _ & (Hst & _) & ->).
  revert Hok. apply db_ok_same; [done|by left|]. intros p. unfold device_view, set_device. simpl.
  destruct (decide (p = (pc_workspace_id row, dev))) as [->|Hne].
  - rewrite lookup_insert_eq, Hnone. unfold row_view, approved_row. rewrite Hst.
    by rewrite andb_false_r.
  - by rewrite lookup_insert_ne.
Qed.

Lemma CompleteProof_chain i db db' :
  db_ok db → CompletePendingIdentityProof i db = Ok db' → db_ok db'.
Proof.
  intros Hok. unfold CompletePendingIdentityProof. destruct (_ || _); [done|].
  destruct (device_rows db !! _) as [d|] eqn:Hd; [|done].
  destruct (proof_matches i d) eqn:Hm; [|done]. intros Heq. apply Ok_inj in Heq as <-.
  revert Hok. eapply db_ok_device; [done..|]. unfold proof_matches in Hm. go_bool.
  unfold row_view, approved_row. simpl.
  match goal with Hs : membership_state d = _ |- _ => rewrite Hs end. by rewrite !andb_false_r.
Qed.

Lemma RecordActivity_chain w dev now db db' :
  db_ok db → RecordDeviceActivity w dev now db = Ok db' → db_ok db'.
Proof.
  intros Hok. unfold RecordDeviceActivity.
  destruct (device_rows db !! _) as [d|] eqn:Hd; [|by intros [= <-]].
  destruct (_ && _) eqn:Hm; intros Heq; apply Ok_inj in Heq as <-; [|done].
  revert Hok. by eapply db_ok_device.
Qed.

Lemma exec_chain o db db' : op_keys o → db_ok db → exec o db = Ok db' → db_ok db'.
Proof.
  intros Hk Hok. destruct o; simpl in Hk |- *; intros He; try (apply second_ok in He as [r He]);
    try (unfold with_relay in He; go_inv; subst; by revert Hok; apply db_ok_untouched).
  - unfold CreateWorkspace in He. go_inv. injection He as _ <-. go_bool.
    revert Hok. apply db_ok_same; [done| |done]. intros w. unfold key_of. simpl.
    destruct (decide (w = id)) as [->|Hne]; [|left; by rewrite lookup_insert_ne].
    right. destruct (workspaces db !! id) eqn:E; [|done]. exfalso. eauto.
  - unfold IssuePairingCode in He. go_inv. injection He as _ <-.
    by revert Hok; apply db_ok_untouched.
  - by eapply Register_chain.
  - by eapply CompleteProof_chain.
  - by eapply Approve_chain.
  - by eapply Rename_chain.
  - by eapply Revoke_chain.
  - destruct Hk. eauto using RotateAuthority_chain.
  - unfold IssueCredentialRotationCode in He. go_inv.
    destruct (device_rows db !! _) as [d|]; [|done]. destruct (approved_row d); [|done]. go_inv.
    injection He as _ <-. by revert Hok; apply db_ok_untouched.
  - apply RotateCredential_ok in He as (secret & code & d & _ & _ & _ & Hd & _ & _ & _ & _ & _ & ->).
    revert Hok. by eapply db_ok_device.
  - apply Authenticate_ok in He as (d & Hd & _ & _ & _ & ->). revert Hok. by eapply db_ok_device.
  - by eapply RecordActivity_chain.
  - apply WritePreference_ok in He as (_ & _ & _ & ->). by revert Hok; apply db_ok_untouched.
  - unfold SaveAdministrator in He. go_inv. subst. by revert Hok; apply db_ok_untouched.
Qed.

Lemma empty_db_ok : db_ok empty_db.
Proof.
  intros w. exists 0. split; [|split; [done|lia]]. constructor; unfold rosters_of; simpl.
  - unfold MaxInt64. lia.
  - intros e. rewrite lookup_empty. simpl. rewrite lookup_empty. split; [by intros [? ?]|lia].
  - intros e row. rewrite lookup_empty. simpl. by rewrite lookup_empty.
  - intros row. rewrite lookup_empty. simpl. by rewrite lookup_empty.
  - intros e row prev. rewrite lookup_empty. simpl. by rewrite lookup_empty.
Qed.

Lemma run_chain ops db : Forall op_keys ops → db_ok db → db_ok (run ops db).
Proof.
  intros Hk. revert db. induction Hk as [|o ops Ho _ IH]; intros db Hok; [done|].
  apply IH. unfold run_op. destruct (exec o db) as [db'|] eqn:E; simpl; [|done].
  by eapply exec_chain.
Qed.
End Chain.
