(* ===== verification/RosterServing.v ===== *)
(** What the stored roster chain gives to administrators and devices: its
    integrity after every sequence of operations, the newest roster as the exact
    list of authorized devices, revocation, and the pages
    [ReadMembershipState] serves to a synchronizing device. *)

From S2P Require Import Prelude GoStd DeliveryStore MembershipCodec Schema Admission.
From S2P Require Import MembershipStore StoreSteps RosterChain.

(** ** Pages of the roster table *)

#[local] Instance Zlt_antisymm : AntiSymm (=) Z.lt.
Proof. intros x y. lia. Qed.

Lemma filter_sorted {A} (P : Z * A → bool) l :
  StronglySorted Z.lt (fst <$> l) → StronglySorted Z.lt (fst <$> List.filter P l).
Proof.
  induction l as [|x l IH]; simpl; intros Hs; [constructor|].
  apply StronglySorted_inv in Hs as [Hs Hx]. destruct (P x); [|auto]. simpl. constructor; [auto|].
  rewrite Forall_forall in Hx |- *. intros z Hz. apply Hx.
  apply list_elem_of_fmap in Hz as (y & -> & Hy). apply list_elem_of_fmap_2.
  apply list_elem_of_In. apply list_elem_of_In in Hy. by apply List.filter_In in Hy as [Hy _].
Qed.

(** The rows in an interval of a gap-free table are the rows of that interval. *)
Lemma interval_keys {A} (m : gmap Z A) n lo hi :
  (∀ e, is_Some (m !! e) ↔ 1 ≤ e ≤ n) → 0 ≤ lo →
  fst <$> List.filter (in_epochs lo hi) (by_key m) = seqZ (lo + 1) (Z.min hi n - lo).
Proof.
  intros Hdom Hlo. pose proof (filter_sorted (in_epochs lo hi) _ (by_key_sorted m)) as Hs.
  eapply (StronglySorted_unique Z.lt); [done|apply seqZ_sorted|].
  apply NoDup_Permutation; [|apply NoDup_seqZ|].
  - clear -Hs. induction Hs as [|x l Hs IH Hx]; constructor; [|done]. intros Hin.
    rewrite Forall_forall in Hx. specialize (Hx _ Hin). lia.
  - intros e. rewrite elem_of_seqZ, list_elem_of_fmap. split.
    + intros ([k r] & -> & Hin). apply list_elem_of_In, List.filter_In in Hin as [Hin Hf].
      apply list_elem_of_In, by_key_elem in Hin. unfold in_epochs in Hf. go_bool. simpl in *.
      assert (1 ≤ k ≤ n) by (apply Hdom; by eexists). lia.
    + intros He. destruct (proj2 (Hdom e)) as [r Hr]; [lia|]. exists (e, r). split; [done|].
      apply list_elem_of_In, List.filter_In. split; [by apply list_elem_of_In, by_key_elem|].
      unfold in_epochs. simpl. apply andb_true_iff. split; [apply Z.ltb_lt|apply Z.leb_le]; lia.
Qed.

Definition page_bytes (page : list bytes) : Z := foldr (λ b n, blen b + n) 0 page.

(** The roster loop on consecutive rows: a prefix of them, not empty unless the
    rows are, within the byte budget unless it is a single roster. *)
Lemma roster_page_ok e first used (rows : list (Z * RosterRow)) :
  fst <$> rows = seqZ e (Z.of_nat (length rows)) →
  ∃ k, roster_page e first used rows = Ok (signed_roster ∘ snd <$> take k rows) ∧
    (first = true → rows ≠ [] → 1 ≤ k)%nat ∧ (k ≤ length rows)%nat ∧
    (used ≤ maxMembershipRosterPageRaw →
       used + page_bytes (signed_roster ∘ snd <$> take k rows) ≤ maxMembershipRosterPageRaw ∨
       (first = true ∧ k = 1%nat)) ∧
    (maxMembershipRosterPageRaw < used → first = false → k = 0%nat).
Proof.
  revert e first used. induction rows as [|[x row] rows IH]; intros e first used Hk.
  - exists 0%nat. simpl. split_and!; try done; lia.
  - rewrite length_cons, Nat2Z.inj_succ, seqZ_cons in Hk by lia.
    rewrite fmap_cons in Hk. injection Hk as Hx Hk. simpl in Hx. subst x.
    rewrite Z.pred_succ in Hk. simpl. rewrite Z.eqb_refl. simpl.
    destruct (negb first && _) eqn:Hstop.
    { exists 0%nat. apply andb_true_iff in Hstop as [Hf _]. destruct first; [done|].
      simpl. split_and!; try done; lia. }
    destruct (IH (e + 1) false (used + blen (signed_roster row))) as (k & -> & _ & Hl & Hb & Hz).
    { by rewrite Z.add_1_r. }
    exists (S k). simpl. split_and!; try done; try lia.
    + intros Hu. pose proof (Zle_0_nat (length (signed_roster row))) as Hpos.
      destruct (decide (used + blen (signed_roster row) ≤ maxMembershipRosterPageRaw)) as [Hle|Hgt].
      * left. destruct (Hb Hle) as [Hb'|[? _]]; [|done]. rewrite Z.add_assoc. exact Hb'.
      * destruct first; [right; split; [done|]; rewrite Hz; [done|lia|done]|].
        simpl in Hstop. go_bool. lia.
    + intros Hu ->. simpl in Hstop. pose proof (Zle_0_nat (length (signed_roster row))).
      unfold blen in *. go_bool. lia.
Qed.

Section Serving.
Context {wire : Wire} {ed : Ed25519} {wire_laws : WireLaws} {ed_laws : Ed25519Laws}.

Lemma decoded_key_length b pk s : DecodeSignedWorkspaceRoster b pk = Ok s → blen pk = PublicKeySize.
Proof.
  unfold DecodeSignedWorkspaceRoster. intros Hd. go_inv. destruct v0.
  unfold validateSignedWorkspaceRoster in *. go_inv. by go_bool.
Qed.

(** The newest epoch of a chain. *)
Lemma chain_latest w rows n :
  chain_ok w rows n → 0 < n → ∃ row, rows !! n = Some row ∧ latest rows = Some (n, row).
Proof.
  intros Hc Hn. destruct (latest rows) as [[e row]|] eqn:Hl.
  - apply latest_Some in Hl as [Hrow Hmax]. pose proof (ch_dom _ _ _ Hc) as Hdom.
    assert (1 ≤ e ≤ n) by (apply Hdom; by eexists). assert (n ≤ e) by (apply Hmax, Hdom; lia).
    assert (e = n) as -> by lia. eauto.
  - apply latest_None in Hl. subst. assert (is_Some ((∅ : gmap Z RosterRow) !! n)) as [? Hx].
    { apply (ch_dom _ _ _ Hc). lia. } by rewrite lookup_empty in Hx.
Qed.

(** What the invariant says of an approved device: its stored certificate
    decodes under the current authority, to a certificate of the newest roster. *)
Lemma approved_certificate w db dev d :
  ws_ok w db → device_rows db !! (w, dev) = Some d → approved_row d = true →
  ∃ n pk row s r c body, chain_ok w (rosters_of w db) n ∧ 0 < n ∧ key_of w db = Some pk ∧
    rosters_of w db !! n = Some row ∧ row_decodes w n row pk s r ∧
    c ∈ ro_active_certificates r ∧ sc_certificate c = Some body ∧ dc_device_id body = dev ∧
    DecodeSignedDeviceCertificate (default [] (signed_certificate d)) pk = Ok c ∧
    1 ≤ dc_membership_epoch body ≤ n.
Proof.
  intros (n & Hc & H0 & Hn) Hd Ha.
  assert (∃ v, device_view db (w, dev) = Some v ∧ v_signed_certificate v = signed_certificate d) as
    (v & Hv & Hvs).
  { unfold device_view. rewrite Hd, (row_view_approved _ Ha). by eexists. }
  pose proof (ch_range _ _ _ Hc) as Hr. destruct (decide (n = 0)) as [->|Hne].
  { by rewrite (H0 eq_refl) in Hv. }
  destruct Hn as (pk & row & s & r & Hk & Hrow & Hdec & Hm); [lia|].
  destruct (proj1 Hm _ _ Hv) as (c & Hin & Hcd & _ & (b & Hb & Hbs) & body & Hbody & _).
  pose proof Hdec as (Hdec1 & Hsr & Hep & _).
  destruct (decoded_facts _ _ _ _ Hdec1 Hsr) as ((_ & _ & Ht & _) & Hval & _).
  pose proof (rvd_certs_bound _ _ Hval) as Hcb. rewrite Forall_forall in Ht, Hcb.
  specialize (Ht _ Hin). destruct (Hcb _ Hin) as (body' & Hb' & Hvc & _ & Hle).
  assert (body' = body) as -> by congruence.
  exists n, pk, row, s, r, c, body. split_and!; try done; [lia| | | |].
  - unfold device_of in Hcd. by rewrite Hbody in Hcd.
  - rewrite <-Hvs, Hbs. by apply encoded_cert_decodes.
  - unfold validateSignedDeviceCertificate in Hvc. go_inv.
    match goal with Hx : validateDeviceCertificate _ = Ok _ |- _ => rewrite Hbody in Hx;
      apply validateDeviceCertificate_ok in Hx end.
    unfold signed_cert_typed in Ht. rewrite Hbody in Ht. destruct Ht as (_ & _ & _ & _ & _ & He).
    unfold is_u64 in He. intuition lia.
  - lia.
Qed.

(** What a page of served rosters is: the stored rosters of the epochs after [q]. *)
Definition page_of (rows : gmap Z RosterRow) (q k : Z) (page : list bytes) : Prop :=
  Forall2 (λ e b, ∃ row, rows !! e = Some row ∧ b = signed_roster row) (seqZ (q + 1) k) page.

Lemma take_page (rows : gmap Z RosterRow) n q hi (k m : nat) :
  (∀ e, is_Some (rows !! e) ↔ 1 ≤ e ≤ n) → 0 ≤ q →
  let l := take m (List.filter (in_epochs q hi) (by_key rows)) in (k ≤ length l)%nat →
  fst <$> l = seqZ (q + 1) (Z.of_nat (length l)) ∧
  page_of rows q (Z.of_nat k) (signed_roster ∘ snd <$> take k l) ∧
  length l = Z.to_nat (Z.min (Z.of_nat m) (Z.min hi n - q)).
Proof.
  intros Hdom Hq l Hk. pose proof (interval_keys rows n q hi Hdom Hq) as Hkeys.
  assert (length l = Z.to_nat (Z.min (Z.of_nat m) (Z.min hi n - q))) as Hlen.
  { unfold l. rewrite length_take, <-(length_fmap fst), Hkeys, length_seqZ. lia. }
  assert (∀ j : nat, fst <$> take j l = seqZ (q + 1) (Z.of_nat (length (take j l)))) as Hpre.
  { intros j. unfold l. rewrite take_take, fmap_take, Hkeys.
    apply list_eq. intros i.
    rewrite length_take, <-(length_fmap fst (List.filter _ _)), Hkeys, length_seqZ.
    destruct (decide (i < min j m)%nat).
    - rewrite lookup_take_lt by lia. apply option_eq. intros x. rewrite !lookup_seqZ. lia.
    - rewrite lookup_take_ge by lia. symmetry. apply lookup_seqZ_ge. lia. }
  split_and!; [rewrite <-(take_ge l (length l)) at 1; [|lia]; rewrite Hpre, take_ge by lia; done| |done].
  unfold page_of. specialize (Hpre k). rewrite length_take, Nat.min_l in Hpre by done.
  rewrite <-Hpre, !Forall2_fmap. apply Forall_Forall2_diag.
  apply Forall_forall. intros [e row] Hin. simpl. exists row. split; [|done].
  apply by_key_elem. apply list_elem_of_In.
  apply (List.filter_In (in_epochs q hi)). apply list_elem_of_In.
  eapply elem_of_take in Hin as (i & Hi & _). apply list_elem_of_lookup_2 in Hi.
  unfold l in Hi. by apply elem_of_take in Hi as (i' & Hi & _); apply list_elem_of_lookup_2 in Hi.
Qed.

(** [ReadMembershipState] for an approved device, once its guards are passed. *)
Lemma read_approved w dev d token a db wrow pk c body q :
  device_rows db !! (w, dev) = Some d → workspaces db !! w = Some wrow →
  authority_public_key wrow = Some pk → blen pk = PublicKeySize →
  auth_token_hash d = Sum256 token → blen token = authTokenBytes → 0 ≤ a →
  revoked_at_ms d = None → membership_state d = approved → revoked_membership_epoch d = None →
  DecodeSignedDeviceCertificate (default [] (signed_certificate d)) pk = Ok c →
  sc_certificate c = Some body → 1 ≤ dc_membership_epoch body ≤ MaxInt64 →
  q = (if a =? 0 then dc_membership_epoch body - 1 else a) →
  (length (by_key (transitions_of w db)) ≤ maxAuthorityTransitions)%nat →
  ∃ transitions, ReadMembershipState w dev token a db =
    let? page := roster_page (q + 1) true 0
      (take maxMembershipRosterPage (List.filter (in_epochs q MaxInt64) (by_key (rosters_of w db)))) in
    Ok (mkMembershipStateView approved pk (default [] (signed_certificate d)) transitions page
          (match latest (rosters_of w db) with Some (e, _) => e | None => 0 end)).
Proof.
  intros Hd Hw Hpk Hpl Hh Ht Ha Hrev Hst Hre Hdec Hb Hep -> Htr.
  unfold ReadMembershipState. rewrite Ht, Z.eqb_refl, (proj2 (Z.ltb_ge a 0)) by done.
  rewrite Hd, Hw, Hpk. unfold readable_device. rewrite Hh, beq_refl, Hrev, Hst. change (default [] (Some pk)) with pk.
  rewrite Hpl, Z.eqb_refl, Hre. cbv zeta.
  change (bool_decide (approved = approved)) with true.
  change (bool_decide (approved = revoked)) with false.
  change (bool_decide (@None Z = None)) with true.
  change (bool_decide (is_Some (@None Z))) with false.
  change (default MaxInt64 None) with MaxInt64. rewrite !orb_true_r. cbn [negb andb orb].
  rewrite Hdec, Hb, i64_small by lia.
  assert ((dc_membership_epoch body <? 1) || (dc_membership_epoch body >? MaxInt64) = false) as ->
    by (rewrite orb_false_iff, Z.gtb_ltb, !Z.ltb_ge; lia).
  destruct (a =? 0); eexists; cbn [rbind guard_err]; (go_pass; [reflexivity|]; apply Nat.ltb_ge);
    rewrite length_take; (etrans; [apply Nat.le_min_r|]); (etrans; [|exact Htr]); apply List.filter_length_le.
Qed.

(** ** Properties *)

(** C6: integrity of the roster chain. After any sequence of operations the
    stored rosters of a workspace have the epochs 1 to n without a gap; each
    decodes to a validly signed roster of that workspace, epoch and digest; the
    first one links to the zero digest and every other to its predecessor. *)
Theorem roster_chain_integrity ops w :
  Forall op_keys ops →
  let rows := rosters_of w (run ops empty_db) in
  ∃ n, 0 ≤ n ≤ MaxInt64 ∧ (∀ e, is_Some (rows !! e) ↔ 1 ≤ e ≤ n) ∧
    ∀ e row, rows !! e = Some row →
      (∃ pk s r, row_decodes w e row pk s r) ∧
      ros_previous_digest row =
        match rows !! (e - 1) with Some prev => ros_digest prev | None => zero_digest end.
Proof.
  intros Hk rows. destruct (run_chain ops empty_db Hk empty_db_ok w) as (n & Hc & _ & _).
  fold rows in Hc. exists n. split_and!; try apply Hc. intros e row Hrow. split; [by eapply ch_rows|].
  pose proof (ch_dom _ _ _ Hc) as Hdom.
  destruct (rows !! (e - 1)) as [prev|] eqn:Hp; [by eapply ch_link|].
  assert (1 ≤ e ≤ n) by (apply Hdom; by eexists). destruct (decide (e = 1)) as [->|Hne].
  - by eapply ch_genesis.
  - assert (is_Some (rows !! (e - 1))) as [? ?] by (apply Hdom; lia). congruence.
Qed.

(** C3: the newest roster is the membership. After any sequence of operations
    the newest roster of a workspace verifies under the workspace's current
    authority key, a device is authorized exactly when that roster has an active
    certificate for it, and that certificate is the one stored for the device,
    with the device's name, type and identity key. *)
Theorem newest_roster_is_membership ops w e row :
  Forall op_keys ops → let db := run ops empty_db in
  latest (rosters_of w db) = Some (e, row) →
  ∃ pk s r, WorkspaceAuthorityPublicKey w db = Ok pk ∧ row_decodes w e row pk s r ∧
    (∀ dev, IsDeviceAuthorized w dev db = Ok true ↔ dev ∈ device_of <$> ro_active_certificates r) ∧
    (∀ c, c ∈ ro_active_certificates r → ∃ d body,
       device_rows db !! (w, device_of c) = Some d ∧ sc_certificate c = Some body ∧
       certificate_id d = Some (sc_certificate_id c) ∧ dc_display_name body = device_name d ∧
       dc_identity_public_key body = e2ee_public_key d ∧
       dc_device_type body = membershipDeviceType (device_type d)).
Proof.
  intros Hk db Hl. destruct (run_chain ops empty_db Hk empty_db_ok w) as (n & Hc & _ & Hn).
  fold db in Hc, Hn. apply latest_Some in Hl as Hl'. destruct Hl' as [Hrow Hmax].
  assert (1 ≤ e ≤ n) by (apply (ch_dom _ _ _ Hc); by eexists).
  destruct (chain_latest _ _ _ Hc) as (row' & Hrow' & Hl'); [lia|].
  rewrite Hl in Hl'. injection Hl' as -> ->.
  destruct Hn as (pk & row1 & s & r & Hpk & Hrow1 & Hdec & Hm1 & Hm2); [lia|].
  assert (row1 = row') as -> by congruence. exists pk, s, r. split_and!; [|done| |].
  - unfold key_of in Hpk. unfold WorkspaceAuthorityPublicKey.
    destruct (workspaces db !! w) as [wrow|]; [|done]. rewrite Hpk.
    destruct Hdec as (Hdec & _). by rewrite (decoded_key_length _ _ _ Hdec).
  - intros dev. unfold IsDeviceAuthorized. rewrite list_elem_of_fmap. split.
    + destruct (device_rows db !! (w, dev)) as [d|] eqn:Hd; [|done]. intros [= Ha].
      destruct (Hm1 dev (mkView (certificate_id d) (signed_certificate d) (device_name d)
        (e2ee_public_key d) (device_type d))) as (c & Hin & Hcd & _); [|by exists c].
      unfold device_view. by rewrite Hd, row_view_approved.
    + intros (c & -> & Hin). destruct (Hm2 _ Hin) as (v & Hv & _). unfold device_view, row_view in Hv.
      destruct (device_rows db !! (w, device_of c)) as [d|]; [|done].
      by destruct (approved_row d).
  - intros c Hin. destruct (Hm2 _ Hin) as (v & Hv & Hcm). unfold device_view, row_view in Hv.
    destruct (device_rows db !! (w, device_of c)) as [d|]; [|done].
    destruct (approved_row d); [|done]. injection Hv as <-.
    destruct Hcm as (Hid & _ & body & Hb & Hn' & Hk' & Ht'). exists d, body. by split_and!.
Qed.


Lemma roster_page_sub e first used rows page b :
  roster_page e first used rows = Ok page → b ∈ page → ∃ x, x ∈ rows ∧ b = signed_roster x.2.
Proof.
  revert e first used page. induction rows as [|[x row] rows IH]; intros e first used page; simpl.
  - intros [= <-] Hb. by apply not_elem_of_nil in Hb.
  - intros Hp. apply fail_if_Ok in Hp as [_ Hp]. destruct (negb first && _).
    + injection Hp as <-. intros Hb. by apply not_elem_of_nil in Hb.
    + apply rbind_Ok in Hp as (more & Hm & Hp). injection Hp as <-. intros Hb.
      apply elem_of_cons in Hb as [->|Hb]; [exists (x, row); set_solver|].
      destruct (IH _ _ _ _ Hm Hb) as (y & Hy & ->). exists y. set_solver.
Qed.

(** C14: a revoked device learns nothing newer than its revocation. Whatever
    [ReadMembershipState] serves to a device with a revocation epoch, its newest
    epoch is that one, every roster is a stored one of at most that epoch and
    later than the one asked for, and every authority transition was activated by
    then. *)
Theorem revoked_device_view_capped w dev d token a db view m :
  device_rows db !! (w, dev) = Some d → revoked_membership_epoch d = Some m →
  membership_state d = revoked → ReadMembershipState w dev token a db = Ok view →
  msv_LatestRosterEpoch view = m ∧ auth_token_hash d = Sum256 token ∧
  (∀ b, b ∈ msv_Rosters view →
     ∃ e row, rosters_of w db !! e = Some row ∧ b = signed_roster row ∧ e ≤ m ∧ (0 < a → a < e)) ∧
  (∀ b, b ∈ msv_AuthorityTransitions view →
     ∃ e row, transitions_of w db !! e = Some row ∧ b = signed_transition row ∧
       atr_activation_roster_epoch row ≤ m).
Proof.
  intros Hd Hm Hst. unfold ReadMembershipState. if_false G1. rewrite Hd.
  destruct (workspaces db !! w) as [wrow|]; [|done]. if_false G2.
  apply orb_false_iff in G2 as [G2 _]. apply negb_false_iff in G2. unfold readable_device in G2.
  apply andb_true_iff in G2 as [Hh _]. apply beq_true in Hh. rewrite Hst, Hm.
  change (bool_decide (revoked = revoked)) with true. cbn [negb andb].
  change (default MaxInt64 (Some m)) with m. cbv zeta. intros Hr.
  apply rbind_Ok in Hr as (q & Hq & Hr). apply fail_if_Ok in Hr as [_ Hr].
  apply rbind_Ok in Hr as (page & Hp & Hr). apply Ok_inj in Hr as <-. cbn.
  assert (0 < a → q = a) as Hqa.
  { intros Hpos. destruct (a =? 0) eqn:E; [go_bool; lia|]. by injection Hq as ->. }
  split_and!; [done|done| |].
  - intros b Hb. destruct (roster_page_sub _ _ _ _ _ _ Hp Hb) as ([e row] & Hin & ->).
    apply elem_of_take in Hin as (i & Hi & _). apply list_elem_of_lookup_2 in Hi.
    apply list_elem_of_In, List.filter_In in Hi as [Hi Hf]. apply list_elem_of_In, by_key_elem in Hi.
    unfold in_epochs in Hf. go_bool. simpl in *. exists e, row. split_and!; try done; lia.
  - intros b Hb. apply list_elem_of_fmap in Hb as ([e row] & -> & Hin).
    apply elem_of_take in Hin as (i & Hi & _). apply list_elem_of_lookup_2 in Hi.
    apply list_elem_of_In, List.filter_In in Hi as [Hi Hf]. apply list_elem_of_In, by_key_elem in Hi.
    go_bool. exists e, row. by split_and!.
Qed.
End Serving.
