(* ===== verification/StoreExamples.v ===== *)
(** A concrete run of the store: a workspace is created, a phone is paired,
    proves its identity, is approved, renamed, rotates its credential and is
    revoked, a preference is written. It evaluates the model and instantiates the
    theorems about the store. *)

From S2P Require Import Prelude GoStd DeliveryStore MembershipCodec WireModel Schema Admission.
From S2P Require Import MembershipStore StoreSteps RosterChain RosterServing.

Definition T0 : Z := 1700000000 * Second.
Definition at_second (n : Z) : Z := T0 + n * Second.
Definition pairing_secret : bytes := repeat Byte.x31 24.
Definition rotation_secret : bytes := repeat Byte.x32 24.
Definition token1 : bytes := repeat Byte.x41 32.
Definition token2 : bytes := repeat Byte.x42 32.
Definition challenge_digest : bytes := repeat Byte.x51 32.
Definition challenge_secret : bytes := repeat Byte.x52 32.
Definition ref1 : bytes := deviceReference ws1 dev1.

Definition registration : Registration :=
  mkRegistration (RawURL_Encode pairing_secret) DeviceAndroid (bs "Pixel") p256_G (at_second 2).
Definition challenge_for (w dev : bytes) : result PendingChallenge :=
  Ok (mkPendingChallenge challenge_digest challenge_secret (at_second 302)).
Definition identity_proof : PendingIdentityProofInput :=
  mkPendingIdentityProof ws1 dev1 token1 challenge_digest challenge_secret (at_second 3).
Definition rotation : CredentialRotation :=
  mkCredentialRotation ws1 dev1 token1 (RawURL_Encode rotation_secret) token2 (at_second 7).

Definition pairing_ops : list op :=
  [OCreateWorkspace (ed_Public sk1) (at_second 0) ws1;
   OIssuePairingCode ws1 DeviceAndroid [] (at_second 1) Hour pairing_secret].
Definition approval_ops : list op :=
  [ORegisterPending registration challenge_for dev1 token1;
   OCompleteProof identity_proof;
   OApprove ws1 ref1 [1; 2] sk1 (at_second 4)].
Definition rotation_ops : list op :=
  [OIssueRotationCode ws1 ref1 (at_second 6) Hour rotation_secret].

Definition revocation_ops : list op := [ORevoke ws1 ref1 sk1 (at_second 10)].

Definition all_ops : list op := pairing_ops ++ approval_ops.

Definition paired : DB := run pairing_ops empty_db.
Notation joined := (run all_ops empty_db).
Definition rotating : DB := run rotation_ops joined.
Definition left_out : DB := run revocation_ops joined.

Lemma is_ok_pair {A B} (d : A * B) (r : result (A * B)) :
  is_ok r = true → r = Ok ((from_ok d r).1, (from_ok d r).2).
Proof. destruct r as [[a b]|]; [done|discriminate]. Qed.

Definition no_revocation : RevokedDevice * DB := (mkRevokedDevice [] false 0 [], empty_db).

Definition holds_ok {A} (P : A → bool) (r : result A) : bool :=
  match r with Ok a => P a | Err _ => false end.
Lemma holds_ok_true {A} (P : A → bool) r : holds_ok P r = true → ∃ a, r = Ok a ∧ P a = true.
Proof. destruct r as [a|]; [by exists a|done]. Qed.

Definition hash_of_row (p : PeerIdentity) (db : DB) : bytes :=
  match device_rows db !! p with Some d => auth_token_hash d | None => [] end.
Definition revocation_of (p : PeerIdentity) (db : DB) : option Z :=
  match device_rows db !! p with
  | Some d => if bool_decide (membership_state d = revoked) then revoked_membership_epoch d else None
  | None => None
  end.

(** What the run computes, evaluated once: [db] has the approved phone, [rot]
    also a rotation code for it, and [rev] is [db] after its revocation. *)
Definition run_facts (db rot rev : DB) : bool :=
  holds_ok (λ b, b) (IsDeviceAuthorized ws1 dev1 db) &&
  is_ok (RevokeDevice ws1 ref1 sk1 (at_second 10) db) &&
  holds_ok (λ d, beq d dev1) (resolveDeviceReference ws1 ref1 db) &&
  bool_decide (is_Some (rosters_of ws1 db !! 1)) &&
  negb (bool_decide (is_Some (rosters_of ws1 db !! (1 - 1)))) &&
  bool_decide (is_Some (latest (rosters_of ws1 db))) &&
  beq (hash_of_row (ws1, dev1) db) (Sum256 token1) &&
  (length (by_key (transitions_of ws1 db)) <=? maxAuthorityTransitions)%nat &&
  is_ok (RotateCredential rotation rot) &&
  holds_ok (λ x, x.1 =? 2) (RotateCredential rotation rot) &&
  is_ok (ReadMembershipState ws1 dev1 token1 1 rev) &&
  bool_decide (revocation_of (ws1, dev1) rev = Some 2).

Record facts (db rot rev : DB) : Prop := {
  f_authorized : IsDeviceAuthorized ws1 dev1 db = Ok true;
  f_revokes : is_ok (RevokeDevice ws1 ref1 sk1 (at_second 10) db) = true;
  f_resolves : resolveDeviceReference ws1 ref1 db = Ok dev1;
  f_first : is_Some (rosters_of ws1 db !! 1);
  f_zeroth : rosters_of ws1 db !! (1 - 1) = None;
  f_latest : is_Some (latest (rosters_of ws1 db));
  f_hash : hash_of_row (ws1, dev1) db = Sum256 token1;
  f_transitions : (length (by_key (transitions_of ws1 db)) ≤ maxAuthorityTransitions)%nat;
  f_rotates : is_ok (RotateCredential rotation rot) = true;
  f_version : (from_ok (0, empty_db) (RotateCredential rotation rot)).1 = 2;
  f_reads : is_ok (ReadMembershipState ws1 dev1 token1 1 rev) = true;
  f_epoch : revocation_of (ws1, dev1) rev = Some 2
}.

Lemma run_facts_ok db rot rev : run_facts db rot rev = true → facts db rot rev.
Proof.
  unfold run_facts. rewrite !andb_true_iff.
  intros (((((((((((H1 & H2) & H3) & H4) & H5) & H6) & H7) & H8) & H9) & H10) & H11) & H12).
  apply holds_ok_true in H1 as (? & H1 & ->). apply holds_ok_true in H3 as (d & H3 & Hd%beq_true).
  apply holds_ok_true in H10 as (? & H10 & E%Z.eqb_eq).
  constructor.
  - exact H1.
  - exact H2.
  - rewrite <-Hd. exact H3.
  - exact (bool_decide_eq_true_1 _ H4).
  - apply eq_None_not_Some. exact (bool_decide_eq_false_1 _ (proj1 (negb_true_iff _) H5)).
  - exact (bool_decide_eq_true_1 _ H6).
  - exact (proj1 (beq_true _ _) H7).
  - exact (proj1 (Nat.leb_le _ _) H8).
  - exact H9.
  - rewrite H10. exact E.
  - exact H11.
  - exact (bool_decide_eq_true_1 _ H12).
Qed.

Lemma example_facts : facts joined rotating left_out.
Proof. apply run_facts_ok. vm_compute. reflexivity. Qed.

(** The run of the theorem's conclusion: later operations do not bring it back. *)
Lemma revocation_is_permanent_witness :
  is_ok (RevokeDevice ws1 ref1 sk1 (at_second 10) joined) = true ∧
  ∀ ops, IsDeviceAuthorized ws1 dev1
    (run ops (from_ok no_revocation (RevokeDevice ws1 ref1 sk1 (at_second 10) joined)).2) = Ok false.
Proof.
  pose proof (f_revokes _ _ _ example_facts) as Hok.
  split; [exact Hok|]. intros ops.
  destruct (revocation_is_permanent ws1 ref1 sk1 (at_second 10) joined _ _ dev1 ops
    (is_ok_pair no_revocation _ Hok) (f_resolves _ _ _ example_facts)) as (_ & Ha & _). exact Ha.
Defined.


Definition no_registration : (bytes * bytes * bytes) * DB := (([], [], []), empty_db).

Lemma pairing_code_single_use_witness :
  is_ok (RegisterPending registration challenge_for dev1 token1 paired) = true ∧
  ∀ ops dev token, is_ok (RegisterPending registration challenge_for dev token
    (run ops (from_ok no_registration
       (RegisterPending registration challenge_for dev1 token1 paired)).2)) = false.
Proof.
  assert (is_ok (RegisterPending registration challenge_for dev1 token1 paired) = true) as Hok
    by (vm_compute; reflexivity).
  split; [exact Hok|]. intros ops dev token.
  apply (pairing_code_single_use registration challenge_for dev1 token1 paired _ _ ops
    registration challenge_for dev token (is_ok_pair no_registration _ Hok)).
  reflexivity.
Defined.

Lemma rotation_code_single_use_witness :
  is_ok (RotateCredential rotation rotating) = true ∧
  ∀ ops, is_ok (RotateCredential rotation
    (run ops (from_ok (0, empty_db) (RotateCredential rotation rotating)).2)) = false.
Proof.
  pose proof (f_rotates _ _ _ example_facts) as Hok.
  split; [exact Hok|]. intros ops.
  apply (rotation_code_single_use rotation rotating _ _ ops rotation
    (is_ok_pair (0, empty_db) _ Hok)). reflexivity.
Defined.

Definition theme : bytes := bs "theme".

Lemma preference_no_lost_update_witness :
  is_ok (WriteWorkspacePreference ws1 theme 0 (bs "dark") (at_second 10) paired) = true ∧
  ∀ ops, is_ok (WriteWorkspacePreference ws1 theme 0 (bs "light") (at_second 11)
    (run ops (from_ok (0, empty_db)
       (WriteWorkspacePreference ws1 theme 0 (bs "dark") (at_second 10) paired)).2)) = false.
Proof.
  assert (is_ok (WriteWorkspacePreference ws1 theme 0 (bs "dark") (at_second 10) paired) = true)
    as Hok by (vm_compute; reflexivity).
  split; [exact Hok|]. intros ops.
  destruct (preference_no_lost_update ws1 theme 0 (bs "dark") (at_second 10) paired _ _
    (is_ok_pair (0, empty_db) _ Hok)) as (_ & _ & _ & Hl).
  apply Hl.
Defined.

Lemma joined_row : is_Some (device_rows joined !! (ws1, dev1)).
Proof.
  pose proof (f_authorized _ _ _ example_facts) as Ha. unfold IsDeviceAuthorized in Ha.
  destruct (device_rows _ !! _); [by eexists|discriminate].
Qed.

Lemma authorized_device_lifecycle_witness :
  ∃ d, device_rows joined !! (ws1, dev1) = Some d ∧ device_ok d ∧
    membership_state d = approved ∧ proof_completed_at_ms d ≠ None.
Proof.
  destruct joined_row as [d Hd]. exists d. split; [exact Hd|].
  destruct (authorized_device_lifecycle all_ops (ws1, dev1) d Hd) as [Hok Ha].
  destruct (Ha (f_authorized _ _ _ example_facts)) as (Hs & _ & Hp & _). by split_and!.
Defined.

Lemma all_ops_keys : Forall op_keys all_ops.
Proof. repeat constructor. Qed.

Lemma roster_chain_integrity_witness :
  ∃ row, rosters_of ws1 joined !! 1 = Some row ∧
    ros_previous_digest row = zero_digest.
Proof.
  destruct (f_first _ _ _ example_facts) as [row Hrow].
  exists row. split; [exact Hrow|].
  destruct (roster_chain_integrity all_ops ws1 all_ops_keys) as (n & _ & _ & Hrows).
  destruct (Hrows 1 row Hrow) as [_ ->].
  by rewrite (f_zeroth _ _ _ example_facts : rosters_of ws1 joined !! (1 - 1) = None).
Defined.

Definition no_roster : Z * RosterRow := (0, mkRosterRow [] [] [] 0).

Lemma newest_roster_is_membership_witness :
  ∃ e row pk s r, latest (rosters_of ws1 joined) = Some (e, row) ∧
    row_decodes ws1 e row pk s r ∧ dev1 ∈ device_of <$> ro_active_certificates r.
Proof.
  destruct (f_latest _ _ _ example_facts) as [[e row] Hl].
  destruct (newest_roster_is_membership all_ops ws1 e row all_ops_keys Hl)
    as (pk & s & r & _ & Hd & Ha & _).
  exists e, row, pk, s, r. split; [exact Hl|]. split; [exact Hd|]. apply Ha, (f_authorized _ _ _ example_facts).
Defined.


Lemma revoked_device_view_capped_witness :
  ∃ view, ReadMembershipState ws1 dev1 token1 1 left_out = Ok view ∧ msv_LatestRosterEpoch view = 2.
Proof.
  pose proof (f_reads _ _ _ example_facts) as Hok. pose proof (f_epoch _ _ _ example_facts) as Hr.
  unfold revocation_of in Hr.
  destruct (device_rows left_out !! (ws1, dev1)) as [d|] eqn:Hd; [|discriminate].
  destruct (bool_decide _) eqn:Hst; [|discriminate]. apply bool_decide_eq_true in Hst.
  pose proof (is_ok_from (mkMembershipStateView approved [] [] [] [] 0) _ Hok) as Hv.
  destruct (revoked_device_view_capped ws1 dev1 d token1 1 _ _ 2 Hd Hr Hst Hv) as [Hl _].
  exact (ex_intro _ _ (conj Hv Hl)).
Defined.
