(* ===== verification/RateLimit.v ===== *)
(** The fixed-window attempt limiter (internal/ratelimit/fixed_window.go) behind
    the relay's and the HTTP API's per-client limits. *)

From S2P Require Import Prelude.

Record entry : Type := mkEntry { startedAt : Z; attempts : Z }.

Record FixedWindow : Type := mkFixedWindow {
  entries : gmap bytes entry;
  limit : Z;
  maxEntries : Z;
  window : Z
}.

Definition NewFixedWindow (limit maxEntries window : Z) : result FixedWindow :=
  fail_if (limit <? 1) || (maxEntries <? 1) || (window <=? 0)
    with_msg "fixed-window limits must be positive" in
  Ok (mkFixedWindow ∅ limit maxEntries window).

Definition expired (window now : Z) (e : entry) : Prop := window ≤ now - startedAt e.
#[export] Instance expired_dec window now e : Decision (expired window now e).
Proof. unfold expired. apply _. Defined.

(** The range loop that deletes while it iterates. *)
Definition sweep (window now : Z) (m : gmap bytes entry) : gmap bytes entry :=
  filter (λ x, ¬ expired window now x.2) m.

(** [time.Time.Sub] saturates at the largest [Duration]; a window is a positive
    [Duration], so the comparison is that of the exact difference. *)
Definition Allow (key : bytes) (now : Z) (l : FixedWindow) : bool * FixedWindow :=
  let set m := mkFixedWindow m (limit l) (maxEntries l) (window l) in
  let '(current, m) :=
    match entries l !! key with
    | Some e => if decide (expired (window l) now e) then (None, delete key (entries l))
                else (Some e, entries l)
    | None => (None, entries l)
    end in
  match current with
  | None =>
      if Z.of_nat (size m) >=? maxEntries l then
        let m' := sweep (window l) now m in
        if Z.of_nat (size m') >=? maxEntries l then (false, set m')
        else (true, set (<[key := mkEntry now 1]> m'))
      else (true, set (<[key := mkEntry now 1]> m))
  | Some e =>
      if attempts e >=? limit l then (false, set m)
      else (true, set (<[key := mkEntry (startedAt e) (attempts e + 1)]> m))
  end.

(** A sequence of attempts, with what was decided. *)
Fixpoint attempts_of (calls : list (bytes * Z)) (l : FixedWindow) : list (bytes * Z * bool) :=
  match calls with
  | [] => []
  | (key, now) :: rest => let '(ok, l') := Allow key now l in (key, now, ok) :: attempts_of rest l'
  end.

Definition passed_in (key : bytes) (lo hi : Z) (x : bytes * Z * bool) : bool :=
  beq x.1.1 key && (lo <=? x.1.2) && (x.1.2 <? hi) && x.2.

(** Attempts of [key] let through in the interval from [lo] to [hi]. *)
Definition passed (key : bytes) (lo hi : Z) (log : list (bytes * Z * bool)) : Z :=
  Z.of_nat (length (List.filter (passed_in key lo hi) log)).

(** ** One call *)

Definition live (l : FixedWindow) (now : Z) : gmap bytes entry := sweep (window l) now (entries l).

Lemma sweep_lookup W now m k e :
  sweep W now m !! k = Some e ↔ m !! k = Some e ∧ ¬ expired W now e.
Proof. unfold sweep. by rewrite map_lookup_filter_Some. Qed.

Lemma sweep_size W now m : (size (sweep W now m) ≤ size m)%nat.
Proof. apply map_subseteq_size, map_filter_subseteq. Qed.

Lemma sweep_delete W now m k :
  (∀ e, m !! k = Some e → expired W now e) → sweep W now (delete k m) = sweep W now m.
Proof.
  intros Hk. apply map_eq. intros j. apply option_eq. intros e. rewrite !sweep_lookup.
  destruct (decide (j = k)) as [->|Hne].
  - rewrite lookup_delete_eq. split; [by intros [? _]|]. intros [He Hx]. by apply Hk in He.
  - by rewrite lookup_delete_ne.
Qed.

(** The entries after the call, of which the decision is a function. *)
Inductive allowed (key : bytes) (now : Z) (l : FixedWindow) : bool → gmap bytes entry → Prop :=
| allowed_more e :
    entries l !! key = Some e → ¬ expired (window l) now e → attempts e < limit l →
    allowed key now l true (<[key := mkEntry (startedAt e) (attempts e + 1)]> (entries l))
| allowed_limit e :
    entries l !! key = Some e → ¬ expired (window l) now e → limit l ≤ attempts e →
    allowed key now l false (entries l)
| allowed_new m :
    live l now !! key = None → m !! key = None → live l now ⊆ m → m ⊆ entries l →
    Z.of_nat (size m) < maxEntries l → allowed key now l true (<[key := mkEntry now 1]> m)
| allowed_full :
    live l now !! key = None → maxEntries l ≤ Z.of_nat (size (live l now)) →
    allowed key now l false (live l now).

Lemma Allow_spec key now l ok l' :
  Allow key now l = (ok, l') →
  limit l' = limit l ∧ maxEntries l' = maxEntries l ∧ window l' = window l ∧
  allowed key now l ok (entries l').
Proof.
  unfold Allow. set (cur := match entries l !! key with Some _ => _ | None => _ end).
  assert ((∃ e, cur = (Some e, entries l) ∧ entries l !! key = Some e ∧ ¬ expired (window l) now e) ∨
    (cur.1 = None ∧ cur.2 !! key = None ∧ sweep (window l) now cur.2 = live l now ∧
     cur.2 ⊆ entries l ∧ live l now !! key = None)) as [(e & -> & He & Hx)|(Hn & Hm & Hs & Hsub & Hl)].
  { unfold cur, live. destruct (entries l !! key) as [e|] eqn:He.
    - destruct (decide (expired (window l) now e)); [|left; by exists e]. right. simpl.
      assert (∀ e', entries l !! key = Some e' → expired (window l) now e') as Hk by naive_solver.
      split_and!; [done|apply lookup_delete_eq|by apply sweep_delete|apply delete_subseteq|].
      apply eq_None_not_Some. intros [e' H']. apply sweep_lookup in H'. naive_solver.
    - right. split_and!; try done. apply eq_None_not_Some. intros [e' H'].
      apply sweep_lookup in H'. naive_solver. }
  - destruct (attempts e >=? limit l) eqn:E; intros [= <- <-]; go_bool; split_and!; try done; simpl.
    + by eapply allowed_limit.
    + by eapply allowed_more; [..|lia].
  - destruct cur as [c m]. simpl in Hn, Hm, Hs, Hsub |- *. subst c. rewrite Hs.
    assert (live l now ⊆ m) as Hlm by (rewrite <-Hs; apply map_filter_subseteq).
    destruct (Z.of_nat (size m) >=? maxEntries l) eqn:E1.
    + destruct (Z.of_nat (size (live l now)) >=? maxEntries l) eqn:E2; intros [= <- <-]; go_bool;
        split_and!; try done; simpl; [by apply allowed_full|].
      apply allowed_new; try done. by apply map_filter_subseteq.
    + intros [= <- <-]. go_bool. split_and!; try done. by apply allowed_new; [..|lia].
Qed.

(** ** Sequences of calls *)

Section Window.
Context (k : bytes) (W lim t0 : Z).
Hypotheses (HW : 0 < W) (Hlim : 1 ≤ lim).

(** What the last window of [k], opened at [S] with [A] attempts, leaves for the
    interval of length [W] that starts at [t0]. *)
Definition window_bound (S A count : Z) : Prop :=
  (S < t0 → count ≤ A) ∧ (t0 ≤ S < t0 + W → count ≤ lim + A) ∧ count ≤ 2 * lim.

Definition inv (l : FixedWindow) (last count : Z) : Prop :=
  window l = W ∧ limit l = lim ∧ 0 ≤ count ≤ 2 * lim ∧ (last < t0 → count = 0) ∧
  match entries l !! k with
  | Some e => startedAt e ≤ last ∧ 1 ≤ attempts e ≤ lim ∧
              window_bound (startedAt e) (attempts e) count
  | None => count = 0 ∨ ∃ S A, S + W ≤ last ∧ 1 ≤ A ≤ lim ∧ window_bound S A count
  end.

(** No window of [k] is open at [now]. *)
Lemma inv_closed l last now count :
  inv l last count → last ≤ now → live l now !! k = None →
  count = 0 ∨ ∃ S A, S + W ≤ now ∧ 1 ≤ A ≤ lim ∧ window_bound S A count.
Proof.
  intros (Hw & Hl & _ & _ & Hm) Hle Hn. destruct (entries l !! k) as [e|] eqn:He.
  - destruct Hm as (Hs & Ha & Hb). right. exists (startedAt e), (attempts e). split_and!; try done; try lia.
    destruct (decide (expired W now e)) as [Hx|Hx]; [unfold expired in Hx; lia|].
    assert (live l now !! k = Some e) by (apply sweep_lookup; by rewrite Hw). congruence.
  - destruct Hm as [->|(S & A & Hs & Ha & Hb)]; [by left|]. right. exists S, A. split_and!; try done; lia.
Qed.

Definition counted (key : bytes) (now : Z) (ok : bool) : Z :=
  if passed_in k t0 (t0 + W) (key, now, ok) then 1 else 0.

Lemma counted_cases key now ok :
  counted key now ok = 0 ∨ (counted key now ok = 1 ∧ key = k ∧ t0 ≤ now < t0 + W ∧ ok = true).
Proof.
  unfold counted, passed_in. simpl. destruct (_ && ok) eqn:E; [|by left]. right. go_bool. done.
Qed.

Lemma window_step l last count key now ok l' :
  inv l last count → last ≤ now → Allow key now l = (ok, l') →
  inv l' now (count + counted key now ok).
Proof.
  intros Hi Hle Ha. apply Allow_spec in Ha as (Hl & _ & Hw & Ha).
  pose proof Hi as (Hw0 & Hl0 & Hc & H0 & Hm). unfold inv. rewrite Hl, Hw.
  destruct (counted_cases key now ok) as [E|(E & -> & Ht & ->)]; rewrite E.
  - rewrite Z.add_0_r. split_and!; try done; try lia.
    destruct (decide (key = k)) as [->|Hne].
    + inversion Ha as [e He Hx Hlt Eok Em|e He Hx Hlt Eok Em|m Hlv Hmk Hs1 Hs2 Hsz Eok Em|Hlv Hsz Eok Em].
      * rewrite lookup_insert_eq. rewrite He in Hm. simpl. destruct Hm as (Hs & Hat & Hb).
        unfold window_bound in *. split_and!; try lia.
      * rewrite He in Hm |- *. intuition lia.
      * rewrite lookup_insert_eq. simpl. subst ok.
        destruct (inv_closed _ _ _ _ Hi Hle Hlv) as [->|(S & A & HS & HA & Hb)];
          unfold window_bound in *; split_and!; try lia.
      * rewrite Hlv. by eapply inv_closed.
    + assert (entries l' !! k = entries l !! k ∨
        (entries l' !! k = None ∧ live l now !! k = None)) as [->|[-> Hn]].
      { inversion Ha as [e He Hx Hlt Eok Em|e He Hx Hlt Eok Em|m Hlv Hmk Hs1 Hs2 Hsz Eok Em|Hlv Hsz Eok Em].
        - left. by rewrite lookup_insert_ne.
        - by left.
        - rewrite lookup_insert_ne by done. destruct (m !! k) as [e|] eqn:Em'.
          + left. symmetry. by eapply lookup_weaken.
          + right. split; [done|]. destruct (live l now !! k) eqn:El; [|done].
            eapply lookup_weaken in El; [|done]. congruence.
        - destruct (live l now !! k) as [e|] eqn:El; [|by right]. left. symmetry.
          apply sweep_lookup in El. by destruct El. }
      * destruct (entries l !! k) as [e|]; [intuition lia|].
        destruct Hm as [->|(S & A & HS & HA & Hb)]; [by left|]. right. exists S, A. split_and!; try done; lia.
      * by eapply inv_closed.
  - inversion Ha as [e He Hx Hlt Eok Em|e He Hx Hlt Eok Em|m Hlv Hmk Hs1 Hs2 Hsz Eok Em|Hlv Hsz Eok Em].
    + rewrite lookup_insert_eq. rewrite He in Hm. simpl. destruct Hm as (Hs & Hat & Hb).
      unfold expired in Hx. unfold window_bound in *. split_and!; try lia.
    + rewrite lookup_insert_eq. simpl.
      destruct (inv_closed _ _ _ _ Hi Hle Hlv) as [->|(S & A & HS & HA & Hb)];
        unfold window_bound in *; split_and!; try lia.
Qed.
End Window.

Lemma passed_cons k lo hi x log :
  passed k lo hi (x :: log) = (if passed_in k lo hi x then 1 else 0) + passed k lo hi log.
Proof. unfold passed. simpl. destruct (passed_in k lo hi x); simpl; lia. Qed.

Lemma attempts_bound k W lim t0 calls l last count :
  0 < W → 1 ≤ lim → inv k W lim t0 l last count → Forall (λ t, last ≤ t) calls.*2 →
  StronglySorted Z.le calls.*2 → count + passed k t0 (t0 + W) (attempts_of calls l) ≤ 2 * lim.
Proof.
  intros HW Hlim. revert l last count. induction calls as [|[key now] calls IH]; intros l last count Hi Hf Hs.
  - unfold passed. simpl. destruct Hi as (_ & _ & Hc & _). lia.
  - simpl in *. apply Forall_cons in Hf as [Hle Hf]. apply StronglySorted_inv in Hs as [Hs Hn].
    destruct (Allow key now l) as [ok l'] eqn:Ha. rewrite passed_cons, Z.add_assoc.
    apply (IH l' now); [|done|done]. by eapply window_step.
Qed.

(** ** Properties *)


(** An attempt is refused exactly when the client's open window has used up
    the limit, or the client has no open window and the table is full of open
    windows; no other client's attempts refuse a client that has one. The table
    never outgrows its bound. *)
Theorem rate_limit_outcome key now l ok l' :
  Allow key now l = (ok, l') →
  (ok = false ↔ match live l now !! key with
                | Some e => limit l ≤ attempts e
                | None => maxEntries l ≤ Z.of_nat (size (live l now))
                end) ∧
  (Z.of_nat (size (entries l)) ≤ maxEntries l → Z.of_nat (size (entries l')) ≤ maxEntries l').
Proof.
  intros Ha. apply Allow_spec in Ha as (Hl & Hmax & _ & Ha). rewrite Hmax.
  assert (∀ e, entries l !! key = Some e → ¬ expired (window l) now e → live l now !! key = Some e)
    as Hlive by (intros; by apply sweep_lookup).
  inversion Ha as [e He Hx Hlt Eok Em|e He Hx Hlt Eok Em|m Hlv Hmk Hs1 Hs2 Hsz Eok Em|Hlv Hsz Eok Em].
  - rewrite (Hlive _ He Hx). split; [split; [done|lia]|]. by rewrite map_size_insert_Some.
  - by rewrite (Hlive _ He Hx).
  - rewrite Hlv, map_size_insert_None by done. split; [|lia]. split; [done|].
    pose proof (map_subseteq_size _ _ Hs1). lia.
  - rewrite Hlv. split; [done|]. pose proof (sweep_size (window l) now (entries l)).
    unfold live. lia.
Qed.


Lemma rate_limit_outcome_witness :
  (Allow (bs "a") 5 (mkFixedWindow {[bs "a" := mkEntry 0 2]} 2 10 Minute)).1 = false.
Proof.
  apply (rate_limit_outcome (bs "a") 5 (mkFixedWindow {[bs "a" := mkEntry 0 2]} 2 10 Minute) _
    (Allow (bs "a") 5 (mkFixedWindow {[bs "a" := mkEntry 0 2]} 2 10 Minute)).2);
    [apply surjective_pairing|]. vm_compute. discriminate.
Defined.
