(* ===== verification/Session.v ===== *)
(** One relay session (internal/relay/websocket.go): classification of client
    messages, the writer goroutine with its delivery cursor, and the session's
    end cause.

    The writer runs against the delivery tables while the rest of the system
    works on them: before every access of its own, an arbitrary list of calls,
    for any device and also for its own, has been executed. Admission by the hub
    ([beginOperation]) and the socket may fail at any point; what was written
    before stays written. *)

From S2P Require Import Prelude GoStd RoutingHeader EnvelopeFrame RelayDelivery DeliveryStore Hub.

Definition authenticationSuccessAck : bytes := bs "SNO1".
Definition heartbeatRequest : bytes := bs "SNH1".
Definition heartbeatResponse : bytes := bs "SNH2".

Definition ErrSessionSuperseded : error := New "connection instance was replaced by a newer connection".
Definition ErrDeviceDisconnected : error := New "device authorization was revoked".

(** What [connection.ReadMessage] returned. *)
Inductive messageType : Type := BinaryMessage | TextMessage.

(** [readBoundedClientMessage]: a heartbeat, or a decoded message. *)
Inductive incoming : Type :=
| Heartbeat
| Message (m : ClientMessage).

Definition readBoundedClientMessage (kind : messageType) (encoded : bytes) : result incoming :=
  match kind with
  | TextMessage => Err (New "relay accepts binary messages only")
  | BinaryMessage =>
      if (blen encoded =? blen heartbeatRequest) && beq encoded heartbeatRequest then Ok Heartbeat
      else let? m := DecodeClientMessage encoded in Ok (Message m)
  end.

(** What the reader does with a message: a request to the hub, or a cursor
    for the writer. *)
Inductive dispatch : Type :=
| ToHub (r : request)
| ToWriter (cursor : Z).

Definition dispatch_message (now : Z) (m : ClientMessage) : dispatch :=
  match Kind m with
  | ClientEnvelopeOnline => ToHub (ReqRouteOnline (Envelope m))
  | ClientEnvelopeDurable => ToHub (ReqRouteDurable (Envelope m) now)
  | ClientResume => ToWriter (Cursor m)
  | ClientAcknowledge => ToHub (ReqAck (Cursor m))
  end.

(** [sessionEndCause]: a retirement wins over the error it produced. *)
Definition sessionEndCause (s : deviceSession) (err : option error) : option error :=
  match retired s with
  | Some retirementSuperseded => Some ErrSessionSuperseded
  | Some retirementRevoked => Some ErrDeviceDisconnected
  | None => err
  end.

(** ** The writer *)

Inductive out : Type :=
| OBinary (frame : bytes)
| OPing
| OClose (code : Z) (reason : bytes).

Definition CloseNormalClosure : Z := 1000.
Definition ClosePolicyViolation : Z := 1008.

Record environment : Type := mkEnvironment {
  env_calls : nat → list call;
  env_devices : nat → PeerIdentity → bool;
  env_now : nat → Z;
  env_admit : nat → option error;
  env_write : nat → option error
}.

Record writer : Type := mkWriter {
  tables : Tables;
  accesses : nat;
  written : list out;
  cursorInitialized : bool;
  sentCursor : Z
}.

Definition set_tables (T : Tables) (w : writer) : writer :=
  mkWriter T (S (accesses w)) (written w) (cursorInitialized w) (sentCursor w).
Definition add_out (o : out) (w : writer) : writer :=
  mkWriter (tables w) (accesses w) (written w ++ [o]) (cursorInitialized w) (sentCursor w).
Definition set_cursor (c : Z) (w : writer) : writer :=
  mkWriter (tables w) (accesses w) (written w) (cursorInitialized w) c.
Definition set_initialized (b : bool) (w : writer) : writer :=
  mkWriter (tables w) (accesses w) (written w) b (sentCursor w).

(** Effects: an error keeps the state reached; [None] is a loop out of fuel. *)
Definition act (A : Type) : Type := writer → option (result A * writer).
Definition a_ret {A} (a : A) : act A := λ w, Some (Ok a, w).
Definition a_lift {A} (r : result A) : act A := λ w, Some (r, w).
Definition a_bind {A B} (m : act A) (f : A → act B) : act B :=
  λ w, match m w with
       | Some (Ok a, w') => f a w'
       | Some (Err e, w') => Some (Err e, w')
       | None => None
       end.
Definition a_mod (f : writer → writer) : act unit := λ w, Some (Ok tt, f w).
Notation "'do' x <- m ; k" := (a_bind m (λ x, k)) (at level 60, x pattern, m at level 59, right associativity) : go_scope.
Notation "'do_' m ; k" := (a_bind m (λ _, k)) (at level 60, m at level 59, right associativity) : go_scope.

Section Writer.
Context (E : environment) (peer : PeerIdentity).

Definition interfere (n : nat) (T : Tables) : Tables :=
  (fold_left run_call (env_calls E n) (T, [])).1.

(** One admitted store access. *)
Definition access {A} (f : (PeerIdentity → bool) → Z → Tables → result (A * Tables)) : act A :=
  λ w, let n := accesses w in
       let T := interfere n (tables w) in
       match env_admit E n with
       | Some e => Some (Err e, set_tables T w)
       | None =>
           match f (env_devices E n) (env_now E n) T with
           | Ok (a, T') => Some (Ok a, set_tables T' w)
           | Err e => Some (Err e, set_tables T w)
           end
       end.

Definition writeMessage (o : out) : act unit :=
  λ w, match env_write E (length (written w)) with
       | Some e => Some (Err e, w)
       | None => Some (Ok tt, add_out o w)
       end.

Definition hub_resume (cursor : Z) : act DeliveryBatch :=
  access (λ fk now T, ResumeDeliveries fk peer cursor now deliveryBatchSize T).
Definition hub_read (after : Z) : act DeliveryBatch :=
  access (λ _ now T, ReadDeliveries peer after now deliveryBatchSize T).

(** The range loop over the batch. *)
Fixpoint send_deliveries (l : list StoredDelivery) : act unit :=
  match l with
  | [] => a_ret tt
  | d :: rest =>
      (do encoded <- a_lift (EncodeDelivery (ID d) (StoredEnvelope d));
       do_ writeMessage (OBinary encoded);
       do_ a_mod (set_cursor (ID d));
       send_deliveries rest)%go
  end.

(** [drainBatch]: the boolean says that a reset was sent. *)
Fixpoint drainBatch (fuel : nat) (batch : DeliveryBatch) : act bool :=
  match fuel with
  | O => λ _, None
  | S fuel =>
      if ResetRequired batch then
        (do reset <- a_lift (EncodeResetRequired (HighWater batch));
         do_ writeMessage (OBinary reset); a_ret true)%go
      else
        (do_ send_deliveries (Deliveries batch);
         λ w,
         if sentCursor w >=? HighWater batch then
           (do caughtUp <- a_lift (EncodeCaughtUp (HighWater batch));
            do_ writeMessage (OBinary caughtUp); a_ret false)%go w
         else
           (do next <- hub_read (sentCursor w);
            if (length (Deliveries next) =? 0)%nat && (HighWater next >? sentCursor w) &&
               negb (ResetRequired next)
            then a_lift (Err (New "relay delivery history contains an unreported gap"))
            else drainBatch fuel next)%go w)%go
  end.

(** The events of the writer's [select]. *)
Inductive wevent : Type :=
| EContextDone (e : error)
| EDisconnected
| ESuperseded
| EPing
| EHeartbeat
| EImmediate (frame : bytes)
| EResume (cursor : Z)
| EWake.

Definition finish_drain (resetSent : bool) : act unit :=
  if resetSent then a_mod (set_initialized false) else a_ret tt.

Definition a_close (code : Z) (reason : bytes) : act unit :=
  λ w, match env_write E (length (written w)) with
       | Some _ => Some (Ok tt, w)
       | None => Some (Ok tt, add_out (OClose code reason) w)
       end.

(** One round of the writer loop; [Err] is what [reportWriterError] gets. *)
Definition writer_step (fuel : nat) (ev : wevent) : act unit :=
  match ev with
  | EContextDone e => a_lift (Err e)
  | EDisconnected =>
      (do_ a_close ClosePolicyViolation (bs "authorization revoked");
       a_lift (Err ErrDeviceDisconnected))%go
  | ESuperseded =>
      (do_ a_close CloseNormalClosure (bs "superseded connection");
       a_lift (Err ErrSessionSuperseded))%go
  | EPing => writeMessage OPing
  | EHeartbeat => writeMessage (OBinary heartbeatResponse)
  | EImmediate frame => writeMessage (OBinary frame)
  | EResume cursor =>
      (do batch <- hub_resume cursor;
       do_ a_mod (set_initialized true);
       do_ a_mod (set_cursor cursor);
       do resetSent <- drainBatch fuel batch;
       finish_drain resetSent)%go
  | EWake =>
      λ w,
      if negb (cursorInitialized w) then Some (Ok tt, w)
      else
        (do batch <- hub_read (sentCursor w);
         do resetSent <- drainBatch fuel batch;
         finish_drain resetSent)%go w
  end.

(** The loop ends at the first error. *)
Fixpoint writer_loop (fuel : nat) (evs : list wevent) : act unit :=
  match evs with
  | [] => a_ret tt
  | ev :: rest => (do_ writer_step fuel ev; writer_loop fuel rest)%go
  end.

(** The whole writer: the acknowledgement of the authentication comes first. *)
Definition serve_writer (fuel : nat) (evs : list wevent) : act unit :=
  (do_ writeMessage (OBinary authenticationSuccessAck); writer_loop fuel evs)%go.
End Writer.
