(* ===== verification/SessionStream.v ===== *)
(** What a session's client receives: whatever the rest of the system does to
    the delivery tables meanwhile, the delivery frames a session writes carry the
    logged envelopes, in order, without a gap other than deliveries the device has
    acknowledged; and draining always ends. *)

From S2P Require Import Prelude GoStd RoutingHeader EnvelopeFrame RelayDelivery DeliveryStore Hub Session.

(** ** Mailboxes over time *)

Definition extends (M M' : Mailbox) : Prop :=
  log M `prefix_of` log M' ∧ acked M ≤ acked M' ∧ lost M ≤ lost M'.

#[export] Instance extends_po : PreOrder extends.
Proof.
  split; [by intros M|]. intros M1 M2 M3 (? & ? & ?) (? & ? & ?).
  split_and!; [by etrans|lia|lia].
Qed.

Lemma mailbox_step_extends M e a M' : mailbox_step M e a M' → extends M M'.
Proof. destruct 1; split_and!; simpl; try lia; try done. by apply prefix_app_r. Qed.

Definition all_ok (T : Tables) : Prop := ∀ q, ∃ M, refines M q T.

Lemma run_call_ok p M T h c :
  event_typed c.2.2 → all_ok T → refines M p T →
  ∃ M', extends M M' ∧ refines M' p (run_call (T, h) c).1 ∧ all_ok (run_call (T, h) c).1.
Proof.
  destruct c as [fk [q e]]. intros Ht Hall HR. unfold run_call. simpl in *.
  destruct (DeliveryStore.exec fk q e T) as [[a T']|] eqn:Hx; [|by exists M]. simpl.
  destruct (Hall q) as (Mq & HRq).
  destruct (exec_refines _ _ _ _ _ _ _ HRq Ht Hx) as (Mq' & _ & HRq' & Hel).
  assert (all_ok T') as Hall'.
  { intros r. destruct (decide (r = q)) as [->|Hne]; [by exists Mq'|].
    destruct (Hall r) as (Mr & HRr). exists Mr. by eapply refines_elsewhere. }
  destruct (decide (p = q)) as [->|Hne].
  - destruct (exec_refines _ _ _ _ _ _ _ HR Ht Hx) as (M' & Hs & HR' & _). exists M'.
    split_and!; [by eapply mailbox_step_extends|done|done].
  - exists M. split_and!; [done|by eapply refines_elsewhere|done].
Qed.

Lemma run_calls_ok p calls M T h :
  Forall (λ c, event_typed c.2.2) calls → all_ok T → refines M p T →
  let T' := (fold_left run_call calls (T, h)).1 in
  ∃ M', extends M M' ∧ refines M' p T' ∧ all_ok T'.
Proof.
  revert M T h. induction calls as [|c calls IH]; intros M T h Ht Hall HR; simpl; [by exists M|].
  apply Forall_cons in Ht as [Hc Ht].
  destruct (run_call_ok p M T h c Hc Hall HR) as (M1 & Hx1 & HR1 & Hall1).
  destruct (run_call (T, h) c) as [T1 h1]. destruct (IH M1 T1 h1 Ht Hall1 HR1) as (M2 & Hx2 & HR2 & Hall2).
  exists M2. split_and!; [by etrans|done|done].
Qed.

(** The deliveries [ds], sent by a session whose cursor went from [c] to [c']:
    logged envelopes in order; what is skipped, the device has acknowledged. *)
Record sent_ok (M : Mailbox) (c : Z) (ds : list StoredDelivery) (c' : Z) : Prop := {
  so_range : 0 ≤ c ≤ c';
  so_sorted : StronglySorted Z.lt (ID <$> ds);
  so_logged : Forall (λ d, c < ID d ≤ c' ∧ log M !! Z.to_nat (ID d - 1) = Some (StoredEnvelope d)) ds;
  so_complete : ∀ i, c < i ≤ c' → i ∈ ID <$> ds ∨ i ≤ acked M
}.

Lemma sent_ok_nil M c : 0 ≤ c → sent_ok M c [] c.
Proof. intros. constructor; [lia|constructor|constructor|lia]. Qed.

Lemma sent_ok_extends M M' c ds c' : extends M M' → sent_ok M c ds c' → sent_ok M' c ds c'.
Proof.
  intros (Hp & Ha & _) [Hr Hs Hl Hc]. constructor; try done.
  - eapply Forall_impl; [exact Hl|]. intros d [? Hd]. split; [done|]. by eapply prefix_lookup_Some.
  - intros i Hi. destruct (Hc i Hi); [by left|right; lia].
Qed.

Lemma sorted_app_lt (l1 l2 : list Z) m :
  StronglySorted Z.lt l1 → StronglySorted Z.lt l2 → Forall (λ x, x ≤ m) l1 →
  Forall (λ x, m < x) l2 → StronglySorted Z.lt (l1 ++ l2).
Proof.
  induction 1 as [|x l1 Hs IH Hx]; intros H2 Hm1 Hm2; [done|]. apply Forall_cons in Hm1 as [Hxm Hm1].
  simpl. constructor; [auto|]. apply Forall_app. split; [done|].
  eapply Forall_impl; [exact Hm2|]. simpl. lia.
Qed.

Lemma sent_ok_app M c ds c1 ds' c2 :
  sent_ok M c ds c1 → sent_ok M c1 ds' c2 → sent_ok M c (ds ++ ds') c2.
Proof.
  intros [Hr Hs Hl Hc] [Hr' Hs' Hl' Hc']. constructor; [lia| | |].
  - rewrite fmap_app. eapply (sorted_app_lt _ _ c1); try done; rewrite Forall_fmap;
      (eapply Forall_impl; [eassumption|]); simpl; lia.
  - apply Forall_app. split; (eapply Forall_impl; [eassumption|]); simpl; intros d [? ?];
      (split; [lia|done]).
  - intros i Hi. rewrite fmap_app, elem_of_app.
    destruct (decide (i ≤ c1)) as [Hle|Hgt]; [destruct (Hc i)|destruct (Hc' i)]; auto; lia.
Qed.

Definition last_id (c : Z) (ds : list StoredDelivery) : Z :=
  match last ds with Some d => ID d | None => c end.

Lemma log_slice_lookup l c limit (i : nat) d :
  0 ≤ c → log_slice l c limit !! i = Some d →
  ID d = c + 1 + Z.of_nat i ∧ l !! Z.to_nat (ID d - 1) = Some (StoredEnvelope d).
Proof.
  intros Hc Hd. unfold log_slice in Hd. apply lookup_take_Some in Hd as [Hd _].
  rewrite lookup_zip_with in Hd. destruct (seqZ _ _ !! i) as [z|] eqn:Hz; [|done].
  destruct (drop _ l !! i) as [e|] eqn:He; [|done]. injection Hd as <-. simpl.
  apply lookup_seqZ in Hz as [-> _]. split; [lia|]. rewrite lookup_drop in He.
  replace (Z.to_nat (c + 1 + Z.of_nat i - 1)) with (Z.to_nat c + i)%nat by lia. done.
Qed.

(** A prefix of what the log has after [c0], for a session at [c] that the
    device's acknowledgements may have passed. *)
Lemma sent_ok_slice M c c0 limit k :
  0 ≤ c ≤ c0 → c0 ≤ Z.max c (acked M) →
  let ds := take k (log_slice (log M) c0 limit) in sent_ok M c ds (last_id c ds).
Proof.
  intros Hc Ha ds.
  assert (∀ i d, ds !! i = Some d → ID d = c0 + 1 + Z.of_nat i ∧
    log M !! Z.to_nat (ID d - 1) = Some (StoredEnvelope d)) as Hds.
  { intros i d Hd. apply lookup_take_Some in Hd as [Hd _]. eapply log_slice_lookup; [lia|done]. }
  assert (ID <$> ds = seqZ (c0 + 1) (Z.of_nat (length ds))) as Hids.
  { apply list_eq. intros i. rewrite list_lookup_fmap.
    destruct (ds !! i) as [d|] eqn:E; simpl.
    - destruct (Hds i d E) as [-> _]. apply lookup_lt_Some in E. symmetry. apply lookup_seqZ. lia.
    - apply lookup_ge_None in E. symmetry. apply lookup_seqZ_ge. lia. }
  assert (ds = [] ∧ last_id c ds = c ∨ last_id c ds = c0 + Z.of_nat (length ds) ∧ ds ≠ []) as Hlast.
  { unfold last_id. destruct (last ds) as [d|] eqn:E.
    - right. split; [|by intros Hn; rewrite Hn in E]. rewrite last_lookup in E.
      destruct (Hds _ _ E) as [-> _]. destruct ds; [done|]. simpl. lia.
    - left. apply last_None in E. auto. }
  destruct Hlast as [[Hn Hl]|[Hl Hn]]; [rewrite Hl, Hn; apply sent_ok_nil; lia|].
  assert (0 < Z.of_nat (length ds)) by (destruct ds; [done|simpl; lia]).
  constructor; [lia|rewrite Hids; apply seqZ_sorted| |].
  - apply Forall_lookup. intros i d Hd. destruct (Hds i d Hd) as [E Hlog]. split; [|done].
    apply lookup_lt_Some in Hd. lia.
  - intros i Hi. rewrite Hids, elem_of_seqZ. lia.
Qed.

(** ** The writer *)

Definition delivery_frame (d : StoredDelivery) (o : out) : Prop :=
  ∃ f, EncodeDelivery (ID d) (StoredEnvelope d) = Ok f ∧ o = OBinary f.

Lemma a_bind_Some {A B} (m : act A) (f : A → act B) w x :
  a_bind m f w = Some x →
  (∃ a w', m w = Some (Ok a, w') ∧ f a w' = Some x) ∨ (∃ e w', m w = Some (Err e, w') ∧ x = (Err e, w')).
Proof.
  unfold a_bind. destruct (m w) as [[[a|e] w']|]; [eauto|right; naive_solver|done].
Qed.

Section Stream.
Context (E : environment) (peer : PeerIdentity).
(** Cursors of the other calls are [uint64]. *)
Hypothesis env_typed : ∀ n, Forall (λ c, event_typed c.2.2) (env_calls E n).

Definition wok (M : Mailbox) (w : writer) : Prop := refines M peer (tables w) ∧ all_ok (tables w).

Lemma send_spec l w r w' :
  send_deliveries E l w = Some (r, w') →
  ∃ k os, Forall2 delivery_frame (take k l) os ∧ written w' = written w ++ os ∧
    sentCursor w' = last_id (sentCursor w) (take k l) ∧ tables w' = tables w ∧
    cursorInitialized w' = cursorInitialized w ∧
    (is_ok r = true → k = length l).
Proof.
  revert w. induction l as [|d l IH]; intros w; cbn [send_deliveries].
  - intros [= <- <-]. exists 0%nat, []. rewrite app_nil_r. done.
  - intros Hs. apply a_bind_Some in Hs as [(f & w1 & He & Hs)|(e & w1 & He & Hs)].
    2: { injection He as He <-. injection Hs as -> ->. exists 0%nat, []. by rewrite app_nil_r. }
    injection He as He <-. apply a_bind_Some in Hs as [([] & w1 & Hw & Hs)|(e & w1 & Hw & Hs)];
      unfold writeMessage in Hw; destruct (env_write E _); try done.
    2: { injection Hw as -> <-. injection Hs as -> ->. exists 0%nat, []. by rewrite app_nil_r. }
    injection Hw as <-. apply a_bind_Some in Hs as [([] & w2 & Hw & Hs)|(e & w2 & Hw & Hs)]; [|done].
    injection Hw as <-. destruct (IH _ Hs) as (k & os & Hf & Hwr & Hc & Ht & Hci & Hk).
    exists (S k), (OBinary f :: os). split_and!.
    + simpl. constructor; [by exists f|done].
    + rewrite Hwr. simpl. by rewrite <-app_assoc.
    + rewrite Hc. simpl. unfold last_id. rewrite last_cons. by destruct (last (take k l)).
    + done.
    + done.
    + intros Hr. simpl. by rewrite (Hk Hr).
Qed.

(** A batch read for a session at [c]. *)
Definition batch_ok (M : Mailbox) (c : Z) (b : DeliveryBatch) : Prop :=
  HighWater b = log_end M ∧
  (ResetRequired b = false →
     ∃ c0, c ≤ c0 ≤ Z.max c (acked M) ∧ Deliveries b = log_slice (log M) c0 deliveryBatchSize).

Lemma access_spec {A} (f : (PeerIdentity → bool) → Z → Tables → result (A * Tables)) M w r w' :
  access E f w = Some (r, w') → wok M w →
  ∃ M1 T1, extends M M1 ∧ refines M1 peer T1 ∧ all_ok T1 ∧
    written w' = written w ∧ sentCursor w' = sentCursor w ∧
    cursorInitialized w' = cursorInitialized w ∧
    (tables w' = T1 ∧ is_ok r = false ∨
     ∃ fk now a, r = Ok a ∧ f fk now T1 = Ok (a, tables w')).
Proof.
  intros Hx [HR Hall]. unfold access in Hx.
  destruct (run_calls_ok peer (env_calls E (accesses w)) M (tables w) [] (env_typed _) Hall HR)
    as (M1 & Hext & HR1 & Hall1). fold (interfere E (accesses w) (tables w)) in *.
  exists M1, (interfere E (accesses w) (tables w)).
  destruct (env_admit E _); [injection Hx as <- <-; split_and!; auto|].
  destruct (f _ _ _) as [[a T']|e] eqn:Hf; injection Hx as <- <-; split_and!; auto.
  right. eauto 6.
Qed.

Lemma all_ok_exec fk q e T a T' :
  all_ok T → event_typed e → DeliveryStore.exec fk q e T = Ok (a, T') → all_ok T'.
Proof.
  intros Hall Ht Hx. destruct (Hall q) as (M & HR).
  pose proof (run_call_ok q M T [] (fk, (q, e)) Ht Hall HR) as (M' & _ & _ & Hall').
  unfold run_call in Hall'. simpl in Hall'. by rewrite Hx in Hall'.
Qed.

Lemma read_spec M w b w' c :
  hub_read E peer c w = Some (Ok b, w') → wok M w → is_u64 c →
  ∃ M', extends M M' ∧ wok M' w' ∧ batch_ok M' c b ∧ written w' = written w ∧
    sentCursor w' = sentCursor w ∧ cursorInitialized w' = cursorInitialized w.
Proof.
  intros Hx Hw Hc. destruct (access_spec _ _ _ _ _ Hx Hw)
    as (M1 & T1 & Hext & HR1 & Hall1 & Hwr & Hsc & Hci & [[_ Hf]|(fk & now & a & [= <-] & Hf)]); [done|].
  destruct (read_refines _ _ _ _ _ _ _ _ HR1 Hc Hf) as (M2 & Hs & HR2 & _).
  exists M2. unfold wok, batch_ok. split_and!; try done.
  - etrans; [done|]. by eapply mailbox_step_extends.
  - apply (all_ok_exec fk peer (EvRead c now deliveryBatchSize) T1 (AnsBatch b)); [done..|].
    simpl. by rewrite Hf.
  - inversion Hs; subst; done.
  - intros Hres. inversion Hs; subst; [done|]. simpl. exists (Z.max c (acked M1)). split; [lia|done].
Qed.

Lemma resume_spec M w b w' c :
  hub_resume E peer c w = Some (Ok b, w') → wok M w → is_u64 c →
  ∃ M', extends M M' ∧ wok M' w' ∧ batch_ok M' c b ∧ written w' = written w ∧
    sentCursor w' = sentCursor w ∧ cursorInitialized w' = cursorInitialized w.
Proof.
  intros Hx Hw Hc. destruct (access_spec _ _ _ _ _ Hx Hw)
    as (M1 & T1 & Hext & HR1 & Hall1 & Hwr & Hsc & Hci & [[_ Hf]|(fk & now & a & [= <-] & Hf)]); [done|].
  destruct (resume_refines _ _ _ _ _ _ _ _ _ HR1 Hc Hf) as (M2 & Hs & HR2 & _).
  exists M2. unfold wok, batch_ok. split_and!; try done.
  - etrans; [done|]. by eapply mailbox_step_extends.
  - apply (all_ok_exec fk peer (EvResume c now deliveryBatchSize) T1 (AnsBatch b)); [done..|].
    simpl. by rewrite Hf.
  - inversion Hs; subst; done.
  - intros Hres. inversion Hs; subst; [done|]. simpl. exists c. split; [lia|done].
Qed.

(** The outcome of draining from the state [w] with mailbox [M]. *)
Definition drained (M : Mailbox) (w : writer) (r : result bool) (w' : writer) : Prop :=
  ∃ M' ds os tail, extends M M' ∧ wok M' w' ∧ Forall2 delivery_frame ds os ∧
    written w' = written w ++ os ++ tail ∧ sent_ok M' (sentCursor w) ds (sentCursor w') ∧
    is_u64 (sentCursor w') ∧ cursorInitialized w' = cursorInitialized w ∧
    match r with
    | Ok true => ∃ hw f, EncodeResetRequired hw = Ok f ∧ tail = [OBinary f] ∧
                   log_end M ≤ hw ≤ log_end M'
    | Ok false => ∃ hw f, EncodeCaughtUp hw = Ok f ∧ tail = [OBinary f] ∧
                    log_end M ≤ hw ≤ log_end M' ∧ hw ≤ sentCursor w'
    | Err _ => tail = []
    end.

Lemma extends_end M M' : extends M M' → log_end M ≤ log_end M'.
Proof. intros (Hp & _). apply prefix_length in Hp. unfold log_end. lia. Qed.

(** Draining one more batch after [ds]. *)
Lemma drained_trans M M1 w w1 ds os r w' :
  extends M M1 → Forall2 delivery_frame ds os → written w1 = written w ++ os →
  sent_ok M1 (sentCursor w) ds (sentCursor w1) → cursorInitialized w1 = cursorInitialized w →
  drained M1 w1 r w' → drained M w r w'.
Proof.
  intros Hx Hf Hw Hs Hci (M' & ds' & os' & tail & Hx' & Hok & Hf' & Hw' & Hs' & Hu' & Hci' & Ht).
  exists M', (ds ++ ds'), (os ++ os'), tail.
  split_and!; [by etrans|done|by apply Forall2_app| | |done|congruence|].
  - rewrite Hw', Hw. by rewrite <-!app_assoc.
  - eapply sent_ok_app; [|done]. by eapply sent_ok_extends.
  - pose proof (extends_end _ _ Hx). destruct r as [[]|]; [..|done];
      destruct Ht as (hw & f & ? & ? & ?); exists hw, f; split_and!; try done; lia.
Qed.

(** A drain that only writes a control frame, or fails to. *)
Lemma drained_control M w enc hw (reset : bool) r w' :
  wok M w → is_u64 (sentCursor w) → hw = log_end M → (reset = false → hw ≤ sentCursor w) →
  (enc = if reset then EncodeResetRequired else EncodeCaughtUp) →
  (do f <- a_lift (enc hw); do_ writeMessage E (OBinary f); a_ret reset)%go w = Some (r, w') →
  drained M w r w'.
Proof.
  intros Hok Hc -> Hhw Henc Hx.
  assert (∀ w1, drained M w (Err w1) w) as Herr.
  { intros e. exists M, [], [], []. split_and!; [done|done|constructor| |apply sent_ok_nil, Hc|done|done|done].
    simpl. by rewrite app_nil_r. }
  apply a_bind_Some in Hx as [(f & w1 & He & Hx)|(e & w1 & He & [= -> ->])];
    [|injection He as _ <-; by apply Herr].
  injection He as He <-. apply a_bind_Some in Hx as [([] & w1 & Hw & Hx)|(e & w1 & Hw & [= -> ->])];
    unfold writeMessage in Hw; destruct (env_write E _); try done; [|injection Hw as _ <-; apply Herr].
  injection Hw as <-. injection Hx as <- <-.
  exists M, [], [], [OBinary f]. split_and!; try done; [apply sent_ok_nil, Hc|].
  destruct reset; subst enc; exists (log_end M), f; split_and!; try done; auto.
Qed.

Lemma wok_cursor M w c ds : wok M w → is_u64 c → sent_ok M c ds (last_id c ds) → is_u64 (last_id c ds).
Proof.
  intros [HR _] Hc Hs. unfold last_id in *. destruct (last ds) as [d|] eqn:El; [|done].
  destruct Hs as [Hr _ Hl _]. rewrite Forall_forall in Hl.
  destruct (Hl d) as [_ Hd]; [by apply last_Some_elem_of|]. apply lookup_lt_Some in Hd.
  unfold refines in HR. destruct (states (tables w) !! peer) as [s|].
  - destruct HR as (Hq & _). pose proof (q_next _ _ _ Hq). pose proof (q_range _ _ _ Hq).
    unfold is_u64, MaxInt64 in *. lia.
  - destruct HR as [-> _]. simpl in Hd. lia.
Qed.

Lemma drained_stop M w ds os e w1 :
  wok M w1 → Forall2 delivery_frame ds os → written w1 = written w ++ os →
  sent_ok M (sentCursor w) ds (sentCursor w1) → is_u64 (sentCursor w1) →
  cursorInitialized w1 = cursorInitialized w → drained M w (Err e) w1.
Proof. intros Hok Hf Hw Hs Hu Hci. exists M, ds, os, []. by rewrite app_nil_r. Qed.

Lemma drain_spec fuel M b w r w' :
  wok M w → is_u64 (sentCursor w) → batch_ok M (sentCursor w) b →
  drainBatch E peer fuel b w = Some (r, w') → drained M w r w'.
Proof.
  revert M b w. induction fuel as [|fuel IH]; intros M b w Hok Hc Hb; [done|]. cbn [drainBatch].
  destruct Hb as [Hhw Hb]. destruct (ResetRequired b) eqn:Hres.
  { apply (drained_control _ _ EncodeResetRequired _ true); try done. }
  destruct (Hb eq_refl) as (c0 & Hc0 & Hds). intros Hx.
  apply a_bind_Some in Hx as [([] & w1 & Hs & Hx)|(e & w1 & Hs & [= -> ->])];
    destruct (send_spec _ _ _ _ Hs) as (k & os & Hf & Hwr & Hsc & Ht & Hci & Hk); rewrite Hds in Hf, Hsc;
    pose proof (sent_ok_slice M (sentCursor w) c0 deliveryBatchSize k (conj (proj1 Hc) (proj1 Hc0))
      (proj2 Hc0)) as Hso; cbv zeta in Hso;
    pose proof (wok_cursor _ _ _ _ Hok Hc Hso) as Hu; rewrite <-Hsc in Hso, Hu;
    assert (wok M w1) as Hok1 by (unfold wok; rewrite Ht; exact Hok); [|by eapply drained_stop].
  destruct (sentCursor w1 >=? HighWater b) eqn:Hdone.
  { go_bool. eapply drained_trans; [done..|].
    apply (drained_control _ _ EncodeCaughtUp (HighWater b) false); try done; lia. }
  apply a_bind_Some in Hx as [(next & w2 & Hr & Hx)|(e & w2 & Hr & [= -> ->])].
  - destruct (read_spec _ _ _ _ _ Hr Hok1 Hu) as (M2 & Hx2 & Hok2 & Hb2 & Hw2 & Hs2 & Hci2).
    assert (sent_ok M2 (sentCursor w) (take k (log_slice (log M) c0 deliveryBatchSize)) (sentCursor w2))
      as Hso2 by (rewrite Hs2; by eapply sent_ok_extends).
    assert (drained M2 w2 r w') as Hd.
    { destruct (_ && _); [injection Hx as <- <-|].
      - eapply (drained_stop _ _ [] []); [done|constructor|by rewrite app_nil_r| |by rewrite Hs2|done].
        apply sent_ok_nil. rewrite Hs2. apply Hu.
      - eapply IH; [done| | |done]; rewrite Hs2; done. }
    eapply drained_trans; [exact Hx2|done| |done| |done]; congruence.
  - destruct (access_spec _ _ _ _ _ Hr Hok1) as (M2 & T2 & Hx2 & HR2 & Hall2 & Hw2 & Hs2 & Hci2 & Ht2).
    destruct Ht2 as [[Ht2 _]|(fk & now & a & [=] & _)].
    assert (drained M2 w2 (Err e) w2) as Hd.
    { eapply (drained_stop _ _ [] []); [unfold wok; by rewrite Ht2|constructor|by rewrite app_nil_r| |by rewrite Hs2|done].
      apply sent_ok_nil. rewrite Hs2. apply Hu. }
    eapply drained_trans; [exact Hx2|done| | | |done]; try congruence.
    rewrite Hs2. by eapply sent_ok_extends.
Qed.

(** ** Draining ends *)

Definition total {A} (m : act A) : Prop := ∀ w, is_Some (m w).

Lemma bind_total {A B} (m : act A) (f : A → act B) w :
  is_Some (m w) → (∀ a w', m w = Some (Ok a, w') → is_Some (f a w')) → is_Some (a_bind m f w).
Proof. unfold a_bind. destruct (m w) as [[[a|e] w']|]; [eauto|eauto|by intros [? ?]]. Qed.

Lemma write_total o : total (writeMessage E o).
Proof. intros w. unfold writeMessage. destruct (env_write E _); eauto. Qed.

Lemma access_total {A} f : total (access (A:=A) E f).
Proof.
  intros w. unfold access. destruct (env_admit E _); [eauto|]. destruct (f _ _ _) as [[]|]; eauto.
Qed.

Lemma send_total l : total (send_deliveries E l).
Proof.
  induction l as [|d l IH]; intros w; [by eexists|]. cbn [send_deliveries].
  apply bind_total; [by eexists|]. intros f w1 _. apply bind_total; [apply write_total|].
  intros [] w2 _. apply bind_total; [by eexists|]. intros [] w3 _. apply IH.
Qed.

Lemma control_total {A} (r : result bytes) (a : A) w :
  is_Some ((do f <- a_lift r; do_ writeMessage E (OBinary f); a_ret a)%go w).
Proof.
  apply bind_total; [by eexists|]. intros f w1 _. apply bind_total; [apply write_total|].
  intros [] w2 _. by eexists.
Qed.

(** The next round ends the loop. *)
Definition terminal (b : DeliveryBatch) (c : Z) : Prop :=
  ResetRequired b = true ∨ (Deliveries b = [] ∧ HighWater b ≤ c).

Lemma drain_terminal fuel b w :
  terminal b (sentCursor w) → (0 < fuel)%nat → is_Some (drainBatch E peer fuel b w).
Proof.
  intros Hb Hf. destruct fuel as [|fuel]; [lia|]. cbn [drainBatch].
  destruct Hb as [->|[-> Hle]]; [apply control_total|].
  destruct (ResetRequired b); [apply control_total|]. apply bind_total; [by eexists|].
  intros [] w1 [= <-]. destruct (_ >=? _) eqn:Hge; [apply control_total|]. go_bool. lia.
Qed.

(** Rounds left for a session at [c]. *)
Definition rounds (b : DeliveryBatch) (c : Z) : Z :=
  Z.max 0 (MaxInt64 - c) + 2 + (if decide (Deliveries b = []) then 1 else 0).

Lemma sent_progress M w c0 c b w1 :
  wok M w → 0 ≤ c ≤ c0 → Deliveries b = log_slice (log M) c0 deliveryBatchSize →
  sentCursor w1 = last_id c (Deliveries b) → Deliveries b ≠ [] → c < sentCursor w1 < MaxInt64.
Proof.
  intros [HR _] Hc Hds Hsc Hne. unfold last_id in Hsc. destruct (last (Deliveries b)) as [d|] eqn:El.
  2: { by apply last_None in El. }
  rewrite last_lookup, Hds in El. apply log_slice_lookup in El as [Hid Hlog]; [|lia].
  apply lookup_lt_Some in Hlog. unfold refines in HR. destruct (states (tables w) !! peer) as [s|].
  - destruct HR as (Hq & _). pose proof (q_next _ _ _ Hq). pose proof (q_range _ _ _ Hq). lia.
  - destruct HR as [-> _]. simpl in Hlog. lia.
Qed.

Lemma drain_total fuel M b w :
  wok M w → is_u64 (sentCursor w) → batch_ok M (sentCursor w) b →
  rounds b (sentCursor w) ≤ Z.of_nat fuel → is_Some (drainBatch E peer fuel b w).
Proof.
  revert M b w. induction fuel as [|fuel IH]; intros M b w Hok Hc Hb Hf.
  { unfold rounds in Hf. destruct (decide _); lia. }
  destruct (ResetRequired b) eqn:Hres; [apply drain_terminal; [by left|lia]|].
  cbn [drainBatch]. rewrite Hres. destruct Hb as [Hhw Hb]. destruct (Hb Hres) as (c0 & Hc0 & Hds).
  apply bind_total; [apply send_total|]. intros [] w1 Hs.
  destruct (send_spec _ _ _ _ Hs) as (k & os & _ & _ & Hsc & Ht & _ & Hk).
  rewrite (Hk eq_refl), take_ge in Hsc by lia.
  pose proof (sent_ok_slice M (sentCursor w) c0 deliveryBatchSize (length (Deliveries b))
    (conj (proj1 Hc) (proj1 Hc0)) (proj2 Hc0)) as Hso.
  cbv zeta in Hso. rewrite <-Hds, take_ge in Hso by lia.
  pose proof (wok_cursor _ _ _ _ Hok Hc Hso) as Hu. rewrite <-Hsc in Hu.
  assert (wok M w1) as Hok1 by (unfold wok; rewrite Ht; exact Hok).
  destruct (sentCursor w1 >=? HighWater b); [apply control_total|].
  apply bind_total; [apply access_total|]. intros next w2 Hr.
  destruct (read_spec _ _ _ _ _ Hr Hok1 Hu) as (M2 & Hx2 & Hok2 & Hb2 & _ & Hs2 & _).
  destruct (_ && negb (ResetRequired next)) eqn:Hgap; [by eexists|].
  destruct (decide (terminal next (sentCursor w2))) as [Hterm|Hterm].
  { apply drain_terminal; [done|]. unfold rounds in Hf. destruct (decide _); lia. }
  assert (Deliveries next ≠ []) as Hne.
  { intros Hn. apply Hterm. unfold terminal. destruct (ResetRequired next); [by left|right].
    rewrite Hn in Hgap |- *. simpl in Hgap. rewrite andb_true_r, Hs2 in *. go_bool. done. }
  apply (IH M2); [done|by rewrite Hs2|by rewrite Hs2|]. rewrite Hs2. unfold rounds in Hf |- *.
  destruct (decide (Deliveries next = [])) as [|_]; [done|].
  destruct (decide (Deliveries b = [])) as [Hn|Hn].
  - rewrite Hn in Hsc. unfold last_id in Hsc. simpl in Hsc. lia.
  - destruct (sent_progress _ _ _ _ _ _ Hok (conj (proj1 Hc) (proj1 Hc0)) Hds Hsc Hn). lia.
Qed.

(** ** The session protocol *)

(** What one event of the writer puts on the wire: the cursor before and after
    ([None]: no resume, or a reset since), for a mailbox that evolved from [M] to
    [M'] meanwhile. *)
Inductive segment (M M' : Mailbox) : option Z → wevent → list out → option Z → Prop :=
| seg_ping c : segment M M' c EPing [OPing] c
| seg_heartbeat c : segment M M' c EHeartbeat [OBinary heartbeatResponse] c
| seg_immediate c f : segment M M' c (EImmediate f) [OBinary f] c
| seg_idle : segment M M' None EWake [] None
| seg_caught_up c0 ev c ds os hw f c' :
    ev = EResume c ∨ (ev = EWake ∧ c0 = Some c) →
    sent_ok M' c ds c' → Forall2 delivery_frame ds os →
    EncodeCaughtUp hw = Ok f → log_end M ≤ hw ≤ log_end M' → hw ≤ c' →
    segment M M' c0 ev (os ++ [OBinary f]) (Some c')
| seg_reset c0 ev c ds os hw f c' :
    ev = EResume c ∨ (ev = EWake ∧ c0 = Some c) →
    sent_ok M' c ds c' → Forall2 delivery_frame ds os →
    EncodeResetRequired hw = Ok f → log_end M ≤ hw ≤ log_end M' →
    segment M M' c0 ev (os ++ [OBinary f]) None.

(** The output of an event that ended the session. *)
Inductive cut_short (M' : Mailbox) : option Z → wevent → list out → Prop :=
| cut_nothing c ev : cut_short M' c ev []
| cut_revoked c : cut_short M' c EDisconnected [OClose ClosePolicyViolation (bs "authorization revoked")]
| cut_superseded c : cut_short M' c ESuperseded [OClose CloseNormalClosure (bs "superseded connection")]
| cut_deliveries c0 ev c ds os c' :
    ev = EResume c ∨ (ev = EWake ∧ c0 = Some c) →
    sent_ok M' c ds c' → Forall2 delivery_frame ds os → cut_short M' c0 ev os.

Definition cursor_of (w : writer) : option Z :=
  if cursorInitialized w then Some (sentCursor w) else None.
Definition cursor_typed (c : option Z) : Prop := match c with Some c => is_u64 c | None => True end.
Definition wevent_typed (ev : wevent) : Prop :=
  match ev with EResume c => is_u64 c | _ => True end.

Definition step_result (M : Mailbox) (w : writer) (ev : wevent) (r : result unit) (w' : writer) : Prop :=
  ∃ M' outs, extends M M' ∧ wok M' w' ∧ written w' = written w ++ outs ∧ cursor_typed (cursor_of w') ∧
    match r with
    | Ok _ => segment M M' (cursor_of w) ev outs (cursor_of w')
    | Err _ => cut_short M' (cursor_of w) ev outs
    end.


Lemma write_result M w o r w' :
  wok M w → cursor_typed (cursor_of w) → writeMessage E o w = Some (r, w') →
  wok M w' ∧ cursor_of w' = cursor_of w ∧
  ((is_ok r = true ∧ written w' = written w ++ [o]) ∨ (is_ok r = false ∧ w' = w)).
Proof.
  intros Hok Hc. unfold writeMessage. destruct (env_write E _); intros [= <- <-]; auto.
Qed.

(** What follows the batch: drain, then drop the cursor after a reset. *)
Lemma drain_segment fuel M M1 w0 w ev c b r w' :
  extends M M1 → wok M1 w → is_u64 (sentCursor w) → batch_ok M1 (sentCursor w) b →
  written w = written w0 → cursorInitialized w = true → sentCursor w = c →
  ev = EResume c ∨ (ev = EWake ∧ cursor_of w0 = Some c) →
  (do resetSent <- drainBatch E peer fuel b; finish_drain resetSent)%go w = Some (r, w') →
  step_result M w0 ev r w'.
Proof.
  intros Hx Hok Hu Hb Hw Hci <- Hev Hd.
  apply a_bind_Some in Hd as [(reset & w1 & Hd & Hf)|(e & w1 & Hd & [= -> ->])];
    apply (drain_spec _ _ _ _ _ _ Hok Hu Hb) in Hd
      as (M' & ds & os & tail & Hx' & Hok' & Hfr & Hw' & Hs & Hu' & Hci' & Ht).
  - pose proof (extends_end _ _ Hx). assert (cursorInitialized w1 = true) as Hi by congruence.
    destruct reset; simpl in Hf; injection Hf as <- <-; destruct Ht as (hw & f & He & -> & Hhw);
      exists M', (os ++ [OBinary f]); (split; [by etrans|]); (split; [done|]);
      (split; [simpl; congruence|]); unfold cursor_of at 1 3; simpl; rewrite ?Hi; (split; [done|]).
    + eapply seg_reset; try done. lia.
    + eapply seg_caught_up; try done; lia.
  - subst tail. exists M', os. rewrite app_nil_r in Hw'. unfold cursor_of at 1.
    rewrite Hci', Hci. split_and!; [by etrans|done|congruence|done|]. by eapply cut_deliveries.
Qed.

Lemma step_segment fuel M w ev r w' :
  wok M w → cursor_typed (cursor_of w) → wevent_typed ev →
  writer_step E peer fuel ev w = Some (r, w') → step_result M w ev r w'.
Proof.
  intros Hok Hc Hev Hx.
  assert (∀ o, writeMessage E o w = Some (r, w') → segment M M (cursor_of w) ev [o] (cursor_of w) →
    step_result M w ev r w') as Hwrite.
  { intros o Hw Hseg. destruct (write_result _ _ _ _ _ Hok Hc Hw) as (Hok' & Hcw & [[Hr Hwr]|[Hr ->]]).
    - exists M, [o]. rewrite Hcw. destruct r; [|done]. by split_and!.
    - exists M, []. destruct r; [done|]. rewrite app_nil_r. split_and!; try done. constructor. }
  assert (∀ e code reason, (do_ a_close E code reason; a_lift (Err e))%go w = Some (r, w') →
    cut_short M (cursor_of w) ev [OClose code reason] → step_result M w ev r w') as Hclose.
  { intros e code reason Hcl Hcut. unfold a_bind, a_close in Hcl.
    destruct (env_write E _); injection Hcl as <- <-.
    - exists M, []. rewrite app_nil_r. split_and!; try done. constructor.
    - exists M, [OClose code reason]. by split_and!. }
  destruct ev; cbn [writer_step] in Hx.
  - injection Hx as <- <-. exists M, []. rewrite app_nil_r. split_and!; try done. constructor.
  - eapply Hclose; [done|]. constructor.
  - eapply Hclose; [done|]. constructor.
  - eapply Hwrite; [done|]. constructor.
  - eapply Hwrite; [done|]. constructor.
  - eapply Hwrite; [done|]. constructor.
  - apply a_bind_Some in Hx as [(b & w1 & Hr & Hx)|(e & w1 & Hr & [= -> ->])].
    + destruct (resume_spec _ _ _ _ _ Hr Hok Hev) as (M1 & Hx1 & Hok1 & Hb & Hw1 & Hs1 & Hci1).
      cbn [a_bind a_mod] in Hx. by eapply (drain_segment fuel M M1 w (set_cursor cursor (set_initialized true w1))
        _ cursor b); try done; left.
    + destruct (access_spec _ _ _ _ _ Hr Hok) as (M1 & T1 & Hx1 & HR1 & Hall1 & Hw1 & Hs1 & Hci1 & Ht).
      destruct Ht as [[Ht _]|(fk & now & a & [=] & _)]. exists M1, []. unfold wok, cursor_of.
      rewrite app_nil_r, Hci1, Hs1, Ht. split_and!; try done. constructor.
  - destruct (cursorInitialized w) eqn:Hci; simpl in Hx.
    + assert (cursor_of w = Some (sentCursor w)) as Hcw by (unfold cursor_of; by rewrite Hci).
      rewrite Hcw in Hc. apply a_bind_Some in Hx as [(b & w1 & Hr & Hx)|(e & w1 & Hr & [= -> ->])].
      * destruct (read_spec _ _ _ _ _ Hr Hok Hc) as (M1 & Hx1 & Hok1 & Hb & Hw1 & Hs1 & Hci1).
        eapply (drain_segment fuel M M1 w w1 _ (sentCursor w) b); rewrite ?Hs1; try done; [congruence|].
        right. done.
      * destruct (access_spec _ _ _ _ _ Hr Hok) as (M1 & T1 & Hx1 & HR1 & Hall1 & Hw1 & Hs1 & Hci1 & Ht).
        destruct Ht as [[Ht _]|(fk & now & a & [=] & _)]. exists M1, []. unfold wok, cursor_of.
        rewrite app_nil_r, Hci1, Hs1, Ht, Hci. split_and!; try done. constructor.
    + injection Hx as <- <-. exists M, []. rewrite app_nil_r. split_and!; try done.
      unfold cursor_of. rewrite Hci. constructor.
Qed.

(** The writer's run: complete segments, then possibly one cut short. *)
Inductive session_run : Mailbox → option Z → list wevent → list out → result unit → Mailbox → Prop :=
| run_idle M c : session_run M c [] [] (Ok tt) M
| run_cut M M' c ev evs outs e :
    extends M M' → cut_short M' c ev outs → session_run M c (ev :: evs) outs (Err e) M'
| run_step M M1 c ev c1 evs outs1 outs r M' :
    extends M M1 → segment M M1 c ev outs1 c1 → session_run M1 c1 evs outs r M' →
    session_run M c (ev :: evs) (outs1 ++ outs) r M'.

Lemma loop_run fuel M w evs r w' :
  wok M w → cursor_typed (cursor_of w) → Forall wevent_typed evs →
  writer_loop E peer fuel evs w = Some (r, w') →
  ∃ M' outs, written w' = written w ++ outs ∧ wok M' w' ∧ session_run M (cursor_of w) evs outs r M'.
Proof.
  intros Hok Hc Hevs. revert M w Hok Hc. induction Hevs as [|ev evs Hev _ IH]; intros M w Hok Hc.
  - intros [= <- <-]. exists M, []. rewrite app_nil_r. split_and!; try done. constructor.
  - cbn [writer_loop]. intros Hx.
    apply a_bind_Some in Hx as [([] & w1 & Hs & Hx)|(e & w1 & Hs & [= -> ->])];
      apply (step_segment _ _ _ _ _ _ Hok Hc Hev) in Hs as (M1 & o1 & Hx1 & Hok1 & Hw1 & Hc1 & Hseg).
    + destruct (IH M1 w1 Hok1 Hc1 Hx) as (M' & outs & Hw & Hok' & Hrun).
      exists M', (o1 ++ outs). split_and!; [rewrite Hw, Hw1; by rewrite <-app_assoc|done|].
      by eapply run_step.
    + exists M1, o1. split_and!; try done. by constructor.
Qed.

Lemma step_total fuel M w ev :
  wok M w → cursor_typed (cursor_of w) → wevent_typed ev → MaxInt64 + 3 ≤ Z.of_nat fuel →
  is_Some (writer_step E peer fuel ev w).
Proof.
  intros Hok Hc Hev Hf.
  assert (∀ b c, 0 ≤ c → rounds b c ≤ Z.of_nat fuel) as Hrounds.
  { intros b c Hpos. unfold rounds. destruct (decide _); unfold MaxInt64 in *; lia. }
  assert (∀ b M1 w1, wok M1 w1 → is_u64 (sentCursor w1) → batch_ok M1 (sentCursor w1) b →
    is_Some ((do resetSent <- drainBatch E peer fuel b; finish_drain resetSent)%go w1)) as Hdrain.
  { intros b M1 w1 Hok1 Hu Hb. apply bind_total; [|intros []; by eexists].
    eapply drain_total; [done..|]. apply Hrounds, Hu. }
  destruct ev; cbn [writer_step]; try (by eexists); try apply write_total.
  - unfold a_bind, a_close. destruct (env_write E _); by eexists.
  - unfold a_bind, a_close. destruct (env_write E _); by eexists.
  - apply bind_total; [apply access_total|]. intros b w1 Hr.
    destruct (resume_spec _ _ _ _ _ Hr Hok Hev) as (M1 & _ & Hok1 & Hb & _ & _ & _).
    cbn [a_bind a_mod]. by eapply (Hdrain b M1 (set_cursor cursor (set_initialized true w1))).
  - destruct (cursorInitialized w) eqn:Hci; simpl; [|by eexists].
    unfold cursor_of in Hc. rewrite Hci in Hc. apply bind_total; [apply access_total|]. intros b w1 Hr.
    destruct (read_spec _ _ _ _ _ Hr Hok Hc) as (M1 & _ & Hok1 & Hb & _ & Hs1 & _).
    apply (Hdrain b M1 w1); by rewrite ?Hs1.
Qed.

Lemma loop_total fuel M w evs :
  wok M w → cursor_typed (cursor_of w) → Forall wevent_typed evs → MaxInt64 + 3 ≤ Z.of_nat fuel →
  is_Some (writer_loop E peer fuel evs w).
Proof.
  intros Hok Hc Hevs Hf. revert M w Hok Hc. induction Hevs as [|ev evs Hev _ IH]; intros M w Hok Hc;
    [by eexists|]. cbn [writer_loop]. apply bind_total; [by eapply step_total|]. intros [] w1 Hs.
  apply (step_segment _ _ _ _ _ _ Hok Hc Hev) in Hs as (M1 & o1 & _ & Hok1 & _ & Hc1 & _). eauto.
Qed.
End Stream.

(** A session of [peer] on the tables that the calls so far produced. *)
Definition new_writer (calls : list call) : writer := mkWriter (run calls).1 0 [] false 0.

Lemma new_writer_ok peer calls :
  Forall (λ c, event_typed c.2.2) calls →
  ∃ M, wok peer M (new_writer calls) ∧ cursor_typed (cursor_of (new_writer calls)).
Proof.
  intros Ht. destruct (run_calls_ok peer calls empty_mailbox empty_tables [] Ht) as (M & _ & HR & Hall).
  - intros q. exists empty_mailbox. apply refines_empty.
  - apply refines_empty.
  - by exists M.
Qed.

(** ** Properties *)

(** C4: the session protocol. For every history of the delivery tables, every
    interference of other sessions and of the device's own reader, and every
    failure of the socket or of admission: the first frame is the authentication
    acknowledgement; then each event puts its segment on the wire. After a resume
    at a cursor (or a wake-up) the deliveries written are the logged envelopes
    after the cursor in increasing order, each once, skipping only what the device
    has acknowledged, and "caught up" is written only when everything logged
    before the event has been delivered or acknowledged; an event that fails has
    written an in-order prefix. *)
Theorem session_follows_protocol E peer fuel calls evs r w' :
  (∀ n, Forall (λ c, event_typed c.2.2) (env_calls E n)) →
  Forall (λ c, event_typed c.2.2) calls → Forall wevent_typed evs →
  serve_writer E peer fuel evs (new_writer calls) = Some (r, w') →
  ∃ M, refines M peer (run calls).1 ∧
    ((written w' = [] ∧ is_ok r = false) ∨
     ∃ M' outs, written w' = OBinary authenticationSuccessAck :: outs ∧
       refines M' peer (tables w') ∧ session_run M None evs outs r M').
Proof.
  intros HE Ht Hevs Hx. destruct (new_writer_ok peer calls Ht) as (M & Hok & Hc).
  exists M. split; [apply Hok|].
  apply a_bind_Some in Hx as [([] & w1 & Hw & Hx)|(e & w1 & Hw & [= -> ->])];
    unfold writeMessage in Hw; destruct (env_write E _); try done; injection Hw; intros; subst.
  - right. destruct (loop_run E peer HE fuel M (add_out (OBinary authenticationSuccessAck) (new_writer calls))
      evs r w' Hok Hc Hevs Hx) as (M' & outs & Hw' & Hok' & Hrun).
    exists M', outs. split_and!; [done|apply Hok'|done].
  - by left.
Qed.

(** C15: a session's work on any finite sequence of events ends, whatever is
    appended meanwhile: with fuel for as many rounds as there are delivery IDs
    the writer always returns. *)
Theorem session_terminates E peer calls evs :
  (∀ n, Forall (λ c, event_typed c.2.2) (env_calls E n)) →
  Forall (λ c, event_typed c.2.2) calls → Forall wevent_typed evs →
  ∀ fuel, MaxInt64 + 3 ≤ Z.of_nat fuel → is_Some (serve_writer E peer fuel evs (new_writer calls)).
Proof.
  intros HE Ht Hevs fuel Hf. destruct (new_writer_ok peer calls Ht) as (M & Hok & Hc).
  apply bind_total; [apply write_total|]. intros [] w1 Hw. unfold writeMessage in Hw.
  destruct (env_write E _); [done|]. injection Hw as <-. by eapply loop_total.
Qed.

(** ** A concrete session *)

(** Two deliveries are queued; the client resumes at 0, and a third is appended
    before the session's next access; then a ping and a wake-up. *)
Definition quiet_environment : environment :=
  mkEnvironment
    (λ n, if (n =? 1)%nat
          then [(all_devices, (peerA, EvAppend sample_envelope (90 * Second) (3 * Second)))] else [])
    (λ _, all_devices) (λ n, (4 + Z.of_nat n) * Second) (λ _, None) (λ _, None).
Definition session_calls : list call :=
  [ (all_devices, (peerA, EvAppend sample_envelope (90 * Second) (1 * Second)));
    (all_devices, (peerA, EvAppend sample_envelope (90 * Second) (2 * Second))) ].
Definition session_events : list wevent := [EResume 0; EPing; EWake].

Definition wire_ids (outs : list out) : list Z :=
  omap (λ o, match o with
             | OBinary f => if beq (slice 0 4 f) deliveryMagic then Some (be_get (slice 4 12 f)) else None
             | _ => None
             end) outs.

Definition no_writer : result unit * writer := (Ok tt, mkWriter empty_tables 0 [] false 0).
Definition session_run1 : option (result unit * writer) :=
  serve_writer quiet_environment peerA 10 session_events (new_writer session_calls).

Lemma quiet_typed n : Forall (λ c, event_typed c.2.2) (env_calls quiet_environment n).
Proof. simpl. destruct (n =? 1)%nat; repeat constructor. Qed.

Lemma session_events_typed : Forall wevent_typed session_events.
Proof. repeat constructor; simpl; unfold is_u64; lia. Qed.

Lemma session_follows_protocol_witness :
  wire_ids (written (default no_writer session_run1).2) = [1; 2; 3] ∧
  ∃ M' outs, written (default no_writer session_run1).2 = OBinary authenticationSuccessAck :: outs ∧
    ∃ M, session_run M None session_events outs (default no_writer session_run1).1 M'.
Proof.
  split; [vm_compute; reflexivity|].
  assert (bool_decide (is_Some session_run1) = true) as Hs by (vm_compute; reflexivity).
  assert (is_ok (default no_writer session_run1).1 = true) as Hok by (vm_compute; reflexivity).
  apply bool_decide_eq_true in Hs as [[r w'] Hs].
  rewrite Hs in Hok |- *. change (is_ok r = true) in Hok. cbn [default from_option id fst snd].
  destruct (session_follows_protocol quiet_environment peerA 10 session_calls session_events r w'
    quiet_typed ltac:(repeat constructor) session_events_typed Hs)
    as (M & _ & [[_ Hr]|(M' & outs & Hw & _ & Hrun)]); [by rewrite Hr in Hok|].
  exists M', outs. split; [exact Hw|]. exists M. exact Hrun.
Defined.

Lemma session_terminates_witness :
  ∃ fuel, MaxInt64 + 3 ≤ Z.of_nat fuel ∧
  is_Some (serve_writer quiet_environment peerA fuel session_events (new_writer session_calls)).
Proof.
  assert (∃ fuel, MaxInt64 + 3 = Z.of_nat fuel) as [fuel Hf].
  { apply Z_of_nat_complete. unfold MaxInt64. lia. }
  exists fuel. split; [lia|].
  apply session_terminates; [exact quiet_typed|repeat constructor|exact session_events_typed|lia].
Defined.
