(* ===== verification/RelayConnection.v ===== *)
(** One relay connection as a whole ([ServeAuthenticatedConnection] of
    internal/relay/websocket.go, with what its caller does around it): the reader,
    which is the calling goroutine, the writer it starts, the channels between
    them, the session's context, the socket, and the instance in the hub.

    A rule is one step of a goroutine that others can observe: a channel
    operation, an admission or the end of an admitted operation, a socket call, a
    deferred call. What an event makes the writer send is in [Session]; here an
    event is a number of admitted operations, each of which may fail. *)

From S2P Require Import Prelude GoStd RoutingHeader EnvelopeFrame RelayDelivery DeliveryStore Hub Session Schema.

#[local] Open Scope Z_scope.

Inductive socket : Type := SocketOpen | SocketFailed | SocketClosed.
#[export] Instance socket_eq_dec : EqDecision socket.
Proof. solve_decision. Defined.

(** Where the reader is: the start, the loop, and the deferred calls. *)
Inductive reader : Type :=
| RStart
| RRegister
| RAcknowledge
| RWriteAcknowledgement
| RLoop
| RRead
| RActivity (m : incoming)
| RRecording (m : incoming)
| RDispatch (m : incoming)
| ROperating
| RReturning (e : error)
| RUnregister (e : error)
| RDraining (e : error)
| RReleasing (e : error)
| RCancel (e : error)
| RReturned (e : error)
| RClosed (e : error).

(** Where the writer is; [WHandling ev n] has [n] operations of the event left. *)
Inductive writing : Type :=
| WIdle
| WSelect
| WHandling (ev : wevent) (n : nat)
| WOperating (ev : wevent) (n : nat)
| WClosing (code : Z) (reason : bytes) (e : error)
| WReport (e : error)
| WCancel
| WHangUp
| WStopped.

(** [c_external] is the first retirement that was not the connection's own
    cleanup, and [c_closes] the close frames that were written: both are history. *)
Record connection : Type := mkConnection {
  c_reader : reader;
  c_writer : writing;
  c_inbox : list (messageType * bytes);
  c_socket : socket;
  c_done : bool;
  c_slot : bool;
  c_session : deviceSession;
  c_errors : option error;
  c_heartbeats : bool;
  c_resumes : option Z;
  c_ping : bool;
  c_external : option sessionRetirement;
  c_closes : list (Z * bytes)
}.

Ltac update_connection proj := derive_update (λ c, mkConnection (c_reader c) (c_writer c) (c_inbox c) (c_socket c) (c_done c)
  (c_slot c) (c_session c) (c_errors c) (c_heartbeats c) (c_resumes c) (c_ping c) (c_external c) (c_closes c)) proj.
#[export] Instance upd_reader : Update c_reader := ltac:(update_connection c_reader).
#[export] Instance upd_writer : Update c_writer := ltac:(update_connection c_writer).
#[export] Instance upd_inbox : Update c_inbox := ltac:(update_connection c_inbox).
#[export] Instance upd_socket : Update c_socket := ltac:(update_connection c_socket).
#[export] Instance upd_done : Update c_done := ltac:(update_connection c_done).
#[export] Instance upd_slot : Update c_slot := ltac:(update_connection c_slot).
#[export] Instance upd_session : Update c_session := ltac:(update_connection c_session).
#[export] Instance upd_errors : Update c_errors := ltac:(update_connection c_errors).
#[export] Instance upd_heartbeats : Update c_heartbeats := ltac:(update_connection c_heartbeats).
#[export] Instance upd_resumes : Update c_resumes := ltac:(update_connection c_resumes).
#[export] Instance upd_ping : Update c_ping := ltac:(update_connection c_ping).
#[export] Instance upd_external : Update c_external := ltac:(update_connection c_external).
#[export] Instance upd_closes : Update c_closes := ltac:(update_connection c_closes).

Definition on_session (f : deviceSession → deviceSession) (c : connection) : connection :=
  c <| c_session := f (c_session c) |>.

(** The queues of the session that the writer consumes. *)
Definition take_immediate (s : deviceSession) : deviceSession :=
  mkSession (session_peer s) (credentialVersion s) (queue_size s) (tail (immediate s))
    (durableWake s) (retired s) (released s) (inflight s).
Definition take_wake (s : deviceSession) : deviceSession :=
  mkSession (session_peer s) (credentialVersion s) (queue_size s) (immediate s)
    false (retired s) (released s) (inflight s).

(** [beginOperation] and [finish] of [hub], for this instance. *)
Definition begin_error (c : connection) : option error :=
  match retired (c_session c) with
  | Some _ => Some ErrSessionOffline
  | None => if c_done c then Some ErrCanceled else if c_slot c then None else Some ErrSessionOffline
  end.
Definition enter (c : connection) : connection :=
  on_session (λ s, set_inflight (S (inflight s)) s) c.
Definition finish (c : connection) : connection :=
  on_session (λ s, set_inflight (pred (inflight s)) s) c.

(** Errors that do not come from this file: those of the socket, the store and
    the codecs. *)
Definition ordinary (e : error) : Prop := e ≠ ErrDeviceDisconnected ∧ e ≠ ErrSessionSuperseded.

(** [WriteControl] of a close frame: its error is ignored. *)
Definition write_close (code : Z) (reason : bytes) (c : connection) : connection :=
  match c_socket c with
  | SocketOpen => c <| c_closes := c_closes c ++ [(code, reason)] |>
  | _ => c
  end.

Section Connection.
(** Whether the handler has an activity recorder. *)
Context (recorder : bool).

Definition after_read (m : incoming) : reader := if recorder then RActivity m else RDispatch m.

(** ** The reader *)

Inductive rstep : connection → connection → Prop :=
| R_deadline_fails c e : c_reader c = RStart → c_socket c ≠ SocketOpen → ordinary e →
    rstep c (c <| c_reader := RCancel e |>)
| R_start c : c_reader c = RStart → rstep c (c <| c_reader := RRegister |>)
| R_not_registered c e : c_reader c = RRegister → ordinary e → rstep c (c <| c_reader := RCancel e |>)
| R_registered c : c_reader c = RRegister →
    rstep c (c <| c_reader := RAcknowledge |> <| c_slot := true |>)
(* the authentication acknowledgement *)
| R_ack_refused c e : c_reader c = RAcknowledge → begin_error c = Some e →
    rstep c (c <| c_reader := RReturning e |>)
| R_ack_begin c : c_reader c = RAcknowledge → begin_error c = None →
    rstep c (enter c <| c_reader := RWriteAcknowledgement |>)
| R_ack_aborted c : c_reader c = RWriteAcknowledgement → retired (c_session c) ≠ None ∨ c_done c = true →
    c_socket c ≠ SocketClosed → rstep c (c <| c_socket := SocketClosed |>)
| R_ack_fails c e : c_reader c = RWriteAcknowledgement → ordinary e →
    rstep c (finish c <| c_reader := RReturning e |>)
| R_ack_written c : c_reader c = RWriteAcknowledgement → c_socket c = SocketOpen →
    rstep c (finish c <| c_reader := RLoop |> <| c_writer := WSelect |>)
(* the loop *)
| R_writer_failed c e : c_reader c = RLoop → c_errors c = Some e →
    rstep c (c <| c_reader := RReturning e |> <| c_errors := None |>)
| R_continue c : c_reader c = RLoop → c_errors c = None → rstep c (c <| c_reader := RRead |>)
| R_read_fails c e : c_reader c = RRead → c_socket c ≠ SocketOpen → ordinary e →
    rstep c (c <| c_reader := RReturning e |>)
| R_read c kind encoded rest m : c_reader c = RRead → c_socket c = SocketOpen →
    c_inbox c = (kind, encoded) :: rest → readBoundedClientMessage kind encoded = Ok m →
    rstep c (c <| c_reader := after_read m |> <| c_inbox := rest |>)
| R_read_rejected c kind encoded rest e : c_reader c = RRead → c_socket c = SocketOpen →
    c_inbox c = (kind, encoded) :: rest → readBoundedClientMessage kind encoded = Err e →
    rstep c (c <| c_reader := RReturning e |> <| c_inbox := rest |>)
| R_activity_refused c m e : c_reader c = RActivity m → begin_error c = Some e →
    rstep c (c <| c_reader := RReturning e |>)
| R_activity_begin c m : c_reader c = RActivity m → begin_error c = None →
    rstep c (enter c <| c_reader := RRecording m |>)
| R_activity_recorded c m : c_reader c = RRecording m → rstep c (finish c <| c_reader := RDispatch m |>)
| R_heartbeat c : c_reader c = RDispatch Heartbeat → c_heartbeats c = false →
    rstep c (c <| c_reader := RLoop |> <| c_heartbeats := true |>)
| R_heartbeat_done c : c_reader c = RDispatch Heartbeat → c_done c = true →
    rstep c (c <| c_reader := RReturning ErrCanceled |>)
| R_resume c m now cursor : c_reader c = RDispatch (Message m) → dispatch_message now m = ToWriter cursor →
    c_resumes c = None → rstep c (c <| c_reader := RLoop |> <| c_resumes := Some cursor |>)
| R_resume_done c m now cursor : c_reader c = RDispatch (Message m) →
    dispatch_message now m = ToWriter cursor → c_done c = true →
    rstep c (c <| c_reader := RReturning ErrCanceled |>)
| R_request_invalid c m now req e : c_reader c = RDispatch (Message m) →
    dispatch_message now m = ToHub req → precheck (session_peer (c_session c)) req = Err e →
    rstep c (c <| c_reader := RReturning e |>)
| R_request_refused c m now req e : c_reader c = RDispatch (Message m) →
    dispatch_message now m = ToHub req → precheck (session_peer (c_session c)) req = Ok tt →
    begin_error c = Some e → rstep c (c <| c_reader := RReturning e |>)
| R_request c m now req : c_reader c = RDispatch (Message m) →
    dispatch_message now m = ToHub req → precheck (session_peer (c_session c)) req = Ok tt →
    begin_error c = None → rstep c (enter c <| c_reader := ROperating |>)
| R_request_served c : c_reader c = ROperating → rstep c (finish c <| c_reader := RLoop |>)
| R_request_fails c e : c_reader c = ROperating → ordinary e →
    rstep c (finish c <| c_reader := RReturning e |>)
(* the deferred calls, last in first out *)
| R_cause c e e' : c_reader c = RReturning e → sessionEndCause (c_session c) (Some e) = Some e' →
    rstep c (c <| c_reader := RUnregister e' |>)
| R_unregister c e : c_reader c = RUnregister e → c_slot c = true →
    rstep c (on_session (retire retirementRevoked) c <| c_reader := RDraining e |>)
| R_unregistered c e : c_reader c = RUnregister e → c_slot c = false →
    rstep c (c <| c_reader := RCancel e |>)
| R_drained c e : c_reader c = RDraining e → inflight (c_session c) = 0%nat →
    rstep c (c <| c_reader := RReleasing e |> <| c_slot := false |>)
| R_release c e : c_reader c = RReleasing e →
    rstep c (on_session markReleased c <| c_reader := RCancel e |>)
| R_cancel c e : c_reader c = RCancel e → rstep c (c <| c_reader := RReturned e |> <| c_done := true |>)
(* the handler's deferred [connection.Close] *)
| R_close c e : c_reader c = RReturned e →
    rstep c (c <| c_reader := RClosed e |> <| c_socket := SocketClosed |>).

(** ** The writer *)

(** The cases of the [select] that handle an event: what is ready, and what taking
    it leaves. *)
Inductive selectable : connection → wevent → connection → Prop :=
| ready_ping c : c_ping c = true → selectable c EPing (c <| c_ping := false |>)
| ready_heartbeat c : c_heartbeats c = true → selectable c EHeartbeat (c <| c_heartbeats := false |>)
| ready_immediate c frame rest : immediate (c_session c) = frame :: rest →
    selectable c (EImmediate frame) (on_session take_immediate c)
| ready_resume c cursor : c_resumes c = Some cursor → selectable c (EResume cursor) (c <| c_resumes := None |>)
| ready_wake c : durableWake (c_session c) = true → selectable c EWake (on_session take_wake c).

Inductive wstep : connection → connection → Prop :=
| W_context c : c_writer c = WSelect → c_done c = true → wstep c (c <| c_writer := WReport ErrCanceled |>)
| W_disconnected c : c_writer c = WSelect → retired (c_session c) = Some retirementRevoked →
    wstep c (c <| c_writer := WClosing ClosePolicyViolation (bs "authorization revoked") ErrDeviceDisconnected |>)
| W_superseded c : c_writer c = WSelect → retired (c_session c) = Some retirementSuperseded →
    wstep c (c <| c_writer := WClosing CloseNormalClosure (bs "superseded connection") ErrSessionSuperseded |>)
| W_event c ev c' n : c_writer c = WSelect → selectable c ev c' → wstep c (c' <| c_writer := WHandling ev n |>)
| W_handled c ev : c_writer c = WHandling ev 0 → wstep c (c <| c_writer := WSelect |>)
| W_fails c ev n e : c_writer c = WHandling ev n → ordinary e → wstep c (c <| c_writer := WReport e |>)
| W_refused c ev n e : c_writer c = WHandling ev (S n) → begin_error c = Some e →
    wstep c (c <| c_writer := WReport e |>)
| W_begin c ev n : c_writer c = WHandling ev (S n) → begin_error c = None →
    wstep c (enter c <| c_writer := WOperating ev n |>)
| W_aborted c ev n : c_writer c = WOperating ev n → retired (c_session c) ≠ None ∨ c_done c = true →
    c_socket c ≠ SocketClosed → wstep c (c <| c_socket := SocketClosed |>)
| W_end c ev n : c_writer c = WOperating ev n → wstep c (finish c <| c_writer := WHandling ev n |>)
| W_operation_fails c ev n e : c_writer c = WOperating ev n → ordinary e →
    wstep c (finish c <| c_writer := WReport e |>)
| W_close c code reason e : c_writer c = WClosing code reason e →
    wstep c (write_close code reason c <| c_writer := WReport e |>)
(* [reportWriterError]: the error, if there is room, then the context and the socket *)
| W_report c e : c_writer c = WReport e →
    wstep c (c <| c_writer := WCancel |> <| c_errors := Some (default e (c_errors c)) |>)
| W_cancel c : c_writer c = WCancel → wstep c (c <| c_writer := WHangUp |> <| c_done := true |>)
| W_hang_up c : c_writer c = WHangUp →
    wstep c (c <| c_writer := WStopped |> <| c_socket := SocketClosed |>).

Definition istep (c c' : connection) : Prop := rstep c c' ∨ wstep c c'.

(** ** The environment: the peer, the ticker, the hub and the server *)

Inductive estep : connection → connection → Prop :=
| E_message c m : c_socket c = SocketOpen → estep c (c <| c_inbox := c_inbox c ++ [m] |>)
| E_failure c : c_socket c = SocketOpen → estep c (c <| c_socket := SocketFailed |>)
| E_tick c : estep c (c <| c_ping := true |>)
| E_immediate c frame : c_slot c = true → retired (c_session c) = None →
    (length (immediate (c_session c)) < queue_size (c_session c))%nat →
    estep c (on_session (push_immediate frame) c)
| E_wake c : c_slot c = true → retired (c_session c) = None → estep c (on_session wake c)
| E_retire c reason : c_slot c = true →
    estep c (on_session (retire reason) c
             <| c_external := match retired (c_session c) with
                              | None => Some reason
                              | Some _ => c_external c
                              end |>)
| E_released c : c_slot c = true → retired (c_session c) ≠ None → inflight (c_session c) = 0%nat →
    estep c (c <| c_slot := false |>)
| E_signal c : c_slot c = false → retired (c_session c) ≠ None → estep c (on_session markReleased c)
| E_server_done c : estep c (c <| c_done := true |>).

Definition cstep (c c' : connection) : Prop := istep c c' ∨ estep c c'.

Definition new_connection (peer : PeerIdentity) (version : Z) (inbox : list (messageType * bytes)) : connection :=
  mkConnection RStart WIdle inbox SocketOpen false false (newDeviceSession peer version 16)
    None false None false None [].

Definition served (c : connection) : Prop := ∃ peer version inbox, rtc cstep (new_connection peer version inbox) c.
End Connection.

(** ** Coming to rest

    A measure of the steps the goroutines have left, in two parts: the number of
    operations of an event is not known before it is handled. *)
Definition reader_rank (r : reader) : nat :=
  match r with
  | RStart => 41 | RRegister => 40 | RAcknowledge => 31 | RWriteAcknowledgement => 30
  | RActivity _ => 15 | RRecording _ => 14 | RDispatch _ => 13 | ROperating => 12 | RLoop => 11 | RRead => 10
  | RReturning _ => 8 | RUnregister _ => 7 | RDraining _ => 6 | RReleasing _ => 5 | RCancel _ => 4
  | RReturned _ => 3 | RClosed _ => 2
  end.
Definition writer_rank (w : writing) : nat :=
  match w with
  | WIdle => 10 | WSelect | WHandling _ _ | WOperating _ _ => 9
  | WClosing _ _ _ => 8 | WReport _ => 7 | WCancel => 6 | WHangUp => 5 | WStopped => 0
  end.
Definition bit (b : bool) : nat := if b then 1 else 0.
Definition pending (c : connection) : nat :=
  bit (c_ping c) + bit (c_heartbeats c) + bit (bool_decide (is_Some (c_resumes c))) +
  bit (durableWake (c_session c)) + length (immediate (c_session c)).
Definition outer (c : connection) : nat :=
  reader_rank (c_reader c) + writer_rank (c_writer c) + pending c + 10 * length (c_inbox c) +
  match c_socket c with SocketClosed => 0 | _ => 1 end.
Definition inner (c : connection) : nat :=
  match c_writer c with WHandling _ n => 2 * n + 1 | WOperating _ n => 2 * n + 2 | _ => 0 end.

Definition smaller (c' c : connection) : Prop :=
  (outer c' < outer c)%nat ∨ (outer c' = outer c ∧ inner c' < inner c)%nat.

Lemma smaller_wf : well_founded smaller.
Proof.
  intros c. remember (outer c) as a eqn:Ha. remember (inner c) as b eqn:Hb.
  revert b c Ha Hb. induction (lt_wf a) as [a _ IHa]. intros b. induction (lt_wf b) as [b _ IHb].
  intros c -> ->. constructor. intros c' [Hlt|[He Hlt]]; [by eapply IHa|]. by eapply IHb.
Qed.

Section Rest.
Context (recorder : bool).

Ltac unfold_step :=
  unfold smaller, outer, inner, pending, on_session, enter, finish, write_close, after_read in *.

Lemma retire_pending reason s : immediate (retire reason s) = immediate s ∧ durableWake (retire reason s) = durableWake s.
Proof. unfold retire. by destruct (retired s). Qed.

(** Decide that a step made the measure smaller. *)
Ltac step_smaller :=
  unfold_step; cbn;
  repeat match goal with
  | H : c_reader _ = _ |- _ => rewrite H; clear H
  | H : c_writer _ = _ |- _ => rewrite H; clear H
  | H : c_inbox _ = _ |- _ => rewrite H; clear H
  | H : c_heartbeats _ = _ |- _ => rewrite H; clear H
  | H : c_ping _ = _ |- _ => rewrite H; clear H
  | H : c_resumes _ = _ |- _ => rewrite H; clear H
  | H : durableWake _ = _ |- _ => rewrite H; clear H
  | H : immediate _ = _ |- _ => rewrite H; clear H
  | |- context [retire ?r ?s] => rewrite (proj1 (retire_pending r s)), (proj2 (retire_pending r s))
  end; cbn;
  repeat match goal with
  | |- context [if recorder then _ else _] => destruct recorder
  | H : context [c_socket ?c] |- _ => destruct (c_socket c)
  | |- context [match c_socket ?c with _ => _ end] => destruct (c_socket c)
  end; cbn; first [done|lia].

Lemma rstep_smaller c c' : rstep recorder c c' → smaller c' c.
Proof. intros Hs. left. destruct Hs; step_smaller. Qed.

Lemma wstep_smaller c c' : wstep c c' → smaller c' c.
Proof.
  intros Hs. destruct Hs as [| | |c ev c' n Hw Hr|c ev Hw| | |c ev n Hw Hb| |c ev n Hw| | | | |];
    try (left; step_smaller).
  - left. destruct Hr; step_smaller.
  - right. step_smaller.
  - right. step_smaller.
  - right. step_smaller.
  - left. unfold write_close. destruct (c_socket c) eqn:Es; step_smaller.
Qed.

Lemma istep_smaller c c' : istep recorder c c' → smaller c' c.
Proof. intros [Hs|Hs]; [by apply rstep_smaller|by apply wstep_smaller]. Qed.

Lemma istep_terminates c : Acc (λ c' c, istep recorder c c') c.
Proof.
  induction (smaller_wf c) as [c _ IH]. constructor. intros c' Hs. by apply IH, istep_smaller.
Qed.
(** *** The invariant *)

Definition r_operating (r : reader) : nat :=
  match r with RWriteAcknowledgement | RRecording _ | ROperating => 1 | _ => 0 end.
Definition w_operating (w : writing) : nat := match w with WOperating _ _ => 1 | _ => 0 end.

(** The reader before the slot, before the writer, inside the loop, in its cleanup. *)
Definition unregistered (r : reader) : bool :=
  match r with RStart | RRegister => true | _ => false end.
Definition unacknowledged (r : reader) : bool :=
  match r with RStart | RRegister | RAcknowledge | RWriteAcknowledgement => true | _ => false end.
Definition looping (r : reader) : bool :=
  match r with RLoop | RRead | RActivity _ | RRecording _ | RDispatch _ | ROperating => true | _ => false end.
Definition absent (r : reader) : bool :=
  match r with RStart | RRegister | RCancel _ | RReturned _ | RClosed _ => true | _ => false end.
Definition departed (r : reader) : bool :=
  match r with RReleasing _ | RCancel _ | RReturned _ | RClosed _ => true | _ => false end.

Record sound (c : connection) : Prop := {
  s_inflight : inflight (c_session c) = (r_operating (c_reader c) + w_operating (c_writer c))%nat;
  s_fresh : unregistered (c_reader c) = true → c_slot c = false;
  s_idle : unacknowledged (c_reader c) = true → c_writer c = WIdle;
  s_started : looping (c_reader c) = true → c_writer c ≠ WIdle;
  s_departed : departed (c_reader c) = true → c_slot c = false;
  s_left : c_slot c = false → absent (c_reader c) = true ∨ retired (c_session c) ≠ None;
  s_draining : match c_reader c with RDraining _ | RReleasing _ => retired (c_session c) ≠ None | _ => True end;
  s_returned : match c_reader c with RReturned _ | RClosed _ => c_done c = true | _ => True end;
  s_closed : match c_reader c with RClosed _ => c_socket c = SocketClosed | _ => True end;
  s_cancelled : match c_writer c with WHangUp | WStopped => c_done c = true | _ => True end;
  s_hung_up : c_writer c = WStopped → c_socket c = SocketClosed
}.
Lemma retire_inflight reason s : inflight (retire reason s) = inflight s.
Proof. unfold retire. by destruct (retired s). Qed.
Lemma retire_retired reason s : retired (retire reason s) ≠ None.
Proof. unfold retire. destruct (retired s) eqn:E; cbn; by rewrite ?E. Qed.
#[local] Hint Resolve retire_retired : core.

(** Prove the invariant of a state that a rule gave. *)
Ltac sound_step :=
  unfold enter, finish, on_session, after_read in *; cbn in *;
  repeat match goal with
  | H : true = true → _ |- _ => specialize (H eq_refl)
  | H : false = true → _ |- _ => clear H
  | H : _ ∧ _ |- _ => destruct H
  | H : context [_ → false = true ∨ _] |- _ =>
      lazymatch type of H with ?P → _ ∨ ?Q => assert (P → Q) by (intros p; by destruct (H p)); clear H end
  end;
  constructor; cbn; try done; intros;
  repeat match goal with
  | |- context [inflight (retire ?r ?s)] => rewrite retire_inflight
  | |- context [if recorder then _ else _] => destruct recorder
  | H : context [if recorder then _ else _] |- _ => destruct recorder
  | |- false = true ∨ _ => right
  | H : c_reader ?c = _ |- context [c_reader ?c] => rewrite H
  | H : c_writer ?c = _ |- context [c_writer ?c] => rewrite H
  | H : unacknowledged ?r = true → _, K : unacknowledged ?r = true |- _ => specialize (H K)
  end; cbn in *;
  repeat match goal with
  | H : c_writer ?c = _, K : context [c_writer ?c] |- _ => progress rewrite H in K; cbn in K
  | H : c_reader ?c = _, K : context [c_reader ?c] |- _ => progress rewrite H in K; cbn in K
  end;
  first [done|lia|congruence|by auto|by destruct (c_reader _); auto; congruence|by destruct (c_writer _)
        |exfalso; intuition congruence].

Lemma sound_rstep c c' : rstep recorder c c' → sound c → sound c'.
Proof.
  intros Hs [I F Id St D L Dr R C Ca Hu].
  destruct Hs; match goal with H : c_reader _ = _ |- _ => rewrite H in * end; sound_step.
Qed.

Lemma sound_wstep c c' : wstep c c' → sound c → sound c'.
Proof.
  intros Hs [I F Id St D L Dr R C Ca Hu].
  destruct Hs as [| | |? ? ? ? ? Hr| | | | | | | | | | |];
    try (destruct Hr);
    match goal with H : c_writer _ = _ |- _ => rewrite H in * end;
    try (match goal with |- context [write_close _ _ ?c] => unfold write_close; destruct (c_socket c) eqn:? end);
    sound_step.
Qed.

Lemma sound_estep c c' : estep c c' → sound c → sound c'.
Proof. intros Hs [I F Id St D L Dr R C Ca Hu]. destruct Hs; sound_step. Qed.

Lemma sound_served c : served recorder c → sound c.
Proof.
  intros (peer & version & inbox & Hs). assert (sound (new_connection peer version inbox)) as Hi by (by constructor; auto).
  induction Hs as [|c1 c2 c3 [[Hs|Hs]|Hs] _ IH]; [done|..]; apply IH.
  - by eapply sound_rstep. - by eapply sound_wstep. - by eapply sound_estep.
Qed.
(** *** Where a connection can rest *)

(** Waiting for the peer: nothing is pending, and nothing has ended. *)
Record awaiting_peer (c : connection) : Prop := {
  wt_reader : c_reader c = RRead;
  wt_writer : c_writer c = WSelect;
  wt_inbox : c_inbox c = [];
  wt_pending : pending c = 0%nat;
  wt_slot : c_slot c = true;
  wt_retired : retired (c_session c) = None;
  wt_done : c_done c = false;
  wt_socket : c_socket c = SocketOpen
}.

(** Ended: both goroutines have, the socket is closed, the slot is given up and no
    operation is in flight. *)
Record ended (c : connection) (e : error) : Prop := {
  en_reader : c_reader c = RClosed e;
  en_writer : c_writer c = WStopped ∨ c_writer c = WIdle;
  en_slot : c_slot c = false;
  en_inflight : inflight (c_session c) = 0%nat;
  en_socket : c_socket c = SocketClosed
}.

Definition at_rest (c : connection) : Prop := ∀ c', ¬ istep recorder c c'.

Lemma ordinary_offline : ordinary ErrSessionOffline.
Proof. by split. Qed.

Lemma begin_cases c : (∃ e, begin_error c = Some e) ∨ begin_error c = None.
Proof. destruct (begin_error c); eauto. Qed.

(** A writer at rest. *)
Lemma writer_rests c : at_rest c →
  c_writer c = WIdle ∨ c_writer c = WStopped ∨
  (c_writer c = WSelect ∧ c_done c = false ∧ retired (c_session c) = None ∧ pending c = 0%nat).
Proof.
  intros Hr. assert (∀ c', ¬ wstep c c') as Hw by (intros c' Hs; apply (Hr c'); by right).
  destruct (c_writer c) eqn:E; auto; try (by exfalso; eapply Hw; econstructor).
  - right. right. split; [done|]. destruct (c_done c) eqn:Ed; [by edestruct Hw; apply W_context|]. split; [done|].
    destruct (retired (c_session c)) as [[]|] eqn:Er;
      [by edestruct Hw; apply W_disconnected|by edestruct Hw; apply W_superseded|]. split; [done|].
    assert (∀ ev c', ¬ selectable c ev c') as Hn by (intros ev c' Hy; eapply Hw, (W_event _ _ _ 0); eauto).
    unfold pending. destruct (c_ping c) eqn:E1; [by edestruct Hn; apply ready_ping|].
    destruct (c_heartbeats c) eqn:E2; [by edestruct Hn; apply ready_heartbeat|].
    destruct (c_resumes c) eqn:E3; [by edestruct Hn; apply ready_resume|].
    destruct (durableWake (c_session c)) eqn:E4; [by edestruct Hn; apply ready_wake|].
    destruct (immediate (c_session c)) eqn:E5; [done|by edestruct Hn; eapply ready_immediate].
  - exfalso. destruct n; [by eapply Hw, W_handled|]. eapply Hw, W_fails; [done|apply ordinary_offline].
Qed.

(** A reader at rest. *)
Lemma reader_rests c : at_rest c →
  (∃ e, c_reader c = RClosed e) ∨ (c_reader c = RRead ∧ c_socket c = SocketOpen ∧ c_inbox c = []) ∨
  (c_done c = false ∧ looping (c_reader c) = true ∧ (0 < pending c)%nat) ∨
  (0 < inflight (c_session c) ∧ r_operating (c_reader c) = 0)%nat.
Proof.
  intros Hr. assert (∀ c', ¬ rstep recorder c c') as Hw by (intros c' Hs; apply (Hr c'); by left).
  pose proof ordinary_offline as Ho.
  destruct (c_reader c) eqn:E; try (by edestruct Hw; econstructor); try (by edestruct Hw; eapply R_not_registered);
    try (by destruct (begin_cases c) as [[e' Hb]|Hb]; edestruct Hw;
      [first [by eapply R_ack_refused|by eapply R_activity_refused]|first [by eapply R_ack_begin|by eapply R_activity_begin]]).
  - destruct (c_errors c) eqn:Ee; [by edestruct Hw; eapply R_writer_failed|by edestruct Hw; eapply R_continue].
  - destruct (decide (c_socket c = SocketOpen)) as [Ho'|Ho']; [|by edestruct Hw; eapply R_read_fails].
    destruct (c_inbox c) as [|[kind encoded] rest] eqn:Ei; [by right; left|].
    destruct (readBoundedClientMessage kind encoded) as [m|e] eqn:Em;
      edestruct Hw; [by eapply R_read|by eapply R_read_rejected].
  - destruct m as [|m].
    + destruct (c_heartbeats c) eqn:Eh; [|by edestruct Hw; eapply R_heartbeat].
      destruct (c_done c) eqn:Ed; [by edestruct Hw; eapply R_heartbeat_done|].
      right. right. left. split_and!; [done..|]. unfold pending. rewrite Eh. cbn [bit]. lia.
    + destruct (dispatch_message 0 m) as [req|cursor] eqn:Em.
      * destruct (precheck (session_peer (c_session c)) req) as [[]|e] eqn:Ep;
          [|by edestruct Hw; eapply R_request_invalid].
        destruct (begin_cases c) as [[e Hb]|Hb]; edestruct Hw; [by eapply R_request_refused|by eapply R_request].
      * destruct (c_resumes c) eqn:Eh; [|by edestruct Hw; eapply R_resume].
        destruct (c_done c) eqn:Ed; [by edestruct Hw; eapply R_resume_done|].
        right. right. left. split_and!; [done..|]. unfold pending. rewrite Eh. cbn. lia.
  - destruct (sessionEndCause (c_session c) (Some e)) eqn:Ec; [by edestruct Hw; eapply R_cause|].
    unfold sessionEndCause in Ec. by destruct (retired (c_session c)) as [[]|].
  - destruct (c_slot c) eqn:Es; edestruct Hw; [by eapply R_unregister|by eapply R_unregistered].
  - destruct (inflight (c_session c)) eqn:Ei; [by edestruct Hw; eapply R_drained|].
    right. right. right. cbn. lia.
  - left. eauto.
Qed.

Lemma rests c : sound c → at_rest c → (∃ e, ended c e) ∨ awaiting_peer c.
Proof.
  intros [I F Id St D L Dr R C Ca Hu] Hr.
  destruct (writer_rests c Hr) as [Hw|[Hw|(Hw & Hd & Hret & Hp)]]; rewrite Hw in *;
    destruct (reader_rests c Hr) as [[e He]|[(He & Hs & Hb)|[(Hd' & Hl & Hp')|[Hi Hz]]]];
    try (rewrite He in *); cbn in *; try lia; try congruence; try (by specialize (Hu eq_refl); congruence);
    try (by specialize (St Hl)); try (by specialize (St eq_refl)).
  - left. exists e. constructor; auto.
  - left. exists e. constructor; auto.
  - right. constructor; try done. destruct (c_slot c); [done|]. by destruct (L eq_refl) as [|Hx].
Qed.

(** What has ended stays so. *)
Lemma istep_open c c' : istep recorder c c' →
  (c_socket c' = SocketOpen → c_socket c = SocketOpen) ∧ (c_done c' = false → c_done c = false) ∧
  (retired (c_session c') = None → retired (c_session c) = None).
Proof.
  assert (∀ r s, retired (retire r s) = None → retired s = None) as Hret.
  { intros r s. unfold retire. by destruct (retired s) eqn:E; rewrite ?E. }
  intros [Hs|Hs]; destruct Hs; try (match goal with H : selectable _ _ _ |- _ => destruct H end);
    unfold write_close; try (match goal with |- context [match c_socket ?c with _ => _ end] => destruct (c_socket c) eqn:? end);
    cbn; split_and!; try done; eauto; congruence.
Qed.

(** C37: a connection ends whenever it should, and never by halves. Whatever has
    happened to it, and in every interleaving of its two goroutines, they come to
    rest in finitely many steps unless the environment acts again; and at rest
    either the connection has ended as a whole (both goroutines, the socket, the
    slot and every operation), or it is waiting for its peer with nothing left to
    send, and then its socket had not failed, its context was not cancelled and
    its instance was not retired. *)
Theorem connection_comes_to_rest c : served recorder c →
  Acc (λ c' c, istep recorder c c') c ∧
  ∀ c', rtc (istep recorder) c c' → at_rest c' →
    (∃ e, ended c' e) ∨
    (awaiting_peer c' ∧ c_socket c = SocketOpen ∧ c_done c = false ∧ retired (c_session c) = None).
Proof.
  intros Hs. split; [apply istep_terminates|]. intros c' Hr Hn. apply sound_served in Hs.
  assert (sound c') as Hs'.
  { clear Hn. induction Hr as [|c1 c2 c3 [H|H] _ IH]; [done|..]; apply IH; [by eapply sound_rstep|by eapply sound_wstep]. }
  destruct (rests c' Hs' Hn) as [He|Hw]; [by left|right]. split; [done|].
  destruct Hw as [_ _ _ _ _ H1 H2 H3]. clear Hn Hs Hs'.
  induction Hr as [|c1 c2 c3 H _ IH]; [done|]. destruct (istep_open _ _ H) as (Ha & Hb & Hc).
  destruct IH as (? & ? & ?); auto.
Qed.
(** *** Causes

    Retirements that are not external are the cleanup's own. *)
Definition cleaning (r : reader) : bool :=
  match r with RDraining _ | RReleasing _ | RCancel _ | RReturned _ | RClosed _ => true | _ => false end.

(** The retirement behind a reported error, if it is one. *)
Definition caused_by (external : option sessionRetirement) (e : error) : Prop :=
  (e = ErrSessionSuperseded → external = Some retirementSuperseded) ∧
  (e = ErrDeviceDisconnected → external = Some retirementRevoked).

Record truthful (c : connection) : Prop := {
  t_retired : cleaning (c_reader c) = false → retired (c_session c) = c_external c;
  t_own : c_external c = None → retired (c_session c) ≠ Some retirementSuperseded;
  t_external : ∀ r, c_external c = Some r → retired (c_session c) = Some r;
  t_reader : match c_reader c with
             | RReturning e | RUnregister e | RDraining e | RReleasing e
             | RCancel e | RReturned e | RClosed e => caused_by (c_external c) e
             | _ => True
             end;
  t_writer : match c_writer c with
             | WClosing code _ e =>
                 (code = CloseNormalClosure ∧ e = ErrSessionSuperseded ∧ retired (c_session c) = Some retirementSuperseded) ∨
                 (code = ClosePolicyViolation ∧ e = ErrDeviceDisconnected ∧ retired (c_session c) = Some retirementRevoked)
             | _ => True
             end;
  t_errors : cleaning (c_reader c) = false → ∀ e, c_errors c = Some e ∨ c_writer c = WReport e → caused_by (c_external c) e;
  t_closes : ∀ code reason, (code, reason) ∈ c_closes c →
    (code = CloseNormalClosure ∧ c_external c = Some retirementSuperseded) ∨
    (code = ClosePolicyViolation ∧ retired (c_session c) = Some retirementRevoked)
}.
(** The errors of messages are none of the two causes. *)
Definition only_ordinary {A} (r : result A) : Prop := ∀ e, r = Err e → ordinary e.

Lemma ordinary_Ok {A} (a : A) : only_ordinary (Ok a).
Proof. by intros e [=]. Qed.
Lemma ordinary_Err {A} e : ordinary e → only_ordinary (A := A) (Err e).
Proof. by intros He e' [= <-]. Qed.
Lemma ordinary_guard b m : ordinary (New m) → only_ordinary (guard_err b m).
Proof. intros Hm. unfold guard_err. destruct b; [by apply ordinary_Err|apply ordinary_Ok]. Qed.
Lemma ordinary_bind {A B} (r : result A) (f : A → result B) :
  only_ordinary r → (∀ a, only_ordinary (f a)) → only_ordinary (rbind r f).
Proof. intros Hr Hf. destruct r as [a|e]; [apply Hf|]. intros e' [= <-]. by apply Hr. Qed.
Lemma ordinary_wrapped {A B} m (r : result A) (f : A → result B) :
  (∀ a, only_ordinary (f a)) → only_ordinary (match r with Ok a => f a | Err e => Err (Wrapf m e) end).
Proof. intros Hf. destruct r; [apply Hf|by apply ordinary_Err]. Qed.

Ltac ordinary_errors :=
  repeat first
    [ apply ordinary_Ok | apply ordinary_Err; by split | apply ordinary_guard; by split
    | apply ordinary_bind; [|intros ?] | apply ordinary_wrapped; intros ?
    | match goal with |- only_ordinary (if ?b then _ else _) => destruct b end ].

Lemma routing_ordinary e : only_ordinary (RoutingHeader.Decode e).
Proof. unfold RoutingHeader.Decode, RoutingHeader.Validate. ordinary_errors. Qed.
Lemma frame_ordinary e : only_ordinary (EnvelopeFrame.Decode e).
Proof. unfold EnvelopeFrame.Decode, EnvelopeFrame.Validate. ordinary_errors. Qed.
Lemma read_ordinary kind e : only_ordinary (readBoundedClientMessage kind e).
Proof.
  unfold readBoundedClientMessage, DecodeClientMessage. destruct kind; ordinary_errors; apply frame_ordinary.
Qed.
Lemma precheck_ordinary peer req : only_ordinary (precheck peer req).
Proof.
  unfold precheck, validateRoutedEnvelope.
  destruct req; ordinary_errors; first [apply frame_ordinary|apply routing_ordinary].
Qed.
Lemma begin_ordinary c e : begin_error c = Some e → ordinary e.
Proof. unfold begin_error. destruct (retired _), (c_done c), (c_slot c); intros [= <-]; by split. Qed.
Lemma ordinary_caused x e : ordinary e → caused_by x e.
Proof. intros [? ?]. by split. Qed.
Lemma cancelled_caused x : caused_by x ErrCanceled.
Proof. by split. Qed.
Lemma begin_caused x c e : begin_error c = Some e → caused_by x e.
Proof. eauto using ordinary_caused, begin_ordinary. Qed.
Lemma read_caused x kind f e : readBoundedClientMessage kind f = Err e → caused_by x e.
Proof. intros H. by eapply ordinary_caused, read_ordinary. Qed.
Lemma precheck_caused x peer req e : precheck peer req = Err e → caused_by x e.
Proof. intros H. by eapply ordinary_caused, precheck_ordinary. Qed.

Lemma end_caused c e e' :
  retired (c_session c) = c_external c → caused_by (c_external c) e →
  sessionEndCause (c_session c) (Some e) = Some e' → caused_by (c_external c) e'.
Proof.
  unfold sessionEndCause. intros <- He Hc. destruct (retired (c_session c)) as [[]|]; injection Hc as <-;
    [split; congruence || done..|done].
Qed.

Lemma retire_result reason s : retired (retire reason s) = Some (default reason (retired s)).
Proof. unfold retire. destruct (retired s) eqn:E; cbn; by rewrite ?E. Qed.

#[local] Hint Resolve ordinary_caused cancelled_caused begin_caused read_caused precheck_caused end_caused : causes.

(** Prove that the causes of a state that a rule gave are true. *)
Ltac truthful_step :=
  unfold enter, finish, on_session, after_read in *; cbn in *;
  repeat match goal with
  | H : c_writer ?c = _, K : context [c_writer ?c] |- _ => progress rewrite H in K; cbn in K
  | H : c_reader ?c = _, K : context [c_reader ?c] |- _ => progress rewrite H in K; cbn in K
  | H : false = false → _ |- _ => specialize (H eq_refl)
  | H : true = false → _ |- _ => clear H
  end;
  constructor; cbn; try done; intros;
  repeat match goal with
  | |- context [if recorder then _ else _] => destruct recorder
  | H : context [if recorder then _ else _] |- _ => destruct recorder
  | H : c_reader ?c = _ |- context [c_reader ?c] => rewrite H
  | H : c_writer ?c = _ |- context [c_writer ?c] => rewrite H
  | |- context [retired (retire ?r ?s)] => rewrite retire_result
  | H : _ = Some _ ∨ _ |- caused_by _ _ => destruct H
  end; cbn in *; try done; try (by eauto with causes).

Lemma caused_none x e : caused_by None e → caused_by x e.
Proof. intros [H1 H2]. split; intros He; [by specialize (H1 He)|by specialize (H2 He)]. Qed.

Lemma closing_caused x (code : Z) e :
  (code = CloseNormalClosure ∧ e = ErrSessionSuperseded ∧ x = Some retirementSuperseded) ∨
  (code = ClosePolicyViolation ∧ e = ErrDeviceDisconnected ∧ x = Some retirementRevoked) → caused_by x e.
Proof. intros [(_ & -> & ->)|(_ & -> & ->)]; by split. Qed.

(** A retirement, the connection's own or an external one. *)
Lemma truthful_retire reason external c :
  (retired (c_session c) = None → external = Some reason ∨ (external = None ∧ reason = retirementRevoked)) →
  (retired (c_session c) ≠ None → external = c_external c) →
  (cleaning (c_reader c) = false → external = Some reason ∨ retired (c_session c) ≠ None) →
  truthful c → truthful (on_session (retire reason) c <| c_external := external |>).
Proof.
  intros Hn Hs Hc [R O X Rd W E C]. destruct (retired (c_session c)) as [r|] eqn:Er.
  - assert (retire reason (c_session c) = c_session c) as Hx by (unfold retire; by rewrite Er).
    unfold on_session. cbn. rewrite Hx, (Hs ltac:(done)). constructor; cbn; rewrite ?Er; auto.
  - assert (c_external c = None) as Ex by (destruct (c_external c) as [x|]; [by specialize (X x eq_refl)|done]).
    rewrite Ex in *. constructor; cbn; rewrite ?retire_result, ?Er; cbn.
    + intros H. by destruct (Hc H) as [->|].
    + intros ->. by destruct (Hn eq_refl) as [|[_ ->]].
    + intros r ->. by destruct (Hn eq_refl) as [|[? _]].
    + destruct (c_reader c); eauto using caused_none.
    + destruct (c_writer c); try done. naive_solver.
    + eauto using caused_none.
    + intros code cr Hin. by destruct (C code cr Hin) as [[??]|[??]].
Qed.

Lemma external_none c : truthful c → retired (c_session c) = None → c_external c = None.
Proof. intros Ht Hr. destruct (c_external c) as [x|] eqn:E; [|done]. pose proof (t_external c Ht x E). congruence. Qed.

Lemma truthful_rstep c c' : rstep recorder c c' → truthful c → truthful c'.
Proof.
  intros Hs Ht. pose proof (external_none c Ht) as Hx.
  destruct Hs; try (destruct Ht as [R O X Rd W E C]; truthful_step; fail).
  refine (truthful_retire retirementRevoked (c_external c) (c <| c_reader := RDraining e |>) _ _ _ _); cbn; auto; try done.
  destruct Ht as [R O X Rd W E C]. truthful_step.
Qed.

Lemma truthful_wstep c c' : wstep c c' → truthful c → truthful c'.
Proof.
  intros Hs [R O X Rd W E C]. destruct Hs; try (match goal with H : selectable _ _ _ |- _ => destruct H end);
    try (truthful_step; try congruence; simplify_eq; eauto with causes; fail).
  - (* a close frame *)
    match goal with H : c_writer c = _ |- _ => rewrite H in W end.
    unfold write_close. destruct (c_socket c); truthful_step; simplify_eq;
      try (by apply (closing_caused _ code); rewrite <-R by done).
    match goal with H : _ ∈ _ ++ _ |- _ => apply elem_of_app in H as [?|H]; [by eauto|];
      apply list_elem_of_singleton in H; injection H as -> -> end.
    destruct W as [(-> & _ & Hr)|(-> & _ & Hr)]; [|by right]. left. split; [done|].
    destruct (c_external c) as [x|]; [by rewrite <-(X x eq_refl)|]. by destruct (O eq_refl).
  - (* the report *)
    truthful_step; simplify_eq. destruct (c_errors c); cbn; eauto.
Qed.

Lemma truthful_estep c c' : estep c c' → sound c → truthful c → truthful c'.
Proof.
  intros Hs Hi Ht. destruct Hs; try (destruct Ht as [R O X Rd W E C]; truthful_step; fail).
  refine (truthful_retire reason _ _ _ _ _ _); [intros ->; by left|by destruct (retired _)| |done].
  intros _. destruct (retired (c_session c)); [by right|by left].
Qed.

Lemma truthful_served c : served recorder c → truthful c.
Proof.
  intros (peer & version & inbox & Hs).
  assert (sound (new_connection peer version inbox)) as Hi by (by constructor; auto).
  assert (truthful (new_connection peer version inbox)) as Ht.
  { constructor; cbn; try done; [by intros _ e [?|?]|by intros ? ? ?%elem_of_nil]. }
  induction Hs as [|c1 c2 c3 [[Hs|Hs]|Hs] _ IH]; [done|..]; apply IH;
    eauto using sound_rstep, sound_wstep, sound_estep, truthful_rstep, truthful_wstep, truthful_estep.
Qed.
(** C38: a connection tells the truth about its end. What it reports as replaced, or
    as an authorization that was revoked, is a retirement that came from outside,
    never the connection's own cleanup; and a close frame of the normal kind is
    sent only to an instance that was replaced. A policy close says less: its
    instance was revoked, or it had ended by itself. *)
Theorem connection_reports_cause c : served recorder c →
  (∀ e, c_reader c = RClosed e →
     (e = ErrSessionSuperseded → c_external c = Some retirementSuperseded) ∧
     (e = ErrDeviceDisconnected → c_external c = Some retirementRevoked)) ∧
  ∀ code reason, (code, reason) ∈ c_closes c →
    (code = CloseNormalClosure ∧ c_external c = Some retirementSuperseded) ∨
    (code = ClosePolicyViolation ∧
     (c_external c = Some retirementRevoked ∨ (c_external c = None ∧ cleaning (c_reader c) = true))).
Proof.
  intros Hs. destruct (truthful_served c Hs) as [R O X Rd W E C]. split.
  - intros e He. by rewrite He in Rd.
  - intros code reason Hin. destruct (C code reason Hin) as [?|[-> Hr]]; [by left|right]. split; [done|].
    destruct (c_external c) as [r|]; [left; by rewrite <-(X r eq_refl)|right]. split; [done|].
    destruct (cleaning (c_reader c)); [done|]. by rewrite R in Hr.
Qed.
End Rest.

(** ** A connection that ends by itself

    The peer sends an envelope to a device that is not connected. *)
Definition lonely : connection := new_connection peerB 1 [(BinaryMessage, sample_envelope)].
Definition lonely_message : ClientMessage :=
  {| Kind := ClientEnvelopeOnline; Cursor := 0; Envelope := sample_envelope |}.

Lemma lonely_reads : readBoundedClientMessage BinaryMessage sample_envelope = Ok (Message lonely_message).
Proof. vm_compute. reflexivity. Qed.
Lemma lonely_valid : precheck peerB (ReqRouteOnline sample_envelope) = Ok tt.
Proof. vm_compute. reflexivity. Qed.

Definition lonely_session (r : option sessionRetirement) (n : nat) (rel : bool) : deviceSession :=
  mkSession peerB 1 16 [] false r rel n.
Definition lonely_at (rd : reader) (wr : writing) (inbox : list (messageType * bytes)) (s : deviceSession)
  (slot : bool) : connection :=
  mkConnection rd wr inbox SocketOpen false slot s None false None false None [].

(** Up to the cleanup, which has retired the instance. *)
Definition lonely_cleanup : connection :=
  lonely_at (RDraining ErrRecipientOffline) WSelect [] (lonely_session (Some retirementRevoked) 0 false) true.

Lemma lonely_runs : rtc (istep false) lonely lonely_cleanup.
Proof.
  eapply rtc_l; [left; by apply R_start|]. eapply rtc_l; [left; by apply R_registered|].
  eapply rtc_l; [left; by apply R_ack_begin|]. eapply rtc_l; [left; by apply R_ack_written|].
  eapply rtc_l; [left; by apply R_continue|]. eapply rtc_l; [left; by eapply R_read, lonely_reads|].
  eapply rtc_l; [left; eapply (R_request _ _ lonely_message 0); [done|done|exact lonely_valid|done]|].
  eapply rtc_l; [left; by apply (R_request_fails _ _ ErrRecipientOffline)|].
  eapply rtc_l; [left; by eapply R_cause|]. apply rtc_once. left. by eapply R_unregister.
Qed.

Lemma connection_comes_to_rest_witness :
  retired (c_session lonely_cleanup) = Some retirementRevoked ∧
  ∀ c', rtc (istep false) lonely_cleanup c' → at_rest false c' → ∃ e, ended c' e.
Proof.
  assert (served false lonely_cleanup) as Hs.
  { exists peerB, 1, [(BinaryMessage, sample_envelope)]. eapply (rtc_subrel (istep false)); [|apply lonely_runs]. by left. }
  split; [reflexivity|]. intros c' Hr Hn.
  destruct (connection_comes_to_rest false lonely_cleanup Hs) as [_ Hrest].
  destruct (Hrest c' Hr Hn) as [He|(_ & _ & _ & Hx)]; [exact He|discriminate Hx].
Defined.

(** The rest of the run: the writer is the first to see the signal. *)
Definition lonely_end : connection :=
  mkConnection (RClosed ErrRecipientOffline) WStopped [] SocketClosed true false
    (lonely_session (Some retirementRevoked) 0 true) (Some ErrDeviceDisconnected) false None false None
    [(ClosePolicyViolation, bs "authorization revoked")].

Lemma lonely_ends : rtc (istep false) lonely_cleanup lonely_end.
Proof.
  eapply rtc_l; [right; by apply W_disconnected|]. eapply rtc_l; [right; by eapply W_close|].
  eapply rtc_l; [right; by eapply W_report|]. eapply rtc_l; [left; by eapply R_drained|].
  eapply rtc_l; [left; by eapply R_release|]. eapply rtc_l; [left; by eapply R_cancel|].
  eapply rtc_l; [right; by eapply W_cancel|]. eapply rtc_l; [right; by eapply W_hang_up|].
  apply rtc_once. left. by eapply R_close.
Qed.

Lemma lonely_served : served false lonely_end.
Proof.
  exists peerB, 1, [(BinaryMessage, sample_envelope)]. eapply (rtc_subrel (istep false)); [|etrans; [apply lonely_runs|apply lonely_ends]].
  by left.
Qed.

Lemma connection_reports_cause_witness :
  c_closes lonely_end = [(ClosePolicyViolation, bs "authorization revoked")] ∧
  (c_external lonely_end = Some retirementRevoked ∨
   (c_external lonely_end = None ∧ cleaning (c_reader lonely_end) = true)).
Proof.
  split; [reflexivity|]. destruct (connection_reports_cause false lonely_end lonely_served) as [_ Hc].
  destruct (Hc ClosePolicyViolation (bs "authorization revoked") (list_elem_of_here _ _)) as [[Hx _]|[_ Hx]];
    [discriminate Hx|exact Hx].
Defined.

(** C39: a policy close does not mean that the authorization was revoked, though
    clients must read it so. A device that nobody retired sends a well-formed
    online envelope to a device that is not connected; its own connection ends
    with that error, the cleanup closes the signal of a revocation, and the
    writer tells the peer that its authorization was revoked. *)
Theorem policy_close_unrevoked : ∃ c,
  rtc (istep false) lonely c ∧ c_external c = None ∧ c_reader c = RClosed ErrRecipientOffline ∧
  c_closes c = [(ClosePolicyViolation, bs "authorization revoked")].
Proof.
  exists lonely_end. split; [|done]. etrans; [apply lonely_runs|apply lonely_ends].
Qed.
