(* ===== verification/ConnectionHub.v ===== *)
(** The hub ([Hub]) and a connection ([RelayConnection]) speak of the same session
    instance: whether it holds its device's slot, and the session itself. Both
    change it by the same rules, and a connection accepts whatever the hub may do
    to its instance from outside. *)

From S2P Require Import Prelude GoStd DeliveryStore Hub Session Schema RelayConnection.

(** An instance: does it hold the slot, and its session. *)
Definition instance : Type := bool * deviceSession.

(** What others may do to an instance. *)
Inductive external_move : instance → instance → Prop :=
| X_retire reason s : external_move (true, s) (true, retire reason s)
| X_leave s : retired s ≠ None → inflight s = 0%nat → external_move (true, s) (false, s)
| X_release s : retired s ≠ None → external_move (false, s) (false, markReleased s)
| X_immediate frame s : retired s = None → (length (immediate s) < queue_size s)%nat →
    external_move (true, s) (true, push_immediate frame s)
| X_wake s : retired s = None → external_move (true, s) (true, wake s).

(** What its own goroutines do besides: operations, and the queues they read. *)
Inductive internal_move : instance → instance → Prop :=
| I_enter s : retired s = None → internal_move (true, s) (true, set_inflight (S (inflight s)) s)
| I_finish slot s : (0 < inflight s)%nat → internal_move (slot, s) (slot, set_inflight (pred (inflight s)) s)
| I_immediate slot s : immediate s ≠ [] → internal_move (slot, s) (slot, take_immediate s)
| I_wake slot s : durableWake s = true → internal_move (slot, s) (slot, take_wake s).

Definition moved (x x' : instance) : Prop := x' = x ∨ external_move x x' ∨ internal_move x x'.

(** ** The hub *)

Section Hub.
Context {T : Type} `{RelayStore T}.
Implicit Types h : @Hub.Hub T.

Definition instance_of (sid : nat) (s : deviceSession) h : instance :=
  (bool_decide (devices h !! session_peer s = Some sid), s).

(** Where a step of the hub takes the instance [sid]. *)
Definition follows (sid : nat) (s : deviceSession) h h' : Prop :=
  ∃ s', sessions h' !! sid = Some s' ∧ moved (instance_of sid s h) (instance_of sid s' h').

Lemma follows_same sid s h h' :
  sessions h !! sid = Some s → sessions h' = sessions h → devices h' = devices h → follows sid s h h'.
Proof. intros Hs Hx Hd. exists s. rewrite Hx. split; [done|]. left. unfold instance_of. by rewrite Hd. Qed.

Lemma follows_update sid s h i f :
  sessions h !! sid = Some s →
  (i = sid → session_peer (f s) = session_peer s ∧
     moved (instance_of sid s h) (bool_decide (devices h !! session_peer s = Some sid), f s)) →
  follows sid s h (update_session i f h).
Proof.
  intros Hs Hf. destruct (decide (i = sid)) as [->|Hne].
  - destruct (Hf eq_refl) as [Hp Hm]. exists (f s). cbn. rewrite lookup_alter_eq, Hs. split; [done|].
    unfold instance_of at 2. cbn. by rewrite Hp.
  - exists s. cbn. rewrite lookup_alter_ne by done. split; [done|]. by left.
Qed.

Lemma slotted sid s h : devices h !! session_peer s = Some sid → instance_of sid s h = (true, s).
Proof. intros Hd. unfold instance_of. by rewrite bool_decide_eq_true_2. Qed.
Lemma unslotted sid s h : devices h !! session_peer s ≠ Some sid → instance_of sid s h = (false, s).
Proof. intros Hd. unfold instance_of. by rewrite bool_decide_eq_false_2. Qed.

Lemma retire_follows sid s h p i reason :
  hub_ok h → sessions h !! sid = Some s → devices h !! p = Some i →
  follows sid s h (update_session i (retire reason) h).
Proof.
  intros Hh Hs Hd. apply follows_update; [done|]. intros ->. destruct (h_slot _ Hh _ _ Hd) as (s0 & Hs0 & Hp & _).
  rewrite Hs in Hs0. injection Hs0 as <-. split; [by destruct (retire_fields reason s) as (-> & _)|]. subst p.
  rewrite slotted by done. rewrite bool_decide_eq_true_2 by done. right. left. constructor.
Qed.
Lemma register_follows sid s h p v q r h' :
  hub_ok h → sessions h !! sid = Some s → register_locked p v q h = (r, h') → follows sid s h h'.
Proof.
  intros Hh Hs Hr. unfold register_locked in Hr. destruct (devices h !! p) as [i|] eqn:Hd.
  - destruct (sessions h !! i) as [s0|]; [|injection Hr as _ <-; by apply follows_same].
    destruct (v <? _); injection Hr as _ <-; [by apply follows_same|]. by eapply retire_follows.
  - injection Hr as _ <-. pose proof (h_fresh _ Hh _ _ Hs). exists s. cbn. rewrite lookup_insert_ne by lia.
    split; [done|]. left. unfold instance_of. cbn. f_equal. apply bool_decide_ext.
    destruct (decide (p = session_peer s)) as [->|Hne]; [|by rewrite lookup_insert_ne].
    rewrite lookup_insert_eq, Hd. split; [intros [= <-]; lia|done].
Qed.

Lemma disconnect_follows sid s h p i b h' :
  hub_ok h → sessions h !! sid = Some s → disconnect_locked p i h = Some (b, h') → follows sid s h h'.
Proof.
  intros Hh Hs Hr. unfold disconnect_locked in Hr. destruct (devices h !! p) as [j|] eqn:Hd; [|done].
  destruct (decide (j = i)) as [->|]; [|done]. destruct (sessions h !! i); [|done]. injection Hr as _ <-.
  by eapply retire_follows.
Qed.

Lemma finish_follows sid s h p i s0 :
  sessions h !! sid = Some s → sessions h !! i = Some s0 → session_peer s0 = p → retired s0 ≠ None →
  inflight s0 = 0%nat → follows sid s h (disconnect_finish p i h).
Proof.
  intros Hs Hs0 <- Hret Hin. exists s. split; [done|]. unfold disconnect_finish.
  destruct (decide (devices h !! session_peer s0 = Some i)) as [Hd|Hd]; [|by left].
  unfold instance_of. cbn. destruct (decide (session_peer s = session_peer s0)) as [He|Hne].
  - rewrite He, lookup_delete_eq, Hd. rewrite (bool_decide_eq_false_2 (None = Some sid)) by done.
    destruct (decide (i = sid)) as [->|Hne].
    + rewrite bool_decide_eq_true_2 by done. right. left. rewrite Hs in Hs0. injection Hs0 as ->. by constructor.
    + left. by rewrite bool_decide_eq_false_2 by congruence.
  - left. by rewrite lookup_delete_ne.
Qed.

Lemma online_follows sid s h p frame h' :
  hub_ok h → sessions h !! sid = Some s → route_online p frame h = Ok h' → follows sid s h h'.
Proof.
  intros Hh Hs Hr. unfold route_online in Hr. destruct (devices h !! p) as [i|] eqn:Hd; [|done].
  destruct (sessions h !! i) as [s0|] eqn:Hi; [|done]. case_bool_decide as Hret; [|done].
  destruct (_ <? _)%nat eqn:Hlt; [|done]. injection Hr as <-. apply follows_update; [done|]. intros ->.
  destruct (h_slot _ Hh _ _ Hd) as (s1 & Hs1 & Hp & _). simplify_eq. split; [done|].
  rewrite slotted, bool_decide_eq_true_2 by done. right. left. constructor; [done|]. by apply Nat.ltb_lt.
Qed.

Lemma perform_follows sid s h p req o h' :
  hub_ok h → sessions h !! sid = Some s → perform p req h = (o, h') → follows sid s h h'.
Proof.
  intros Hh Hs Hp. unfold perform in Hp.
  destruct req; repeat match type of Hp with (match ?x with _ => _ end) = _ => destruct x eqn:? end;
    injection Hp as _ <-; first [by apply follows_same|by eapply online_follows].
Qed.

Lemma append_follows sid s h p f e n o h' :
  sessions h !! sid = Some s → route_append p f e n h = (o, h') → follows sid s h h'.
Proof.
  intros Hs Ha. unfold route_append in Ha. destruct (rs_append _ _ _ _ _) as [[? ?]|]; injection Ha as _ <-;
    by apply follows_same.
Qed.

Lemma wake_follows sid s h p : hub_ok h → sessions h !! sid = Some s → follows sid s h (wake_recipient p h).
Proof.
  intros Hh Hs. unfold wake_recipient. destruct (devices h !! p) as [i|] eqn:Hd; [|by apply follows_same].
  destruct (sessions h !! i) as [s0|] eqn:Hi; [|by apply follows_same].
  case_bool_decide as Hret; [|by apply follows_same]. apply follows_update; [done|]. intros ->.
  destruct (h_slot _ Hh _ _ Hd) as (s1 & Hs1 & Hp & _). simplify_eq. split; [done|].
  rewrite slotted, bool_decide_eq_true_2 by done. right. left. by constructor.
Qed.

Lemma release_follows (y : @sys T) sid s t p i b :
  Hub.inv y → threads y !! t = Some (TReleasing p i b) → sessions (hub y) !! sid = Some s →
  follows sid s (hub y) (update_session i markReleased (hub y)).
Proof.
  intros Hi Ht Hs. apply follows_update; [done|]. intros ->. split; [done|].
  destruct (inv_threads _ Hi _ _ Ht) as (s1 & Hs1 & <- & Hd). simplify_eq.
  rewrite unslotted, bool_decide_eq_false_2 by done. right. left. constructor.
  by destruct (h_unslotted _ (inv_hub _ Hi) _ _ Hs Hd).
Qed.

Lemma begin_follows (y : @sys T) sid s t p i req s0 :
  Hub.inv y → threads y !! t = Some (TBegin p i req) → session_active p i (hub y) = true →
  sessions (hub y) !! i = Some s0 → sessions (hub y) !! sid = Some s →
  follows sid s (hub y) (update_session i (set_inflight (S (inflight s0))) (hub y)).
Proof.
  intros Hi Ht Ha H0 Hs. apply follows_update; [done|]. intros ->. split; [done|].
  destruct (inv_threads _ Hi _ _ Ht) as (s1 & Hs1 & <-). unfold session_active in Ha.
  rewrite Hs in H0, Hs1, Ha. injection H0 as <-. injection Hs1 as <-. apply andb_true_iff in Ha as [Hd%bool_decide_eq_true Hr%bool_decide_eq_true].
  rewrite slotted, bool_decide_eq_true_2 by done. right. right. by constructor.
Qed.

Lemma end_follows (y : @sys T) sid s t p i r s0 :
  Hub.inv y → threads y !! t = Some (TDone p i (Finish r)) →
  sessions (hub y) !! i = Some s0 → sessions (hub y) !! sid = Some s →
  follows sid s (hub y) (update_session i (set_inflight (pred (inflight s0))) (hub y)).
Proof.
  intros Hi Ht H0 Hs. apply follows_update; [done|]. intros ->. split; [done|]. rewrite Hs in H0. injection H0 as <-.
  right. right. constructor. rewrite (inv_count _ Hi _ _ Hs). pose proof (holders_pos sid t _ _ Ht eq_refl). lia.
Qed.

Lemma step_follows (y y' : @sys T) sid s :
  Hub.inv y → Hub.step y y' → sessions (hub y) !! sid = Some s → follows sid s (hub y) (hub y').
Proof.
  intros Hi Hst Hs. pose proof (inv_hub _ Hi) as Hh.
  destruct Hst; try (by apply follows_same); cbn;
    eauto using register_follows, disconnect_follows, perform_follows, append_follows, wake_follows,
      release_follows, begin_follows, end_follows.
  - match goal with Ht : threads y !! _ = Some (TDraining _ _ _) |- _ =>
      destruct (inv_threads _ Hi _ _ Ht) as (s1 & Hs1 & Hp & Hr) end.
    simplify_eq. by eapply finish_follows.
  - apply follows_update; [done|]. intros ->. split; [done|]. right. right.
    match goal with H1 : sessions _ !! sid = Some ?s1, He : immediate ?s1 = _ |- _ =>
      rewrite Hs in H1; injection H1 as <-;
      replace (mkSession _ _ _ rest _ _ _ _) with (take_immediate s) by (unfold take_immediate; by rewrite He);
      constructor; by rewrite He end.
  - apply follows_update; [done|]. intros ->. split; [done|]. right. right.
    match goal with H1 : sessions _ !! sid = Some ?s1, He : durableWake ?s1 = _ |- _ =>
      rewrite Hs in H1; injection H1 as <-; by constructor end.
Qed.
End Hub.

(** ** The connection *)

Abbreviation instance_in c := (c_slot c, c_session c).

Lemma estep_moves c c' : estep c c' → moved (instance_in c) (instance_in c').
Proof.
  intros Hs. destruct Hs; unfold on_session; cbn; try (by left); try (match goal with H : c_slot c = _ |- _ => rewrite H end);
    right; left; by constructor.
Qed.

Lemma begin_moves c : begin_error c = None → moved (instance_in c) (instance_in (enter c)).
Proof.
  unfold begin_error. destruct (retired (c_session c)) eqn:Hr; [done|]. destruct (c_done c); [done|].
  destruct (c_slot c) eqn:Hs; [|done]. intros _. right. right. unfold enter, on_session. cbn. rewrite Hs. by constructor.
Qed.

Lemma end_moves c : (0 < inflight (c_session c))%nat → moved (instance_in c) (instance_in (RelayConnection.finish c)).
Proof. intros Hi. right. right. by constructor. Qed.

Lemma istep_moves recorder c c' : istep recorder c c' → sound c → c_reader c ≠ RRegister →
  moved (instance_in c) (instance_in c').
Proof.
  intros [Hs|Hs] Hi Hreg; pose proof (s_inflight _ Hi) as Hin.
  - destruct Hs; try (by left); try (by apply begin_moves);
      try (match goal with H : c_reader c = _ |- _ => rewrite H in Hin end; apply end_moves; cbn in Hin; lia).
    + cbn. rewrite H0. right. left. constructor.
    + cbn. destruct (c_slot c); [|by left]. right. left. pose proof (s_draining _ Hi) as Hd. rewrite H in Hd. by constructor.
    + cbn. pose proof (s_draining _ Hi) as Hd. pose proof (s_departed _ Hi) as Hl. rewrite H in Hd, Hl.
      rewrite (Hl eq_refl). right. left. by constructor.
  - destruct Hs as [| | |? ? ? ? ? Hr| | | | | | | | | | |]; try (by left); try (by apply begin_moves);
      try (match goal with H : c_writer c = _ |- _ => rewrite H in Hin end; apply end_moves; cbn in Hin; lia).
    + destruct Hr; try (by left); right; right; constructor; congruence.
    + left. unfold write_close. by destruct (c_socket c).
Qed.

Lemma moves_followed c x : external_move (instance_in c) x → ∃ c', estep c c' ∧ instance_in c' = x.
Proof.
  destruct (c_slot c) eqn:Hs; intros Hm; inversion Hm; subst; eexists;
    (split; [first [by apply (E_retire c reason)|by apply E_released|by apply E_signal|by apply (E_immediate c frame)|by apply E_wake]|]);
    unfold on_session; cbn; by rewrite ?Hs.
Qed.


(** ** An instance that is replaced *)

Definition replaced_session : deviceSession := set_inflight 1 (newDeviceSession peerA 1 4).

Lemma replaced_before : sessions (hub run5) !! 0%nat = Some replaced_session.
Proof. vm_compute. reflexivity. Qed.

