(* ===== verification/RelayAccess.v ===== *)
(** Access to the relay: the authentication frame, the authenticator over the
    admission store (internal/admission/relay_authenticator.go), the store as the
    hub's delivery store and authorizer, and the authorization monitor
    (internal/relay/authorization_monitor.go). It connects the hub to the
    admission store: what a revocation means for sessions and senders. *)

From S2P Require Import Prelude GoStd RoutingHeader EnvelopeFrame DeliveryStore Hub.
From S2P Require Import MembershipCodec WireModel Schema Admission MembershipStore StoreSteps.
From S2P Require Import StoreExamples.

(** ** Authentication frames *)

Definition authFrameSize : Z := 68.
Definition authMagic : bytes := bs "SNA1".

Definition EncodeAuthenticationFrame (peer : PeerIdentity) (token : bytes) : result bytes :=
  fail_if negb (blen token =? 32) with_msg "authentication token must be 32 bytes" in
  Ok (authMagic ++ peer.1 ++ peer.2 ++ token).

(** The part of [readAuthenticationFrame] after the message was read: its type
    and at most [authFrameSize + 1] bytes of it. *)
Definition readAuthenticationFrame (binary : bool) (frame : bytes)
  : result (PeerIdentity * bytes) :=
  fail_if negb binary with_msg "authentication frame must be binary" in
  fail_if negb (blen frame =? authFrameSize) with_msg "invalid authentication frame" in
  fail_if negb (beq (slice 0 4 frame) authMagic) with_msg "invalid authentication frame" in
  let peer := (slice 4 20 frame, slice 20 36 frame) in
  fail_if beq peer.1 (repeat Byte.x00 16) || beq peer.2 (repeat Byte.x00 16)
    with_msg "invalid authentication frame" in
  Ok (peer, slice 36 68 frame).

(** ** The authenticator *)

(** [RelayAuthenticator.nextActivity]. *)
Definition Authenticator : Type := gmap PeerIdentity Z.

Definition AuthenticateConnection (peer : PeerIdentity) (token : bytes) (now : Z)
  (a : Authenticator) (db : DB) : result Z * Authenticator * DB :=
  match Authenticate peer.1 peer.2 token now db with
  | Ok (identity, db') => (Ok (di_CredentialVersion identity), <[peer := now + Minute]> a, db')
  | Err e => (Err e, a, db)
  end.

Definition RecordConnectionActivity (peer : PeerIdentity) (now : Z)
  (a : Authenticator) (db : DB) : result unit * Authenticator * DB :=
  if (match a !! peer with Some next => now <? next | None => false end) then (Ok tt, a, db)
  else
    let a' := <[peer := now + Minute]> a in
    match RecordDeviceActivity peer.1 peer.2 now db with
    | Ok db' => (Ok tt, a', db')
    | Err e => (Err e, delete peer a', db)
    end.

(** The handler's decision after the frame was read. *)
Definition authenticated (r : result Z) : option Z :=
  match r with
  | Ok version => if version <? 1 then None else Some version
  | Err _ => None
  end.

(** ** The admission store behind the hub *)

Definition with_db {A} (db : DB) (r : result (A * Tables)) : result (A * DB) :=
  let? '(a, T) := r in Ok (a, db <| relay := T |>).

#[export] Instance db_store : RelayStore DB := {
  rs_authorized p db := IsDeviceAuthorized p.1 p.2 db;
  rs_append p env e now db := with_db db (AppendDelivery (device_exists db) p env e now (relay db));
  rs_resume p c now l db := with_db db (ResumeDeliveries (device_exists db) p c now l (relay db));
  rs_read p c now l db := with_db db (ReadDeliveries p c now l (relay db));
  rs_ack p c db := with_relay db (AcknowledgeDelivery (device_exists db) p c (relay db))
}.

(** ** The monitor *)

(** The verdict on one observed session: an error fails closed. *)
Definition monitor_disconnects (authorized : result bool) : bool :=
  match authorized with Ok true => false | _ => true end.

(** The [Disconnect] calls of one tick, with the database at each check. *)
Definition monitor_tick (authorize : DB → PeerIdentity * Z * nat → result bool) (dbs : nat → DB)
  (observed : list (PeerIdentity * Z * nat)) : list (PeerIdentity * nat) :=
  omap (λ x, let '(i, (p, v, sid)) := x in
             if monitor_disconnects (authorize (dbs i) (p, v, sid)) then Some (p, sid) else None)
    (imap pair observed).

(** The monitor until its context ends, for the ticks it had: the calls it made,
    and what it returns. *)
Definition RunAuthorizationMonitor (hubGiven authorizeGiven : bool) (interval : Z)
  (authorize : DB → PeerIdentity * Z * nat → result bool)
  (ticks : list ((nat → DB) * list (PeerIdentity * Z * nat))) (cause : error) : list (PeerIdentity * nat) * error :=
  if negb hubGiven || negb authorizeGiven then ([], New "hub and peer authorizer are required")
  else if interval <=? 0 then ([], New "authorization monitor interval must be positive")
  else (concat (map (λ '(dbs, observed), monitor_tick authorize dbs observed) ticks), cause).

(** The authorizer of cmd/server. *)
Definition session_authorizer (db : DB) (s : PeerIdentity * Z * nat) : result bool :=
  let '(p, v, _) := s in IsSessionAuthorized p.1 p.2 v db.

(** ** Properties *)

Lemma auth_frame_length (f : bytes) : blen f = 68 → length f = 68%nat.
Proof. unfold blen. lia. Qed.

(** The authentication frame codec is exact: the relay reads a peer and a
    token from a frame exactly when the frame is their encoding, the token has
    32 bytes and both identifiers are 16 bytes, not all zero. *)
Theorem authentication_frame_exact f peer token :
  readAuthenticationFrame true f = Ok (peer, token) ↔
  EncodeAuthenticationFrame peer token = Ok f ∧ blen peer.1 = 16 ∧ blen peer.2 = 16 ∧
  peer.1 ≠ repeat Byte.x00 16 ∧ peer.2 ≠ repeat Byte.x00 16.
Proof.
  destruct peer as [w d]. unfold readAuthenticationFrame, EncodeAuthenticationFrame.
  cbn [fst snd]. split.
  - intros Hr. go_inv. go_bool. injection Hr as <- <- <-.
    match goal with Hl : blen f = _ |- _ => rename Hl into Hf end.
    rewrite !(slice_blen _ _ f 68) by (done || lia). split_and!; try done. go_pass; [|done]. f_equal.
    match goal with Hm : slice 0 4 f = _ |- _ => rewrite <-Hm end.
    rewrite !slice_join by lia. by apply slice_full, auth_frame_length.
  - intros (He & Hw & Hd & Hwz & Hdz). go_inv. go_bool. subst f.
    assert (length w = 16%nat) by (unfold blen in Hw; lia).
    assert (length d = 16%nat) by (unfold blen in Hd; lia).
    assert (length token = 32%nat) by (unfold blen in *; lia).
    go_pass; [|done]. go_pass.
    2: { rewrite !blen_app, Hw, Hd, Hg. done. }
    go_pass; [|slice_norm; by rewrite beq_refl].
    go_pass; slice_norm; [done|].
    by rewrite orb_false_iff, !beq_false.
Qed.

Section Revocation.
Context `{Wire, Ed25519}.

(** What a revocation means at the relay. After [RevokeDevice] succeeded, and
    whatever the store does next: the device cannot authenticate a connection,
    the monitor's verdict on any session of it is to disconnect, and a durable
    envelope addressed to it is refused without touching the store. *)
Theorem revoked_device_cut_off w ref sk now db r db1 dev ops :
  RevokeDevice w ref sk now db = Ok (r, db1) → resolveDeviceReference w ref db = Ok dev →
  let db2 := run ops db1 in
  (∀ token now' a, AuthenticateConnection (w, dev) token now' a db2 = (Err ErrUnauthorized, a, db2)) ∧
  (∀ v sid, monitor_disconnects (session_authorizer db2 ((w, dev), v, sid)) = true) ∧
  (∀ sender frame header now' (h : @Hub.Hub DB),
     store h = db2 → validateRoutedEnvelope sender frame = Ok ((w, dev), header) →
     perform sender (ReqRouteDurable frame now') h = (Finish (Err ErrRecipientUnauthorized), h)).
Proof.
  intros Hr Hres db2. destruct (Revoke_revokes _ _ _ _ _ _ _ _ ops Hr Hres) as (d & _ & Hd & Hrev).
  destruct (revoked_row_denied (w, dev) d db2 Hd Hrev) as (Ha & Hs & Hau). cbn [fst snd] in *.
  split_and!.
  - intros token now' a. unfold AuthenticateConnection. cbn [fst snd]. by rewrite Hau.
  - intros v sid. unfold session_authorizer. cbn [fst snd]. by rewrite Hs.
  - intros sender frame header now' h Hst Hv. unfold perform. rewrite Hv. unfold route_durable.
    cbn [rs_authorized db_store]. rewrite Hst. cbn [fst snd]. by rewrite Ha.
Qed.

Lemma monitor_tick_elem authorize dbs observed p v sid :
  (p, v, sid) ∈ observed → (∀ i, monitor_disconnects (authorize (dbs i) (p, v, sid)) = true) →
  (p, sid) ∈ monitor_tick authorize dbs observed.
Proof.
  intros Hin Hv. unfold monitor_tick. apply list_elem_of_lookup in Hin as [i Hi].
  apply list_elem_of_omap. exists (i, (p, v, sid)). split.
  - apply (list_elem_of_lookup_2 _ i). by rewrite list_lookup_imap, Hi.
  - by rewrite Hv.
Qed.

(** After the critical section of [Disconnect] the instance is not active. *)
Lemma disconnect_inactive (y y1 : @sys DB) t p sid :
  Hub.inv y → threads y !! t = Some (TDisconnect p sid) → Hub.step y y1 →
  threads y1 !! t ≠ threads y !! t →
  ∃ s, sessions (hub y1) !! sid = Some s ∧ session_peer s = p ∧ retired s ≠ None.
Proof.
  intros Hi Ht Hs Hne.
  destruct (inv_threads _ Hi _ _ Ht) as (s & Hsid & Hp). simpl in Hsid, Hp.
  assert (∀ t' th h', y1 = put t' th h' y → t' = t) as Hput.
  { intros t' th h' ->. destruct (decide (t' = t)); [done|]. exfalso. apply Hne. simpl.
    by rewrite lookup_insert_ne. }
  destruct Hs; try (match goal with |- context [put ?t' ?th ?h' _] =>
      pose proof (Hput t' th h' eq_refl); subst t'; simplify_eq end);
    try (by exfalso; apply Hne); try congruence.
  - exists s. split_and!; try done. apply (h_unslotted _ (inv_hub _ Hi) _ _ Hsid).
    intros Hslot. match goal with Hd : disconnect_locked _ _ _ = None |- _ =>
      unfold disconnect_locked in Hd; rewrite Hslot, decide_True, Hsid in Hd by done; discriminate Hd end.
  - match goal with Hd : disconnect_locked _ _ _ = Some _ |- _ => unfold disconnect_locked in Hd;
      destruct (devices (hub y) !! _) as [cur|]; [|done]; destruct (decide (cur = sid)); [|done];
      rewrite Hsid in Hd; injection Hd as <- <- end.
    exists (retire retirementRevoked s). split_and!; [simpl; by rewrite lookup_alter_eq, Hsid| |];
      unfold retire; destruct (retired s) eqn:E; simpl; congruence.
Qed.

Lemma retired_stays (y y2 : @sys DB) sid s :
  Hub.inv y → rtc Hub.step y y2 → sessions (hub y) !! sid = Some s → retired s ≠ None →
  session_active (session_peer s) sid (hub y2) = false.
Proof.
  intros Hi Hsteps Hs Hr. destruct (steps_hub_le _ _ Hi Hsteps _ _ Hs) as ((s' & Hs' & _ & _ & Hret & _) & _).
  unfold session_active. rewrite Hs'. destruct (retired s) as [x|]; [|done]. rewrite (Hret x eq_refl).
  by rewrite (bool_decide_eq_false_2 (Some x = None)), andb_false_r.
Qed.

(** C8: the monitor stops a revoked device's session. Every tick after a
    revocation asks the hub to disconnect every connected session of the device,
    whatever the store does meanwhile; and once a [Disconnect] call has passed its
    critical section, in any interleaving, that connection instance is never
    admitted to another operation. *)
Theorem revoked_session_stopped w ref sk now db r db1 dev opss st (y : @sys DB) v sid :
  RevokeDevice w ref sk now db = Ok (r, db1) → resolveDeviceReference w ref db = Ok dev →
  reachable st y → ((w, dev), v, sid) ∈ ConnectedSessions (hub y) →
  ((w, dev), sid) ∈ monitor_tick session_authorizer (λ i, run (opss i) db1) (ConnectedSessions (hub y)) ∧
  ∀ y0 t y1 y2, rtc Hub.step y y0 → threads y0 !! t = Some (TDisconnect (w, dev) sid) →
    Hub.step y0 y1 → threads y1 !! t ≠ threads y0 !! t → rtc Hub.step y1 y2 →
    session_active (w, dev) sid (hub y2) = false.
Proof.
  intros Hr Hres Hy Hin. split.
  - eapply monitor_tick_elem; [exact Hin|]. intros i.
    destruct (Revoke_revokes _ _ _ _ _ _ _ _ (opss i) Hr Hres) as (d & _ & Hd & Hrev).
    destruct (revoked_row_denied (w, dev) d _ Hd Hrev) as (_ & Hs & _). unfold session_authorizer.
    cbn [fst snd] in *. by rewrite Hs.
  - intros y0 t y1 y2 Hy0 Ht Hs Hne Hy2.
    assert (Hub.inv y0) as Hi0 by (eapply (inv_reachable st); unfold reachable; etrans; [exact Hy|exact Hy0]).
    assert (Hub.inv y1) as Hi1.
    { eapply (inv_reachable st). unfold reachable. etrans; [exact Hy|]. etrans; [exact Hy0|]. by apply rtc_once. }
    destruct (disconnect_inactive _ _ _ _ _ Hi0 Ht Hs Hne) as (s & Hsid & <- & Hret).
    by eapply retired_stays.
Qed.
End Revocation.

(** ** A connected session of the example's device *)

Lemma revoked_device_cut_off_witness :
  is_ok (RevokeDevice ws1 ref1 sk1 (at_second 10) joined) = true ∧
  ∀ ops v sid, monitor_disconnects (session_authorizer (run ops
    (from_ok no_revocation (RevokeDevice ws1 ref1 sk1 (at_second 10) joined)).2) ((ws1, dev1), v, sid)) = true.
Proof.
  pose proof (f_revokes _ _ _ example_facts) as Hok.
  split; [exact Hok|]. intros ops v sid.
  destruct (revoked_device_cut_off ws1 ref1 sk1 (at_second 10) joined _ _ dev1 ops
    (is_ok_pair no_revocation _ Hok) (f_resolves _ _ _ example_facts)) as (_ & Hm & _). apply Hm.
Defined.

Definition phone : PeerIdentity := (ws1, dev1).
Definition conn0 : @sys DB := init joined.
Definition conn1 : @sys DB := put 0 (TRegister phone 1 16 0) (hub conn0) conn0.
Definition conn2 : @sys DB := put 0 (TRegistered phone 0) (register_locked phone 1 16 (hub conn1)).2 conn1.

Lemma conn_register :
  register_locked phone 1 16 (hub conn1) =
  (RegNew 0, mkHub {[phone := 0%nat]} {[0%nat := newDeviceSession phone 1 16]} 1 joined).
Proof. unfold register_locked. simpl. by rewrite lookup_empty. Qed.

Lemma conn_reachable : reachable joined conn2.
Proof.
  unfold reachable. eapply (rtc_l _ _ conn1); [by apply S_call_register|]. apply rtc_once.
  eapply S_register_new; [simpl; by rewrite lookup_insert_eq|].
  rewrite conn_register. reflexivity.
Qed.

Lemma conn_connected : (phone, 1, 0%nat) ∈ ConnectedSessions (hub conn2).
Proof.
  unfold conn2, ConnectedSessions. rewrite conn_register. simpl. rewrite map_to_list_singleton. simpl.
  rewrite lookup_singleton_eq. apply list_elem_of_here.
Qed.

Lemma revoked_session_stopped_witness :
  is_ok (RevokeDevice ws1 ref1 sk1 (at_second 10) joined) = true ∧
  ∀ opss, (phone, 0%nat) ∈ monitor_tick session_authorizer
    (λ i, run (opss i) (from_ok no_revocation (RevokeDevice ws1 ref1 sk1 (at_second 10) joined)).2)
    (ConnectedSessions (hub conn2)).
Proof.
  pose proof (f_revokes _ _ _ example_facts) as Hok.
  split; [exact Hok|]. intros opss.
  destruct (revoked_session_stopped ws1 ref1 sk1 (at_second 10) joined _ _ dev1 opss joined conn2 1 0
    (is_ok_pair no_revocation _ Hok) (f_resolves _ _ _ example_facts) conn_reachable conn_connected) as [Hm _].
  exact Hm.
Defined.
