(* ===== verification/EndToEnd.v ===== *)
(** From a sender to a recipient: the hub, the registry's delivery tables and the
    session of the recipient together. A durable envelope that the relay accepted
    is never lost silently. *)

From S2P Require Import Prelude GoStd RoutingHeader EnvelopeFrame RelayDelivery DeliveryStore Hub Session.
From S2P Require Import SessionStream MembershipCodec Schema Admission StoreSteps RelayAccess.

#[local] Open Scope Z_scope.

(** ** Accepted envelopes stay in the log *)

Lemma history_extends M tr M' : mailbox_steps M tr M' → extends M M'.
Proof. induction 1 as [|M1 tr M2 e a M3 _ IH Hs]; [done|]. etrans; [done|]. by eapply mailbox_step_extends. Qed.

Lemma appended_logged M tr M' env ex now id :
  mailbox_steps M tr M' → (EvAppend env ex now, AnsID id) ∈ tr →
  1 ≤ id ≤ log_end M' ∧ log M' !! Z.to_nat (id - 1) = Some env.
Proof.
  induction 1 as [|M1 tr M2 e a M3 Hs IH Hst]; intros Hin; [by apply elem_of_nil in Hin|].
  pose proof (mailbox_step_extends _ _ _ _ Hst) as Hx.
  apply elem_of_app in Hin as [Hin|Hin].
  - destruct (IH Hin) as [? Hl]. pose proof (extends_end _ _ Hx). split; [lia|].
    destruct Hx as (Hp & _). by eapply prefix_lookup_Some.
  - apply list_elem_of_singleton in Hin. injection Hin as <- <-. inversion Hst; subst.
    unfold log_end in *. cbn. rewrite length_app. cbn. split; [lia|].
    rewrite lookup_app_r by lia. by replace (Z.to_nat _ - _)%nat with 0%nat by lia.
Qed.

(** ** What a session that resumes does with them *)

(** The fate of the envelope [env] with number [id] on a wire [outs]: delivered,
    covered by a reset that the client is told, or acknowledged by the device. *)
Definition accounted (id : Z) (env : bytes) (outs : list out) (acknowledged : Z) : Prop :=
  (∃ f, EncodeDelivery id env = Ok f ∧ OBinary f ∈ outs) ∨
  (∃ hw f, EncodeResetRequired hw = Ok f ∧ id ≤ hw ∧ OBinary f ∈ outs) ∨
  id ≤ acknowledged.

Lemma accounted_weaken id env outs outs' a a' :
  outs ⊆ outs' → a ≤ a' → accounted id env outs a → accounted id env outs' a'.
Proof.
  intros Hs Ha [(f & ? & ?)|[(hw & f & ? & ? & ?)|?]]; [left; exists f; auto|right; left; exists hw, f; auto|right; right; lia].
Qed.

Lemma segment_accounts M M' c0 c id env outs c1 :
  segment M M' c0 (EResume c) outs c1 → extends M M' → c < id ≤ log_end M →
  log M !! Z.to_nat (id - 1) = Some env → accounted id env outs (acked M').
Proof.
  intros Hs (Hp & _) Hid Hl. inversion Hs as [| | | |? ? ? ds os hw f c' Hev Hso Hfr He Hhw Hc'|? ? ? ds os hw f c' Hev Hso Hfr He Hhw]; subst.
  - destruct Hev as [[= <-]|[? _]]; [|done]. destruct (so_complete _ _ _ _ Hso id) as [Hin|Ha]; [lia| |by right; right].
    left. apply list_elem_of_fmap in Hin as (d & Hd & Hin). apply list_elem_of_lookup in Hin as [i Hi].
    destruct (Forall2_lookup_l _ _ _ _ _ Hfr Hi) as (o & Ho & f' & Hf' & ->).
    exists f'. pose proof (so_logged _ _ _ _ Hso) as Hlog. rewrite Forall_lookup in Hlog.
    destruct (Hlog i d Hi) as [_ Hd']. rewrite <-Hd in Hd'. rewrite (prefix_lookup_Some _ _ _ _ Hl Hp) in Hd'.
    injection Hd' as ->. rewrite Hd. split; [done|]. apply elem_of_app. left. by eapply list_elem_of_lookup_2.
  - right. left. exists hw, f. split_and!; [done|lia|]. apply elem_of_app. right. by apply list_elem_of_singleton.
Qed.

Lemma run_accounts M c0 evs outs M' c id env :
  session_run M c0 evs outs (Ok tt) M' → EResume c ∈ evs → c < id ≤ log_end M →
  log M !! Z.to_nat (id - 1) = Some env → accounted id env outs (acked M').
Proof.
  intros Hr. remember (Ok tt) as r eqn:Er. revert Er. induction Hr as [| |M M1 c0 ev c1 evs outs1 outs r M' Hx Hs Hrun IH];
    intros Er Hin Hid Hl; [by apply elem_of_nil in Hin|done|].
  assert (extends M1 M') as Hx'.
  { clear -Hrun. induction Hrun; [done|done|]. by etrans. }
  apply elem_of_cons in Hin as [<-|Hin].
  - eapply accounted_weaken; [| |by eapply segment_accounts]; [set_solver|]. by destruct Hx' as (_ & ? & _).
  - eapply accounted_weaken; [| |apply IH; [done|done| |]]; [set_solver|done| |].
    + pose proof (extends_end _ _ Hx). lia.
    + destruct Hx as (Hp & _). by eapply prefix_lookup_Some.
Qed.

(** ** From the hub to the wire *)

(** The device's acknowledgement in the tables. *)
Definition acknowledged (p : PeerIdentity) (T : Tables) : Z :=
  match states T !! p with Some s => acknowledged_delivery_id s | None => 0 end.

Lemma refines_acknowledged M p T : refines M p T → acked M = acknowledged p T.
Proof. unfold refines, acknowledged. destruct (states T !! p); [by intros (_ & -> & _)|by intros [-> _]]. Qed.

Lemma run_app calls calls' : DeliveryStore.run (calls ++ calls') = fold_left run_call calls' (DeliveryStore.run calls).
Proof. apply fold_left_app. Qed.

Lemma history_grows p calls T tr x :
  x ∈ history p tr → x ∈ history p (fold_left run_call calls (T, tr)).2.
Proof.
  revert T tr. induction calls as [|[fk [q e]] calls IH]; intros T tr Hx; [done|]. cbn [fold_left]. unfold run_call at 2.
  cbn [fst snd]. destruct (DeliveryStore.exec fk q e T) as [[a T']|]; [|by apply IH]. apply IH.
  destruct (decide (q = p)) as [->|Hne]; [rewrite history_snoc_eq; set_solver|by rewrite history_snoc_ne].
Qed.

(** The append of a durable envelope, as a call on the delivery tables. *)
Definition append_call (db : DB) (p : PeerIdentity) (frame : bytes) (expiresAt now : Z) : call :=
  (device_exists db, (p, EvAppend frame expiresAt now)).

Lemma route_append_call p frame expiresAt now (h h' : @Hub.Hub DB) calls :
  relay (store h) = (DeliveryStore.run calls).1 → route_append p frame expiresAt now h = (ThenWake p, h') →
  ∃ id, DeliveryStore.run (calls ++ [append_call (store h) p frame expiresAt now]) =
    (relay (store h'), (DeliveryStore.run calls).2 ++ [(p, (EvAppend frame expiresAt now, AnsID id))]).
Proof.
  intros Hr Ha. unfold route_append in Ha. cbn [rs_append db_store] in Ha. unfold with_db in Ha.
  destruct (AppendDelivery _ p frame expiresAt now (relay (store h))) as [[id T']|e] eqn:Hx; [|done].
  cbn [rbind] in Ha. injection Ha as <-. exists id. rewrite run_app. cbn [fold_left]. unfold run_call, append_call.
  cbn [fst snd DeliveryStore.exec]. rewrite <-Hr, Hx. by cbn.
Qed.

Lemma serve_run E p fuel M w evs w' :
  (∀ n, Forall (λ c, event_typed c.2.2) (env_calls E n)) → wok p M w → cursor_typed (cursor_of w) →
  Forall wevent_typed evs → serve_writer E p fuel evs w = Some (Ok tt, w') →
  ∃ M' outs, written w' = (written w ++ [OBinary authenticationSuccessAck]) ++ outs ∧ wok p M' w' ∧
    session_run M (cursor_of w) evs outs (Ok tt) M'.
Proof.
  intros HE Hok Hc Hevs Hx. apply a_bind_Some in Hx as [([] & w1 & Hw & Hx)|(e & w1 & _ & [=])].
  unfold writeMessage in Hw. destruct (env_write E _); [done|]. injection Hw as <-.
  exact (loop_run E p HE fuel M (add_out (OBinary authenticationSuccessAck) w) evs (Ok tt) w' Hok Hc Hevs Hx).
Qed.

(** C2: a durable envelope that the relay accepts is not lost silently. When the
    hub has checked a sender's envelope and stored it for its recipient, the
    recipient is a device of the sender's workspace, and the envelope has a number;
    whatever calls follow, for any devices, and whatever happens during the
    session, a session of the recipient that resumes before that number and is
    not cut off has sent it exactly that envelope under that number, or told it to
    reset, or the device has acknowledged it. *)
Theorem accepted_envelope_delivered sender p frame expiresAt now (h0 h h' : @Hub.Hub DB) calls :
  perform sender (ReqRouteDurable frame now) h0 = (ThenAppend p frame expiresAt now, h0) →
  Forall (λ c, event_typed c.2.2) calls → relay (store h) = (DeliveryStore.run calls).1 →
  route_append p frame expiresAt now h = (ThenWake p, h') →
  p.1 = sender.1 ∧ ∃ id, 1 ≤ id ∧
    ∀ later E fuel evs c w',
      Forall (λ c, event_typed c.2.2) later → (∀ n, Forall (λ c, event_typed c.2.2) (env_calls E n)) →
      Forall wevent_typed evs → EResume c ∈ evs → c < id →
      serve_writer E p fuel evs
        (new_writer (calls ++ append_call (store h) p frame expiresAt now :: later)) = Some (Ok tt, w') →
      accounted id frame (written w') (acknowledged p (tables w')).
Proof.
  intros Hp Ht Hr Ha. split.
  { unfold perform in Hp. destruct (validateRoutedEnvelope sender frame) as [[q header]|e] eqn:Hv; [|done].
    destruct (route_durable q header frame now h0) as [o|e] eqn:Hd; [|done]. injection Hp as ->.
    unfold route_durable in Hd. go_inv. destruct (negb v); [done|]. go_inv. injection Hd as <-.
    apply validateRoutedEnvelope_ok in Hv as (? & _ & _ & -> & ->). done. }
  destruct (route_append_call _ _ _ _ _ _ _ Hr Ha) as [id Hrun]. exists id.
  set (x := append_call (store h) p frame expiresAt now) in *.
  assert (∀ later, Forall (λ c, event_typed c.2.2) later → ∃ M, refines M p (DeliveryStore.run (calls ++ x :: later)).1 ∧
    1 ≤ id ≤ log_end M ∧ log M !! Z.to_nat (id - 1) = Some frame) as Hlog.
  { intros later Hl. destruct (calls_refine (calls ++ x :: later)) with (p := p) as (M & Hst & HM).
    { apply Forall_app. split; [done|]. by constructor. }
    exists M. split; [done|]. eapply appended_logged; [exact Hst|].
    change (calls ++ x :: later) with (calls ++ [x] ++ later). rewrite app_assoc, run_app, Hrun.
    apply history_grows. rewrite history_snoc_eq. apply elem_of_app. right. by apply list_elem_of_singleton. }
  split; [by destruct (Hlog [] (Forall_nil_2 _)) as (M & _ & [Hid _] & _)|].
  intros later E fuel evs c w' Hl HE Hevs Hin Hc Hs. destruct (Hlog later Hl) as (M & HM & Hid & Hf).
  destruct (new_writer_ok p (calls ++ x :: later)) as (_ & [_ Hall] & Hcur).
  { apply Forall_app. split; [done|]. by constructor. }
  destruct (serve_run E p fuel M (new_writer (calls ++ x :: later)) evs w' HE (conj HM Hall) Hcur Hevs Hs) as (M' & outs & -> & [HM' _] & Hsr).
  rewrite <-(refines_acknowledged _ _ _ HM'). eapply accounted_weaken; [| |eapply run_accounts; [exact Hsr|done|lia|done]]; [set_solver|done].
Qed.

(** ** A concrete delivery

    A device that is approved, and one that sends it an envelope. *)
Definition approved_device : DeviceRow :=
  mkDeviceRow DeviceAndroid [] [] [] 0 0 None 1 approved None None None None None None (Some 0) None None None.
Definition post_office : DB := empty_db <| device_rows := {[peerA := approved_device]} |>.
Definition open_hub : @Hub.Hub DB := mkHub ∅ ∅ 0 post_office.
Definition posted_at : Z := 1 * Second.

Definition posted_expiry : Z :=
  match perform peerB (ReqRouteDurable sample_envelope posted_at) open_hub with
  | (ThenAppend _ _ e _, _) => e
  | _ => 0
  end.
Definition posted : outcome * @Hub.Hub DB := route_append peerA sample_envelope posted_expiry posted_at open_hub.
Definition post_call : call := append_call post_office peerA sample_envelope posted_expiry posted_at.
Definition post_session : option (result unit * writer) :=
  serve_writer quiet_environment peerA 10 session_events (new_writer [post_call]).

Lemma posted_checked : perform peerB (ReqRouteDurable sample_envelope posted_at) open_hub =
  (ThenAppend peerA sample_envelope posted_expiry posted_at, open_hub).
Proof. vm_compute. reflexivity. Qed.
Lemma posted_stored : posted.1 = ThenWake peerA.
Proof. vm_compute. reflexivity. Qed.
Lemma post_session_ends : is_ok (default (Err ErrCanceled) (fst <$> post_session)) = true.
Proof. vm_compute. reflexivity. Qed.

Lemma accepted_envelope_delivered_witness :
  wire_ids (written (default no_writer post_session).2) = [1; 2] ∧
  ∃ id, 1 ≤ id ∧ accounted id sample_envelope (written (default no_writer post_session).2)
    (acknowledged peerA (tables (default no_writer post_session).2)).
Proof.
  split; [vm_compute; reflexivity|].
  assert (posted = (ThenWake peerA, posted.2)) as Hp by (rewrite <-posted_stored; apply surjective_pairing).
  destruct (accepted_envelope_delivered peerB peerA sample_envelope posted_expiry posted_at open_hub open_hub posted.2 []
    posted_checked (Forall_nil_2 _) eq_refl Hp) as (_ & id & Hid & Hall).
  exists id. split; [exact Hid|]. specialize (Hall [] quiet_environment 10%nat session_events 0).
  pose proof post_session_ends as He. unfold post_session in *.
  destruct (serve_writer _ _ _ _ _) as [[[[]|e] w']|] eqn:Hs; [|discriminate He..].
  apply (Hall w'); [apply Forall_nil_2|exact quiet_typed|exact session_events_typed|apply list_elem_of_here|lia|reflexivity].
Defined.
