(* ===== verification/Sql.v ===== *)
(** The relational engine under the admission database, as far as the schema
    migrations of internal/admission/store.go use it: named tables with typed
    columns, [CHECK]s and primary keys, the statements [CREATE TABLE],
    [CREATE INDEX], [CREATE TRIGGER], [ALTER TABLE ADD COLUMN], [INSERT],
    [UPDATE] and [DELETE], and the typing invariant they preserve. *)

From S2P Require Import Prelude GoStd.

(** Prove a decidable statement about closed terms by evaluating it. *)
Ltac by_decide :=
  match goal with |- ?P =>
    apply (proj1 (bool_decide_eq_true P)); vm_compute; reflexivity end.

(** ** Values and columns *)

Inductive value : Type :=
| NULL
| INTEGER (z : Z)
| TEXT (s : bytes)
| BLOB (b : bytes).

#[export] Instance value_eq_dec : EqDecision value.
Proof. solve_decision. Defined.

Inductive sqltype : Type := IntegerT | TextT | BlobT.

(** The [CHECK] constraints of the schema; each is about its own column. *)
Inductive constraint : Type :=
| Any
| LengthIs (n : Z)
| LengthBetween (lo hi : Z)
| Above (n : Z)
| EqualTo (n : Z)
| OneOf (values : list string).

Record column : Type := mkColumn {
  c_name : string;
  c_type : sqltype;
  c_nullable : bool;
  c_default : value;
  c_check : constraint
}.

Record tabledef : Type := mkTable {
  columns : list column;
  primary : list string;
  uniques : list (list string);
  references : list (list string * string)
}.

Inductive trigger : Type :=
| RejectInsert (table column : string) (v : value)
| RejectUpdate (table column : string) (v : value).

#[export] Instance sqltype_eq_dec : EqDecision sqltype.
Proof. solve_decision. Defined.
#[export] Instance constraint_eq_dec : EqDecision constraint.
Proof. solve_decision. Defined.
#[export] Instance column_eq_dec : EqDecision column.
Proof. solve_decision. Defined.
#[export] Instance tabledef_eq_dec : EqDecision tabledef.
Proof. solve_decision. Defined.
#[export] Instance trigger_eq_dec : EqDecision trigger.
Proof. solve_decision. Defined.

(** [length(X)]: the bytes of a blob, the characters of a text up to its first
    NUL (those of its bytes that do not continue a character). *)
Fixpoint text_length (s : bytes) : Z :=
  match s with
  | [] => 0
  | c :: rest => if b2z c =? 0 then 0
                 else (if continuation c then 0 else 1) + text_length rest
  end.

Definition value_length (v : value) : Z :=
  match v with TEXT s => text_length s | BLOB s => blen s | _ => 0 end.

Definition holds (k : constraint) (v : value) : bool :=
  match k, v with
  | _, NULL => true
  | Any, _ => true
  | LengthIs n, _ => value_length v =? n
  | LengthBetween lo hi, _ => (lo <=? value_length v) && (value_length v <=? hi)
  | Above n, INTEGER z => n <? z
  | EqualTo n, INTEGER z => z =? n
  | OneOf l, TEXT s => bool_decide (s ∈ bs <$> l)
  | _, _ => false
  end.

(** The type of a column in a [STRICT] table. *)
Definition has_type (t : sqltype) (v : value) : bool :=
  match t, v with
  | _, NULL => true
  | IntegerT, INTEGER _ => true
  | TextT, TEXT _ => true
  | BlobT, BLOB _ => true
  | _, _ => false
  end.

Definition column_ok (c : column) (v : value) : bool :=
  (c_nullable c || negb (bool_decide (v = NULL))) && has_type (c_type c) v && holds (c_check c) v.

(** ** Rows, tables, files *)

Abbreviation row := (gmap string value).
Definition get (r : row) (c : string) : value := default NULL (r !! c).

Definition names (d : tabledef) : list string := c_name <$> columns d.

Definition row_ok (d : tabledef) (r : row) : bool :=
  bool_decide (dom r = (list_to_set (names d) : gset string)) &&
  forallb (λ c, column_ok c (get r (c_name c))) (columns d).

Definition key_of (d : tabledef) (r : row) : list value := get r <$> primary d.

Definition table_ok (d : tabledef) (rs : list row) : bool :=
  forallb (row_ok d) rs && bool_decide (NoDup (key_of d <$> rs)).

Record schema : Type := mkSchema {
  defs : gmap string tabledef;
  indexes : gmap string (string * string);
  triggers : gmap string trigger
}.

Record file : Type := mkFile {
  sch : schema;
  data : gmap string (list row)
}.

Definition fresh_file : file := mkFile (mkSchema ∅ ∅ ∅) ∅.

Definition rows (t : string) (f : file) : list row := default [] (data f !! t).

(** Every table of the file satisfies its declaration. *)
Definition typed (f : file) : Prop :=
  ∀ t d, defs (sch f) !! t = Some d → table_ok d (rows t f) = true.

(** ** Data definition

    What a statement does to the schema depends on the schema alone; what it
    does to the rows is [ddl_data]. *)

Inductive ddl : Type :=
| CreateTable (t : string) (d : tabledef)
| CreateTableIfNotExists (t : string) (d : tabledef)
| CreateIndex (i t c : string)
| CreateTrigger (n : string) (g : trigger)
| AddColumn (t : string) (c : column).

Definition add_column (c : column) (d : tabledef) : tabledef :=
  mkTable (columns d ++ [c]) (primary d) (uniques d) (references d).

Definition exists_column (s : schema) (t c : string) : bool :=
  match defs s !! t with
  | Some d => bool_decide (c ∈ names d)
  | None => false
  end.

Definition trigger_column (g : trigger) : string * string :=
  match g with RejectInsert t c _ | RejectUpdate t c _ => (t, c) end.

Definition ddl_schema (x : ddl) (s : schema) : result schema :=
  match x with
  | CreateTable t d =>
      fail_if bool_decide (is_Some (defs s !! t)) with_msg "table already exists" in
      Ok (mkSchema (<[t := d]> (defs s)) (indexes s) (triggers s))
  | CreateTableIfNotExists t d =>
      match defs s !! t with
      | Some _ => Ok s
      | None => Ok (mkSchema (<[t := d]> (defs s)) (indexes s) (triggers s))
      end
  | CreateIndex i t c =>
      fail_if bool_decide (is_Some (indexes s !! i)) with_msg "index already exists" in
      fail_if negb (exists_column s t c) with_msg "no such column" in
      Ok (mkSchema (defs s) (<[i := (t, c)]> (indexes s)) (triggers s))
  | CreateTrigger n g =>
      fail_if bool_decide (is_Some (triggers s !! n)) with_msg "trigger already exists" in
      fail_if negb (exists_column s (trigger_column g).1 (trigger_column g).2)
        with_msg "no such column" in
      Ok (mkSchema (defs s) (indexes s) (<[n := g]> (triggers s)))
  | AddColumn t c =>
      match defs s !! t with
      | None => Err (New "no such table")
      | Some d =>
          fail_if bool_decide (c_name c ∈ names d) with_msg "duplicate column name" in
          fail_if negb (c_nullable c) && bool_decide (c_default c = NULL)
            with_msg "Cannot add a NOT NULL column with default value NULL" in
          Ok (mkSchema (<[t := add_column c d]> (defs s)) (indexes s) (triggers s))
      end
  end.

(** The rows of table [t] after statement [x], which ran on schema [s]. *)
Definition ddl_rows (x : ddl) (s : schema) (t : string) (rs : list row) : list row :=
  match x with
  | CreateTable t' _ => if decide (t = t') then [] else rs
  | CreateTableIfNotExists t' _ =>
      if decide (t = t' ∧ defs s !! t' = None) then [] else rs
  | AddColumn t' c => if decide (t = t') then <[c_name c := c_default c]> <$> rs else rs
  | CreateIndex _ _ _ | CreateTrigger _ _ => rs
  end.

Definition ddl_data (x : ddl) (s : schema) (m : gmap string (list row)) : gmap string (list row) :=
  match x with
  | CreateTable t _ => <[t := []]> m
  | CreateTableIfNotExists t _ =>
      match defs s !! t with Some _ => m | None => <[t := []]> m end
  | AddColumn t c => <[t := ddl_rows x s t (default [] (m !! t))]> m
  | CreateIndex _ _ _ | CreateTrigger _ _ => m
  end.

(** [ADD COLUMN] tests its default against the rows that receive it. *)
Definition default_ok (x : ddl) : bool :=
  match x with AddColumn _ c => column_ok c (c_default c) | _ => true end.

Definition receives (x : ddl) (f : file) : bool :=
  match x with AddColumn t _ => negb (bool_decide (rows t f = [])) | _ => false end.

Definition exec_ddl (x : ddl) (f : file) : result file :=
  let? s := ddl_schema x (sch f) in
  fail_if receives x f && negb (default_ok x) with_msg "CHECK constraint failed" in
  Ok (mkFile s (ddl_data x (sch f) (data f))).

Fixpoint exec_all (xs : list ddl) (f : file) : result file :=
  match xs with
  | [] => Ok f
  | x :: rest => let? f' := exec_ddl x f in exec_all rest f'
  end.

(** ** Data manipulation *)

Definition set_rows (t : string) (rs : list row) (f : file) : file :=
  mkFile (sch f) (<[t := rs]> (data f)).

(** Replace the rows of [t]; fails when the table is missing or the new rows
    break a constraint of its declaration. *)
Definition store_rows (t : string) (rs : list row) (f : file) : result file :=
  match defs (sch f) !! t with
  | None => Err (New "no such table")
  | Some d =>
      fail_if negb (table_ok d rs) with_msg "constraint failed" in
      Ok (set_rows t rs f)
  end.

Definition exec_insert (t : string) (r : row) (f : file) : result file :=
  store_rows t (rows t f ++ [r]) f.

Definition exec_update (t : string) (assign : row → row) (where_ : row → bool) (f : file)
  : result file :=
  store_rows t ((λ r, if where_ r then assign r else r) <$> rows t f) f.

Definition exec_delete (t : string) (where_ : row → bool) (f : file) : result file :=
  store_rows t (List.filter (λ r, negb (where_ r)) (rows t f)) f.

(** ** The typing invariant *)

Lemma rows_set t t' rs f :
  rows t (set_rows t' rs f) = if decide (t = t') then rs else rows t f.
Proof.
  unfold rows, set_rows. simpl. destruct (decide (t = t')) as [->|].
  - by rewrite lookup_insert_eq.
  - by rewrite lookup_insert_ne.
Qed.

Lemma store_rows_Ok t rs f f' :
  store_rows t rs f = Ok f' ↔
  ∃ d, defs (sch f) !! t = Some d ∧ table_ok d rs = true ∧ f' = set_rows t rs f.
Proof.
  unfold store_rows. destruct (defs (sch f) !! t) as [d|]; [|naive_solver].
  rewrite fail_if_Ok, negb_false_iff. split; [|naive_solver].
  intros [? E%Ok_inj]. eauto.
Qed.

Lemma store_rows_typed t rs f f' : typed f → store_rows t rs f = Ok f' → typed f'.
Proof.
  intros Hf (d & Hd & Hok & ->)%store_rows_Ok t' d' Hd'. rewrite rows_set.
  destruct (decide (t' = t)) as [->|]; [|by apply Hf].
  simpl in Hd'. congruence.
Qed.

Lemma store_rows_sch t rs f f' : store_rows t rs f = Ok f' → sch f' = sch f.
Proof. by intros (d & _ & _ & ->)%store_rows_Ok. Qed.

Lemma row_ok_column d r c :
  row_ok d r = true → c ∈ columns d → column_ok c (get r (c_name c)) = true.
Proof.
  unfold row_ok. intros [_ H]%andb_true_iff Hc. rewrite forallb_forall in H.
  apply H. by apply list_elem_of_In.
Qed.

Lemma row_ok_dom d r c : row_ok d r = true → c ∉ names d → r !! c = None.
Proof.
  unfold row_ok. intros [H _]%andb_true_iff Hc. apply bool_decide_eq_true in H.
  apply (not_elem_of_dom (D:=gset string)). rewrite H. set_solver.
Qed.

Lemma row_ok_get d r c : row_ok d r = true → c ∉ names d → get r c = NULL.
Proof. intros H Hc. unfold get. by rewrite (row_ok_dom d r c H Hc). Qed.

Lemma get_insert r c v c' : get (<[c := v]> r) c' = if decide (c = c') then v else get r c'.
Proof.
  unfold get. destruct (decide (c = c')) as [->|].
  - by rewrite lookup_insert_eq.
  - by rewrite lookup_insert_ne.
Qed.

Lemma row_ok_add_column d r c :
  row_ok d r = true → c_name c ∉ names d → column_ok c (c_default c) = true →
  row_ok (add_column c d) (<[c_name c := c_default c]> r) = true.
Proof.
  intros Hr Hc Hok. pose proof (row_ok_column d r) as Hcol. unfold row_ok in *.
  apply andb_true_iff in Hr as [Hdom Hall]. apply bool_decide_eq_true in Hdom.
  apply andb_true_iff. split.
  - apply bool_decide_eq_true. rewrite dom_insert_L, Hdom. unfold names, add_column. simpl.
    rewrite fmap_app. set_solver.
  - rewrite forallb_forall in Hall |- *. intros x Hx%list_elem_of_In. simpl in Hx.
    apply elem_of_app in Hx as [Hx|Hx].
    + rewrite get_insert, decide_False; [apply Hall; by apply list_elem_of_In|].
      intros E. apply Hc. rewrite E. by apply list_elem_of_fmap_2.
    + apply list_elem_of_singleton in Hx as ->. by rewrite get_insert, decide_True.
Qed.

Lemma get_lookup r c : get r c = default NULL (r !! c).
Proof. done. Qed.

Lemma get_Some r c v : get r c = v → v ≠ NULL → r !! c = Some v.
Proof. unfold get. destruct (r !! c); simpl; congruence. Qed.

(** Unification never has to compare two rows by running their lookups. *)
#[global] Opaque get.

(** A primary key names declared columns. *)
Definition keys_declared (s : schema) : Prop :=
  ∀ t d, defs s !! t = Some d → primary d ⊆ names d.

Lemma key_of_add_column d r c v :
  primary d ⊆ names d → c ∉ names d → key_of d (<[c := v]> r) = key_of d r.
Proof.
  intros Hp Hc. unfold key_of. apply list_fmap_ext. intros i x Hx.
  rewrite get_insert, decide_False; [done|]. intros ->. apply Hc, Hp.
  by eapply list_elem_of_lookup_2.
Qed.

Lemma table_ok_add_column d rs c :
  table_ok d rs = true → primary d ⊆ names d → c_name c ∉ names d →
  (rs = [] ∨ column_ok c (c_default c) = true) →
  table_ok (add_column c d) (<[c_name c := c_default c]> <$> rs) = true.
Proof.
  unfold table_ok. intros [Hr Hn]%andb_true_iff Hp Hc Hok. apply andb_true_iff. split.
  - destruct Hok as [->|Hok]; [done|]. rewrite forallb_forall in Hr |- *.
    intros x Hx%list_elem_of_In. apply list_elem_of_fmap in Hx as (r & -> & Hx).
    apply row_ok_add_column; auto. by apply Hr, list_elem_of_In.
  - apply bool_decide_eq_true in Hn. apply bool_decide_eq_true. rewrite <-list_fmap_compose.
    erewrite list_fmap_ext; [exact Hn|]. intros i r _. simpl.
    change (primary (add_column c d)) with (primary d).
    exact (key_of_add_column d r (c_name c) (c_default c) Hp Hc).
Qed.

Lemma table_ok_nil d : table_ok d [] = true.
Proof. done. Qed.

Lemma rows_ddl x f s t :
  ddl_schema x (sch f) = Ok s →
  rows t (mkFile s (ddl_data x (sch f) (data f))) = ddl_rows x (sch f) t (rows t f).
Proof.
  intros _. destruct x as [t' d|t' d|i t' c|n g|t' c]; cbn [ddl_data ddl_rows]; try done.
  - destruct (decide (t = t')) as [->|]; unfold rows; cbn [data];
      by rewrite ?lookup_insert_eq, ?lookup_insert_ne.
  - destruct (defs (sch f) !! t') eqn:E.
    + rewrite decide_False; [done|]. intros [_ ?]; congruence.
    + destruct (decide (t = t')) as [->|].
      * rewrite decide_True by done. unfold rows; cbn [data]. by rewrite lookup_insert_eq.
      * rewrite decide_False by tauto. unfold rows; cbn [data]. by rewrite lookup_insert_ne.
  - destruct (decide (t = t')) as [->|]; unfold rows; cbn [data].
    + by rewrite lookup_insert_eq, decide_True.
    + by rewrite lookup_insert_ne.
Qed.

Lemma exec_ddl_Ok x f f' :
  exec_ddl x f = Ok f' →
  ddl_schema x (sch f) = Ok (sch f') ∧
  (receives x f = true → default_ok x = true) ∧
  ∀ t, rows t f' = ddl_rows x (sch f) t (rows t f).
Proof.
  unfold exec_ddl. intros H. apply rbind_Ok in H as (s & Hs & H).
  apply fail_if_Ok in H as [Hg H]. apply Ok_inj in H as <-.
  split; [done|]. split; [|intros t; by apply rows_ddl].
  intros Hrec. rewrite Hrec in Hg. simpl in Hg. by apply negb_false_iff in Hg.
Qed.

Lemma exec_ddl_typed x f f' :
  keys_declared (sch f) → typed f → exec_ddl x f = Ok f' → typed f'.
Proof.
  intros Hk Hf (Hs & Hdef & Hrows)%exec_ddl_Ok t d. rewrite Hrows. clear Hrows.
  destruct x as [t' d'|t' d'|i t' c|n g|t' c]; cbn [ddl_schema ddl_rows] in *.
  - apply fail_if_Ok in Hs as [_ <-%Ok_inj]. cbn [defs].
    destruct (decide (t = t')) as [->|]; [intros; apply table_ok_nil|].
    rewrite lookup_insert_ne by done. apply Hf.
  - destruct (defs (sch f) !! t') eqn:E; apply Ok_inj in Hs as <-.
    + rewrite decide_False; [apply Hf|]. intros [_ ?]; congruence.
    + cbn [defs]. destruct (decide (t = t')) as [->|].
      * rewrite decide_True by done. intros; apply table_ok_nil.
      * rewrite decide_False, lookup_insert_ne by (tauto || done). apply Hf.
  - go_inv. rewrite <-Hs. apply Hf.
  - go_inv. rewrite <-Hs. apply Hf.
  - destruct (defs (sch f) !! t') as [d'|] eqn:E; [|done]. go_inv. rewrite <-Hs. cbn [defs].
    destruct (decide (t = t')) as [->|]; [|rewrite lookup_insert_ne by done; apply Hf].
    rewrite lookup_insert_eq. intros [= <-]. go_bool.
    apply table_ok_add_column; [by apply Hf|by eapply Hk|done|].
    unfold receives in Hdef. destruct (rows t' f); [by left|right]. by apply Hdef.
Qed.
