(* ===== verification/Migrations.v ===== *)
(** Opening the admission database (internal/admission/store.go, [Open],
    [initialize], [applySchemaVersion2] to [applySchemaVersion11]): the schema
    of every version, one transaction per version, the backfill of revocation
    epochs and the retirement of legacy devices.

    A migration returns its error together with the file it leaves: a failed
    transaction leaves the file as the last commit left it. [clock v] is the
    time at which the transaction of version [v] runs, [io v] the failure of
    the driver (or the death of the process) during it, if any. *)

From S2P Require Import Prelude GoStd MembershipCodec Schema Sql.

#[local] Open Scope string_scope.
#[local] Open Scope Z_scope.

(** ** Column declarations *)

Definition blob (n : string) (k : constraint) : column := mkColumn n BlobT false NULL k.
Definition int (n : string) (k : constraint) : column := mkColumn n IntegerT false NULL k.
Definition text (n : string) (k : constraint) : column := mkColumn n TextT false NULL k.
Definition nullable (c : column) : column :=
  mkColumn (c_name c) (c_type c) true (c_default c) (c_check c).
Definition defaults (v : value) (c : column) : column :=
  mkColumn (c_name c) (c_type c) (c_nullable c) v (c_check c).

Definition device_types : list string := ["android"; "chrome"].
Definition membership_states : list string :=
  ["legacy_active"; "pending_proof"; "pending_approval"; "approved"; "revoked"].

Definition state_value (s : membershipState) : value :=
  TEXT (bs match s with
           | legacy_active => "legacy_active"
           | pending_proof => "pending_proof"
           | pending_approval => "pending_approval"
           | approved => "approved"
           | revoked => "revoked"
           end).

Definition zero_digest : bytes := replicate 32 Byte.x00.

(** ** The statements of each version *)

Definition schema_migrations_def : tabledef :=
  mkTable [int "version" Any; int "applied_at_ms" Any] ["version"] [] [].

Definition statements1 : list ddl := [
  CreateTable "workspaces" (mkTable
    [blob "id" (LengthIs 16); int "created_at_ms" Any] ["id"] [] []);
  CreateTable "pairing_codes" (mkTable
    [blob "code_hash" (LengthIs 32); blob "workspace_id" Any;
     text "device_type" (OneOf device_types); nullable (text "bound_name" Any);
     int "created_at_ms" Any; int "expires_at_ms" Any; nullable (int "consumed_at_ms" Any)]
    ["code_hash"] [] [(["workspace_id"], "workspaces")]);
  CreateIndex "pairing_codes_expiry" "pairing_codes" "expires_at_ms";
  CreateTable "devices" (mkTable
    [blob "workspace_id" Any; blob "id" (LengthIs 16);
     text "device_type" (OneOf device_types); text "device_name" Any;
     blob "auth_token_hash" (LengthIs 32); blob "e2ee_public_key" (LengthIs 65);
     int "registered_at_ms" Any; int "last_online_at_ms" Any;
     nullable (int "revoked_at_ms" Any)]
    ["workspace_id"; "id"] [["auth_token_hash"]] [(["workspace_id"], "workspaces")])].

Definition statements2 : list ddl := [
  AddColumn "devices" (defaults (INTEGER 1) (int "credential_version" (Above 0)));
  CreateTable "credential_rotation_codes" (mkTable
    [blob "code_hash" (LengthIs 32); blob "workspace_id" Any; blob "device_id" Any;
     int "created_at_ms" Any; int "expires_at_ms" Any; nullable (int "consumed_at_ms" Any)]
    ["code_hash"] [] [(["workspace_id"; "device_id"], "devices")]);
  CreateIndex "credential_rotation_codes_expiry" "credential_rotation_codes" "expires_at_ms"].

Definition statements3 : list ddl := [
  AddColumn "workspaces" (nullable (blob "authority_public_key" (LengthIs 32)))].

Definition statements4 : list ddl := [
  AddColumn "devices" (defaults (state_value legacy_active)
    (text "membership_state" (OneOf membership_states)));
  AddColumn "devices" (nullable (blob "proof_challenge_digest" (LengthIs 32)));
  AddColumn "devices" (nullable (blob "proof_secret_hash" (LengthIs 32)));
  AddColumn "devices" (nullable (int "proof_expires_at_ms" Any));
  AddColumn "devices" (nullable (int "proof_completed_at_ms" Any));
  AddColumn "devices" (nullable (blob "certificate_id" (LengthIs 32)));
  AddColumn "devices" (nullable (blob "signed_certificate" Any));
  AddColumn "devices" (nullable (int "approved_at_ms" Any));
  CreateTable "workspace_rosters" (mkTable
    [blob "workspace_id" Any; int "epoch" (Above 0); blob "digest" (LengthIs 32);
     blob "previous_digest" (LengthIs 32); blob "signed_roster" Any; int "created_at_ms" Any]
    ["workspace_id"; "epoch"] [["workspace_id"; "digest"]] [(["workspace_id"], "workspaces")])].

Definition statements5 : list ddl := [
  AddColumn "devices" (nullable (int "revoked_membership_epoch" (Above 0)))].

Definition statements6 : list ddl := [
  AddColumn "workspaces" (defaults (INTEGER 1) (int "authority_epoch" (Above 0)));
  AddColumn "workspaces" (defaults (BLOB zero_digest)
    (blob "authority_transition_digest" (LengthIs 32)));
  CreateTable "workspace_authority_transitions" (mkTable
    [blob "workspace_id" Any; int "epoch" (Above 1); blob "digest" (LengthIs 32);
     blob "previous_digest" (LengthIs 32);
     blob "previous_authority_public_key" (LengthIs 32);
     blob "new_authority_public_key" (LengthIs 32);
     int "activation_roster_epoch" (Above 1); blob "signed_transition" Any;
     int "created_at_ms" Any]
    ["workspace_id"; "epoch"] [["workspace_id"; "digest"]] [(["workspace_id"], "workspaces")])].

Definition statements7 : list ddl := [
  CreateTable "relay_delivery_state" (mkTable
    [blob "workspace_id" Any; blob "recipient_device_id" Any;
     int "next_delivery_id" (Above 0); int "acknowledged_delivery_id" (Above (-1));
     int "unavailable_through_id" (Above (-1))]
    ["workspace_id"; "recipient_device_id"] []
    [(["workspace_id"; "recipient_device_id"], "devices")]);
  CreateTable "relay_deliveries" (mkTable
    [blob "workspace_id" Any; blob "recipient_device_id" Any; int "delivery_id" (Above 0);
     blob "envelope" Any; int "expires_at_ms" Any; int "created_at_ms" Any]
    ["workspace_id"; "recipient_device_id"; "delivery_id"] []
    [(["workspace_id"; "recipient_device_id"], "relay_delivery_state")]);
  CreateIndex "relay_deliveries_expiry" "relay_deliveries" "expires_at_ms"].

Definition statements8 : list ddl := [
  CreateTrigger "reject_legacy_device_insert"
    (RejectInsert "devices" "membership_state" (state_value legacy_active));
  CreateTrigger "reject_legacy_device_update"
    (RejectUpdate "devices" "membership_state" (state_value legacy_active))].

Definition statements9 : list ddl := [
  AddColumn "devices" (nullable (int "last_authenticated_at_ms" Any));
  AddColumn "devices" (nullable (int "last_activity_at_ms" Any))].

Definition statements10 : list ddl := [
  CreateTable "administrator_credentials" (mkTable
    [int "id" (EqualTo 1); text "name" (LengthBetween 1 64);
     text "password_hash" (LengthBetween 1 512); text "totp_secret" (LengthBetween 1 128);
     int "updated_at_ms" Any] ["id"] [] [])].

Definition statements11 : list ddl := [
  CreateTable "workspace_preferences" (mkTable
    [blob "workspace_id" Any;
     text "preference_key" (LengthBetween 1 maxPreferenceKeyBytes);
     int "revision" (Above 0); blob "payload" (LengthBetween 1 maxPreferencePayloadBytes);
     int "updated_at_ms" Any]
    ["workspace_id"; "preference_key"] [] [(["workspace_id"], "workspaces")])].

(** ** Transactions *)

Definition mig : Type := file → result unit * file.

Definition then_ (a b : mig) : mig := λ f,
  match a f with
  | (Ok _, f') => b f'
  | (Err e, f') => (Err e, f')
  end.
Notation "a ;;; b" := (then_ a b) (at level 60, right associativity) : go_scope.

(** [INSERT INTO schema_migrations(version, applied_at_ms) VALUES (v, now)] *)
Definition record_version (v now : Z) (f : file) : result file :=
  exec_insert "schema_migrations"
    {["version" := INTEGER v; "applied_at_ms" := INTEGER now]} f.

(** [SELECT COALESCE(MAX(version), 0) FROM schema_migrations] *)
Definition version_of (r : row) : Z :=
  match get r "version" with INTEGER v => v | _ => 0 end.
Definition schema_version (f : file) : Z :=
  foldr Z.max 0 (version_of <$> rows "schema_migrations" f).

(** [HealthCheck]: the same read, which needs the table. *)
Definition HealthCheck (f : file) : result unit :=
  match defs (sch f) !! "schema_migrations" with
  | Some _ => Ok tt
  | None => Err (Wrapf "read schema version" (New "no such table: schema_migrations"))
  end.

(** Columns scanned into byte slices: [NULL] becomes the nil slice. *)
Definition bytes_of (v : value) : bytes := match v with BLOB b | TEXT b => b | _ => [] end.
Definition int_of (v : value) : Z := match v with INTEGER z => z | _ => 0 end.

Definition in_state (s : membershipState) (r : row) : bool :=
  bool_decide (get r "membership_state" = state_value s).

Section Migrations.
Context `{Wire, Ed25519}.

(** *** Version 5: the epoch at which a certified device was revoked *)

Record revokedCertificate : Type := mkRevokedCertificate {
  rcert_workspaceID : bytes;
  rcert_deviceID : bytes;
  rcert_certificateID : bytes;
  rcert_authorityPublicKey : bytes
}.

Definition certified_revoked (d : row) : bool :=
  in_state revoked d && negb (bool_decide (get d "certificate_id" = NULL)).

Definition revoked_certificates (f : file) : list revokedCertificate :=
  d ← filter (λ d, Is_true (certified_revoked d)) (rows "devices" f);
  w ← filter (λ w, get w "id" = get d "workspace_id") (rows "workspaces" f);
  [mkRevokedCertificate (bytes_of (get d "workspace_id")) (bytes_of (get d "id"))
     (bytes_of (get d "certificate_id")) (bytes_of (get w "authority_public_key"))].

Definition epoch_le (a b : row) : Prop := int_of (get a "epoch") ≤ int_of (get b "epoch").
#[export] Instance epoch_le_dec a b : Decision (epoch_le a b).
Proof. unfold epoch_le. apply _. Defined.

(** [... FROM workspace_rosters WHERE workspace_id = ? ORDER BY epoch] *)
Definition rosters_by_epoch (w : bytes) (f : file) : list row :=
  merge_sort epoch_le (filter (λ r, get r "workspace_id" = BLOB w) (rows "workspace_rosters" f)).

Definition lists_revocation (item : revokedCertificate) (s : SignedWorkspaceRoster) : bool :=
  match sr_roster s with
  | None => false
  | Some roster =>
      existsb (λ entry, beq (rv_certificate_id entry) (rcert_certificateID item) &&
                        beq (rv_device_id entry) (rcert_deviceID item)) (ro_revocations roster)
  end.

Fixpoint find_epoch (item : revokedCertificate) (rs : list row) : result Z :=
  match rs with
  | [] => Ok 0
  | r :: rest =>
      let? roster := wrapf "decode revocation roster for schema version 5"
        (DecodeSignedWorkspaceRoster (bytes_of (get r "signed_roster"))
           (rcert_authorityPublicKey item)) in
      let epoch := if lists_revocation item roster then int_of (get r "epoch") else 0 in
      if epoch =? 0 then find_epoch item rest else Ok epoch
  end.

Definition revocation_epoch (item : revokedCertificate) (f : file) : result Z :=
  fail_if negb (blen (rcert_workspaceID item) =? 16) || negb (blen (rcert_deviceID item) =? 16) ||
          negb (blen (rcert_certificateID item) =? 32) ||
          negb (blen (rcert_authorityPublicKey item) =? 32)
    with_msg "invalid certified revocation during schema version 5" in
  let? epoch := find_epoch item (rosters_by_epoch (rcert_workspaceID item) f) in
  fail_if epoch =? 0 with_msg "certified revocation roster is missing during schema version 5" in
  Ok epoch.

Definition is_device (w id : bytes) (r : row) : bool :=
  bool_decide (get r "workspace_id" = BLOB w) && bool_decide (get r "id" = BLOB id).

Fixpoint backfill (items : list revokedCertificate) (f : file) : result file :=
  match items with
  | [] => Ok f
  | item :: rest =>
      let? epoch := revocation_epoch item f in
      let? f' := wrapf "backfill revocation epoch for schema version 5"
        (exec_update "devices" (λ r, <["revoked_membership_epoch" := INTEGER epoch]> r)
           (is_device (rcert_workspaceID item) (rcert_deviceID item)) f) in
      backfill rest f'
  end.

(** *** Version 8: legacy devices are revoked, and their codes removed *)

Definition delete_legacy_codes (f : file) : result file :=
  let legacy := filter (λ d, Is_true (in_state legacy_active d)) (rows "devices" f) in
  let keys := (λ d, (get d "workspace_id", get d "id")) <$> legacy in
  wrapf "remove legacy credential rotation codes in schema version 8"
    (exec_delete "credential_rotation_codes"
       (λ r, bool_decide ((get r "workspace_id", get r "device_id") ∈ keys)) f).

Definition coalesce (a b : value) : value := if decide (a = NULL) then b else a.

Definition revoke_row (now : Z) (d : row) : row :=
  <["membership_state" := state_value revoked]>
    (<["revoked_at_ms" := coalesce (get d "revoked_at_ms") (INTEGER now)]> d).

Definition revoke_legacy (now : Z) (f : file) : result file :=
  wrapf "revoke legacy devices in schema version 8"
    (exec_update "devices" (revoke_row now) (in_state legacy_active) f).

(** *** The transactions *)

Section Run.
Variable clock : Z → Z.
Variable io : Z → option error.

Definition transaction (v : Z) (body : file → result file) : mig := λ f,
  match io v with
  | Some e => (Err (Wrapf "schema migration" e), f)
  | None => match body f with
            | Ok f' => (Ok tt, f')
            | Err e => (Err e, f)
            end
  end.

Definition migrate (v : Z) (statements : list ddl) (f : file) : result file :=
  let? f' := wrapf "apply schema version" (exec_all statements f) in
  wrapf "record schema version" (record_version v (clock v) f').

Definition version5_body (f : file) : result file :=
  let? f' := wrapf "apply schema version 5" (exec_all statements5 f) in
  let? f'' := backfill (revoked_certificates f') f' in
  wrapf "record schema version 5" (record_version 5 (clock 5) f'').

Definition version8_body (f : file) : result file :=
  let? f1 := delete_legacy_codes f in
  let? f2 := revoke_legacy (clock 8) f1 in
  let? f3 := wrapf "apply schema version 8" (exec_all statements8 f2) in
  wrapf "record schema version 8" (record_version 8 (clock 8) f3).

Definition applySchemaVersion11 : mig := transaction 11 (migrate 11 statements11).
Definition applySchemaVersion10 : mig :=
  transaction 10 (migrate 10 statements10) ;;; applySchemaVersion11.
Definition applySchemaVersion9 : mig :=
  transaction 9 (migrate 9 statements9) ;;; applySchemaVersion10.
Definition applySchemaVersion8 : mig := transaction 8 version8_body ;;; applySchemaVersion9.
Definition applySchemaVersion7 : mig :=
  transaction 7 (migrate 7 statements7) ;;; applySchemaVersion8.
Definition applySchemaVersion6 : mig := transaction 6 (migrate 6 statements6).
Definition applySchemaVersion5 : mig := transaction 5 version5_body.
Definition applySchemaVersion4 : mig := transaction 4 (migrate 4 statements4).
Definition applySchemaVersion3 : mig := transaction 3 (migrate 3 statements3).
Definition applySchemaVersion2 : mig := transaction 2 (migrate 2 statements2).
Definition applySchemaVersion1 : mig := transaction 1 (migrate 1 statements1).

Definition create_migration_table : mig := λ f,
  match wrapf "create migration table"
          (exec_ddl (CreateTableIfNotExists "schema_migrations" schema_migrations_def) f) with
  | Ok f' => (Ok tt, f')
  | Err e => (Err e, f)
  end.

Definition dispatch : mig := λ f,
  let version := schema_version f in
  if version >? currentSchemaVersion then
    (Err (New "database schema version is newer than supported version"), f)
  else if version =? currentSchemaVersion then (Ok tt, f)
  else if version =? 10 then applySchemaVersion11 f
  else if version =? 9 then applySchemaVersion10 f
  else if version =? 8 then applySchemaVersion9 f
  else if version =? 7 then applySchemaVersion8 f
  else if version =? 6 then applySchemaVersion7 f
  else if version =? 5 then (applySchemaVersion6 ;;; applySchemaVersion7) f
  else if version =? 4 then
    (applySchemaVersion5 ;;; applySchemaVersion6 ;;; applySchemaVersion7) f
  else if version =? 3 then
    (applySchemaVersion4 ;;; applySchemaVersion5 ;;; applySchemaVersion6 ;;;
     applySchemaVersion7) f
  else if version =? 2 then
    (applySchemaVersion3 ;;; applySchemaVersion4 ;;; applySchemaVersion5 ;;;
     applySchemaVersion6 ;;; applySchemaVersion7) f
  else if version =? 1 then
    (applySchemaVersion2 ;;; applySchemaVersion3 ;;; applySchemaVersion4 ;;;
     applySchemaVersion5 ;;; applySchemaVersion6 ;;; applySchemaVersion7) f
  else
    (applySchemaVersion1 ;;; applySchemaVersion2 ;;; applySchemaVersion3 ;;;
     applySchemaVersion4 ;;; applySchemaVersion5 ;;; applySchemaVersion6 ;;;
     applySchemaVersion7) f.

Definition initialize : mig := create_migration_table ;;; dispatch.

End Run.

(** Opening the file once per run of the server, each with its own times and
    failures. *)
Definition open_all (runs : list ((Z → Z) * (Z → option error))) (f : file) : file :=
  fold_left (λ f '(clock, io), (initialize clock io f).2) runs f.

End Migrations.
