(* ===== verification/MigrationRuns.v ===== *)
(** What opening the admission database does to a file of any earlier version:
    the schema of every version, what a migration keeps of the rows, and that
    opening reaches the current version, whatever failed before. *)

From S2P Require Import Prelude GoStd MembershipCodec Schema Sql Migrations.

#[local] Open Scope string_scope.
#[local] Open Scope Z_scope.

(** ** The schema of version [k] *)

Definition statements_of (v : nat) : list ddl :=
  match v with
  | 1 => statements1 | 2 => statements2 | 3 => statements3 | 4 => statements4
  | 5 => statements5 | 6 => statements6 | 7 => statements7 | 8 => statements8
  | 9 => statements9 | 10 => statements10 | 11 => statements11
  | _ => []
  end%nat.

Fixpoint schema_all (xs : list ddl) (s : schema) : result schema :=
  match xs with
  | [] => Ok s
  | x :: rest => let? s' := ddl_schema x s in schema_all rest s'
  end.

Fixpoint schema_at (k : nat) : schema :=
  match k with
  | O => mkSchema {["schema_migrations" := schema_migrations_def]} ∅ ∅
  | S j => from_ok (schema_at j) (schema_all (statements_of (S j)) (schema_at j))
  end.

(** Statements as the migrations have them: they create tables with declared
    keys, add columns with admissible defaults, leave the version table alone,
    and give existing devices no state but the legacy one. *)
Definition well_formed (x : ddl) : bool :=
  default_ok x &&
  match x with
  | CreateTable t d => bool_decide (t ≠ "schema_migrations") && bool_decide (primary d ⊆ names d)
  | CreateTableIfNotExists _ _ => false
  | AddColumn t c =>
      bool_decide (t ≠ "schema_migrations") && bool_decide (c_name c ≠ "revoked_at_ms") &&
      bool_decide (c_name c = "membership_state" → c_default c = state_value legacy_active)
  | _ => true
  end.

Lemma statements_ok :
  forallb (λ v, forallb well_formed (statements_of v) &&
    match schema_all (statements_of v) (schema_at (Nat.pred v)) with
    | Ok s => bool_decide (defs s = defs (schema_at v)) &&
              bool_decide (indexes s = indexes (schema_at v)) &&
              bool_decide (triggers s = triggers (schema_at v))
    | Err _ => false
    end) (seq 1 11) = true.
Proof. vm_compute. reflexivity. Qed.

Lemma statements_step v :
  (v < 11)%nat →
  forallb well_formed (statements_of (S v)) = true ∧
  schema_all (statements_of (S v)) (schema_at v) = Ok (schema_at (S v)).
Proof.
  intros Hv. pose proof statements_ok as H. rewrite forallb_forall in H.
  assert (In (S v) (seq 1 11)) as Hin by (apply in_seq; lia).
  specialize (H _ Hin). apply andb_true_iff in H as [Hw Hs]. split; [done|].
  cbn [Nat.pred] in Hs. destruct (schema_all _ _) as [s|] eqn:E; [|done].
  cbn [schema_at]. by rewrite E.
Qed.

(** ** What is kept of a device *)

(** A device without a membership state, or in the legacy one. *)
Definition legacy (r : row) : Prop :=
  get r "membership_state" = NULL ∨ get r "membership_state" = state_value legacy_active.

Record device_kept (r r' : row) : Prop := {
  dk_columns : ∀ c v, r !! c = Some v → c ≠ "membership_state" → c ≠ "revoked_at_ms" →
    r' !! c = Some v;
  dk_state : ¬ legacy r → get r' "membership_state" = get r "membership_state";
  dk_legacy : legacy r → legacy r' ∨ get r' "membership_state" = state_value revoked;
  dk_revoked_at : get r "revoked_at_ms" ≠ NULL ∨ ¬ legacy r →
    get r' "revoked_at_ms" = get r "revoked_at_ms";
  dk_retired : legacy r → ¬ legacy r' → get r' "revoked_at_ms" ≠ NULL
}.

#[export] Instance legacy_dec r : Decision (legacy r).
Proof. unfold legacy. apply _. Defined.

#[export] Instance device_kept_refl : Reflexive device_kept.
Proof. intros r. split; intros; tauto. Qed.

#[export] Instance device_kept_trans : Transitive device_kept.
Proof.
  intros a b c [c1 s1 l1 r1 t1] [c2 s2 l2 r2 t2].
  assert (¬ legacy a → ¬ legacy b) as Hab.
  { intros Ha. specialize (s1 Ha). unfold legacy in *. by rewrite s1. }
  split.
  - intros x v Hx Hm Hr. exact (c2 x v (c1 x v Hx Hm Hr) Hm Hr).
  - intros Ha. exact (eq_trans (s2 (Hab Ha)) (s1 Ha)).
  - intros Ha. destruct (decide (legacy b)) as [Hb|Hb]; [exact (l2 Hb)|].
    right. rewrite (s2 Hb). destruct (l1 Ha) as [Hb'|Hb']; [destruct (Hb Hb')|exact Hb'].
  - intros Ha. specialize (r1 Ha). rewrite r2; [exact r1|].
    destruct Ha as [Ha|Ha]; [left; congruence|right; exact (Hab Ha)].
  - intros Ha Hc. destruct (decide (legacy b)) as [Hb|Hb]; [exact (t2 Hb Hc)|].
    rewrite (r2 (or_intror Hb)). exact (t1 Ha Hb).
Qed.

(** ** Runs of data definition statements *)

Definition row_of (xs : list ddl) (t : string) (r : row) : row :=
  fold_left (λ r x, match x with
                    | AddColumn t' c => if decide (t = t') then <[c_name c := c_default c]> r else r
                    | _ => r
                    end) xs r.

Lemma fmap_same {A} (f : A → A) (l : list A) : (∀ x, f x = x) → f <$> l = l.
Proof. intros H. induction l; simpl; f_equal; auto. Qed.

Lemma well_formed_keys x s s' :
  well_formed x = true → ddl_schema x s = Ok s' → keys_declared s → keys_declared s'.
Proof.
  intros Hw Hs Hk t d. unfold well_formed in Hw. apply andb_true_iff in Hw as [_ Hw].
  destruct x as [t' d'|t' d'|i t' c|n g|t' c]; cbn [ddl_schema] in Hs; try done.
  - go_inv. go_bool. rewrite <-Hs. cbn [defs]. destruct (decide (t = t')) as [->|].
    + rewrite lookup_insert_eq. by intros [= <-].
    + rewrite lookup_insert_ne by done. apply Hk.
  - go_inv. rewrite <-Hs. apply Hk.
  - go_inv. rewrite <-Hs. apply Hk.
  - destruct (defs s !! t') as [d'|] eqn:E; [|done]. go_inv. rewrite <-Hs. cbn [defs].
    destruct (decide (t = t')) as [->|]; [|rewrite lookup_insert_ne by done; apply Hk].
    rewrite lookup_insert_eq. intros [= <-]. simpl. etrans; [by eapply Hk|].
    unfold names. simpl. rewrite fmap_app. set_solver.
Qed.

(** What well-formed statements preserve holds of every later version. *)
Lemma schema_all_ind (P : schema → Prop) xs s s' :
  (∀ x s s', well_formed x = true → ddl_schema x s = Ok s' → P s → P s') →
  forallb well_formed xs = true → schema_all xs s = Ok s' → P s → P s'.
Proof.
  intros Hstep. revert s. induction xs as [|x xs IH]; intros s Hw Hs HP; cbn [schema_all] in Hs.
  - apply Ok_inj in Hs. congruence.
  - apply andb_true_iff in Hw as [Hx Hw]. apply rbind_Ok in Hs as (s1 & Hs1 & Hs).
    apply (IH s1 Hw Hs). by apply (Hstep x s).
Qed.

(** A well-formed statement the schema admits runs on any typed file. *)
Lemma exec_ddl_runs x f s :
  well_formed x = true → ddl_schema x (sch f) = Ok s →
  exec_ddl x f = Ok (mkFile s (ddl_data x (sch f) (data f))).
Proof.
  intros [Hd _]%andb_true_iff Hs. unfold exec_ddl. rewrite Hs. cbn [rbind].
  rewrite Hd. by rewrite andb_false_r.
Qed.

Lemma ddl_rows_existing x s s' t d rs :
  well_formed x = true → ddl_schema x s = Ok s' → defs s !! t = Some d →
  ddl_rows x s t rs = row_of [x] t <$> rs ∧ is_Some (defs s' !! t).
Proof.
  intros Hw Hs Hd. destruct x as [t' d'|t' d'|i t' c|n g|t' c]; cbn [ddl_schema ddl_rows] in *.
  - go_inv. go_bool. rewrite <-Hs. cbn [defs]. rewrite decide_False by naive_solver.
    rewrite lookup_insert_ne by naive_solver. rewrite fmap_same by done. eauto.
  - unfold well_formed in Hw. by rewrite andb_false_r in Hw.
  - go_inv. rewrite <-Hs, fmap_same by done. eauto.
  - go_inv. rewrite <-Hs, fmap_same by done. eauto.
  - destruct (defs s !! t') as [d'|] eqn:E; [|done]. go_inv. rewrite <-Hs. cbn [defs].
    split.
    + destruct (decide (t = t')) as [->|Hn].
      * apply list_fmap_ext. intros. unfold row_of. cbn [fold_left]. by rewrite decide_True.
      * rewrite fmap_same; [done|]. intros. unfold row_of. cbn [fold_left]. by rewrite decide_False.
    + destruct (decide (t = t')) as [->|]; [rewrite lookup_insert_eq; eauto|].
      rewrite lookup_insert_ne by done. eauto.
Qed.

Lemma exec_all_runs xs f s :
  forallb well_formed xs = true → schema_all xs (sch f) = Ok s →
  keys_declared (sch f) → typed f →
  ∃ f', exec_all xs f = Ok f' ∧ sch f' = s ∧ typed f' ∧ keys_declared s ∧
    ∀ t, is_Some (defs (sch f) !! t) → rows t f' = row_of xs t <$> rows t f.
Proof.
  revert f. induction xs as [|x xs IH]; intros f Hw Hs Hk Hf; cbn [schema_all exec_all] in *.
  - apply Ok_inj in Hs. exists f. subst s. split_and!; try done.
    intros t _. by rewrite fmap_same.
  - apply andb_true_iff in Hw as [Hx Hw]. apply rbind_Ok in Hs as (s1 & Hs1 & Hs).
    pose proof (exec_ddl_runs x f s1 Hx Hs1) as Hrun. set (f1 := mkFile _ _) in Hrun.
    assert (sch f1 = s1) as E1 by done.
    destruct (IH f1) as (f' & Hall & Hsch & Hty & Hkd & Hrows); [done|done| | |].
    + rewrite E1. by eapply well_formed_keys.
    + by eapply exec_ddl_typed.
    + exists f'. rewrite Hrun. split_and!; try done. intros t [d Hd].
      destruct (ddl_rows_existing x (sch f) s1 t d (rows t f) Hx Hs1 Hd) as [Hr Hsome].
      rewrite Hrows by (by rewrite E1). unfold f1. rewrite rows_ddl by done. rewrite Hr.
      by rewrite <-list_fmap_compose.
Qed.

(** A row gains columns, and a device gains at most the legacy state. *)
Lemma row_of_step x s s' t d r :
  well_formed x = true → ddl_schema x s = Ok s' → defs s !! t = Some d → row_ok d r = true →
  r ⊆ row_of [x] t r ∧ (t = "devices" → device_kept r (row_of [x] t r)) ∧
  ∃ d', defs s' !! t = Some d' ∧ row_ok d' (row_of [x] t r) = true.
Proof.
  intros Hw Hs Hd Hr.
  assert (∀ d', row_ok d' r = true → defs s' !! t = Some d' →
    r ⊆ r ∧ (t = "devices" → device_kept r r) ∧
    ∃ d', defs s' !! t = Some d' ∧ row_ok d' r = true) as Hid.
  { intros d' ??. split_and!; [reflexivity|intros; reflexivity|eauto]. }
  destruct x as [t' d'|t' d'|i t' c|n g|t' c]; cbn [ddl_schema row_of fold_left] in *.
  - go_inv. go_bool. eapply Hid; [exact Hr|]. rewrite <-Hs. cbn [defs]. rewrite lookup_insert_ne by naive_solver. done.
  - unfold well_formed in Hw. by rewrite andb_false_r in Hw.
  - go_inv. eapply Hid; [exact Hr|]. by rewrite <-Hs.
  - go_inv. eapply Hid; [exact Hr|]. by rewrite <-Hs.
  - destruct (defs s !! t') as [d'|] eqn:E; [|done]. go_inv.
    destruct (decide (t = t')) as [->|];
      [|eapply Hid; [exact Hr|]; rewrite <-Hs; cbn [defs]; by rewrite lookup_insert_ne].
    clear Hid. rewrite <-Hs. cbn [defs]. rewrite lookup_insert_eq. go_bool. simplify_eq.
    unfold well_formed, default_ok in Hw. go_bool.
    assert (r !! c_name c = None) as Hnone by (by eapply row_ok_dom).
    assert (get r (c_name c) = NULL) as Hnull by (by rewrite get_lookup, Hnone).
    split; [by apply insert_subseteq|]. split; [|eauto using row_ok_add_column].
    intros ->. split.
    + intros x v Hx _ _. rewrite lookup_insert_ne; [exact Hx|]. congruence.
    + intros Hl. rewrite get_insert, decide_False; [reflexivity|].
      intros Ec. apply Hl. left. congruence.
    + intros Hl. left. unfold legacy. rewrite get_insert.
      destruct (decide (c_name c = "membership_state")); [right; auto|exact Hl].
    + intros _. rewrite get_insert, decide_False; [reflexivity|assumption].
    + intros Hl Hl'. destruct Hl'. unfold legacy. rewrite get_insert.
      destruct (decide (c_name c = "membership_state")); [right; auto|exact Hl].
Qed.

Lemma row_of_kept xs s s' t d r :
  forallb well_formed xs = true → schema_all xs s = Ok s' → defs s !! t = Some d →
  row_ok d r = true → r ⊆ row_of xs t r ∧ (t = "devices" → device_kept r (row_of xs t r)).
Proof.
  revert s d r. induction xs as [|x xs IH]; intros s d r Hw Hs Hd Hr; [done|].
  apply andb_true_iff in Hw as [Hx Hw]. apply rbind_Ok in Hs as (s1 & Hs1 & Hs).
  destruct (row_of_step x s s1 t d r Hx Hs1 Hd Hr) as (Hsub & Hk & d1 & Hd1 & Hr1).
  destruct (IH s1 d1 (row_of [x] t r) Hw Hs Hd1 Hr1) as [Hsub' Hk'].
  split; [by etrans|]. intros Ht. etrans; [exact (Hk Ht)|exact (Hk' Ht)].
Qed.

Lemma table_ok_row d rs r : table_ok d rs = true → r ∈ rs → row_ok d r = true.
Proof.
  unfold table_ok. intros [H _]%andb_true_iff Hr. rewrite forallb_forall in H.
  apply H. by apply list_elem_of_In.
Qed.

Lemma table_ok_keys d rs : table_ok d rs = true → NoDup (key_of d <$> rs).
Proof. unfold table_ok. intros [_ H]%andb_true_iff. by apply bool_decide_eq_true in H. Qed.

(** ** What is kept of a file *)

Record file_kept (f f' : file) : Prop := {
  fk_devices : is_Some (defs (sch f) !! "devices") →
    is_Some (defs (sch f') !! "devices") ∧
    Forall2 device_kept (rows "devices" f) (rows "devices" f');
  fk_tables : ∀ t, is_Some (defs (sch f) !! t) →
    t ∉ ["devices"; "credential_rotation_codes"; "schema_migrations"] →
    is_Some (defs (sch f') !! t) ∧ Forall2 (⊆) (rows t f) (rows t f')
}.

#[export] Instance file_kept_refl : Reflexive file_kept.
Proof. intros f. split; intros; split; try done; reflexivity. Qed.

#[export] Instance file_kept_trans : Transitive file_kept.
Proof.
  intros a b c [d1 t1] [d2 t2]. split.
  - intros Ha. destruct (d1 Ha) as [Hb ?]. destruct (d2 Hb) as [Hc ?].
    split; [exact Hc|]. by etrans.
  - intros t Ha Ht. destruct (t1 t Ha Ht) as [Hb ?]. destruct (t2 t Hb Ht) as [Hc ?].
    split; [exact Hc|]. by etrans.
Qed.

Lemma Forall2_fmap_self {A} (R : A → A → Prop) (g : A → A) (l : list A) :
  (∀ x, x ∈ l → R x (g x)) → Forall2 R l (g <$> l).
Proof.
  intros H. apply Forall2_fmap_r, Forall2_same_length_lookup. split; [done|].
  intros i x y Hx Hy. simplify_eq. apply H. by eapply list_elem_of_lookup_2.
Qed.

(** ** The version table *)

Lemma migrations_def k : defs (schema_at k) !! "schema_migrations" = Some schema_migrations_def.
Proof.
  induction k as [|k IH]; [done|]. destruct (decide (k < 11)%nat) as [Hk|Hk].
  - destruct (statements_step k Hk) as [Hw Hs].
    refine (schema_all_ind (λ s, defs s !! _ = _) _ _ _ _ Hw Hs IH).
    clear. intros x s s1 Hx Hs1 Hd. unfold well_formed in Hx.
    destruct x as [t' d'|t' d'|i t' c|n g|t' c]; cbn [ddl_schema] in Hs1.
    + go_inv. go_bool. rewrite <-Hs1. cbn [defs]. by rewrite lookup_insert_ne.
    + by rewrite andb_false_r in Hx.
    + go_inv. by rewrite <-Hs1.
    + go_inv. by rewrite <-Hs1.
    + destruct (defs s !! t') eqn:E; [|done]. go_inv. go_bool. rewrite <-Hs1. cbn [defs].
      by rewrite lookup_insert_ne.
  - cbn [schema_at]. replace (statements_of (S k)) with (@nil ddl); [done|].
    do 11 (destruct k as [|k]; [lia|]). done.
Qed.

Lemma max_snoc (l : list Z) v :
  (∀ x, x ∈ l → x < v) → 0 ≤ v → foldr Z.max 0 (l ++ [v]) = v.
Proof.
  intros Hl Hv. induction l as [|x l IH]; simpl; [lia|].
  rewrite IH by set_solver. specialize (Hl x ltac:(set_solver)). lia.
Qed.

Lemma max_above (l : list Z) x : x ∈ l → x ≤ foldr Z.max 0 l.
Proof. induction 1; simpl; lia. Qed.

Lemma version_row_ok v now :
  row_ok schema_migrations_def {["version" := INTEGER v; "applied_at_ms" := INTEGER now]} = true.
Proof.
  unfold row_ok. apply andb_true_iff. split; [apply bool_decide_eq_true; set_solver|].
  cbn [forallb columns schema_migrations_def c_name int]. rewrite !get_insert.
  cbn [decide]. reflexivity.
Qed.

Lemma record_version_runs v now f :
  defs (sch f) !! "schema_migrations" = Some schema_migrations_def → typed f →
  schema_version f < v → 0 ≤ v →
  ∃ f', record_version v now f = Ok f' ∧ schema_version f' = v ∧ sch f' = sch f ∧ typed f' ∧
    ∀ t, t ≠ "schema_migrations" → rows t f' = rows t f.
Proof.
  intros Hd Hf Hv Hv0. pose proof (Hf _ _ Hd) as Hok. unfold record_version, exec_insert.
  set (r := {[ _ := _; _ := _ ]} : row).
  assert (version_of r = v) as Er.
  { unfold version_of, r. by rewrite get_insert, decide_True. }
  assert (∀ x, x ∈ version_of <$> rows "schema_migrations" f → x < v) as Hlt.
  { intros x Hx. apply max_above in Hx. unfold schema_version in Hv. lia. }
  assert (table_ok schema_migrations_def (rows "schema_migrations" f ++ [r]) = true) as Hnew.
  { pose proof (table_ok_keys _ _ Hok) as Hn. unfold table_ok in *. apply andb_true_iff in Hok as [Hrows _].
    apply andb_true_iff. split.
    - rewrite forallb_app, Hrows. simpl. rewrite andb_true_r. apply version_row_ok.
    - apply bool_decide_eq_true. rewrite fmap_app. apply NoDup_app. split_and!; [done| |].
      + intros x Hx Hx'. apply list_elem_of_singleton in Hx' as ->.
        apply list_elem_of_fmap in Hx as (r' & E & Hr').
        assert (version_of r' = v) as Ev.
        { unfold key_of in E. cbn in E. unfold version_of in *.
          injection E as E. rewrite <-E. exact Er. }
        specialize (Hlt v). rewrite <-Ev in Hlt at 1.
        specialize (Hlt ltac:(by apply list_elem_of_fmap_2)). lia.
      + apply NoDup_singleton. }
  exists (set_rows "schema_migrations" (rows "schema_migrations" f ++ [r]) f).
  assert (store_rows "schema_migrations" (rows "schema_migrations" f ++ [r]) f =
          Ok (set_rows "schema_migrations" (rows "schema_migrations" f ++ [r]) f)) as Hst.
  { apply store_rows_Ok. eauto. }
  split_and!.
  - exact Hst.
  - unfold schema_version. rewrite rows_set, decide_True, fmap_app by done. simpl. rewrite Er.
    by apply max_snoc.
  - done.
  - by eapply store_rows_typed.
  - intros t Ht. by rewrite rows_set, decide_False.
Qed.
