(* ===== verification/MigrationTheorems.v ===== *)
(** Opening the admission database reaches the current schema version from
    every earlier one and from every point at which an earlier opening failed;
    what the migrations keep, backfill and retire. *)

From S2P Require Import Prelude GoStd MembershipCodec Schema Sql Migrations MigrationRuns.

#[local] Open Scope string_scope.
#[local] Open Scope Z_scope.

(** ** Updates of typed tables *)

Definition declares (k : nat) (t : string) (c : column) : bool :=
  match defs (schema_at k) !! t with
  | Some d => bool_decide (c ∈ columns d) && bool_decide (NoDup (names d)) &&
              bool_decide (c_name c ∉ primary d)
  | None => false
  end.

Lemma declares_ok k t c :
  declares k t c = true →
  ∃ d, defs (schema_at k) !! t = Some d ∧ c ∈ columns d ∧ NoDup (names d) ∧ c_name c ∉ primary d.
Proof. unfold declares. destruct (defs _ !! t) as [d|]; [|done]. intros ?. go_bool. eauto. Qed.

Lemma row_ok_insert d r c v :
  row_ok d r = true → NoDup (names d) → c ∈ columns d → column_ok c v = true →
  row_ok d (<[c_name c := v]> r) = true.
Proof.
  intros Hr Hn Hc Hv. pose proof (row_ok_column d r) as Hcol. unfold row_ok in *.
  apply andb_true_iff in Hr as [Hdom Hall]. apply bool_decide_eq_true in Hdom.
  assert (c_name c ∈ names d) as Hin by (by apply list_elem_of_fmap_2).
  apply andb_true_iff. split.
  - apply bool_decide_eq_true. rewrite dom_insert_L, Hdom. set_solver.
  - rewrite forallb_forall in Hall |- *. intros x Hx%list_elem_of_In.
    rewrite get_insert. destruct (decide (c_name c = c_name x)) as [E|].
    + assert (x = c) as ->; [|done].
      apply list_elem_of_lookup in Hx as [i Hi]. apply list_elem_of_lookup in Hc as [j Hj].
      assert (i = j) as ->; [|congruence].
      eapply NoDup_lookup; [exact Hn| |]; unfold names; rewrite list_lookup_fmap.
      * rewrite Hi. reflexivity.
      * rewrite Hj. simpl. by rewrite E.
    + apply Hall. by apply list_elem_of_In.
Qed.

Lemma key_of_insert d r c v : c ∉ primary d → key_of d (<[c := v]> r) = key_of d r.
Proof.
  intros Hc. unfold key_of. apply list_fmap_ext. intros i x Hx.
  rewrite get_insert, decide_False; [done|]. intros ->. apply Hc. by eapply list_elem_of_lookup_2.
Qed.

Lemma update_ok d rs (g : row → row) :
  table_ok d rs = true →
  (∀ r, r ∈ rs → row_ok d (g r) = true ∧ key_of d (g r) = key_of d r) →
  table_ok d (g <$> rs) = true.
Proof.
  intros Ht Hg. pose proof (table_ok_keys d rs Ht) as Hn. unfold table_ok.
  apply andb_true_iff. split.
  - rewrite forallb_forall. intros x Hx%list_elem_of_In.
    apply list_elem_of_fmap in Hx as (r & -> & Hr). by apply Hg.
  - apply bool_decide_eq_true. rewrite <-list_fmap_compose.
    replace (key_of d ∘ g <$> rs) with (key_of d <$> rs); [done|].
    apply list_fmap_ext. intros i r Hr. symmetry. apply Hg. by eapply list_elem_of_lookup_2.
Qed.

Lemma exec_update_runs k t d (g : row → row) (p : row → bool) f :
  sch f = schema_at k → typed f → defs (schema_at k) !! t = Some d →
  (∀ r, r ∈ rows t f → row_ok d r = true → p r = true →
    row_ok d (g r) = true ∧ key_of d (g r) = key_of d r) →
  ∃ f', exec_update t g p f = Ok f' ∧ sch f' = sch f ∧ typed f' ∧
    rows t f' = (λ r, if p r then g r else r) <$> rows t f ∧
    ∀ t', t' ≠ t → rows t' f' = rows t' f.
Proof.
  intros Hs Hf Hd Hg. unfold exec_update. set (rs := _ <$> _).
  assert (table_ok d rs = true) as Hok.
  { pose proof (Hf t d ltac:(by rewrite Hs)) as Ht. apply update_ok; [done|].
    intros r Hr. pose proof (table_ok_row _ _ _ Ht Hr). destruct (p r) eqn:Ep; auto. }
  assert (store_rows t rs f = Ok (set_rows t rs f)) as Hst
    by (apply store_rows_Ok; rewrite Hs; eauto).
  exists (set_rows t rs f). split_and!; try done.
  - by eapply store_rows_typed.
  - by rewrite rows_set, decide_True.
  - intros t' Ht'. by rewrite rows_set, decide_False.
Qed.

Lemma exec_delete_runs k t d (p : row → bool) f :
  sch f = schema_at k → typed f → defs (schema_at k) !! t = Some d →
  ∃ f', exec_delete t p f = Ok f' ∧ sch f' = sch f ∧ typed f' ∧
    rows t f' = List.filter (λ r, negb (p r)) (rows t f) ∧
    ∀ t', t' ≠ t → rows t' f' = rows t' f.
Proof.
  intros Hs Hf Hd. unfold exec_delete. set (rs := List.filter _ _).
  assert (table_ok d rs = true) as Hok.
  { pose proof (Hf t d ltac:(by rewrite Hs)) as Ht. pose proof (table_ok_keys _ _ Ht) as Hn.
    unfold table_ok. apply andb_true_iff. split.
    - rewrite forallb_forall. intros x [Hx _]%filter_In.
      eapply table_ok_row; [exact Ht|by apply list_elem_of_In].
    - apply bool_decide_eq_true. unfold rs. clear -Hn.
      induction (rows t f) as [|r l IH]; [done|]. cbn [fmap list_fmap] in Hn.
      apply NoDup_cons in Hn as [Hni Hn]. cbn [List.filter]. destruct (negb (p r)); [|auto].
      apply NoDup_cons. split; [|auto]. intros Hin. apply Hni.
      apply list_elem_of_fmap in Hin as (x & -> & Hx%list_elem_of_In).
      apply filter_In in Hx as [Hx _]. by apply list_elem_of_fmap_2, list_elem_of_In. }
  assert (store_rows t rs f = Ok (set_rows t rs f)) as Hst
    by (apply store_rows_Ok; rewrite Hs; eauto).
  exists (set_rows t rs f). split_and!; try done.
  - by eapply store_rows_typed.
  - by rewrite rows_set, decide_True.
  - intros t' Ht'. by rewrite rows_set, decide_False.
Qed.

Lemma schema_keys k : (k ≤ 11)%nat → keys_declared (schema_at k).
Proof.
  induction k as [|k IH]; intros Hk.
  - intros t d. simpl. intros [_ <-]%lookup_singleton_Some.
    by apply (bool_decide_eq_true (primary schema_migrations_def ⊆ names schema_migrations_def)).
  - destruct (statements_step k ltac:(lia)) as [Hw Hs].
    refine (schema_all_ind keys_declared _ _ _ _ Hw Hs (IH ltac:(lia))).
    intros x s s1 Hx Hs1. by apply (well_formed_keys x).
Qed.

(** From here on a schema is only compared, never computed, outside [vm_compute]. *)
#[global] Opaque schema_at.

(** ** The data definition part of a version *)

Lemma statements_run k f :
  (k < 11)%nat → sch f = schema_at k → typed f →
  ∃ f', exec_all (statements_of (S k)) f = Ok f' ∧ sch f' = schema_at (S k) ∧ typed f' ∧
    file_kept f f' ∧
    ∀ t, is_Some (defs (schema_at k) !! t) → rows t f' = row_of (statements_of (S k)) t <$> rows t f.
Proof.
  intros Hk Hs Hf. destruct (statements_step k Hk) as [Hw Hsch].
  destruct (exec_all_runs (statements_of (S k)) f (schema_at (S k)))
    as (f' & Hrun & Hs' & Hf' & _ & Hrows); [done|by rewrite Hs| |done|].
  { rewrite Hs. apply schema_keys. lia. }
  rewrite Hs in Hrows. exists f'. split_and!; try done.
  assert (∀ t, is_Some (defs (sch f) !! t) →
    Forall2 (⊆) (rows t f) (rows t f') ∧
    (t = "devices" → Forall2 device_kept (rows t f) (rows t f'))) as Hkept.
  { intros t [d Hd]. pose proof (Hf t d Hd) as Ht. rewrite Hs in Hd.
    rewrite Hrows by eauto. split; [|intros ->]; apply Forall2_fmap_self; intros r Hr;
      edestruct (row_of_kept _ _ _ _ d r Hw Hsch Hd) as [Ha Hb]; eauto using table_ok_row. }
  assert (∀ t, is_Some (defs (sch f) !! t) → is_Some (defs (sch f') !! t)) as Hdefs.
  { rewrite Hs, Hs'. intros t. refine (schema_all_ind (λ s, is_Some (defs s !! t)) _ _ _ _ Hw Hsch).
    intros x s s1 Hx Hs1 [d Hd]. by destruct (ddl_rows_existing x s s1 t d [] Hx Hs1 Hd). }
  split.
  - intros Hd. split; [by apply Hdefs|]. by apply Hkept.
  - intros t Hd _. split; [by apply Hdefs|]. by apply Hkept.
Qed.

Section Versions.
Context `{Wire, Ed25519}.

(** ** Version 5: the backfill *)

(** Every certified revocation is listed by a roster that decodes. *)
Definition ready (f : file) : Prop :=
  ∀ item, item ∈ revoked_certificates f → is_ok (revocation_epoch item f) = true.

Definition epoch_column : column := nullable (int "revoked_membership_epoch" (Above 0)).
Definition set_epoch (e : Z) (r : row) : row := <["revoked_membership_epoch" := INTEGER e]> r.

Definition backfill_row (f : file) (items : list revokedCertificate) (r : row) : row :=
  fold_left (λ r item,
    if is_device (rcert_workspaceID item) (rcert_deviceID item) r
    then set_epoch (from_ok 0 (revocation_epoch item f)) r else r) items r.

Lemma rosters_same f f' w :
  rows "workspace_rosters" f' = rows "workspace_rosters" f →
  rosters_by_epoch w f' = rosters_by_epoch w f.
Proof. intros E. unfold rosters_by_epoch. by rewrite E. Qed.

Lemma revocation_epoch_same f f' item :
  rows "workspace_rosters" f' = rows "workspace_rosters" f →
  revocation_epoch item f' = revocation_epoch item f.
Proof. intros E. unfold revocation_epoch. by rewrite (rosters_same f f'). Qed.

Lemma find_epoch_row item rs e :
  find_epoch item rs = Ok e → e ≠ 0 → ∃ r, r ∈ rs ∧ int_of (get r "epoch") = e.
Proof.
  induction rs as [|r rs IH]; simpl; [intros; go_inv; congruence|].
  intros Hf He. apply rbind_Ok in Hf as (s & _ & Hf).
  destruct (lists_revocation item s); [destruct (int_of (get r "epoch") =? 0)|simpl in Hf].
  - destruct (IH Hf He) as (x & ? & ?). exists x. set_solver.
  - apply Ok_inj in Hf. exists r. set_solver.
  - destruct (IH Hf He) as (x & ? & ?). exists x. set_solver.
Qed.

Definition roster_epoch_column : column := int "epoch" (Above 0).

Lemma revocation_epoch_pos k f item e :
  sch f = schema_at k → typed f → declares k "workspace_rosters" (blob "signed_roster" Any) = true →
  (∀ d, defs (schema_at k) !! "workspace_rosters" = Some d → roster_epoch_column ∈ columns d) →
  revocation_epoch item f = Ok e → 0 < e.
Proof.
  intros Hs Hf (d & Hd & _)%declares_ok Hcol He. specialize (Hcol d Hd).
  unfold revocation_epoch in He. go_inv. go_bool. subst.
  edestruct find_epoch_row as (r & Hrow & E); [eassumption|assumption|].
  unfold rosters_by_epoch in Hrow. rewrite merge_sort_Permutation in Hrow.
  apply list_elem_of_filter in Hrow as [_ Hrow].
  pose proof (Hf _ d ltac:(rewrite Hs; exact Hd)) as Ht.
  pose proof (row_ok_column d r _ (table_ok_row _ _ _ Ht Hrow) Hcol) as Hc.
  unfold column_ok in Hc. cbn in Hc. go_bool.
  destruct (get r "epoch"); try done. simpl in *. go_bool. lia.
Qed.

Lemma roster_columns d :
  defs (schema_at 5) !! "workspace_rosters" = Some d → roster_epoch_column ∈ columns d.
Proof.
  assert (match defs (schema_at 5) !! "workspace_rosters" with
          | Some d => bool_decide (roster_epoch_column ∈ columns d) | None => false end = true)
    as Hc by (vm_compute; reflexivity).
  intros Hd. rewrite Hd in Hc. by apply bool_decide_eq_true in Hc.
Qed.

Lemma is_device_set w id e r : is_device w id (set_epoch e r) = is_device w id r.
Proof. unfold is_device, set_epoch. by rewrite !get_insert, !decide_False. Qed.

Lemma backfill_row_same f f1 items r :
  rows "workspace_rosters" f1 = rows "workspace_rosters" f →
  backfill_row f1 items r = backfill_row f items r.
Proof.
  intros Hros. unfold backfill_row. revert r.
  induction items as [|x xs IH]; intros r; [reflexivity|]. cbn [fold_left].
  by rewrite (revocation_epoch_same f f1 x Hros), IH.
Qed.

Lemma backfill_runs items f :
  sch f = schema_at 5 → typed f →
  (∀ item, item ∈ items → is_ok (revocation_epoch item f) = true) →
  ∃ f', backfill items f = Ok f' ∧ sch f' = sch f ∧ typed f' ∧
    rows "devices" f' = backfill_row f items <$> rows "devices" f ∧
    ∀ t, t ≠ "devices" → rows t f' = rows t f.
Proof.
  revert f. induction items as [|item items IH]; intros f Hs Hf Hok.
  - exists f. split_and!; try done. symmetry. by apply fmap_same.
  - pose proof (Hok item (list_elem_of_here item items)) as Hi. apply (is_ok_from 0) in Hi.
    destruct (declares_ok 5 "devices" epoch_column ltac:(vm_compute; reflexivity))
      as (d & Hd & Hc & Hn & Hp).
    set (e := from_ok 0 _) in Hi.
    assert (0 < e) as Hpos.
    { eapply (revocation_epoch_pos 5 f item); eauto using roster_columns. }
    destruct (exec_update_runs 5 "devices" d (set_epoch e)
      (is_device (rcert_workspaceID item) (rcert_deviceID item)) f Hs Hf Hd)
      as (f1 & Hup & Hs1 & Hf1 & Hr1 & Ho1).
    { intros r _ Hr _. split; [|exact (key_of_insert d r _ _ Hp)].
      apply (row_ok_insert d r epoch_column (INTEGER e) Hr Hn Hc).
      unfold column_ok. simpl. by apply Z.ltb_lt. }
    assert (rows "workspace_rosters" f1 = rows "workspace_rosters" f) as Hros by by apply Ho1.
    destruct (IH f1) as (f' & Hb & Hs' & Hf' & Hr' & Ho'); [by rewrite Hs1|done| |].
    { intros x Hx. rewrite (revocation_epoch_same f f1 x Hros). apply Hok. by apply list_elem_of_further. }
    exists f'. cbn [backfill]. rewrite Hi. cbn [rbind]. unfold set_epoch in Hup. rewrite Hup.
    split_and!; [exact Hb|by rewrite Hs', Hs1|exact Hf'| |].
    + rewrite Hr', Hr1, <-list_fmap_compose. apply list_fmap_ext. intros i r _.
      unfold backfill_row, compose. cbn [fold_left].
      change (from_ok 0 (revocation_epoch item f)) with e.
      exact (backfill_row_same f f1 items _ Hros).
    + intros t Ht. by rewrite Ho', Ho1.
Qed.

(** ** The files a release can meet *)

Record valid (k : nat) (f : file) : Prop := {
  v_schema : sch f = schema_at k;
  v_typed : typed f;
  v_version : schema_version f = Z.of_nat k;
  v_ready : (k ≤ 4)%nat → ready f;
  v_legacy : (8 ≤ k)%nat → ∀ r, r ∈ rows "devices" f → in_state legacy_active r = false
}.

Lemma record_runs v now f g :
  sch g = schema_at (S v) → typed g → schema_version f = Z.of_nat v →
  rows "schema_migrations" g = rows "schema_migrations" f →
  ∃ f', record_version (Z.of_nat (S v)) now g = Ok f' ∧ sch f' = schema_at (S v) ∧ typed f' ∧
    schema_version f' = Z.of_nat (S v) ∧
    (∀ t, t ≠ "schema_migrations" → rows t f' = rows t g) ∧ (file_kept f g → file_kept f f').
Proof.
  intros Hs Hg Hv Hr.
  destruct (record_version_runs (Z.of_nat (S v)) now g) as (f' & Hrec & Hv' & Hs' & Hf' & Ho).
  - rewrite Hs. apply migrations_def.
  - exact Hg.
  - unfold schema_version in *. rewrite Hr. lia.
  - lia.
  - exists f'. split_and!; try assumption; [by rewrite Hs'|]. intros [Hd Ht]. split.
    + intros Hf. destruct (Hd Hf) as [? ?]. rewrite Hs', Ho by done. auto.
    + intros t Hf Hn. destruct (Ht t Hf Hn) as [? ?]. rewrite Hs', Ho; [auto|].
      intros ->. apply Hn. set_solver.
Qed.

Lemma row_of_migrations k r :
  (k < 11)%nat → row_of (statements_of (S k)) "schema_migrations" r = r.
Proof.
  intros Hk. destruct (statements_step k Hk) as [Hw _]. unfold row_of. revert r.
  induction (statements_of (S k)) as [|x xs IH]; intros r; [done|].
  apply andb_true_iff in Hw as [Hx Hw]. cbn [fold_left]. rewrite (IH Hw).
  destruct x; try done. unfold well_formed in Hx. go_bool. by rewrite decide_False.
Qed.

(** A version that only runs statements. *)
Lemma migrate_runs clock k f :
  (k < 11)%nat → valid k f →
  ∃ f', migrate clock (Z.of_nat (S k)) (statements_of (S k)) f = Ok f' ∧
    sch f' = schema_at (S k) ∧ typed f' ∧ schema_version f' = Z.of_nat (S k) ∧ file_kept f f' ∧
    ∀ t, is_Some (defs (schema_at k) !! t) → t ≠ "schema_migrations" →
      rows t f' = row_of (statements_of (S k)) t <$> rows t f.
Proof.
  intros Hk [Hs Hf Hv _ _].
  destruct (statements_run k f Hk Hs Hf) as (g & Hrun & Hsg & Hg & Hkept & Hrows).
  destruct (record_runs k (clock (Z.of_nat (S k))) f g Hsg Hg Hv)
    as (f' & Hrec & Hs' & Hf' & Hv' & Ho & Hkept').
  { rewrite Hrows by (rewrite migrations_def; eauto). apply fmap_same. intros r.
    by apply row_of_migrations. }
  exists f'. unfold migrate. rewrite Hrun. cbn [wrapf rbind]. rewrite Hrec.
  split_and!; try assumption; [reflexivity|by apply Hkept'|].
  intros t Ht Hn. rewrite Ho, Hrows; auto.
Qed.

(** A migration step: what its transaction does when nothing fails. *)
Definition step_ok (k : nat) (body : file → result file) : Prop :=
  ∀ f, valid k f → ∃ f', body f = Ok f' ∧ valid (S k) f' ∧ file_kept f f'.

Lemma no_certificates f :
  (∀ r, r ∈ rows "devices" f → certified_revoked r = false) → ready f.
Proof.
  intros Hn item Hi. unfold revoked_certificates in Hi.
  apply list_elem_of_bind in Hi as (r & _ & Hr). apply list_elem_of_filter in Hr as [Hc Hr].
  rewrite (Hn r Hr) in Hc. done.
Qed.

Lemma undeclared_state k f r :
  (1 ≤ k ≤ 3)%nat → sch f = schema_at k → typed f → r ∈ rows "devices" f →
  get r "membership_state" = NULL.
Proof.
  intros Hk Hs Hf Hr.
  assert (forallb (λ k, match defs (schema_at k) !! "devices" with
            | Some d => bool_decide ("membership_state" ∉ names d) | None => false end)
            [1; 2; 3]%nat = true) as Hall by (vm_compute; reflexivity).
  rewrite forallb_forall in Hall. assert (In k [1; 2; 3]%nat) as Hin by (simpl; lia).
  specialize (Hall k Hin). destruct (defs (schema_at k) !! "devices") as [d|] eqn:Hd; [|done].
  apply bool_decide_eq_true in Hall. apply (row_ok_get d); [|exact Hall].
  eapply table_ok_row; [apply Hf; by rewrite Hs|done].
Qed.

Lemma state_not_null k f r :
  (4 ≤ k ≤ 11)%nat → sch f = schema_at k → typed f → r ∈ rows "devices" f →
  get r "membership_state" ≠ NULL.
Proof.
  intros Hk Hs Hf Hr.
  assert (forallb (λ k, declares k "devices" (defaults (state_value legacy_active)
            (text "membership_state" (OneOf membership_states)))) (seq 4 8) = true) as Hall
    by (vm_compute; reflexivity).
  rewrite forallb_forall in Hall. assert (In k (seq 4 8)) as Hin by (apply in_seq; lia).
  destruct (declares_ok _ _ _ (Hall k Hin)) as (d & Hd & Hc & _).
  pose proof (row_ok_column d r _ (table_ok_row _ _ _ (Hf _ _ ltac:(rewrite Hs; exact Hd)) Hr) Hc)
    as Hok.
  unfold column_ok in Hok. intros E. cbn [c_name defaults text] in Hok. by rewrite E in Hok.
Qed.

Lemma devices_declared k : (1 ≤ k ≤ 11)%nat → is_Some (defs (schema_at k) !! "devices").
Proof.
  intros Hk. assert (forallb (λ k, bool_decide (is_Some (defs (schema_at k) !! "devices")))
    (seq 1 11) = true) as Hall by (vm_compute; reflexivity).
  rewrite forallb_forall in Hall. assert (In k (seq 1 11)) as Hin by (apply in_seq; lia).
  specialize (Hall k Hin). by apply bool_decide_eq_true in Hall.
Qed.

Lemma legacy_state r : legacy r → get r "membership_state" ≠ NULL → in_state legacy_active r = true.
Proof. intros [E|E] Hn; [destruct (Hn E)|]. by apply bool_decide_eq_true. Qed.

Lemma legacy_free_kept k f f' :
  (8 ≤ k ≤ 11)%nat → sch f = schema_at k → typed f → file_kept f f' →
  (∀ r, r ∈ rows "devices" f → in_state legacy_active r = false) →
  ∀ r, r ∈ rows "devices" f' → in_state legacy_active r = false.
Proof.
  intros Hk Hs Hf [Hd _] Hl r' Hr'. destruct Hd as [_ Hall].
  { rewrite Hs. apply devices_declared. lia. }
  apply list_elem_of_lookup in Hr' as [i Hi].
  destruct (Forall2_lookup_r _ _ _ _ _ Hall Hi) as (r & Hr & Hdk).
  apply list_elem_of_lookup_2 in Hr. pose proof (Hl r Hr) as Hnot.
  assert (¬ legacy r) as Hnl.
  { intros Hleg. pose proof (state_not_null k f r ltac:(lia) Hs Hf Hr) as Hnn.
    rewrite (legacy_state r Hleg Hnn) in Hnot. discriminate Hnot. }
  unfold in_state in *. rewrite (dk_state _ _ Hdk Hnl). exact Hnot.
Qed.

Lemma version4_state r : get (row_of statements4 "devices" r) "membership_state" = state_value legacy_active.
Proof.
  unfold row_of, statements4. cbn [fold_left].
  rewrite !decide_True by reflexivity. cbn [c_name nullable int blob defaults text].
  rewrite !get_insert. cbn. reflexivity.
Qed.

Lemma step_plain clock k :
  (k < 11)%nat → k ≠ 4%nat → k ≠ 7%nat →
  step_ok k (migrate clock (Z.of_nat (S k)) (statements_of (S k))).
Proof.
  intros Hk H4 H7 f Hval.
  destruct (migrate_runs clock k f Hk Hval) as (f' & Hrun & Hs' & Hf' & Hv' & Hkept & Hrows).
  exists f'. split; [exact Hrun|]. split; [|exact Hkept]. destruct Hval as [Hs Hf Hv Hr Hl].
  split; try assumption.
  - intros Hle. apply no_certificates. intros r' Hin.
    assert (get r' "membership_state" = NULL ∨ get r' "membership_state" = state_value legacy_active)
      as Hst.
    { destruct (decide (k = 3%nat)) as [->|].
      - rewrite Hrows in Hin; [|apply devices_declared; lia|done].
        apply list_elem_of_fmap in Hin as (r & -> & _). right. apply version4_state.
      - left. apply (undeclared_state (S k) f'); [lia|assumption..]. }
    unfold certified_revoked, in_state.
    destruct Hst as [E|E]; rewrite E; reflexivity.
  - intros Hge. apply (legacy_free_kept k f f'); [lia|assumption..|apply Hl; lia].
Qed.

(** *** Version 5 *)

Lemma device_kept_set_epoch r r' e :
  r !! "revoked_membership_epoch" = None → device_kept r r' → device_kept r (set_epoch e r').
Proof.
  intros Hn [Hc Hs Hl Hr Ht]. unfold set_epoch.
  assert (∀ c, c ≠ "revoked_membership_epoch" →
    get (<["revoked_membership_epoch" := INTEGER e]> r') c = get r' c) as Hg.
  { intros c Hne. rewrite get_insert, decide_False; [reflexivity|congruence]. }
  split; unfold legacy; rewrite ?Hg by discriminate.
  - intros c v Hcv ??. rewrite lookup_insert_ne; [by apply Hc|]. congruence.
  - exact Hs.
  - exact Hl.
  - exact Hr.
  - exact Ht.
Qed.

Lemma backfill_row_kept f items r r' :
  r !! "revoked_membership_epoch" = None → device_kept r r' →
  device_kept r (backfill_row f items r').
Proof.
  intros Hn. unfold backfill_row. revert r'.
  induction items as [|item items IH]; intros r' Hk; [exact Hk|]. cbn [fold_left]. apply IH.
  destruct (is_device _ _ _); [by apply device_kept_set_epoch|exact Hk].
Qed.

Lemma version5_row r c :
  c ≠ "revoked_membership_epoch" → get (row_of statements5 "devices" r) c = get r c.
Proof.
  intros Hc. unfold row_of, statements5. cbn [fold_left]. rewrite decide_True by reflexivity.
  cbn [c_name nullable int]. rewrite get_insert, decide_False; [reflexivity|congruence].
Qed.

Lemma revoked_certificates_added f f1 :
  rows "devices" f1 = row_of statements5 "devices" <$> rows "devices" f →
  rows "workspaces" f1 = rows "workspaces" f →
  revoked_certificates f1 = revoked_certificates f.
Proof.
  intros Hd Hw. unfold revoked_certificates. rewrite Hd, Hw. clear Hd Hw.
  induction (rows "devices" f) as [|r rs IH]; [reflexivity|].
  rewrite fmap_cons, !filter_cons.
  assert (certified_revoked (row_of statements5 "devices" r) = certified_revoked r) as ->.
  { unfold certified_revoked, in_state. by rewrite !version5_row. }
  destruct (decide (Is_true (certified_revoked r))); [|exact IH].
  rewrite !bind_cons, IH. do 2 f_equal; rewrite !version5_row by discriminate; reflexivity.
Qed.

Definition devices_def (k : nat) : tabledef :=
  default schema_migrations_def (defs (schema_at k) !! "devices").

(** What the transaction of version 5 does to the devices. *)
Lemma version5_runs clock f :
  valid 4 f →
  ∃ f', version5_body clock f = Ok f' ∧ valid 5 f' ∧ file_kept f f' ∧
    rows "devices" f' =
      backfill_row f (revoked_certificates f) ∘ row_of statements5 "devices" <$> rows "devices" f.
Proof.
  intros [Hs Hf Hv Hready _].
  destruct (statements_run 4 f ltac:(lia) Hs Hf) as (f1 & Hrun & Hs1 & Hf1 & Hkept & Hrows).
  assert (∀ t r, t ≠ "devices" → row_of (statements_of 5) t r = r) as Hid.
  { intros t r Ht. unfold row_of. cbn [statements_of statements5 fold_left].
    by rewrite decide_False. }
  assert (rows "devices" f1 = row_of statements5 "devices" <$> rows "devices" f) as Hdev.
  { apply Hrows, devices_declared. lia. }
  assert (∀ t, t ≠ "devices" → is_Some (defs (schema_at 4) !! t) → rows t f1 = rows t f) as Hsame.
  { intros t Ht Hd. rewrite (Hrows t Hd). apply fmap_same. intros r. by apply Hid. }
  assert (is_Some (defs (schema_at 4) !! "workspaces") ∧
          is_Some (defs (schema_at 4) !! "workspace_rosters")) as [Hdw Hdr].
  { split; by_decide. }
  pose proof (Hsame "workspace_rosters" ltac:(done) Hdr) as Hros.
  pose proof (revoked_certificates_added f f1 Hdev (Hsame "workspaces" ltac:(done) Hdw)) as Hrc.
  destruct (backfill_runs (revoked_certificates f) f1 Hs1 Hf1) as (f2 & Hb & Hs2 & Hf2 & Hd2 & Ho2).
  { intros item Hi. rewrite (revocation_epoch_same f f1 item Hros). apply Hready; [lia|done]. }
  destruct (record_runs 4 (clock 5) f f2) as (f' & Hrec & Hs' & Hf' & Hv' & Ho & Hkept').
  { by rewrite Hs2. } { exact Hf2. } { exact Hv. }
  { rewrite Ho2 by done. apply Hsame; [done|]. rewrite migrations_def. eauto. }
  assert (rows "devices" f2 = backfill_row f (revoked_certificates f) ∘
    row_of statements5 "devices" <$> rows "devices" f) as Hfin.
  { rewrite Hd2, Hdev, <-list_fmap_compose. apply list_fmap_ext. intros i r _. unfold compose.
    by apply backfill_row_same. }
  exists f'. unfold version5_body. change statements5 with (statements_of 5). rewrite Hrun.
  cbn [wrapf rbind]. rewrite Hrc, Hb. cbn [rbind]. change 5 with (Z.of_nat 5) at 1. rewrite Hrec.
  split; [reflexivity|]. split; [split; try assumption; lia|].
  split; [|by rewrite Ho]. apply Hkept'. split.
  - intros Hdd. split; [rewrite Hs2, Hs1; apply devices_declared; lia|].
    rewrite Hfin. apply Forall2_fmap_self. intros r Hr. unfold compose.
    assert (defs (sch f) !! "devices" = Some (devices_def 4)) as Hdef
      by (rewrite Hs; vm_compute; reflexivity).
    pose proof (table_ok_row _ _ _ (Hf _ _ Hdef) Hr) as Hrow. apply backfill_row_kept.
    + apply (row_ok_dom (devices_def 4)); [exact Hrow|].
      by_decide.
    + destruct (statements_step 4 ltac:(lia)) as [Hw Hsch]. rewrite Hs in Hdef.
      destruct (row_of_kept _ _ _ _ _ r Hw Hsch Hdef Hrow) as [_ Hk]. by apply Hk.
  - intros t Hd Hn. destruct (fk_tables _ _ Hkept t Hd Hn) as [Hd1 Hsub].
    rewrite Hs2, Ho2; [auto|]. intros ->. apply Hn. by left.
Qed.

(** *** Version 8 *)

Definition retire_row (now : Z) (r : row) : row :=
  if in_state legacy_active r then revoke_row now r else r.

Lemma revoke_row_get now r c :
  get (revoke_row now r) c =
  if decide (c = "membership_state") then state_value revoked
  else if decide (c = "revoked_at_ms") then coalesce (get r "revoked_at_ms") (INTEGER now)
  else get r c.
Proof.
  unfold revoke_row. rewrite !get_insert.
  destruct (decide ("membership_state" = c)) as [<-|]; [by rewrite decide_True|].
  rewrite (decide_False (P := c = "membership_state")) by congruence.
  destruct (decide ("revoked_at_ms" = c)) as [<-|]; [by rewrite decide_True|].
  by rewrite decide_False by congruence.
Qed.

Lemma retire_kept now r : device_kept r (retire_row now r).
Proof.
  unfold retire_row. destruct (in_state legacy_active r) eqn:El; [|reflexivity].
  unfold in_state in El. apply bool_decide_eq_true in El.
  assert (legacy r) as Hleg by (by right).
  split.
  - intros c v Hc Hm Hr. unfold revoke_row.
    rewrite lookup_insert_ne, lookup_insert_ne by congruence. exact Hc.
  - intros Hn. destruct (Hn Hleg).
  - intros _. right. by rewrite revoke_row_get, decide_True.
  - intros [Hn|Hn]; [|destruct (Hn Hleg)]. rewrite revoke_row_get, decide_False, decide_True by done.
    unfold coalesce. by rewrite decide_False.
  - intros _ _. rewrite revoke_row_get, decide_False, decide_True by done.
    unfold coalesce. by destruct (decide (get r "revoked_at_ms" = NULL)).
Qed.

Lemma retire_not_legacy now r : in_state legacy_active (retire_row now r) = false.
Proof.
  unfold retire_row. destruct (in_state legacy_active r) eqn:El; [|exact El].
  unfold in_state. by rewrite revoke_row_get, decide_True.
Qed.

Definition state_column : column :=
  defaults (state_value legacy_active) (text "membership_state" (OneOf membership_states)).
Definition revoked_at_column : column := nullable (int "revoked_at_ms" Any).

Definition legacy_code (f : file) (c : row) : bool :=
  bool_decide ((get c "workspace_id", get c "device_id") ∈
    (λ d, (get d "workspace_id", get d "id")) <$>
      filter (λ d, Is_true (in_state legacy_active d)) (rows "devices" f)).

Lemma retire_runs now f :
  sch f = schema_at 7 → typed f →
  ∃ f', revoke_legacy now f = Ok f' ∧ sch f' = sch f ∧ typed f' ∧
    rows "devices" f' = retire_row now <$> rows "devices" f ∧
    ∀ t, t ≠ "devices" → rows t f' = rows t f.
Proof.
  intros Hs Hf.
  destruct (declares_ok 7 "devices" state_column ltac:(vm_compute; reflexivity))
    as (d & Hd & Hc & Hn & Hp).
  destruct (declares_ok 7 "devices" revoked_at_column ltac:(vm_compute; reflexivity))
    as (d' & Hd' & Hc' & _ & Hp'). rewrite Hd in Hd'. injection Hd' as <-.
  destruct (exec_update_runs 7 "devices" d (revoke_row now) (in_state legacy_active) f Hs Hf Hd)
    as (f' & Hup & Hs' & Hf' & Hrows & Ho).
  - intros r _ Hr _. pose proof (row_ok_column d r _ Hr Hc') as Hold.
    cbn [c_name revoked_at_column nullable int] in Hold. unfold revoke_row. split.
    + apply (row_ok_insert d _ state_column); [|exact Hn|exact Hc|vm_compute; reflexivity].
      apply (row_ok_insert d r revoked_at_column); [exact Hr|exact Hn|exact Hc'|].
      unfold coalesce. destruct (decide (get r "revoked_at_ms" = NULL)); [reflexivity|exact Hold].
    + rewrite key_of_insert, key_of_insert; [reflexivity|exact Hp'|exact Hp].
  - exists f'. unfold revoke_legacy. rewrite Hup. split_and!; try assumption. reflexivity.
Qed.

Lemma version8_runs clock f :
  valid 7 f →
  ∃ f', version8_body clock f = Ok f' ∧ valid 8 f' ∧ file_kept f f' ∧
    rows "devices" f' = retire_row (clock 8) <$> rows "devices" f ∧
    rows "credential_rotation_codes" f' =
      List.filter (λ c, negb (legacy_code f c)) (rows "credential_rotation_codes" f).
Proof.
  intros [Hs Hf Hv _ _].
  assert (is_Some (defs (schema_at 7) !! "credential_rotation_codes")) as [dc Hdc] by by_decide.
  destruct (exec_delete_runs 7 _ dc (legacy_code f) f Hs Hf Hdc)
    as (f1 & Hdel & Hs1 & Hf1 & Hr1 & Ho1).
  destruct (retire_runs (clock 8) f1) as (f2 & Hup & Hs2 & Hf2 & Hr2 & Ho2);
    [by rewrite Hs1|exact Hf1|].
  assert (sch f2 = schema_at 7) as Hs2' by (by rewrite Hs2, Hs1).
  destruct (statements_run 7 f2 ltac:(lia) Hs2' Hf2) as (f3 & Hrun & Hs3 & Hf3 & Hkept & Hrows).
  assert (∀ t, is_Some (defs (schema_at 7) !! t) → rows t f3 = rows t f2) as Hsame.
  { intros t Ht. rewrite (Hrows t Ht). by apply fmap_same. }
  assert (rows "devices" f3 = retire_row (clock 8) <$> rows "devices" f) as Hdev.
  { rewrite Hsame by (apply devices_declared; lia). rewrite Hr2. by rewrite Ho1. }
  destruct (record_runs 7 (clock 8) f f3 Hs3 Hf3 Hv) as (f' & Hrec & Hs' & Hf' & Hv' & Ho & Hkept').
  { rewrite Hsame by (rewrite migrations_def; eauto). by rewrite Ho2, Ho1. }
  exists f'. unfold version8_body, delete_legacy_codes. fold (legacy_code f).
  change (λ r, bool_decide _) with (legacy_code f).
  rewrite Hdel. cbn [wrapf rbind]. rewrite Hup. cbn [rbind].
  change statements8 with (statements_of 8). rewrite Hrun. cbn [wrapf rbind].
  change 8 with (Z.of_nat 8) at 1. rewrite Hrec. split; [reflexivity|].
  split; [split; try assumption; [lia|]|split; [apply Hkept'|split]].
  - intros _ r Hr. rewrite Ho, Hdev in Hr by done.
    apply list_elem_of_fmap in Hr as (r0 & -> & _). apply retire_not_legacy.
  - split.
    + intros Hd. split; [rewrite Hs3; apply devices_declared; lia|]. rewrite Hdev.
      apply Forall2_fmap_self. intros r _. apply retire_kept.
    + intros t Hd Hn. destruct (fk_tables _ _ Hkept t) as [Hd3 Hsub].
      * by rewrite Hs2'; rewrite <-Hs.
      * exact Hn.
      * split; [exact Hd3|]. rewrite Ho2, Ho1 in Hsub; [exact Hsub|..];
          intros ->; apply Hn; by_decide.
  - by rewrite Ho.
  - rewrite Ho, Hsame, Ho2, Hr1; done.
Qed.

(** ** Opening the file *)

Section Opening.
Variable clock : Z → Z.
Variable io : Z → option error.

(** [a] takes files of version [i] towards version [j], by whole versions, and
    all the way unless the driver fails. *)
Definition advances (i j : nat) (a : mig) : Prop :=
  ∀ f, valid i f →
    ∃ k, (i ≤ k ≤ j)%nat ∧ valid k (a f).2 ∧ file_kept f (a f).2 ∧
      ((a f).1 = Ok tt → k = j) ∧ ((∀ v, io v = None) → (a f).1 = Ok tt).

Lemma advances_then i j l a b :
  advances i j a → advances j l b → (j ≤ l)%nat → advances i l (a ;;; b).
Proof.
  intros Ha Hb Hjl f Hf. destruct (Ha f Hf) as (k & Hk & Hv & Hkept & Hok & Hio).
  unfold then_. destruct (a f) as [[[]|e] f1]; cbn [fst snd] in *.
  - rewrite (Hok eq_refl) in Hv. destruct (Hb f1 Hv) as (k' & Hk' & Hv' & Hkept' & Hok' & Hio').
    specialize (Hok eq_refl). exists k'. split_and!; try assumption; [lia|lia|by etrans].
  - exists k. split_and!; try assumption; [lia|lia|discriminate].
Qed.

Lemma advances_refl i : advances i i (λ f, (Ok tt, f)).
Proof. intros f Hf. exists i. split_and!; try done; lia. Qed.

Lemma transaction_advances k v body :
  v = Z.of_nat (S k) → step_ok k body → advances k (S k) (transaction io v body).
Proof.
  intros -> Hstep f Hf. unfold transaction. destruct (io _) eqn:Hio.
  - exists k. split_and!; try assumption; try lia; [reflexivity|discriminate|].
    intros Hno. by rewrite Hno in Hio.
  - destruct (Hstep f Hf) as (f' & -> & Hv & Hkept). exists (S k).
    split_and!; try assumption; try lia; reflexivity.
Qed.

Lemma step5 : step_ok 4 (version5_body clock).
Proof. intros f Hf. destruct (version5_runs clock f Hf) as (f' & ? & ? & ? & _). eauto. Qed.
Lemma step8 : step_ok 7 (version8_body clock).
Proof. intros f Hf. destruct (version8_runs clock f Hf) as (f' & ? & ? & ? & _). eauto. Qed.

Ltac plain k := apply (transaction_advances k);
  [reflexivity|exact (step_plain clock k ltac:(lia) ltac:(lia) ltac:(lia))].

Lemma advances1 : advances 0 1 (applySchemaVersion1 clock io).
Proof. plain 0%nat. Qed.
Lemma advances2 : advances 1 2 (applySchemaVersion2 clock io).
Proof. plain 1%nat. Qed.
Lemma advances3 : advances 2 3 (applySchemaVersion3 clock io).
Proof. plain 2%nat. Qed.
Lemma advances4 : advances 3 4 (applySchemaVersion4 clock io).
Proof. plain 3%nat. Qed.
Lemma advances5 : advances 4 5 (applySchemaVersion5 clock io).
Proof. apply (transaction_advances 4); [reflexivity|exact step5]. Qed.
Lemma advances6 : advances 5 6 (applySchemaVersion6 clock io).
Proof. plain 5%nat. Qed.
Lemma advances11 : advances 10 11 (applySchemaVersion11 clock io).
Proof. plain 10%nat. Qed.
Lemma advances10 : advances 9 11 (applySchemaVersion10 clock io).
Proof. apply (advances_then 9 10 11); [plain 9%nat|exact advances11|lia]. Qed.
Lemma advances9 : advances 8 11 (applySchemaVersion9 clock io).
Proof. apply (advances_then 8 9 11); [plain 8%nat|exact advances10|lia]. Qed.
Lemma advances8 : advances 7 11 (applySchemaVersion8 clock io).
Proof.
  apply (advances_then 7 8 11); [|exact advances9|lia].
  apply (transaction_advances 7); [reflexivity|exact step8].
Qed.
Lemma advances7 : advances 6 11 (applySchemaVersion7 clock io).
Proof. apply (advances_then 6 7 11); [plain 6%nat|exact advances8|lia]. Qed.

Ltac chain :=
  first [ exact advances1 | exact advances2 | exact advances3 | exact advances4
        | exact advances5 | exact advances6 | exact advances7
        | eapply advances_then; [chain|chain|lia] ].

Lemma dispatch_branch k f :
  (k ≤ 11)%nat → schema_version f = Z.of_nat k →
  ∃ a, advances k 11 a ∧ dispatch clock io f = a f.
Proof.
  intros Hk Hv. unfold dispatch. rewrite Hv. cbv zeta.
  do 12 try (destruct k as [|k]); [..|lia].
  all: repeat match goal with |- context [if ?c then _ else _] =>
         let b := eval vm_compute in c in change c with b; cbv iota end.
  1-7: (eexists; split; [|reflexivity]; chain).
  - eexists. split; [exact advances8|reflexivity].
  - eexists. split; [exact advances9|reflexivity].
  - eexists. split; [exact advances10|reflexivity].
  - eexists. split; [exact advances11|reflexivity].
  - eexists. split; [exact (advances_refl 11)|reflexivity].
Qed.

Lemma dispatch_advances k : (k ≤ 11)%nat → advances k 11 (dispatch clock io).
Proof.
  intros Hk f Hf. destruct (dispatch_branch k f Hk (v_version _ _ Hf)) as (a & Ha & ->).
  by apply Ha.
Qed.

Lemma create_table_present k f : sch f = schema_at k → create_migration_table f = (Ok tt, f).
Proof.
  intros Hs. unfold create_migration_table, exec_ddl. cbn [ddl_schema ddl_data receives].
  rewrite Hs, migrations_def. cbn [rbind wrapf guard_err andb]. rewrite <-Hs. by destruct f.
Qed.

Lemma initialize_advances k : (k ≤ 11)%nat → advances k 11 (initialize clock io).
Proof.
  intros Hk f Hf. unfold initialize, then_.
  rewrite (create_table_present k f (v_schema _ _ Hf)). by apply dispatch_advances.
Qed.

End Opening.

(** A file the server may be given: one an earlier release left, or none. *)
Definition openable (k : nat) (f : file) : Prop := valid k f ∨ (k = 0%nat ∧ f = fresh_file).

Definition base_file : file := mkFile (schema_at 0) {["schema_migrations" := []]}.

Lemma fresh_created : create_migration_table fresh_file = (Ok tt, base_file).
Proof. reflexivity. Qed.

Lemma base_valid : valid 0 base_file.
Proof.
  split; try done; try lia.
  - intros t d Hd. unfold base_file, rows. cbn [data].
    destruct (decide (t = "schema_migrations")) as [->|].
    + rewrite lookup_singleton_eq. apply table_ok_nil.
    + rewrite lookup_singleton_ne by congruence. apply table_ok_nil.
  - intros _. apply no_certificates. intros r Hr. by apply not_elem_of_nil in Hr.
Qed.

Lemma fresh_initialize clock io :
  initialize clock io fresh_file = initialize clock io base_file.
Proof.
  unfold initialize, then_. rewrite fresh_created.
  by rewrite (create_table_present 0 base_file eq_refl).
Qed.

Lemma fresh_kept f : file_kept fresh_file f.
Proof. split; [intros [d Hd]|intros t [d Hd]]; cbn [sch fresh_file defs] in Hd; by rewrite lookup_empty in Hd. Qed.

(** One opening of a file, whatever the driver does. *)
Lemma initialize_opens clock io k f :
  (k ≤ 11)%nat → openable k f →
  ∃ j, (k ≤ j ≤ 11)%nat ∧ valid j (initialize clock io f).2 ∧
    file_kept f (initialize clock io f).2 ∧
    ((∀ v, io v = None) → (initialize clock io f).1 = Ok tt ∧ j = 11%nat).
Proof.
  intros Hk [Hf|[-> ->]].
  - destruct (initialize_advances clock io k Hk f Hf) as (j & ? & ? & ? & Hj & Hok).
    exists j. split_and!; try assumption; try lia. intros Hio. split; [|apply Hj]; by apply Hok.
  - rewrite fresh_initialize.
    destruct (initialize_advances clock io 0 Hk base_file base_valid) as (j & ? & ? & ? & Hj & Hok).
    exists j. split_and!; try assumption; try lia; [apply fresh_kept|].
    intros Hio. split; [|apply Hj]; by apply Hok.
Qed.

Lemma open_all_opens runs k f :
  (k ≤ 11)%nat → openable k f →
  ∃ j, (k ≤ j ≤ 11)%nat ∧ openable j (open_all runs f) ∧ file_kept f (open_all runs f).
Proof.
  revert k f. induction runs as [|[clock io] runs IH]; intros k f Hk Hf.
  - exists k. split_and!; try assumption; try lia. reflexivity.
  - destruct (initialize_opens clock io k f Hk Hf) as (j & Hj & Hv & Hkept & _).
    destruct (IH j (initialize clock io f).2 ltac:(lia) (or_introl Hv)) as (l & Hl & Ho & Hkept').
    exists l. split_and!; try lia; [exact Ho|by etrans].
Qed.


(** C18: No sequence of openings loses data, whether they succeed or fail: every
    row of every table stays in its place with all its columns, but for the
    version table, for rotation codes, and for the state and revocation time of
    devices; a device outside the legacy state keeps those too, a legacy device
    can only be revoked, with a revocation time, and keeps one it had. *)
Theorem opening_keeps_data k f runs :
  (k ≤ 11)%nat → openable k f →
  file_kept f (open_all runs f) ∧ (f ≠ fresh_file → typed (open_all runs f)).
Proof.
  intros Hk Hf. destruct (open_all_opens runs k f Hk Hf) as (j & _ & Ho & Hkept).
  split; [exact Hkept|]. intros Hne. destruct Ho as [Hv|[_ Hfresh]]; [apply Hv|].
  destruct Hf as [Hv|[_ ?]]; [|done]. rewrite Hfresh in Hkept |- *.
  intros t d Hd. cbn [sch fresh_file defs] in Hd. by rewrite lookup_empty in Hd.
Qed.

(** The server refuses a file of a newer release and leaves it as it is. *)
Theorem newer_file_refused clock io f :
  is_Some (defs (sch f) !! "schema_migrations") → currentSchemaVersion < schema_version f →
  ∃ e, initialize clock io f = (Err e, f).
Proof.
  intros [d Hd] Hv. unfold initialize, then_, create_migration_table, exec_ddl.
  cbn [ddl_schema ddl_data receives]. rewrite Hd. cbn [rbind wrapf guard_err andb].
  destruct f as [s m]. cbn [sch data] in *. unfold dispatch.
  rewrite (proj2 (Z.gtb_lt _ _) Hv). eauto.
Qed.

End Versions.
