(* ===== verification/MigrationData.v ===== *)
(** The data that migrations compute: the epochs that version 5 gives to
    certified revocations, what version 8 does to legacy devices, and the
    devices of an up-to-date file as rows of the store's model. *)

From S2P Require Import Prelude GoStd MembershipCodec DeliveryStore Schema Sql Migrations.
From S2P Require Import MigrationRuns MigrationTheorems.

#[local] Open Scope string_scope.
#[local] Open Scope Z_scope.

Section Data.
Context `{Wire, Ed25519}.

(** ** Version 5 *)

Definition roster_of (item : revokedCertificate) (x : row) : result SignedWorkspaceRoster :=
  DecodeSignedWorkspaceRoster (bytes_of (get x "signed_roster")) (rcert_authorityPublicKey item).

(** [e] is the epoch of the first roster of the workspace that lists the
    revocation; every earlier roster decodes and does not list it. *)
Definition first_listing (f : file) (item : revokedCertificate) (e : Z) : Prop :=
  (∃ x s, x ∈ rosters_by_epoch (rcert_workspaceID item) f ∧ int_of (get x "epoch") = e ∧
     roster_of item x = Ok s ∧ lists_revocation item s = true) ∧
  ∀ x, x ∈ rosters_by_epoch (rcert_workspaceID item) f → int_of (get x "epoch") < e →
     ∃ s, roster_of item x = Ok s ∧ lists_revocation item s = false.

Lemma find_epoch_first item rs e :
  StronglySorted epoch_le rs → (∀ x, x ∈ rs → 0 < int_of (get x "epoch")) →
  find_epoch item rs = Ok e → e ≠ 0 →
  (∃ x s, x ∈ rs ∧ int_of (get x "epoch") = e ∧ roster_of item x = Ok s ∧
     lists_revocation item s = true) ∧
  ∀ x, x ∈ rs → int_of (get x "epoch") < e →
     ∃ s, roster_of item x = Ok s ∧ lists_revocation item s = false.
Proof.
  induction 1 as [|x rs Hsort IH Hx]; intros Hpos Hf He; cbn [find_epoch] in Hf.
  - apply Ok_inj in Hf. congruence.
  - apply rbind_Ok in Hf as (s & Hs & Hf). apply wrapf_Ok in Hs.
    pose proof (Hpos x (list_elem_of_here _ _)) as Hp.
    destruct (lists_revocation item s) eqn:El.
    + rewrite (proj2 (Z.eqb_neq _ _)) in Hf by lia. apply Ok_inj in Hf. split.
      * exists x, s. split_and!; [apply list_elem_of_here|done..].
      * intros y Hy Hlt. apply elem_of_cons in Hy as [->|Hy]; [lia|].
        rewrite Forall_forall in Hx. specialize (Hx y Hy). unfold epoch_le in Hx. lia.
    + cbn in Hf. destruct IH as [(y & s' & Hy & Hl) Hlt]; [|exact Hf|exact He|].
      { intros y Hy. apply Hpos. by apply list_elem_of_further. }
      split; [exists y, s'; split; [by apply list_elem_of_further|exact Hl]|].
      intros z Hz Hlt'. apply elem_of_cons in Hz as [->|Hz]; [by exists s|].
      by apply Hlt.
Qed.

#[local] Instance epoch_le_total : Total epoch_le.
Proof. intros a b. unfold epoch_le. lia. Qed.
#[local] Instance epoch_le_trans : Transitive epoch_le.
Proof. intros a b c. unfold epoch_le. lia. Qed.

Lemma roster_epochs_positive k f w x :
  (4 ≤ k ≤ 5)%nat → sch f = schema_at k → typed f → x ∈ rosters_by_epoch w f →
  0 < int_of (get x "epoch").
Proof.
  intros Hk Hs Hf Hx. unfold rosters_by_epoch in Hx. rewrite merge_sort_Permutation in Hx.
  apply list_elem_of_filter in Hx as [_ Hx].
  assert (forallb (λ k, match defs (schema_at k) !! "workspace_rosters" with
     | Some d => bool_decide (roster_epoch_column ∈ columns d) | None => false end)
     [4; 5]%nat = true) as Hall by (vm_compute; reflexivity).
  rewrite forallb_forall in Hall. assert (In k [4; 5]%nat) as Hin by (simpl; lia).
  specialize (Hall k Hin). destruct (defs (schema_at k) !! "workspace_rosters") as [d|] eqn:Hd;
    [|done]. apply bool_decide_eq_true in Hall.
  pose proof (Hf _ d ltac:(rewrite Hs; exact Hd)) as Ht.
  pose proof (row_ok_column d x _ (table_ok_row _ _ _ Ht Hx) Hall) as Hc.
  unfold column_ok in Hc. cbn in Hc. go_bool.
  destruct (get x "epoch"); try done. simpl in *. go_bool. lia.
Qed.

Lemma revocation_epoch_first f item e :
  sch f = schema_at 4 → typed f → revocation_epoch item f = Ok e → first_listing f item e.
Proof.
  intros Hs Hf He. unfold revocation_epoch in He. go_inv. go_bool. subst.
  eapply find_epoch_first; [|intros x Hx; by apply (roster_epochs_positive 4 f _ x ltac:(lia) Hs Hf Hx)|eassumption|assumption].
  unfold rosters_by_epoch. apply StronglySorted_merge_sort; apply _.
Qed.

(** A row of a typed table is known by its primary key. *)
Lemma row_by_key d rs a b :
  table_ok d rs = true → a ∈ rs → b ∈ rs → key_of d a = key_of d b → a = b.
Proof.
  intros Ht Ha Hb E. pose proof (table_ok_keys _ _ Ht) as Hn.
  apply list_elem_of_lookup in Ha as [i Hi]. apply list_elem_of_lookup in Hb as [j Hj].
  assert (i = j) as ->; [|congruence].
  eapply NoDup_lookup; [exact Hn| |]; rewrite list_lookup_fmap.
  - rewrite Hi. reflexivity.
  - rewrite Hj. simpl. by rewrite E.
Qed.

Definition item_of (d w : row) : revokedCertificate :=
  mkRevokedCertificate (bytes_of (get d "workspace_id")) (bytes_of (get d "id"))
    (bytes_of (get d "certificate_id")) (bytes_of (get w "authority_public_key")).

Lemma revoked_certificates_elem f item :
  item ∈ revoked_certificates f ↔
  ∃ d w, d ∈ rows "devices" f ∧ certified_revoked d = true ∧ w ∈ rows "workspaces" f ∧
    get w "id" = get d "workspace_id" ∧ item = item_of d w.
Proof.
  unfold revoked_certificates. rewrite list_elem_of_bind. split.
  - intros (d & Hi & Hd). apply list_elem_of_filter in Hd as [Hc Hd].
    apply list_elem_of_bind in Hi as (w & Hi & Hw). apply list_elem_of_filter in Hw as [Hid Hw].
    apply list_elem_of_singleton in Hi. exists d, w. split_and!; try done.
    by apply Is_true_true.
  - intros (d & w & Hd & Hc & Hw & Hid & ->). exists d.
    split; [|apply list_elem_of_filter; split; [by apply Is_true_true|done]].
    apply list_elem_of_bind. exists w. split; [by apply list_elem_of_singleton|].
    by apply list_elem_of_filter.
Qed.

Lemma blob_column k f t r n c :
  sch f = schema_at k → typed f → r ∈ rows t f →
  match defs (schema_at k) !! t with
  | Some d => bool_decide (blob n c ∈ columns d) | None => false end = true →
  ∃ b, get r n = BLOB b.
Proof.
  intros Hs Hf Hr Hc. destruct (defs (schema_at k) !! t) as [d|] eqn:Hd; [|done].
  apply bool_decide_eq_true in Hc.
  pose proof (Hf _ d ltac:(rewrite Hs; exact Hd)) as Ht.
  pose proof (row_ok_column d r _ (table_ok_row _ _ _ Ht Hr) Hc) as Hok.
  unfold column_ok in Hok. cbn [c_name blob c_nullable c_type c_check] in Hok. go_bool.
  destruct (get r n); try done. eauto.
Qed.

(** The certified revocation of a device is unique. *)
Lemma item_unique f r d w :
  sch f = schema_at 4 → typed f → r ∈ rows "devices" f → d ∈ rows "devices" f →
  w ∈ rows "workspaces" f → get w "id" = get d "workspace_id" →
  is_device (rcert_workspaceID (item_of d w)) (rcert_deviceID (item_of d w)) r = true → d = r.
Proof.
  intros Hs Hf Hr Hd Hw Hid Hdev. unfold is_device in Hdev. cbn in Hdev. go_bool.
  destruct (blob_column 4 f "devices" d "workspace_id" Any Hs Hf Hd ltac:(vm_compute; reflexivity))
    as [b Eb].
  destruct (blob_column 4 f "devices" d "id" (LengthIs 16) Hs Hf Hd ltac:(vm_compute; reflexivity))
    as [b' Eb'].
  rewrite Eb in *. rewrite Eb' in *. cbn [bytes_of] in *.
  destruct (devices_declared 4 ltac:(lia)) as [def Hdef].
  assert (primary def = ["workspace_id"; "id"]) as Hp.
  { assert (match defs (schema_at 4) !! "devices" with
            | Some d => bool_decide (primary d = ["workspace_id"; "id"]) | None => false end = true)
      as Hc by (vm_compute; reflexivity).
    rewrite Hdef in Hc. by apply bool_decide_eq_true in Hc. }
  apply (row_by_key def (rows "devices" f)); [apply Hf; by rewrite Hs|done..|].
  unfold key_of. rewrite Hp. cbn. congruence.
Qed.

Definition of_item (item : revokedCertificate) : row → bool :=
  is_device (rcert_workspaceID item) (rcert_deviceID item).

Lemma backfill_row_epoch f items e r :
  (∀ item, item ∈ items → of_item item r = true → from_ok 0 (revocation_epoch item f) = e) →
  get (backfill_row f items r) "revoked_membership_epoch" =
  if existsb (λ item, of_item item r) items then INTEGER e else get r "revoked_membership_epoch".
Proof.
  unfold backfill_row. revert r. induction items as [|item items IH]; intros r He; [reflexivity|].
  cbn [fold_left existsb]. fold (of_item item). destruct (of_item item r) eqn:Ei; cbn [orb].
  - rewrite (He item (list_elem_of_here _ _) Ei). rewrite IH.
    + unfold set_epoch. rewrite get_insert, decide_True by done. by destruct (existsb _ _).
    + intros x Hx. unfold of_item. rewrite is_device_set. apply He. by apply list_elem_of_further.
  - apply IH. intros x Hx. apply He. by apply list_elem_of_further.
Qed.

Lemma is_device_row w id r : is_device w id (row_of statements5 "devices" r) = is_device w id r.
Proof. unfold is_device. by rewrite !version5_row. Qed.

Lemma same_item f r i j :
  sch f = schema_at 4 → typed f → r ∈ rows "devices" f →
  i ∈ revoked_certificates f → j ∈ revoked_certificates f →
  of_item i r = true → of_item j r = true → i = j.
Proof.
  intros Hs Hf Hr Hi Hj Ei Ej.
  apply revoked_certificates_elem in Hi as (d & w & Hd & _ & Hw & Hid & ->).
  apply revoked_certificates_elem in Hj as (d' & w' & Hd' & _ & Hw' & Hid' & ->).
  assert (d = r) as -> by (by apply (item_unique f r d w)).
  assert (d' = r) as -> by (by apply (item_unique f r d' w')).
  assert (w = w') as ->; [|reflexivity].
  assert (∃ def, defs (schema_at 4) !! "workspaces" = Some def ∧ primary def = ["id"])
    as (def & Hdef & Hp).
  { assert (match defs (schema_at 4) !! "workspaces" with
            | Some d => bool_decide (primary d = ["id"]) | None => false end = true)
      as Hc by (vm_compute; reflexivity).
    destruct (defs (schema_at 4) !! "workspaces") as [def|]; [|done].
    exists def. split; [done|]. by apply bool_decide_eq_true in Hc. }
  apply (row_by_key def (rows "workspaces" f)); [apply Hf; by rewrite Hs|done..|].
  unfold key_of. rewrite Hp. cbn. congruence.
Qed.

(** What version 5 adds to the device [r]. *)
Record backfilled (f : file) (r r' : row) : Prop := {
  bf_kept : r ⊆ r';
  bf_epoch : ∀ item, item ∈ revoked_certificates f → of_item item r = true →
    ∃ e, get r' "revoked_membership_epoch" = INTEGER e ∧ first_listing f item e;
  bf_none : (∀ item, item ∈ revoked_certificates f → of_item item r = false) →
    get r' "revoked_membership_epoch" = NULL
}.

Lemma backfill_row_subset f items r r' :
  r !! "revoked_membership_epoch" = None → r ⊆ r' → r ⊆ backfill_row f items r'.
Proof.
  intros Hn. unfold backfill_row. revert r'.
  induction items as [|item items IH]; intros r' Hsub; [exact Hsub|]. cbn [fold_left]. apply IH.
  destruct (is_device _ _ _); [|exact Hsub]. unfold set_epoch.
  apply insert_subseteq_r; assumption.
Qed.

(** From a well-typed file of version 4 whose certified revocations are all
    listed by decodable rosters, version 5 succeeds; every device keeps its
    columns, a device with a certified revocation gets the epoch of the first
    roster of its workspace that lists it, and every other device gets none. *)
Theorem revocation_epochs_backfilled clock f :
  valid 4 f →
  ∃ f', applySchemaVersion5 clock (λ _, None) f = (Ok tt, f') ∧
    Forall2 (backfilled f) (rows "devices" f) (rows "devices" f').
Proof.
  intros Hval. destruct (version5_runs clock f Hval) as (f' & Hrun & _ & _ & Hrows).
  exists f'. unfold applySchemaVersion5, transaction. rewrite Hrun. split; [reflexivity|].
  rewrite Hrows. destruct Hval as [Hs Hf _ Hready _]. specialize (Hready ltac:(lia)).
  apply Forall2_fmap_self. intros r Hr. unfold compose.
  destruct (devices_declared 4 ltac:(lia)) as [def Hdef].
  pose proof (table_ok_row _ _ _ (Hf _ _ ltac:(rewrite Hs; exact Hdef)) Hr) as Hrow.
  assert (r !! "revoked_membership_epoch" = None) as Hnone.
  { apply (row_ok_dom def _ _ Hrow).
    assert (match defs (schema_at 4) !! "devices" with
            | Some d => bool_decide ("revoked_membership_epoch" ∉ names d) | None => false end = true)
      as Hc by (vm_compute; reflexivity).
    rewrite Hdef in Hc. by apply bool_decide_eq_true in Hc. }
  split.
  - apply backfill_row_subset; [exact Hnone|].
    destruct (statements_step 4 ltac:(lia)) as [Hw Hsch].
    by apply (row_of_kept _ _ _ _ _ r Hw Hsch Hdef Hrow).
  - intros item Hi Ei. pose proof (Hready item Hi) as Hok. apply (is_ok_from 0) in Hok.
    exists (from_ok 0 (revocation_epoch item f)).
    split; [|by apply revocation_epoch_first].
    rewrite (backfill_row_epoch _ _ (from_ok 0 (revocation_epoch item f))).
    + assert (existsb (λ x, of_item x (row_of statements5 "devices" r)) (revoked_certificates f)
        = true) as ->; [|reflexivity].
      apply existsb_exists. exists item. split; [by apply list_elem_of_In|].
      unfold of_item. by rewrite is_device_row.
    + intros x Hx Ex. unfold of_item in Ex. rewrite is_device_row in Ex.
      by rewrite (same_item f r x item Hs Hf Hr Hx Hi Ex Ei).
  - intros Hno. rewrite (backfill_row_epoch _ _ 0).
    + assert (existsb (λ x, of_item x (row_of statements5 "devices" r)) (revoked_certificates f)
        = false) as ->.
      { apply not_true_is_false. intros (x & Hx & Ex)%existsb_exists.
        unfold of_item in Ex. rewrite is_device_row in Ex. apply list_elem_of_In in Hx.
        pose proof (Hno x Hx) as Hf'. unfold of_item in Hf'. congruence. }
      unfold row_of, statements5. cbn [fold_left]. rewrite decide_True by reflexivity.
      by rewrite get_insert, decide_True.
    + intros x Hx Ex. unfold of_item in Ex. rewrite is_device_row in Ex.
      pose proof (Hno x Hx) as Hf'. unfold of_item in Hf'. congruence.
Qed.

(** From a well-typed file of version 7, version 8 revokes exactly the legacy
    devices, keeping a revocation time they had and setting the current time
    otherwise, changes no other device, and removes exactly the rotation codes
    of those devices; what it leaves has no legacy device. *)
Theorem legacy_devices_retired clock f :
  valid 7 f →
  ∃ f', transaction (λ _, None) 8 (version8_body clock) f = (Ok tt, f') ∧
    rows "devices" f' = retire_row (clock 8) <$> rows "devices" f ∧
    (∀ r, r ∈ rows "devices" f' → in_state legacy_active r = false) ∧
    ∀ c, c ∈ rows "credential_rotation_codes" f' ↔
      c ∈ rows "credential_rotation_codes" f ∧
      ¬ ∃ d, d ∈ rows "devices" f ∧ in_state legacy_active d = true ∧
          get d "workspace_id" = get c "workspace_id" ∧ get d "id" = get c "device_id".
Proof.
  intros Hval. destruct (version8_runs clock f Hval) as (f' & Hrun & Hv & _ & Hdev & Hcodes).
  exists f'. unfold transaction. rewrite Hrun. split_and!; [reflexivity|exact Hdev| |].
  - apply (v_legacy _ _ Hv). lia.
  - intros c. rewrite Hcodes, list_elem_of_In, filter_In, <-list_elem_of_In, negb_true_iff.
    unfold legacy_code. rewrite bool_decide_eq_false. apply and_iff_compat_l, not_iff_compat.
    rewrite list_elem_of_fmap. split.
    + intros (d & E & Hd). apply list_elem_of_filter in Hd as [Hl Hd]. exists d.
      injection E as E1 E2. split_and!; try done. by apply Is_true_true.
    + intros (d & Hd & Hl & E1 & E2). exists d. split; [congruence|].
      apply list_elem_of_filter. split; [by apply Is_true_true|done].
Qed.

(** ** The devices of an up-to-date file *)

Definition opt_int (v : value) : option (option Z) :=
  match v with NULL => Some None | INTEGER z => Some (Some z) | _ => None end.
Definition opt_blob (v : value) : option (option bytes) :=
  match v with NULL => Some None | BLOB b => Some (Some b) | _ => None end.
Definition req_int (v : value) : option Z := match v with INTEGER z => Some z | _ => None end.
Definition req_blob (v : value) : option bytes := match v with BLOB b => Some b | _ => None end.
Definition req_text (v : value) : option bytes := match v with TEXT b => Some b | _ => None end.

Definition read_type (v : value) : option DeviceType :=
  List.find (λ t, bool_decide (v = TEXT (bs t))) device_types.
Definition read_state (v : value) : option membershipState :=
  List.find (λ s, bool_decide (v = state_value s))
    [legacy_active; pending_proof; pending_approval; approved; revoked].

(** The columns of [devices], as the statements of the store read them. *)
Definition read_device (r : row) : option (PeerIdentity * DeviceRow) :=
  w ← req_blob (get r "workspace_id"); id ← req_blob (get r "id");
  ty ← read_type (get r "device_type"); name ← req_text (get r "device_name");
  hash ← req_blob (get r "auth_token_hash"); key ← req_blob (get r "e2ee_public_key");
  registered ← req_int (get r "registered_at_ms"); online ← req_int (get r "last_online_at_ms");
  revokedAt ← opt_int (get r "revoked_at_ms"); version ← req_int (get r "credential_version");
  state ← read_state (get r "membership_state");
  challenge ← opt_blob (get r "proof_challenge_digest");
  secret ← opt_blob (get r "proof_secret_hash");
  proofExpires ← opt_int (get r "proof_expires_at_ms");
  proofCompleted ← opt_int (get r "proof_completed_at_ms");
  cert ← opt_blob (get r "certificate_id"); signed ← opt_blob (get r "signed_certificate");
  approvedAt ← opt_int (get r "approved_at_ms");
  epoch ← opt_int (get r "revoked_membership_epoch");
  authenticated ← opt_int (get r "last_authenticated_at_ms");
  activity ← opt_int (get r "last_activity_at_ms");
  Some ((w, id), mkDeviceRow ty name hash key registered online revokedAt version state challenge
    secret proofExpires proofCompleted cert signed approvedAt epoch authenticated activity).

Definition of_int (o : option Z) : value := match o with Some z => INTEGER z | None => NULL end.
Definition of_blob (o : option bytes) : value := match o with Some b => BLOB b | None => NULL end.

(** The columns of a device, in the order of the versions that added them. *)
Definition device_values (p : PeerIdentity) (d : DeviceRow) : list (string * value) :=
  [("workspace_id", BLOB p.1); ("id", BLOB p.2); ("device_type", TEXT (bs (device_type d)));
   ("device_name", TEXT (device_name d)); ("auth_token_hash", BLOB (auth_token_hash d));
   ("e2ee_public_key", BLOB (e2ee_public_key d));
   ("registered_at_ms", INTEGER (registered_at_ms d));
   ("last_online_at_ms", INTEGER (last_online_at_ms d));
   ("revoked_at_ms", of_int (revoked_at_ms d));
   ("credential_version", INTEGER (credential_version d));
   ("membership_state", state_value (membership_state d));
   ("proof_challenge_digest", of_blob (proof_challenge_digest d));
   ("proof_secret_hash", of_blob (proof_secret_hash d));
   ("proof_expires_at_ms", of_int (proof_expires_at_ms d));
   ("proof_completed_at_ms", of_int (proof_completed_at_ms d));
   ("certificate_id", of_blob (certificate_id d));
   ("signed_certificate", of_blob (signed_certificate d));
   ("approved_at_ms", of_int (approved_at_ms d));
   ("revoked_membership_epoch", of_int (revoked_membership_epoch d));
   ("last_authenticated_at_ms", of_int (last_authenticated_at_ms d));
   ("last_activity_at_ms", of_int (last_activity_at_ms d))].

(** The constraints [Schema.insert_device] and the updates of the store rely on. *)
Definition device_well_typed (p : PeerIdentity) (d : DeviceRow) : bool :=
  (blen p.2 =? 16) && device_type_known (device_type d) &&
  (blen (auth_token_hash d) =? 32) && (blen (e2ee_public_key d) =? 65) &&
  (0 <? credential_version d) && negb (bool_decide (membership_state d = legacy_active)).

Lemma read_type_ok v :
  column_ok (text "device_type" (OneOf device_types)) v = true →
  ∃ t, read_type v = Some t ∧ v = TEXT (bs t) ∧ device_type_known t = true.
Proof.
  unfold column_ok. cbn. intros ?. go_bool. destruct v as [| |s|]; try done.
  cbn in *. go_bool.
  match goal with Hm : s ∈ _ |- _ => rename Hm into Hs end.
  unfold read_type. cbn [List.find device_types].
  repeat (apply elem_of_cons in Hs as [->|Hs];
    [eexists; split; [vm_compute; reflexivity|split; reflexivity]|]).
  by apply not_elem_of_nil in Hs.
Qed.

Lemma read_state_ok v :
  column_ok (defaults (state_value legacy_active)
    (text "membership_state" (OneOf membership_states))) v = true →
  ∃ s, read_state v = Some s ∧ v = state_value s.
Proof.
  unfold column_ok. cbn. intros ?. go_bool. destruct v as [| |s|]; try done.
  cbn in *. go_bool.
  match goal with Hm : s ∈ _ |- _ => rename Hm into Hs end.
  repeat (apply elem_of_cons in Hs as [->|Hs];
    [eexists; split; [vm_compute; reflexivity|reflexivity]|]).
  by apply not_elem_of_nil in Hs.
Qed.

Lemma opt_int_ok n k v : column_ok (nullable (int n k)) v = true →
  ∃ o, opt_int v = Some o ∧ v = of_int o.
Proof. unfold column_ok. cbn. destruct v; cbn; try done; eauto. Qed.
Lemma opt_blob_ok n k v : column_ok (nullable (blob n k)) v = true →
  ∃ o, opt_blob v = Some o ∧ v = of_blob o.
Proof. unfold column_ok. cbn. destruct v; cbn; try done; eauto. Qed.
Lemma req_int_ok n k e v : column_ok (defaults e (int n k)) v = true →
  ∃ z, req_int v = Some z ∧ v = INTEGER z ∧ holds k v = true.
Proof.
  unfold column_ok. cbn. destruct v; cbn; try done. intros ?%andb_true_iff. destruct_and!. eauto.
Qed.
Lemma req_blob_ok n k v : column_ok (blob n k) v = true →
  ∃ b, req_blob v = Some b ∧ v = BLOB b ∧ holds k v = true.
Proof. unfold column_ok. cbn. destruct v; cbn; try done; eauto. Qed.
Lemma req_text_ok n k v : column_ok (text n k) v = true →
  ∃ b, req_text v = Some b ∧ v = TEXT b.
Proof. unfold column_ok. cbn. destruct v; cbn; try done; eauto. Qed.

Definition device_columns : list column :=
  [blob "workspace_id" Any; blob "id" (LengthIs 16); text "device_type" (OneOf device_types);
   text "device_name" Any; blob "auth_token_hash" (LengthIs 32);
   blob "e2ee_public_key" (LengthIs 65); int "registered_at_ms" Any; int "last_online_at_ms" Any;
   nullable (int "revoked_at_ms" Any);
   defaults (INTEGER 1) (int "credential_version" (Above 0));
   state_column; nullable (blob "proof_challenge_digest" (LengthIs 32));
   nullable (blob "proof_secret_hash" (LengthIs 32)); nullable (int "proof_expires_at_ms" Any);
   nullable (int "proof_completed_at_ms" Any); nullable (blob "certificate_id" (LengthIs 32));
   nullable (blob "signed_certificate" Any); nullable (int "approved_at_ms" Any);
   epoch_column; nullable (int "last_authenticated_at_ms" Any);
   nullable (int "last_activity_at_ms" Any)].

Lemma current_device_columns d :
  defs (schema_at 11) !! "devices" = Some d → columns d = device_columns.
Proof.
  assert (match defs (schema_at 11) !! "devices" with
          | Some d => bool_decide (columns d = device_columns) | None => false end = true)
    as Hc by (vm_compute; reflexivity).
  intros Hd. rewrite Hd in Hc. by apply bool_decide_eq_true in Hc.
Qed.

(** Two rows with the same columns and values are equal. *)
Lemma row_ext (r : row) (l : list (string * value)) :
  NoDup l.*1 → dom r = (list_to_set l.*1 : gset string) →
  Forall (λ x, get r x.1 = x.2) l → r = list_to_map l.
Proof.
  intros Hn Hdom Hall. apply map_eq. intros c. destruct (r !! c) as [v|] eqn:E.
  - symmetry. apply elem_of_list_to_map_1; [exact Hn|].
    assert (c ∈ l.*1) as Hc.
    { assert (c ∈ dom r) as Hin by (apply elem_of_dom; eauto). rewrite Hdom in Hin.
      by apply elem_of_list_to_set in Hin. }
    apply list_elem_of_fmap in Hc as ([c' v'] & -> & Hin). cbn [fst] in *.
    rewrite Forall_forall in Hall. specialize (Hall _ Hin). cbn in Hall.
    rewrite get_lookup, E in Hall. cbn in Hall. by subst v'.
  - symmetry. apply not_elem_of_list_to_map_1. intros Hc.
    apply (not_elem_of_dom (D := gset string)) in E. apply E. rewrite Hdom.
    by apply elem_of_list_to_set.
Qed.


End Data.
