(* ===== verification/MigrationExamples.v ===== *)
(** A file of version 4 with a legacy device, an approved one and a certified
    revocation, and what opening it does: the theorems on migrations,
    instantiated. *)

From S2P Require Import Prelude GoStd MembershipCodec WireModel Schema Sql Migrations.
From S2P Require Import MigrationRuns MigrationTheorems MigrationData.

#[local] Open Scope string_scope.
#[local] Open Scope Z_scope.

(** ** Checking that a file is valid *)

Definition typed_check (f : file) : bool :=
  forallb (λ x, table_ok x.2 (rows x.1 f)) (map_to_list (defs (sch f))).

Lemma typed_check_ok f : typed_check f = true → typed f.
Proof.
  unfold typed_check. rewrite forallb_forall. intros Hc t d Hd.
  apply (Hc (t, d)). by apply list_elem_of_In, elem_of_map_to_list.
Qed.

Definition valid_check (k : nat) (f : file) : bool :=
  typed_check f && (schema_version f =? Z.of_nat k) &&
  ((4 <? k)%nat || forallb (λ i, is_ok (revocation_epoch i f)) (revoked_certificates f)) &&
  ((k <? 8)%nat || forallb (λ r, negb (in_state legacy_active r)) (rows "devices" f)).

Lemma valid_check_ok k m :
  valid_check k (mkFile (schema_at k) m) = true → valid k (mkFile (schema_at k) m).
Proof.
  unfold valid_check. rewrite !andb_true_iff, Z.eqb_eq, !orb_true_iff, !Nat.ltb_lt.
  intros [[[Ht Hv] Hr] Hl]. split; [reflexivity|by apply typed_check_ok|exact Hv|..].
  - intros Hk. destruct Hr as [Hr|Hr]; [lia|]. rewrite forallb_forall in Hr.
    intros i Hi. by apply Hr, list_elem_of_In.
  - intros Hk r Hin. destruct Hl as [Hl|Hl]; [lia|]. rewrite forallb_forall in Hl.
    apply negb_true_iff. by apply Hl, list_elem_of_In.
Qed.

(** ** The file *)

Definition phone : bytes := dev1.
Definition tablet : bytes := repeat Byte.x23 16.
Definition browser : bytes := repeat Byte.x24 16.
Definition revoked_cert : bytes := repeat Byte.x61 32.

Definition roster_bytes (epoch : Z) (revocations : list RevokedCertificate) : bytes :=
  from_ok [] (encode (from_ok (mkSignedRoster None [] [] [])
    (SignWorkspaceRoster
       (mkRoster 1 ws1 epoch (if epoch =? 1 then zero_digest else repeat Byte.x07 32)
          [] revocations [] []) sk1))).

Definition roster_row (epoch : Z) (revocations : list RevokedCertificate) : row :=
  {["workspace_id" := BLOB ws1; "epoch" := INTEGER epoch;
    "digest" := BLOB (repeat (z2b epoch) 32); "previous_digest" := BLOB zero_digest;
    "signed_roster" := BLOB (roster_bytes epoch revocations); "created_at_ms" := INTEGER 5]}.

Definition device4 (id : bytes) (state : membershipState) (revokedAt cert : value) : row :=
  list_to_map
    [("workspace_id", BLOB ws1); ("id", BLOB id); ("device_type", TEXT (bs "android"));
     ("device_name", TEXT (bs "Pixel")); ("auth_token_hash", BLOB (id ++ id));
     ("e2ee_public_key", BLOB p256_G); ("registered_at_ms", INTEGER 1);
     ("last_online_at_ms", INTEGER 2); ("revoked_at_ms", revokedAt);
     ("credential_version", INTEGER 1); ("membership_state", state_value state);
     ("proof_challenge_digest", NULL); ("proof_secret_hash", NULL);
     ("proof_expires_at_ms", NULL); ("proof_completed_at_ms", NULL); ("certificate_id", cert);
     ("signed_certificate", NULL); ("approved_at_ms", NULL)].

Definition code_row (id hash : bytes) : row :=
  {["code_hash" := BLOB hash; "workspace_id" := BLOB ws1; "device_id" := BLOB id;
    "created_at_ms" := INTEGER 3; "expires_at_ms" := INTEGER 4; "consumed_at_ms" := NULL]}.

Definition migration_row (v : Z) : row :=
  {["version" := INTEGER v; "applied_at_ms" := INTEGER 0]}.

Definition file4 : file := mkFile (schema_at 4)
  {["schema_migrations" := migration_row <$> [1; 2; 3; 4];
    "workspaces" := [{["id" := BLOB ws1; "created_at_ms" := INTEGER 0;
                       "authority_public_key" := BLOB (ed_Public sk1)]}];
    "devices" := [device4 phone revoked (INTEGER 9) (BLOB revoked_cert);
                  device4 tablet legacy_active NULL NULL;
                  device4 browser approved NULL (BLOB (repeat Byte.x62 32))];
    "credential_rotation_codes" := [code_row tablet (repeat Byte.x71 32);
                                    code_row browser (repeat Byte.x72 32)];
    "workspace_rosters" := [roster_row 2 [mkRevoked revoked_cert phone 9 []]; roster_row 1 []]]}.

Definition example_clock (v : Z) : Z := 1000 + v.

Lemma file4_valid : valid 4 file4.
Proof. apply valid_check_ok. vm_compute. reflexivity. Qed.

(** The run of migrations 5 to 11 on the file, evaluated once. *)
Definition no_io : Z → option error := λ _, None.
Definition opened4 : file := (initialize example_clock no_io file4).2.

Definition epochs_and_states (f : file) : list (value * value * value) :=
  (λ r, (get r "revoked_membership_epoch", get r "membership_state", get r "revoked_at_ms"))
    <$> rows "devices" f.

Lemma opened4_devices :
  epochs_and_states opened4 =
  [(INTEGER 2, state_value revoked, INTEGER 9); (NULL, state_value revoked, INTEGER 1008);
   (NULL, state_value approved, NULL)].
Proof. vm_compute. reflexivity. Qed.

(** ** Witnesses *)

(** The opening of [file4] first dies in version 7, then in version 9. *)
Definition failing_at (v : Z) : (Z → Z) * (Z → option error) :=
  (example_clock, λ x, if x =? v then Some (New "disk I/O error") else None).


Lemma opening_keeps_data_witness :
  openable 4 file4 ∧ file_kept file4 (open_all [failing_at 9] file4).
Proof.
  assert (openable 4 file4) as Ho by (left; exact file4_valid).
  split; [exact Ho|].
  exact (proj1 (opening_keeps_data 4 file4 [failing_at 9] ltac:(lia) Ho)).
Defined.

Definition file12 : file := mkFile (schema_at 0)
  {["schema_migrations" := migration_row <$> [11; 12]]}.

Lemma newer_file_refused_witness :
  schema_version file12 = 12 ∧ ∃ e, initialize example_clock no_io file12 = (Err e, file12).
Proof.
  assert (schema_version file12 = 12) as Hv by (vm_compute; reflexivity).
  split; [exact Hv|].
  refine (newer_file_refused example_clock no_io file12 _ _).
  - exists schema_migrations_def. exact (migrations_def 0).
  - rewrite Hv. reflexivity.
Defined.

Lemma revocation_epochs_backfilled_witness :
  valid 4 file4 ∧
  ∃ f', applySchemaVersion5 example_clock (λ _, None) file4 = (Ok tt, f') ∧
    Forall2 (backfilled file4) (rows "devices" file4) (rows "devices" f').
Proof.
  split; [exact file4_valid|]. exact (revocation_epochs_backfilled example_clock file4 file4_valid).
Defined.

Definition file7 : file :=
  (transaction no_io 7 (migrate example_clock 7 statements7)
    (transaction no_io 6 (migrate example_clock 6 statements6)
      (applySchemaVersion5 example_clock no_io file4).2).2).2.

Lemma file7_valid : valid 7 file7.
Proof.
  destruct (advances5 example_clock no_io file4 file4_valid) as (k & Hk & Hv & _ & Hok & Hio).
  rewrite (Hok (Hio (λ _, eq_refl))) in Hv. clear Hok Hio.
  destruct (advances6 example_clock no_io _ Hv) as (k' & _ & Hv' & _ & Hok & Hio).
  rewrite (Hok (Hio (λ _, eq_refl))) in Hv'. clear Hok Hio.
  destruct (transaction_advances no_io 6 7 _ eq_refl
    (step_plain example_clock 6 ltac:(lia) ltac:(lia) ltac:(lia)) _ Hv')
    as (k'' & _ & Hv'' & _ & Hok & Hio).
  rewrite (Hok (Hio (λ _, eq_refl))) in Hv''. exact Hv''.
Qed.

Lemma legacy_devices_retired_witness :
  valid 7 file7 ∧
  ∃ f', transaction (λ _, None) 8 (version8_body example_clock) file7 = (Ok tt, f') ∧
    rows "devices" f' = retire_row (example_clock 8) <$> rows "devices" file7.
Proof.
  split; [exact file7_valid|].
  destruct (legacy_devices_retired example_clock file7 file7_valid) as (f' & Hrun & Hdev & _).
  exists f'. split; [exact Hrun|exact Hdev].
Defined.

Lemma opened4_valid : valid 11 opened4.
Proof.
  destruct (initialize_opens example_clock no_io 4 file4 ltac:(lia) (or_introl file4_valid))
    as (j & _ & Hv & _ & Hend).
  destruct (Hend (λ _, eq_refl)) as [_ E]. rewrite E in Hv. exact Hv.
Qed.

