(* ===== verification/PayloadCodec.v ===== *)
(** protocol/payloadcodec: the plaintext a device seals for another device. The
    messages of protocol/proto/notification/v1/payload.proto, their validation,
    and the canonical encoding. A message that a Go pointer may leave nil is an
    [option]; the protobuf runtime is the class [Proto] of [MembershipCodec]. *)

From S2P Require Import Prelude GoStd MembershipCodec.

(** ** Messages *)

Record ActionInvoke : Type := mkActionInvoke {
  ai_notification_id : bytes;
  ai_notification_revision : Z;
  ai_action_id : bytes;
  ai_idempotency_key : bytes;
  ai_reply_text : option bytes;
  ai_dismiss_notification : bool;
  ai_unknown : bytes
}.

Record ActionResult : Type := mkActionResult {
  ar_idempotency_key : bytes;
  ar_status : Z;
  ar_detail : option bytes;
  ar_unknown : bytes
}.

Record ActionResultAck : Type := mkActionResultAck {
  aa_idempotency_key : bytes;
  aa_result_sha256 : bytes;
  aa_unknown : bytes
}.

Record IdentityKeyTransition : Type := mkIdentityKeyTransition {
  it_transition_id : bytes;
  it_previous_key_id : bytes;
  it_new_public_key : bytes;
  it_new_key_id : bytes;
  it_unknown : bytes
}.

Record IdentityKeyTransitionAck : Type := mkIdentityKeyTransitionAck {
  ia_transition_id : bytes;
  ia_previous_key_id : bytes;
  ia_new_key_id : bytes;
  ia_transition_sha256 : bytes;
  ia_unknown : bytes
}.

Record IdentityKeyTransitionCommit : Type := mkIdentityKeyTransitionCommit {
  ic_transition_id : bytes;
  ic_previous_key_id : bytes;
  ic_new_key_id : bytes;
  ic_transition_sha256 : bytes;
  ic_ack_sha256 : bytes;
  ic_unknown : bytes
}.

Record NotificationMedia : Type := mkNotificationMedia {
  nm_content_sha256 : bytes;
  nm_mime_type : Z;
  nm_width : Z;
  nm_height : Z;
  nm_encoded_bytes : bytes;
  nm_unknown : bytes
}.

Record NotificationActionDescriptor : Type := mkNotificationActionDescriptor {
  na_action_id : bytes;
  na_title : bytes;
  na_requires_text_input : bool;
  na_allows_free_form_input : bool;
  na_unknown : bytes
}.

Record NotificationUpsert : Type := mkNotificationUpsert {
  nu_notification_id : bytes;
  nu_notification_revision : Z;
  nu_title : option bytes;
  nu_body : option bytes;
  nu_app_icon : option NotificationMedia;
  nu_avatar : option NotificationMedia;
  nu_contains_content_image : bool;
  nu_actions : list (option NotificationActionDescriptor);
  nu_source_application_id : bytes;
  nu_source_application_name : bytes;
  nu_unknown : bytes
}.

Record NotificationRemoved : Type := mkNotificationRemoved {
  nr_notification_id : bytes;
  nr_notification_revision : Z;
  nr_unknown : bytes
}.

Record NotificationSnapshotEntry : Type := mkNotificationSnapshotEntry {
  ne_notification_id : bytes;
  ne_notification_revision : Z;
  ne_unknown : bytes
}.

Record NotificationSnapshotManifest : Type := mkNotificationSnapshotManifest {
  sm_high_water_revision : Z;
  sm_active_notifications : list (option NotificationSnapshotEntry);
  sm_recovery_request_id : option bytes;
  sm_unknown : bytes
}.

Record NotificationSnapshotRequest : Type := mkNotificationSnapshotRequest {
  sq_recovery_request_id : bytes;
  sq_reset_high_water_delivery_id : Z;
  sq_unknown : bytes
}.

Inductive payloadBody : Type :=
| EncryptedPayload_ActionInvoke (m : option ActionInvoke)
| EncryptedPayload_ActionResult (m : option ActionResult)
| EncryptedPayload_ActionResultAck (m : option ActionResultAck)
| EncryptedPayload_IdentityKeyTransition (m : option IdentityKeyTransition)
| EncryptedPayload_IdentityKeyTransitionAck (m : option IdentityKeyTransitionAck)
| EncryptedPayload_IdentityKeyTransitionCommit (m : option IdentityKeyTransitionCommit)
| EncryptedPayload_NotificationUpsert (m : option NotificationUpsert)
| EncryptedPayload_NotificationRemoved (m : option NotificationRemoved)
| EncryptedPayload_NotificationSnapshotManifest (m : option NotificationSnapshotManifest)
| EncryptedPayload_NotificationSnapshotRequest (m : option NotificationSnapshotRequest).

Record EncryptedPayload : Type := mkEncryptedPayload {
  ep_schema_version : Z;
  ep_body : option payloadBody;
  ep_unknown : bytes
}.

(** ** Constants *)

Definition PayloadSchemaVersion : Z := 2.
Definition IdentityLifecycleSchemaVersion : Z := 2.
Definition NotificationSchemaVersion : Z := 7.
Definition MaxPlaintextSize : Z := 524272.
Definition MaxNotificationIDBytes : Z := 512.
Definition MaxNotificationAppIDBytes : Z := 255.
Definition MaxNotificationAppNameBytes : Z := 512.
Definition MaxNotificationTitleBytes : Z := 512.
Definition MaxNotificationBodyBytes : Z := 4000.
Definition MaxNotificationActions : Z := 16.
Definition MaxNotificationActionTitleBytes : Z := 256.
Definition MaxNotificationMediaBytes : Z := 128 * 1024.
Definition MaxNotificationMediaDimension : Z := 256.
Definition MaxSnapshotEntries : Z := 200.
Definition MaxReplyTextBytes : Z := 4000.
Definition MaxResultDetailBytes : Z := 256.
Definition SHA256Size : Z := 32.
Definition P256PublicKeySize : Z := 65.
Definition MaxNotificationRevision : Z := 2 ^ 63 - 1.
Definition ACTION_RESULT_STATUS_SUCCEEDED : Z := 1.
Definition ACTION_RESULT_STATUS_OUTCOME_UNKNOWN : Z := 9.
Definition MIME_TYPE_PNG : Z := 1.
Definition MIME_TYPE_WEBP : Z := 2.

Definition pngSignature : bytes := map z2b [0x89; 0x50; 0x4E; 0x47; 13; 10; 0x1A; 10].
(** "[图片]" in UTF-8. *)
Definition imagePlaceholder : bytes :=
  map z2b [0x5B; 0xE5; 0x9B; 0xBE; 0xE7; 0x89; 0x87; 0x5D].

(** ** Validation *)

Definition has_unknown (u : bytes) : bool := negb (blen u =? 0).

(** [!utf8.ValidString(v) || len(v) < 1 || len(v) > max] *)
Definition bad_text (v : bytes) (max : Z) : bool :=
  negb (utf8_ValidString v) || (blen v <? 1) || (blen v >? max).

(** [len(v) != n || allZero(v)] *)
Definition bad_identifier (v : bytes) (n : Z) : bool :=
  negb (blen v =? n) || allBytesZero v.

Definition validateRequiredText (v : bytes) (maxBytes : Z) (field : string) : result unit :=
  guard_err (bad_text v maxBytes) (field +:+ " must be valid UTF-8 within size limit").

Definition validateNotificationBinding (notificationID : bytes) (rev : Z) : result unit :=
  fail_if bad_text notificationID MaxNotificationIDBytes
    with_msg "notification id must be valid UTF-8 within size limit" in
  guard_err ((rev <? 1) || (rev >? MaxNotificationRevision))
    "notification revision is out of range".

Definition validateNotificationActionDescriptor (a : option NotificationActionDescriptor)
  : result unit :=
  match a with
  | None => Err (New "notification action contains unknown fields")
  | Some action =>
      fail_if has_unknown (na_unknown action)
        with_msg "notification action contains unknown fields" in
      fail_if negb (blen (na_action_id action) =? IdentifierSize)
        with_msg "notification action id must be 16 bytes" in
      fail_if bad_text (na_title action) MaxNotificationActionTitleBytes
        with_msg "notification action title must be valid UTF-8 within size limit" in
      guard_err (na_allows_free_form_input action && negb (na_requires_text_input action))
        "notification action cannot allow text without requiring text input"
  end.

Definition validateNotificationMedia (media : NotificationMedia) : result unit :=
  fail_if has_unknown (nm_unknown media) with_msg "media contains unknown fields" in
  let encoded := nm_encoded_bytes media in
  fail_if (blen encoded <? 1) || (blen encoded >? MaxNotificationMediaBytes)
    with_msg "media bytes are out of range" in
  fail_if (nm_width media <? 1) || (nm_width media >? MaxNotificationMediaDimension) ||
          (nm_height media <? 1) || (nm_height media >? MaxNotificationMediaDimension)
    with_msg "media dimensions are out of range" in
  fail_if negb (beq (nm_content_sha256 media) (Sum256 encoded))
    with_msg "media content digest does not match encoded bytes" in
  if nm_mime_type media =? MIME_TYPE_PNG then
    guard_err ((blen encoded <? 8) || negb (beq (slice 0 8 encoded) pngSignature))
      "media bytes do not have a PNG signature"
  else if nm_mime_type media =? MIME_TYPE_WEBP then
    guard_err ((blen encoded <? 12) || negb (beq (slice 0 4 encoded) (bs "RIFF")) ||
               negb (beq (slice 8 12 encoded) (bs "WEBP")))
      "media bytes do not have a WebP signature"
  else Err (New "media MIME type is unsupported").

Definition validate_optional {A} (check : A → result unit) (o : option A) : result unit :=
  match o with Some a => check a | None => Ok tt end.

Fixpoint check_actions (seen : gset bytes) (actions : list (option NotificationActionDescriptor))
  : result unit :=
  match actions with
  | [] => Ok tt
  | a :: rest =>
      let? _ := validateNotificationActionDescriptor a in
      let key := match a with Some action => na_action_id action | None => [] end in
      fail_if bool_decide (key ∈ seen) with_msg "notification action ids must be unique" in
      check_actions ({[key]} ∪ seen) rest
  end.

Definition validateNotificationUpsert (n : option NotificationUpsert) : result unit :=
  match n with
  | None => Err (New "notification upsert contains unknown fields")
  | Some notification =>
      fail_if has_unknown (nu_unknown notification)
        with_msg "notification upsert contains unknown fields" in
      let? _ := validateNotificationBinding (nu_notification_id notification)
                  (nu_notification_revision notification) in
      let? _ := validateRequiredText (nu_source_application_id notification)
                  MaxNotificationAppIDBytes "notification source application id" in
      let? _ := validateRequiredText (nu_source_application_name notification)
                  MaxNotificationAppNameBytes "notification source application name" in
      fail_if bool_decide (nu_title notification = None) && bool_decide (nu_body notification = None)
        with_msg "notification upsert requires title or body" in
      let? _ := validate_optional (λ title, guard_err (bad_text title MaxNotificationTitleBytes)
                  "notification title must be valid UTF-8 within size limit") (nu_title notification) in
      let? _ := validate_optional (λ body, guard_err (bad_text body MaxNotificationBodyBytes)
                  "notification body must be valid UTF-8 within size limit") (nu_body notification) in
      fail_if nu_contains_content_image notification &&
              match nu_body notification with
              | Some body => negb (Contains body imagePlaceholder)
              | None => true
              end
        with_msg "notification content image requires a body placeholder" in
      let? _ := wrapf "notification app icon"
                  (validate_optional validateNotificationMedia (nu_app_icon notification)) in
      let? _ := wrapf "notification avatar"
                  (validate_optional validateNotificationMedia (nu_avatar notification)) in
      fail_if Z.of_nat (length (nu_actions notification)) >? MaxNotificationActions
        with_msg "notification has too many actions" in
      check_actions ∅ (nu_actions notification)
  end.

Definition validateNotificationRemoved (n : option NotificationRemoved) : result unit :=
  match n with
  | None => Err (New "notification removed contains unknown fields")
  | Some notification =>
      fail_if has_unknown (nr_unknown notification)
        with_msg "notification removed contains unknown fields" in
      validateNotificationBinding (nr_notification_id notification)
        (nr_notification_revision notification)
  end.

Fixpoint check_entries (highWater : Z) (previousID : bytes)
  (entries : list (option NotificationSnapshotEntry)) : result unit :=
  match entries with
  | [] => Ok tt
  | None :: _ => Err (New "notification snapshot entry contains unknown fields")
  | Some entry :: rest =>
      fail_if has_unknown (ne_unknown entry)
        with_msg "notification snapshot entry contains unknown fields" in
      let? _ := validateNotificationBinding (ne_notification_id entry)
                  (ne_notification_revision entry) in
      fail_if ne_notification_revision entry >? highWater
        with_msg "notification snapshot entry exceeds high-water revision" in
      fail_if negb (beq previousID []) && negb (bytes_lt previousID (ne_notification_id entry))
        with_msg "notification snapshot entries are not unique and strictly sorted" in
      check_entries highWater (ne_notification_id entry) rest
  end.

Definition validateNotificationSnapshotManifest (m : option NotificationSnapshotManifest)
  : result unit :=
  match m with
  | None => Err (New "notification snapshot manifest contains unknown fields")
  | Some manifest =>
      fail_if has_unknown (sm_unknown manifest)
        with_msg "notification snapshot manifest contains unknown fields" in
      fail_if match sm_recovery_request_id manifest with
              | Some id => bad_identifier id IdentifierSize
              | None => false
              end
        with_msg "snapshot recovery request id must be a non-zero 16-byte value" in
      fail_if sm_high_water_revision manifest >? MaxNotificationRevision
        with_msg "notification snapshot high-water revision is out of range" in
      fail_if Z.of_nat (length (sm_active_notifications manifest)) >? MaxSnapshotEntries
        with_msg "notification snapshot has too many active entries" in
      check_entries (sm_high_water_revision manifest) [] (sm_active_notifications manifest)
  end.

Definition validateNotificationSnapshotRequest (r : option NotificationSnapshotRequest)
  : result unit :=
  match r with
  | None => Err (New "notification snapshot request contains unknown fields")
  | Some request =>
      fail_if has_unknown (sq_unknown request)
        with_msg "notification snapshot request contains unknown fields" in
      fail_if bad_identifier (sq_recovery_request_id request) IdentifierSize
        with_msg "snapshot recovery request id must be a non-zero 16-byte value" in
      guard_err (sq_reset_high_water_delivery_id request >? MaxNotificationRevision)
        "snapshot reset high-water delivery id is out of range"
  end.

(** A nil [ActionInvoke] reads as the zero message. *)
Definition zeroActionInvoke : ActionInvoke := mkActionInvoke [] 0 [] [] None false [].

Definition validateActionInvoke (a : option ActionInvoke) : result unit :=
  let action := default zeroActionInvoke a in
  fail_if has_unknown (ai_unknown action) with_msg "action invocation contains unknown fields" in
  let? _ := validateNotificationBinding (ai_notification_id action)
              (ai_notification_revision action) in
  fail_if bad_identifier (ai_idempotency_key action) IdentifierSize
    with_msg "idempotency key must be a non-zero 16-byte value" in
  if ai_dismiss_notification action then
    guard_err (negb (blen (ai_action_id action) =? 0) ||
               negb (bool_decide (ai_reply_text action = None)))
      "dismiss invocation cannot include an action id or reply text"
  else
    fail_if negb (blen (ai_action_id action) =? IdentifierSize)
      with_msg "action id must be 16 bytes" in
    validate_optional (λ reply, guard_err (bad_text reply MaxReplyTextBytes)
      "reply text must be valid UTF-8 within size limit") (ai_reply_text action).

Definition validateActionResult (r : option ActionResult) : result unit :=
  match r with
  | None => Err (New "action result contains unknown fields")
  | Some res =>
      fail_if has_unknown (ar_unknown res) with_msg "action result contains unknown fields" in
      fail_if bad_identifier (ar_idempotency_key res) IdentifierSize
        with_msg "idempotency key must be a non-zero 16-byte value" in
      fail_if (ar_status res <? ACTION_RESULT_STATUS_SUCCEEDED) ||
              (ar_status res >? ACTION_RESULT_STATUS_OUTCOME_UNKNOWN)
        with_msg "action result status is unsupported" in
      validate_optional (λ detail, guard_err (bad_text detail MaxResultDetailBytes)
        "action result detail must be valid UTF-8 within size limit") (ar_detail res)
  end.

Definition validateActionResultAck (a : option ActionResultAck) : result unit :=
  match a with
  | None => Err (New "action result acknowledgement contains unknown fields")
  | Some ack =>
      fail_if has_unknown (aa_unknown ack)
        with_msg "action result acknowledgement contains unknown fields" in
      fail_if bad_identifier (aa_idempotency_key ack) IdentifierSize
        with_msg "idempotency key must be a non-zero 16-byte value" in
      guard_err (bad_identifier (aa_result_sha256 ack) SHA256Size)
        "result SHA-256 must be a non-zero 32-byte value"
  end.

Definition validateTransitionBinding (transitionID previousKeyID newKeyID : bytes) : result unit :=
  fail_if bad_identifier transitionID IdentifierSize
    with_msg "transition id must be a non-zero 16-byte value" in
  fail_if bad_identifier previousKeyID SHA256Size
    with_msg "previous identity key id must be a non-zero 32-byte value" in
  fail_if bad_identifier newKeyID SHA256Size
    with_msg "new identity key id must be a non-zero 32-byte value" in
  guard_err (beq previousKeyID newKeyID) "new identity key must differ from previous key".

Definition validateIdentityKeyTransition (t : option IdentityKeyTransition) : result unit :=
  match t with
  | None => Err (New "identity key transition contains unknown fields")
  | Some transition =>
      fail_if has_unknown (it_unknown transition)
        with_msg "identity key transition contains unknown fields" in
      let? _ := validateTransitionBinding (it_transition_id transition)
                  (it_previous_key_id transition) (it_new_key_id transition) in
      let publicKey := it_new_public_key transition in
      fail_if negb (blen publicKey =? P256PublicKeySize)
        with_msg "new identity public key must be a 65-byte P-256 point" in
      fail_if bool_decide (P256_Unmarshal publicKey = None)
        with_msg "new identity public key must be a valid P-256 point" in
      guard_err (negb (beq (Sum256 publicKey) (it_new_key_id transition)))
        "new identity key id must equal SHA-256 of public key"
  end.

Definition validateIdentityKeyTransitionAck (a : option IdentityKeyTransitionAck) : result unit :=
  match a with
  | None => Err (New "identity key transition acknowledgement contains unknown fields")
  | Some ack =>
      fail_if has_unknown (ia_unknown ack)
        with_msg "identity key transition acknowledgement contains unknown fields" in
      let? _ := validateTransitionBinding (ia_transition_id ack) (ia_previous_key_id ack)
                  (ia_new_key_id ack) in
      guard_err (bad_identifier (ia_transition_sha256 ack) SHA256Size)
        "transition SHA-256 must be a non-zero 32-byte value"
  end.

Definition validateIdentityKeyTransitionCommit (c : option IdentityKeyTransitionCommit)
  : result unit :=
  match c with
  | None => Err (New "identity key transition commit contains unknown fields")
  | Some commit =>
      fail_if has_unknown (ic_unknown commit)
        with_msg "identity key transition commit contains unknown fields" in
      let? _ := validateTransitionBinding (ic_transition_id commit) (ic_previous_key_id commit)
                  (ic_new_key_id commit) in
      fail_if bad_identifier (ic_transition_sha256 commit) SHA256Size
        with_msg "transition SHA-256 must be a non-zero 32-byte value" in
      guard_err (bad_identifier (ic_ack_sha256 commit) SHA256Size)
        "transition acknowledgement SHA-256 must be a non-zero 32-byte value"
  end.

Definition validateActionSchema (payload : EncryptedPayload) (allowLegacy dismiss : bool)
  (bodyError : result unit) : result unit :=
  if ep_schema_version payload =? PayloadSchemaVersion then bodyError
  else if allowLegacy && (ep_schema_version payload =? 1) && negb dismiss then bodyError
  else Err (New "encrypted payload schema version does not match body").

Definition validateSchema (payload : EncryptedPayload) (expected : Z) (bodyError : result unit)
  : result unit :=
  if negb (ep_schema_version payload =? expected)
  then Err (New "encrypted payload schema version does not match body")
  else bodyError.

Definition validate (p : option EncryptedPayload) (allowLegacyActionSchema : bool) : result unit :=
  match p with
  | None => Err (New "encrypted payload is required")
  | Some payload =>
      fail_if has_unknown (ep_unknown payload)
        with_msg "encrypted payload contains unknown fields" in
      match ep_body payload with
      | Some (EncryptedPayload_ActionInvoke body) =>
          validateActionSchema payload allowLegacyActionSchema
            (ai_dismiss_notification (default zeroActionInvoke body)) (validateActionInvoke body)
      | Some (EncryptedPayload_ActionResult body) =>
          validateActionSchema payload allowLegacyActionSchema false (validateActionResult body)
      | Some (EncryptedPayload_ActionResultAck body) =>
          validateActionSchema payload allowLegacyActionSchema false (validateActionResultAck body)
      | Some (EncryptedPayload_IdentityKeyTransition body) =>
          validateSchema payload IdentityLifecycleSchemaVersion (validateIdentityKeyTransition body)
      | Some (EncryptedPayload_IdentityKeyTransitionAck body) =>
          validateSchema payload IdentityLifecycleSchemaVersion
            (validateIdentityKeyTransitionAck body)
      | Some (EncryptedPayload_IdentityKeyTransitionCommit body) =>
          validateSchema payload IdentityLifecycleSchemaVersion
            (validateIdentityKeyTransitionCommit body)
      | Some (EncryptedPayload_NotificationUpsert body) =>
          validateSchema payload NotificationSchemaVersion (validateNotificationUpsert body)
      | Some (EncryptedPayload_NotificationRemoved body) =>
          validateSchema payload NotificationSchemaVersion (validateNotificationRemoved body)
      | Some (EncryptedPayload_NotificationSnapshotManifest body) =>
          validateSchema payload NotificationSchemaVersion
            (validateNotificationSnapshotManifest body)
      | Some (EncryptedPayload_NotificationSnapshotRequest body) =>
          validateSchema payload NotificationSchemaVersion
            (validateNotificationSnapshotRequest body)
      | None => Err (New "exactly one supported encrypted payload body is required")
      end
  end.

Definition ValidatePayload (payload : option EncryptedPayload) : result unit :=
  validate payload false.

(** ** Encoding *)

Section Codec.
Context `{Proto EncryptedPayload}.

Definition plaintext_out_of_range (b : bytes) : bool :=
  (blen b =? 0) || (blen b >? MaxPlaintextSize).

Definition EncodePayload (payload : EncryptedPayload) : result bytes :=
  let? _ := ValidatePayload (Some payload) in
  match Marshal payload with
  | None => Err (New "encode encrypted payload")
  | Some encoded =>
      fail_if plaintext_out_of_range encoded
        with_msg "encrypted payload size is out of range" in
      Ok encoded
  end.

Definition DecodePayload (encoded : bytes) : result EncryptedPayload :=
  fail_if plaintext_out_of_range encoded with_msg "encrypted payload size is out of range" in
  match Unmarshal encoded with
  | None => Err (New "decode encrypted payload")
  | Some payload =>
      let? _ := validate (Some payload) true in
      match Marshal payload with
      | None => Err (New "re-encode encrypted payload")
      | Some canonical =>
          fail_if negb (beq canonical encoded)
            with_msg "encrypted payload is not canonically encoded" in
          Ok payload
      end
  end.

End Codec.
