(* ===== verification/PayloadSpec.v ===== *)
(** What the payload codec accepts, stated declaratively after
    protocol/encrypted-payload-v1.md, and that the decoder accepts exactly that. *)

From S2P Require Import Prelude GoStd MembershipCodec PayloadCodec.

(** ** The specification *)

Definition is_text (v : bytes) (max : Z) : Prop := utf8_ValidString v = true ∧ 1 ≤ blen v ≤ max.
Definition is_identifier (v : bytes) (n : Z) : Prop := blen v = n ∧ ∃ c, c ∈ v ∧ b2z c ≠ 0.
Definition opt_holds {A} (P : A → Prop) (o : option A) : Prop := ∀ a, o = Some a → P a.

Definition binding_ok (id : bytes) (rev : Z) : Prop :=
  is_text id MaxNotificationIDBytes ∧ 1 ≤ rev ≤ MaxNotificationRevision.

Record action_ok (a : NotificationActionDescriptor) : Prop := {
  ao_unknown : na_unknown a = [];
  ao_id : blen (na_action_id a) = IdentifierSize;
  ao_title : is_text (na_title a) MaxNotificationActionTitleBytes;
  ao_input : na_allows_free_form_input a = true → na_requires_text_input a = true
}.

Definition signature_ok (mime : Z) (encoded : bytes) : Prop :=
  (mime = MIME_TYPE_PNG ∧ ∃ rest, encoded = pngSignature ++ rest) ∨
  (mime = MIME_TYPE_WEBP ∧ ∃ size rest,
     length size = 4%nat ∧ encoded = bs "RIFF" ++ size ++ bs "WEBP" ++ rest).

Record media_ok (m : NotificationMedia) : Prop := {
  mo_unknown : nm_unknown m = [];
  mo_bytes : 1 ≤ blen (nm_encoded_bytes m) ≤ MaxNotificationMediaBytes;
  mo_width : 1 ≤ nm_width m ≤ MaxNotificationMediaDimension;
  mo_height : 1 ≤ nm_height m ≤ MaxNotificationMediaDimension;
  mo_digest : nm_content_sha256 m = Sum256 (nm_encoded_bytes m);
  mo_signature : signature_ok (nm_mime_type m) (nm_encoded_bytes m)
}.

Record upsert_ok (n : NotificationUpsert) : Prop := {
  uo_unknown : nu_unknown n = [];
  uo_binding : binding_ok (nu_notification_id n) (nu_notification_revision n);
  uo_app_id : is_text (nu_source_application_id n) MaxNotificationAppIDBytes;
  uo_app_name : is_text (nu_source_application_name n) MaxNotificationAppNameBytes;
  uo_content : is_Some (nu_title n) ∨ is_Some (nu_body n);
  uo_title : opt_holds (λ t, is_text t MaxNotificationTitleBytes) (nu_title n);
  uo_body : opt_holds (λ b, is_text b MaxNotificationBodyBytes) (nu_body n);
  uo_image : nu_contains_content_image n = true →
    ∃ b, nu_body n = Some b ∧ Contains b imagePlaceholder = true;
  uo_icon : opt_holds media_ok (nu_app_icon n);
  uo_avatar : opt_holds media_ok (nu_avatar n);
  uo_count : Z.of_nat (length (nu_actions n)) ≤ MaxNotificationActions;
  uo_actions : ∃ l, nu_actions n = Some <$> l ∧ Forall action_ok l ∧ NoDup (na_action_id <$> l)
}.

Record entry_ok (highWater : Z) (e : NotificationSnapshotEntry) : Prop := {
  eo_unknown : ne_unknown e = [];
  eo_binding : binding_ok (ne_notification_id e) (ne_notification_revision e);
  eo_bound : ne_notification_revision e ≤ highWater
}.

Record manifest_ok (m : NotificationSnapshotManifest) : Prop := {
  so_unknown : sm_unknown m = [];
  so_recovery : opt_holds (λ id, is_identifier id IdentifierSize) (sm_recovery_request_id m);
  so_high_water : sm_high_water_revision m ≤ MaxNotificationRevision;
  so_count : Z.of_nat (length (sm_active_notifications m)) ≤ MaxSnapshotEntries;
  so_entries : ∃ l, sm_active_notifications m = Some <$> l ∧
    Forall (entry_ok (sm_high_water_revision m)) l ∧
    StronglySorted (λ a b, bytes_lt a b = true) (ne_notification_id <$> l)
}.

Definition transition_binding_ok (transitionID previousKeyID newKeyID : bytes) : Prop :=
  is_identifier transitionID IdentifierSize ∧ is_identifier previousKeyID SHA256Size ∧
  is_identifier newKeyID SHA256Size ∧ previousKeyID ≠ newKeyID.

(** An action under schema 2 invokes one of the notification's actions, with an
    optional reply, or dismisses it; under schema 1 there is no dismissal. *)
Record invoke_ok (schema : Z) (a : ActionInvoke) : Prop := {
  io_unknown : ai_unknown a = [];
  io_binding : binding_ok (ai_notification_id a) (ai_notification_revision a);
  io_key : is_identifier (ai_idempotency_key a) IdentifierSize;
  io_operation :
    (ai_dismiss_notification a = true ∧ schema ≠ 1 ∧ ai_action_id a = [] ∧ ai_reply_text a = None) ∨
    (ai_dismiss_notification a = false ∧ blen (ai_action_id a) = IdentifierSize ∧
     opt_holds (λ r, is_text r MaxReplyTextBytes) (ai_reply_text a))
}.

Definition body_ok (schema : Z) (b : payloadBody) : Prop :=
  match b with
  | EncryptedPayload_ActionInvoke (Some a) => invoke_ok schema a
  | EncryptedPayload_ActionResult (Some r) =>
      ar_unknown r = [] ∧ is_identifier (ar_idempotency_key r) IdentifierSize ∧
      ACTION_RESULT_STATUS_SUCCEEDED ≤ ar_status r ≤ ACTION_RESULT_STATUS_OUTCOME_UNKNOWN ∧
      opt_holds (λ d, is_text d MaxResultDetailBytes) (ar_detail r)
  | EncryptedPayload_ActionResultAck (Some a) =>
      aa_unknown a = [] ∧ is_identifier (aa_idempotency_key a) IdentifierSize ∧
      is_identifier (aa_result_sha256 a) SHA256Size
  | EncryptedPayload_IdentityKeyTransition (Some t) =>
      it_unknown t = [] ∧
      transition_binding_ok (it_transition_id t) (it_previous_key_id t) (it_new_key_id t) ∧
      blen (it_new_public_key t) = P256PublicKeySize ∧
      is_Some (P256_Unmarshal (it_new_public_key t)) ∧
      it_new_key_id t = Sum256 (it_new_public_key t)
  | EncryptedPayload_IdentityKeyTransitionAck (Some a) =>
      ia_unknown a = [] ∧
      transition_binding_ok (ia_transition_id a) (ia_previous_key_id a) (ia_new_key_id a) ∧
      is_identifier (ia_transition_sha256 a) SHA256Size
  | EncryptedPayload_IdentityKeyTransitionCommit (Some c) =>
      ic_unknown c = [] ∧
      transition_binding_ok (ic_transition_id c) (ic_previous_key_id c) (ic_new_key_id c) ∧
      is_identifier (ic_transition_sha256 c) SHA256Size ∧
      is_identifier (ic_ack_sha256 c) SHA256Size
  | EncryptedPayload_NotificationUpsert (Some n) => upsert_ok n
  | EncryptedPayload_NotificationRemoved (Some n) =>
      nr_unknown n = [] ∧ binding_ok (nr_notification_id n) (nr_notification_revision n)
  | EncryptedPayload_NotificationSnapshotManifest (Some m) => manifest_ok m
  | EncryptedPayload_NotificationSnapshotRequest (Some r) =>
      sq_unknown r = [] ∧ is_identifier (sq_recovery_request_id r) IdentifierSize ∧
      sq_reset_high_water_delivery_id r ≤ MaxNotificationRevision
  | _ => False
  end.

(** The schema versions a body may have. *)
Definition schemas (legacy : bool) (b : payloadBody) : list Z :=
  match b with
  | EncryptedPayload_ActionInvoke _ | EncryptedPayload_ActionResult _
  | EncryptedPayload_ActionResultAck _ => if legacy then [1; 2] else [2]
  | EncryptedPayload_IdentityKeyTransition _ | EncryptedPayload_IdentityKeyTransitionAck _
  | EncryptedPayload_IdentityKeyTransitionCommit _ => [2]
  | _ => [7]
  end.

Definition payload_ok (legacy : bool) (p : EncryptedPayload) : Prop :=
  ep_unknown p = [] ∧
  ∃ b, ep_body p = Some b ∧ ep_schema_version p ∈ schemas legacy b ∧
    body_ok (ep_schema_version p) b.

(** ** The validators decide it *)

Lemma has_unknown_ok u : has_unknown u = false ↔ u = [].
Proof.
  unfold has_unknown. rewrite negb_false_iff, Z.eqb_eq. unfold blen.
  destruct u; simpl; split; (done || lia).
Qed.

Lemma bad_text_ok v m : bad_text v m = false ↔ is_text v m.
Proof.
  unfold bad_text, is_text. rewrite !orb_false_iff, negb_false_iff, Z.ltb_ge, Z.gtb_ltb, Z.ltb_ge.
  tauto.
Qed.

Lemma allZero_false v : allZero v = false ↔ ∃ c, c ∈ v ∧ b2z c ≠ 0.
Proof.
  unfold allZero. induction v as [|x v IH]; simpl.
  - split; [done|]. intros (c & Hc & _). by apply not_elem_of_nil in Hc.
  - rewrite andb_false_iff, IH, Z.eqb_neq. split.
    + intros [Hx|(c & Hc & Hn)]; [exists x; split; [left|done]|exists c; split; [by right|done]].
    + intros (c & Hc & Hn). apply elem_of_cons in Hc as [->|Hc]; [by left|right; eauto].
Qed.

Lemma bad_identifier_ok v n : bad_identifier v n = false ↔ is_identifier v n.
Proof.
  unfold bad_identifier, is_identifier.
  by rewrite orb_false_iff, negb_false_iff, Z.eqb_eq, allBytesZero_allZero, allZero_false.
Qed.

Lemma unit_bind_Ok {B} (r : result unit) (k : result B) u :
  rbind r (λ _, k) = Ok u ↔ r = Ok tt ∧ k = Ok u.
Proof. destruct r as [[]|]; simpl; naive_solver. Qed.

Lemma validate_optional_ok {A} (check : A → result unit) (P : A → Prop) o u :
  (∀ a, check a = Ok tt ↔ P a) → validate_optional check o = Ok u ↔ opt_holds P o.
Proof.
  intros Hc. destruct u, o as [a|]; simpl.
  - rewrite Hc. unfold opt_holds. naive_solver.
  - unfold opt_holds. naive_solver.
Qed.

Lemma text_check_ok max msg v u : guard_err (bad_text v max) msg = Ok u ↔ is_text v max.
Proof. by rewrite guard_err_Ok, bad_text_ok. Qed.

Ltac spec := rewrite ?fail_if_Ok, ?unit_bind_Ok, ?guard_err_Ok, ?wrapf_Ok, ?orb_false_iff,
  ?has_unknown_ok, ?bad_text_ok, ?bad_identifier_ok, ?negb_false_iff, ?Z.gtb_ltb, ?Z.ltb_ge,
  ?Z.eqb_eq, ?beq_true, ?beq_false.

Lemma binding_spec id rev u : validateNotificationBinding id rev = Ok u ↔ binding_ok id rev.
Proof. unfold validateNotificationBinding, binding_ok. spec. tauto. Qed.

Lemma action_spec a u : validateNotificationActionDescriptor (Some a) = Ok u ↔ action_ok a.
Proof.
  unfold validateNotificationActionDescriptor. spec.
  rewrite andb_false_iff, negb_false_iff. split.
  - intros (? & ? & ? & Ho). split; try done. intros E. destruct Ho; congruence.
  - intros [? ? ? Ho]. split_and!; try done.
    destruct (na_allows_free_form_input a); [right; by apply Ho|by left].
Qed.

Lemma slice_of_prefix p s : blen p ≤ blen s →
  slice 0 (length p) s = p ↔ ∃ rest, s = p ++ rest.
Proof.
  intros Hl. unfold blen in Hl. unfold slice. rewrite Nat.sub_0_r, drop_0. split.
  - intros E. exists (drop (length p) s). rewrite <-E at 1. by rewrite take_drop.
  - intros [rest ->]. apply take_app_length.
Qed.

Lemma png_spec e :
  (blen e <? 8) || negb (beq (slice 0 8 e) pngSignature) = false ↔ ∃ rest, e = pngSignature ++ rest.
Proof.
  rewrite orb_false_iff, negb_false_iff, beq_true, Z.ltb_ge. split.
  - intros [Hl E]. by apply (slice_of_prefix pngSignature).
  - intros [rest ->]. rewrite blen_app. split; [|by apply slice_prefix].
    change (blen pngSignature) with 8. pose proof (blen_nonneg rest). lia.
Qed.

Lemma webp_spec e :
  (blen e <? 12) || negb (beq (slice 0 4 e) (bs "RIFF")) || negb (beq (slice 8 12 e) (bs "WEBP"))
    = false ↔
  ∃ size rest, length size = 4%nat ∧ e = bs "RIFF" ++ size ++ bs "WEBP" ++ rest.
Proof.
  rewrite !orb_false_iff, !negb_false_iff, !beq_true, Z.ltb_ge. split.
  - intros ((Hl & E1) & E2). exists (slice 4 8 e), (drop 12 e).
    assert (12 ≤ length e)%nat as Hlen by (unfold blen in Hl; lia).
    split; [rewrite slice_length; lia|]. rewrite <-E1, <-E2, !app_assoc.
    rewrite slice_join, slice_join by lia. unfold slice. rewrite drop_0.
    by rewrite take_drop.
  - intros (size & rest & Hs & ->). rewrite !blen_app. unfold blen. rewrite Hs.
    split; [split; [cbn; lia|by apply slice_prefix]|].
    rewrite (slice_app_mid (bs "RIFF") _ 4), (slice_app_mid size _ 4) by (done || lia).
    by apply slice_prefix.
Qed.

Lemma media_spec m u : validateNotificationMedia m = Ok u ↔ media_ok m.
Proof.
  unfold validateNotificationMedia. cbv zeta. spec.
  assert ((if nm_mime_type m =? MIME_TYPE_PNG then _ else _) = Ok u ↔
          signature_ok (nm_mime_type m) (nm_encoded_bytes m)) as ->.
  { unfold signature_ok. destruct (Z.eqb_spec (nm_mime_type m) MIME_TYPE_PNG) as [->|H1].
    - rewrite guard_err_Ok, png_spec. split; [auto|]. by intros [[_ ?]|[? _]].
    - destruct (Z.eqb_spec (nm_mime_type m) MIME_TYPE_WEBP) as [->|H2].
      + rewrite guard_err_Ok, webp_spec. split; [auto|]. by intros [[? _]|[_ ?]].
      + split; [done|]. intros [[? _]|[? _]]; done. }
  split; [intros; destruct_and!; by split|intros []; tauto].
Qed.

Lemma check_actions_spec seen l u :
  check_actions seen l = Ok u ↔
  ∃ as_, l = Some <$> as_ ∧ Forall action_ok as_ ∧ NoDup (na_action_id <$> as_) ∧
    ∀ a, a ∈ as_ → na_action_id a ∉ seen.
Proof.
  revert seen. induction l as [|a l IH]; intros seen; cbn [check_actions].
  - split; [intros _; exists []; split_and!; [done|constructor..|]|by destruct u].
    intros a Ha. by apply not_elem_of_nil in Ha.
  - destruct a as [a|]; [|split; [done|intros ([|? ?] & ? & _); done]].
    rewrite unit_bind_Ok, action_spec, fail_if_Ok, bool_decide_eq_false, IH. split.
    + intros (Ha & Hn & as_ & -> & Hall & Hnd & Hseen). exists (a :: as_).
      split_and!; [done|by constructor|..].
      * cbn. apply NoDup_cons. split; [|done]. intros Hin.
        apply list_elem_of_fmap in Hin as (b & Eb & Hb). apply (Hseen b Hb). set_solver.
      * intros b Hb. apply elem_of_cons in Hb as [->|Hb]; [done|]. specialize (Hseen b Hb).
        set_solver.
    + intros (as_ & E & Hall & Hnd & Hseen). destruct as_ as [|b as_]; [done|].
      cbn in E. injection E as <- ->. cbn in Hnd. apply NoDup_cons in Hnd as [Hni Hnd].
      apply Forall_cons in Hall as [Hb Hall]. split; [done|].
      split; [apply Hseen; left|]. exists as_. split_and!; try done.
      intros c Hc Hin. apply elem_of_union in Hin as [Hin|Hin].
      * apply elem_of_singleton in Hin. apply Hni. rewrite <-Hin. by apply list_elem_of_fmap_2.
      * apply (Hseen c); [by right|done].
Qed.

(** An entry's id is not empty, so only the first comparison is skipped. *)
Lemma check_entries_spec hw prev l u :
  check_entries hw prev l = Ok u ↔
  ∃ es, l = Some <$> es ∧ Forall (entry_ok hw) es ∧
    StronglySorted (λ a b, bytes_lt a b = true) (ne_notification_id <$> es) ∧
    (prev ≠ [] → Forall (λ id, bytes_lt prev id = true) (ne_notification_id <$> es)).
Proof.
  revert prev. induction l as [|e l IH]; intros prev; cbn [check_entries].
  - split; [intros _; exists []; split_and!; [done|constructor..|by constructor]|by destruct u].
  - destruct e as [e|]; [|split; [done|intros ([|? ?] & ? & _); done]].
    spec. rewrite binding_spec, andb_false_iff, !negb_false_iff, beq_true, IH. split.
    + intros (Hu & Hb & Hhw & Hp & es & -> & Hall & Hs & Hlt).
      assert (ne_notification_id e ≠ []) as Hne.
      { destruct Hb as [[_ Hl] _]. intros E. rewrite E in Hl. unfold blen in Hl. simpl in Hl. lia. }
      exists (e :: es). split_and!; [done|by constructor; [split|]|..].
      * cbn. constructor; [done|]. by apply Hlt.
      * intros Hpne. destruct Hp as [->|Hp]; [done|]. cbn. constructor; [done|].
        eapply Forall_impl; [exact (Hlt Hne)|]. intros x Hx. by eapply bytes_lt_trans.
    + intros (es & E & Hall & Hs & Hlt). destruct es as [|e' es]; [done|].
      cbn in E. injection E as <- ->. apply Forall_cons in Hall as [[Hu Hb Hhw] Hall].
      cbn in Hs. apply StronglySorted_inv in Hs as [Hs Hlt']. split_and!; try done.
      * destruct (decide (prev = [])) as [->|Hp]; [by left|right].
        specialize (Hlt Hp). cbn in Hlt. by apply Forall_cons in Hlt as [? _].
      * by exists es.
Qed.

Lemma upsert_spec n u : validateNotificationUpsert (Some n) = Ok u ↔ upsert_ok n.
Proof.
  unfold validateNotificationUpsert, validateRequiredText. spec.
  rewrite binding_spec, check_actions_spec.
  rewrite !(validate_optional_ok validateNotificationMedia media_ok) by (intros; apply media_spec).
  rewrite (validate_optional_ok _ (λ t, is_text t MaxNotificationTitleBytes))
    by (intros; apply text_check_ok).
  rewrite (validate_optional_ok _ (λ t, is_text t MaxNotificationBodyBytes))
    by (intros; apply text_check_ok).
  assert (bool_decide (nu_title n = None) && bool_decide (nu_body n = None) = false ↔
          is_Some (nu_title n) ∨ is_Some (nu_body n)) as ->.
  { rewrite andb_false_iff, !bool_decide_eq_false. by rewrite <-!not_eq_None_Some. }
  assert (nu_contains_content_image n &&
            match nu_body n with Some body => negb (Contains body imagePlaceholder) | None => true end
          = false ↔
          (nu_contains_content_image n = true →
             ∃ b, nu_body n = Some b ∧ Contains b imagePlaceholder = true)) as ->.
  { destruct (nu_contains_content_image n), (nu_body n) as [b|]; cbn; rewrite ?negb_false_iff;
      naive_solver. }
  split.
  - intros (?&?&?&?&?&?&?&?&?&?&?& l & ? & ? & ? & _). split; try done. eauto.
  - intros [?????????? ? (l & ? & ? & ?)]. split_and!; try done. exists l. split_and!; done.
Qed.

Lemma manifest_spec m u : validateNotificationSnapshotManifest (Some m) = Ok u ↔ manifest_ok m.
Proof.
  unfold validateNotificationSnapshotManifest. spec. rewrite check_entries_spec.
  assert (match sm_recovery_request_id m with
          | Some id => bad_identifier id IdentifierSize | None => false end = false ↔
          opt_holds (λ id, is_identifier id IdentifierSize) (sm_recovery_request_id m)) as ->.
  { unfold opt_holds. destruct (sm_recovery_request_id m) as [id|]; [|naive_solver].
    rewrite bad_identifier_ok. naive_solver. }
  split.
  - intros (? & ? & ? & ? & l & ? & ? & ? & _). split; try done. eauto.
  - intros [? ? ? ? (l & ? & ? & ?)]. split_and!; try done. exists l. split_and!; done.
Qed.

Lemma transition_binding_spec a b c u :
  validateTransitionBinding a b c = Ok u ↔ transition_binding_ok a b c.
Proof. unfold validateTransitionBinding, transition_binding_ok. spec. tauto. Qed.

Lemma invoke_body_spec a u :
  validateActionInvoke (Some a) = Ok u ↔ invoke_ok PayloadSchemaVersion a.
Proof.
  unfold validateActionInvoke. cbn [from_option id]. cbv zeta.
  spec. rewrite binding_spec. destruct (ai_dismiss_notification a) eqn:Hd; cbv iota.
  - rewrite guard_err_Ok, orb_false_iff, !negb_false_iff, Z.eqb_eq, bool_decide_eq_true.
    assert (blen (ai_action_id a) = 0 ↔ ai_action_id a = []) as ->.
    { unfold blen. destruct (ai_action_id a); cbn; split; (done || lia). }
    split.
    + intros (? & ? & ? & ? & ?). split; try done. left. by split_and!.
    + intros [? ? ? [(? & ? & ? & ?)|(? & _)]]; [tauto|congruence].
  - spec. rewrite (validate_optional_ok _ (λ t, is_text t MaxReplyTextBytes))
      by (intros; apply text_check_ok).
    split.
    + intros (? & ? & ? & ? & ?). split; try done. right. by split_and!.
    + intros [? ? ? [(? & _)|(? & ? & ?)]]; [congruence|tauto].
Qed.

Lemma invoke_schema a s :
  ai_dismiss_notification a = false ∨ s ≠ 1 → invoke_ok s a ↔ invoke_ok PayloadSchemaVersion a.
Proof.
  intros Hs. split; intros [? ? ? [(? & ? & ?)|?]]; split; try done; try by right.
  - left. split_and!; try tauto. discriminate.
  - left. split_and!; try tauto. destruct Hs; congruence.
Qed.

Lemma schema_spec p expected r u :
  validateSchema p expected r = Ok u ↔ ep_schema_version p = expected ∧ r = Ok u.
Proof.
  unfold validateSchema. destruct (Z.eqb_spec (ep_schema_version p) expected); cbn; naive_solver.
Qed.

Lemma action_schema_spec p legacy dismiss r u :
  validateActionSchema p legacy dismiss r = Ok u ↔
  (ep_schema_version p = 2 ∨ (legacy = true ∧ ep_schema_version p = 1 ∧ dismiss = false)) ∧ r = Ok u.
Proof.
  unfold validateActionSchema, PayloadSchemaVersion.
  destruct (Z.eqb_spec (ep_schema_version p) 2); [naive_solver|].
  destruct (Z.eqb_spec (ep_schema_version p) 1), legacy, dismiss; cbn; naive_solver.
Qed.

Lemma one_body {A} (b : A) (P : A → Prop) : (∃ b', Some b = Some b' ∧ P b') ↔ P b.
Proof. naive_solver. Qed.

Lemma legacy_schemas (s : Z) (legacy : bool) :
  s ∈ (if legacy then [1; 2] else [2]) ↔ s = 2 ∨ (legacy = true ∧ s = 1).
Proof. destruct legacy; rewrite ?elem_of_cons, elem_of_nil; naive_solver. Qed.

Lemma invoke_spec p a legacy :
  validateActionSchema p legacy (ai_dismiss_notification a) (validateActionInvoke (Some a)) = Ok tt ↔
  ep_schema_version p ∈ schemas legacy (EncryptedPayload_ActionInvoke (Some a)) ∧
  invoke_ok (ep_schema_version p) a.
Proof.
  rewrite action_schema_spec, invoke_body_spec. cbn [schemas]. rewrite legacy_schemas.
  destruct (decide (ep_schema_version p = 1)) as [E|E].
  - rewrite E. destruct (ai_dismiss_notification a) eqn:Hd.
    + split; [naive_solver|]. intros [_ [_ _ _ [(_ & ? & _)|(? & _)]]]; congruence.
    + rewrite (invoke_schema a 1) by auto. naive_solver.
  - rewrite (invoke_schema a (ep_schema_version p)) by auto. naive_solver.
Qed.

Lemma validate_spec p legacy : validate (Some p) legacy = Ok tt ↔ payload_ok legacy p.
Proof.
  unfold validate, payload_ok. spec. apply and_iff_compat_l.
  destruct (ep_body p) as [b|]; [|split; [done|by intros (? & ? & _)]]. rewrite one_body.
  destruct b as [[m|]|[m|]|[m|]|[m|]|[m|]|[m|]|[m|]|[m|]|[m|]|[m|]].
  1: exact (invoke_spec p m legacy).
  all: rewrite ?schema_spec, ?action_schema_spec; cbn [schemas body_ok];
    rewrite ?legacy_schemas, ?list_elem_of_singleton, ?upsert_spec, ?manifest_spec.
  all: try (split; [intros [_ Hf]; discriminate Hf|tauto]).
  all: try tauto.
  - unfold validateActionResult. spec.
    rewrite (validate_optional_ok _ (λ t, is_text t MaxResultDetailBytes))
      by (intros; apply text_check_ok). naive_solver.
  - unfold validateActionResultAck. spec. naive_solver.
  - unfold validateIdentityKeyTransition. spec.
    rewrite transition_binding_spec, bool_decide_eq_false, not_eq_None_Some. naive_solver.
  - unfold validateIdentityKeyTransitionAck. spec. by rewrite transition_binding_spec.
  - unfold validateIdentityKeyTransitionCommit. spec. by rewrite transition_binding_spec.
  - unfold validateNotificationRemoved. spec. by rewrite binding_spec.
  - unfold validateNotificationSnapshotRequest. spec. naive_solver.
Qed.

(** ** The codec *)

Section Exact.
Context `{Proto EncryptedPayload}.

Lemma plaintext_in_range b : plaintext_out_of_range b = false ↔ 1 ≤ blen b ≤ MaxPlaintextSize.
Proof.
  unfold plaintext_out_of_range. rewrite orb_false_iff, Z.eqb_neq, Z.gtb_ltb, Z.ltb_ge.
  pose proof (blen_nonneg b). lia.
Qed.

(** C22: The encoder accepts exactly the payloads of the specification under the
    current schema versions, within the size limit, and writes the runtime's
    deterministic encoding; the decoder accepts exactly the bytes that are the
    deterministic encoding of a payload of the specification, where actions may
    also have schema version 1 but then are not dismissals, and returns it. *)
Theorem payload_codec_exact p b :
  (EncodePayload p = Ok b ↔
   payload_ok false p ∧ Marshal p = Some b ∧ 1 ≤ blen b ≤ MaxPlaintextSize) ∧
  (DecodePayload b = Ok p ↔
   1 ≤ blen b ≤ MaxPlaintextSize ∧ Unmarshal b = Some p ∧ payload_ok true p ∧ Marshal p = Some b).
Proof.
  rewrite <-!plaintext_in_range, <-!validate_spec. split.
  - unfold EncodePayload, ValidatePayload. rewrite unit_bind_Ok.
    destruct (Marshal p) as [e|]; [|naive_solver]. rewrite fail_if_Ok. naive_solver.
  - unfold DecodePayload. rewrite fail_if_Ok. destruct (Unmarshal b) as [q|]; [|naive_solver].
    rewrite unit_bind_Ok. destruct (Marshal q) as [c|] eqn:Hc.
    + rewrite fail_if_Ok, negb_false_iff, beq_true. naive_solver.
    + naive_solver.
Qed.

End Exact.

(** Current payloads are a subset of what decoders accept. *)
Lemma payload_ok_legacy p : payload_ok false p → payload_ok true p.
Proof.
  intros (Hu & b & Hb & Hs & Hbody). split; [done|]. exists b. split_and!; try done.
  destruct b; cbn [schemas] in *; set_solver.
Qed.
