(* ===== verification/GoNet.v ===== *)
(** The parts of [net] and [net/netip] that client addresses rest on: splitting
    host and port, parsing and printing of IP addresses, prefixes. An address is
    kept with its family, as [netip.Addr] does; a zone is text. *)

From S2P Require Import Prelude GoStd.

Definition ch (c : byte) (v : Z) : bool := b2z c =? v.

Inductive Addr : Type :=
| Addr4 (octets : list Z)
| Addr6 (groups : list Z) (zone : bytes).

#[export] Instance Addr_eq_dec : EqDecision Addr.
Proof. solve_decision. Defined.

(** ** Digits *)

Definition digit (c : byte) : option Z :=
  if in_range 0x30 0x39 c then Some (b2z c - 0x30) else None.

Definition hex_digit (c : byte) : option Z :=
  if in_range 0x30 0x39 c then Some (b2z c - 0x30)
  else if in_range 0x61 0x66 c then Some (b2z c - 0x61 + 10)
  else if in_range 0x41 0x46 c then Some (b2z c - 0x41 + 10)
  else None.

(** ** IPv4

    [parseIPv4Fields]: [val] and [digLen] are the octet read so far, [pos] the
    number of complete octets, kept in reverse. *)
Fixpoint ipv4_fields (s : bytes) (val digLen : Z) (octets : list Z) : option (list Z) :=
  match s with
  | [] => if (digLen =? 0) || (Z.of_nat (length octets) <? 3) then None
          else Some (reverse (val :: octets))
  | c :: rest =>
      match digit c with
      | Some d =>
          if (digLen =? 1) && (val =? 0) then None
          else let val' := val * 10 + d in
               if val' >? 255 then None else ipv4_fields rest val' (digLen + 1) octets
      | None =>
          if ch c 0x2E then
            if (digLen =? 0) || (Z.of_nat (length octets) =? 3) then None
            else ipv4_fields rest 0 0 (val :: octets)
          else None
      end
  end.

Definition parseIPv4 (s : bytes) : option Addr := Addr4 <$> ipv4_fields s 0 0 [].

(** ** IPv6 *)

(** The hexadecimal digits at the front of [s], at most four. *)
Fixpoint hex_group (s : bytes) (off acc : Z) : option (Z * Z * bytes) :=
  match s with
  | c :: rest =>
      match hex_digit c with
      | Some d => if off >? 3 then None else hex_group rest (off + 1) (acc * 16 + d)
      | None => Some (off, acc, s)
      end
  | [] => Some (off, acc, s)
  end.

(** The loop of [parseIPv6]: [groups] in reverse, [ellipsis] the number of groups
    before the "::"; what is left of the string when it stops. *)
Fixpoint ipv6_loop (fuel : nat) (s : bytes) (groups : list Z) (ellipsis : option nat)
  : option (bytes * list Z * option nat) :=
  match fuel with
  | O => Some (s, groups, ellipsis)
  | S fuel =>
      if (8 <=? length groups)%nat then Some (s, groups, ellipsis)
      else
        match hex_group s 0 0 with
        | None => None
        | Some (off, acc, rest) =>
            if off =? 0 then None
            else
              match rest with
              | c :: rest1 =>
                  if ch c 0x2E then
                    if (match ellipsis with None => negb (length groups =? 6)%nat | Some _ => false end)
                    then None
                    else if (7 <=? length groups)%nat then None
                    else match ipv4_fields s 0 0 [] with
                         | Some [a; b; c; d] =>
                             Some ([], (c * 256 + d) :: (a * 256 + b) :: groups, ellipsis)
                         | _ => None
                         end
                  else if negb (ch c 0x3A) then None
                  else
                    match rest1 with
                    | [] => None
                    | c2 :: rest2 =>
                        if ch c2 0x3A then
                          match ellipsis with
                          | Some _ => None
                          | None =>
                              match rest2 with
                              | [] => Some ([], acc :: groups, Some (S (length groups)))
                              | _ => ipv6_loop fuel rest2 (acc :: groups) (Some (S (length groups)))
                              end
                          end
                        else ipv6_loop fuel rest1 (acc :: groups) ellipsis
                    end
              | [] => Some ([], acc :: groups, ellipsis)
              end
        end
  end.

Fixpoint cut (v : Z) (s : bytes) : bytes * option bytes :=
  match s with
  | [] => ([], None)
  | c :: rest => if ch c v then ([], Some rest)
                 else let '(a, b) := cut v rest in (c :: a, b)
  end.

Definition expand (groups : list Z) (ellipsis : option nat) : option (list Z) :=
  let n := length groups in
  match ellipsis with
  | None => if (n =? 8)%nat then Some groups else None
  | Some e => if (n <? 8)%nat then Some (take e groups ++ repeat 0 (8 - n) ++ drop e groups)
              else None
  end.

Definition parseIPv6 (s : bytes) : option Addr :=
  let '(s, z) := cut 0x25 s in
  if bool_decide (z = Some []) then None
  else
    let zone := default [] z in
    let '(ellipsis, s) := match s with
                          | a :: b :: rest => if ch a 0x3A && ch b 0x3A then (Some 0%nat, rest)
                                              else (None, s)
                          | _ => (None, s)
                          end in
    if bool_decide (ellipsis = Some 0%nat) && bool_decide (s = []) then
      Some (Addr6 (repeat 0 8) zone)
    else
      match ipv6_loop 8 s [] ellipsis with
      | Some ([], groups, ellipsis) =>
          (λ g, Addr6 g zone) <$> expand (reverse groups) ellipsis
      | _ => None
      end.

(** [netip.ParseAddr]: the first of '.', ':' and '%' decides. *)
Fixpoint ParseAddr_from (all s : bytes) : option Addr :=
  match s with
  | [] => None
  | c :: rest =>
      if ch c 0x2E then parseIPv4 all
      else if ch c 0x3A then parseIPv6 all
      else if ch c 0x25 then None
      else ParseAddr_from all rest
  end.
Definition ParseAddr (s : bytes) : option Addr := ParseAddr_from s s.

Definition Zone (a : Addr) : bytes := match a with Addr4 _ => [] | Addr6 _ z => z end.

(** [Unmap]: an IPv4-mapped IPv6 address as the IPv4 address, without its zone. *)
Definition Unmap (a : Addr) : Addr :=
  match a with
  | Addr6 [0; 0; 0; 0; 0; 0xFFFF; hi; lo] _ => Addr4 [hi / 256; hi mod 256; lo / 256; lo mod 256]
  | _ => a
  end.

(** ** Printing *)

(** Digits of [z >= 0] in [base], most significant first, with enough [fuel]. *)
Fixpoint digits (fuel : nat) (base z : Z) (acc : list Z) : list Z :=
  match fuel with
  | O => acc
  | S fuel => if z <? base then z :: acc else digits fuel base (z / base) (z mod base :: acc)
  end.

Definition digit_char (d : Z) : byte := z2b (if d <? 10 then 0x30 + d else 0x61 + (d - 10)).
Definition print_base (base z : Z) : bytes := digit_char <$> digits 64 base z [].

Definition join (sep : bytes) (l : list bytes) : bytes :=
  match l with
  | [] => []
  | x :: rest => x ++ flat_map (λ y, sep ++ y) rest
  end.

Fixpoint zeros (l : list Z) : nat :=
  match l with 0 :: rest => S (zeros rest) | _ => 0 end.

(** The first longest run of at least two zero groups: [(start, end)]. *)
Definition zero_run (g : list Z) : nat * nat :=
  fold_left (λ best i,
    let l := zeros (drop i g) in
    if ((2 <=? l) && (best.2 - best.1 <? l))%nat then (i, (i + l)%nat) else best)
    (seq 0 8) (255, 255)%nat.

Definition colon : bytes := [z2b 0x3A].

Definition print6 (g : list Z) : bytes :=
  let '(a, b) := zero_run g in
  if (a =? 255)%nat then join colon (print_base 16 <$> g)
  else join colon (print_base 16 <$> take a g) ++ colon ++ colon ++
       join colon (print_base 16 <$> drop b g).

Definition print4 (o : list Z) : bytes := join [z2b 0x2E] (print_base 10 <$> o).

(** [Addr.String] *)
Definition AddrString (a : Addr) : bytes :=
  match a with
  | Addr4 o => print4 o
  | Addr6 [0; 0; 0; 0; 0; 0xFFFF; hi; lo] z =>
      bs "::ffff:" ++ print4 [hi / 256; hi mod 256; lo / 256; lo mod 256] ++
      (if beq z [] then [] else z2b 0x25 :: z)
  | Addr6 g z => print6 g ++ (if beq z [] then [] else z2b 0x25 :: z)
  end.

(** ** Prefixes *)

Record Prefix : Type := mkPrefix { prefix_addr : Addr; prefix_bits : Z }.

Definition addr_value (a : Addr) : Z :=
  match a with
  | Addr4 o => fold_left (λ acc x, acc * 256 + x) o 0
  | Addr6 g _ => fold_left (λ acc x, acc * 65536 + x) g 0
  end.
Definition BitLen (a : Addr) : Z := match a with Addr4 _ => 32 | Addr6 _ _ => 128 end.

(** [Prefix.Contains]: same family, no zone, equal in the leading bits. *)
Definition prefix_Contains (p : Prefix) (a : Addr) : bool :=
  beq (Zone a) [] && (BitLen (prefix_addr p) =? BitLen a) &&
  (Z.shiftr (addr_value (prefix_addr p)) (BitLen a - prefix_bits p) =?
   Z.shiftr (addr_value a) (BitLen a - prefix_bits p)).

(** ** Host and port *)

Definition has_char (v : Z) (s : bytes) : bool := existsb (λ c, ch c v) s.

(** Split at the last [v]. *)
Fixpoint cut_last (v : Z) (s : bytes) : option (bytes * bytes) :=
  match s with
  | [] => None
  | c :: rest =>
      match cut_last v rest with
      | Some (a, b) => Some (c :: a, b)
      | None => if ch c v then Some ([], rest) else None
      end
  end.

(** [net.SplitHostPort], for its host. *)
Definition SplitHostPort (s : bytes) : option bytes :=
  match cut_last 0x3A s with
  | None => None
  | Some (before, port) =>
      match s with
      | c :: inner =>
          if ch c 0x5B then
            match cut 0x5D inner with
            | (host, Some rest) =>
                match rest with
                | c :: port' =>
                    if ch c 0x3A && negb (has_char 0x3A port') then
                      if has_char 0x5B inner || has_char 0x5D port' then None else Some host
                    else None
                | [] => None
                end
            | (_, None) => None
            end
          else
            if has_char 0x3A before || has_char 0x5B s || has_char 0x5D s then None else Some before
      | [] => None
      end
  end.

Example net_examples :
  (AddrString <$> ParseAddr (bs "2001:DB8:0:0:1:0:0:1")) = Some (bs "2001:db8::1:0:0:1") ∧
  (AddrString <$> ParseAddr (bs "::ffff:192.168.1.9")) = Some (bs "::ffff:192.168.1.9") ∧
  (AddrString ∘ Unmap <$> ParseAddr (bs "::ffff:c0a8:0109")) = Some (bs "192.168.1.9") ∧
  (AddrString <$> ParseAddr (bs "::")) = Some (bs "::") ∧
  (AddrString <$> ParseAddr (bs "1::")) = Some (bs "1::") ∧
  (AddrString <$> ParseAddr (bs "fe80::1%eth0")) = Some (bs "fe80::1%eth0") ∧
  ParseAddr (bs "10.0.0.01") = None ∧ ParseAddr (bs "1:2:3:4:5:6:7::8") = None ∧
  ParseAddr (bs "1::2::3") = None ∧ ParseAddr (bs "256.1.1.1") = None ∧
  SplitHostPort (bs "[::1]:443") = Some (bs "::1") ∧ SplitHostPort (bs "10.1.2.3:80") = Some (bs "10.1.2.3") ∧
  SplitHostPort (bs "::1") = None.
Proof. vm_compute. repeat split; reflexivity. Qed.
