(* ===== verification/ClientAddress.v ===== *)
(** internal/clientaddress/resolver.go, and the attempt limiters keyed by it:
    internal/httpapi/rate_limiter.go and internal/relay/connection_limiter.go. *)

From S2P Require Import Prelude GoStd GoNet RateLimit.

(** What the resolver reads of an [http.Request]. *)
Record ClientInfo : Type := mkClientInfo {
  RemoteAddr : bytes;
  ForwardedFor : list bytes
}.

Definition ErrInvalidForwardedAddress : error := New "invalid forwarded client address".

Record Resolver : Type := mkResolver { trustedProxies : list Prefix }.

Definition isTrusted (r : Resolver) (peer : Addr) : bool :=
  existsb (λ prefix, prefix_Contains prefix peer) (trustedProxies r).

Definition socketPeer (remoteAddress : bytes) : option Addr :=
  let host := default remoteAddress (SplitHostPort remoteAddress) in
  match ParseAddr host with
  | Some address => if beq (Zone address) [] then Some (Unmap address) else None
  | None => None
  end.

Definition Resolve (r : Resolver) (request : ClientInfo) : result bytes :=
  match socketPeer (RemoteAddr request) with
  | None => Ok (RemoteAddr request)
  | Some peer =>
      if negb (isTrusted r peer) then Ok (AddrString peer)
      else
        match ForwardedFor request with
        | [] => Ok (AddrString peer)
        | [value] =>
            match ParseAddr value with
            | None => Err ErrInvalidForwardedAddress
            | Some client =>
                if negb (beq (Zone client) []) then Err ErrInvalidForwardedAddress
                else
                  let client := Unmap client in
                  if negb (beq value (AddrString client)) then Err ErrInvalidForwardedAddress
                  else Ok (AddrString client)
            end
        | _ => Err ErrInvalidForwardedAddress
        end
  end.

(** ** Limiters *)

Record AttemptLimits : Type := mkAttemptLimits {
  AttemptsPerMinute : Z;
  MaxClientBuckets : Z
}.

Record RateLimits : Type := mkRateLimits {
  MembershipLimits : AttemptLimits;
  RotationLimits : AttemptLimits
}.

Definition DefaultRateLimits : RateLimits :=
  mkRateLimits (mkAttemptLimits 10 4096) (mkAttemptLimits 10 4096).

Definition validateRateLimits (l : RateLimits) : result unit :=
  guard_err ((AttemptsPerMinute (MembershipLimits l) <? 1) ||
             (MaxClientBuckets (MembershipLimits l) <? 1) ||
             (AttemptsPerMinute (RotationLimits l) <? 1) ||
             (MaxClientBuckets (RotationLimits l) <? 1))
    "HTTP API rate limits must be positive".

Record AuthenticationLimits : Type := mkAuthenticationLimits {
  AuthAttempts : AttemptLimits;
  MaxConcurrent : Z;
  FrameTimeout : Z
}.

Definition DefaultAuthenticationLimits : AuthenticationLimits :=
  mkAuthenticationLimits (mkAttemptLimits 20 4096) 64 (5 * Second).

Definition validateAuthenticationLimits (l : AuthenticationLimits) : result unit :=
  guard_err ((AttemptsPerMinute (AuthAttempts l) <? 1) ||
             (MaxClientBuckets (AuthAttempts l) <? 1) ||
             (MaxConcurrent l <? 1) || (FrameTimeout l <=? 0))
    "relay authentication limits must be positive".

(** [clientRateLimiter] and [authAttemptLimiter]. *)
Record clientRateLimiter : Type := mkClientRateLimiter {
  windows : FixedWindow;
  resolver : Resolver
}.

(** The constructor panics where [NewFixedWindow] fails: [None]. *)
Definition newClientRateLimiter (r : Resolver) (limits : AttemptLimits)
  : option clientRateLimiter :=
  match NewFixedWindow (AttemptsPerMinute limits) (MaxClientBuckets limits) Minute with
  | Ok w => Some (mkClientRateLimiter w r)
  | Err _ => None
  end.

Definition allow (l : clientRateLimiter) (request : ClientInfo) (now : Z)
  : result bool * clientRateLimiter :=
  match Resolve (resolver l) request with
  | Err e => (Err e, l)
  | Ok host =>
      let '(ok, w) := Allow host now (windows l) in
      (Ok ok, mkClientRateLimiter w (resolver l))
  end.

(** ** Properties *)

(** Validated limits never make a constructor panic. *)
Lemma validated_limits_construct l r :
  validateRateLimits l = Ok tt →
  is_Some (newClientRateLimiter r (MembershipLimits l)) ∧
  is_Some (newClientRateLimiter r (RotationLimits l)).
Proof.
  unfold validateRateLimits. intros Hl. go_inv. go_bool.
  unfold newClientRateLimiter, NewFixedWindow.
  rewrite !guard_pass; [cbn; eauto|..];
    rewrite !orb_false_iff, !Z.ltb_ge, Z.leb_gt; (split_and!; [lia..|done]).
Qed.

(** The peer of the connection, when it has one. *)
Definition peer_trusted (r : Resolver) (request : ClientInfo) : Prop :=
  ∃ peer, socketPeer (RemoteAddr request) = Some peer ∧ isTrusted r peer = true.

(** C23: The bucket of a client. Only a trusted proxy can choose it: for any other
    peer it depends on the connection alone, whatever headers the client sends.
    A trusted proxy chooses it by exactly one header value, and an accepted value
    is the canonical text of an address that is not IPv4-mapped, so one client has
    one bucket; anything else is an error, and a proxy that sends no header is
    its own client. *)
Theorem client_bucket_unforgeable r request :
  (¬ peer_trusted r request →
     ∃ b, ∀ headers, Resolve r (mkClientInfo (RemoteAddr request) headers) = Ok b) ∧
  (∀ peer b, socketPeer (RemoteAddr request) = Some peer → isTrusted r peer = true →
     Resolve r request = Ok b →
     (ForwardedFor request = [] ∧ b = AddrString peer) ∨
     (ForwardedFor request = [b] ∧
      ∃ client, ParseAddr b = Some client ∧ Zone client = [] ∧ b = AddrString (Unmap client))).
Proof.
  split.
  - intros Hn. unfold Resolve. cbn [RemoteAddr ForwardedFor].
    destruct (socketPeer (RemoteAddr request)) as [peer|] eqn:Hp; [|eauto].
    destruct (isTrusted r peer) eqn:Ht; [|eauto]. destruct Hn. by exists peer.
  - intros peer b Hp Ht. unfold Resolve. rewrite Hp, Ht. cbn [negb].
    destruct (ForwardedFor request) as [|value [|]]; [intros [= <-]; auto| |done].
    destruct (ParseAddr value) as [client|] eqn:Hc; [|done].
    if_false Hz. if_false Hv. intros [= <-]. go_bool. right. rewrite Hv in Hc |- *. eauto.
Qed.

Definition proxy : Resolver := mkResolver [mkPrefix (Addr4 [10; 0; 0; 0]) 8].

(** An untrusted peer with a forged header, a proxied client, and a proxy that
    forwards a non-canonical address. *)
Example resolve_examples :
  Resolve proxy (mkClientInfo (bs "192.0.2.7:5000") [bs "10.9.9.9"]) = Ok (bs "192.0.2.7") ∧
  Resolve proxy (mkClientInfo (bs "10.1.2.3:80") [bs "2001:db8::1"]) = Ok (bs "2001:db8::1") ∧
  Resolve proxy (mkClientInfo (bs "[::ffff:10.1.2.3]:80") [bs "2001:DB8::1"])
    = Err ErrInvalidForwardedAddress ∧
  Resolve proxy (mkClientInfo (bs "10.1.2.3:80") [bs "1.2.3.4"; bs "1.2.3.4"])
    = Err ErrInvalidForwardedAddress.
Proof. vm_compute. repeat split; reflexivity. Qed.
