(* ===== verification/GoWeb.v ===== *)
(** The parts of [strconv], [mime] and [encoding/json] that request handling
    rests on: decimal integers, the media type of a body, and the decoding of a
    JSON object into a struct of strings. *)

From S2P Require Import Prelude GoStd GoNet.

(** ** strconv *)

Fixpoint parse_digits (s : bytes) (acc : Z) : option Z :=
  match s with
  | [] => Some acc
  | c :: rest => match digit c with Some d => parse_digits rest (acc * 10 + d) | None => None end
  end.

Definition ParseUint (s : bytes) : option Z :=
  match s with [] => None | _ => parse_digits s 0 end.

(** [strconv.ParseInt(s, 10, 64)] *)
Definition ParseInt (s : bytes) : option Z :=
  match s with
  | [] => None
  | c :: rest =>
      if ch c 0x2D then
        match ParseUint rest with Some n => if n >? 2 ^ 63 then None else Some (- n) | None => None end
      else
        match ParseUint (if ch c 0x2B then rest else s) with
        | Some n => if n >=? 2 ^ 63 then None else Some n
        | None => None
        end
  end.

(** [strconv.FormatInt(z, 10)] *)
Definition FormatInt (z : Z) : bytes :=
  if z <? 0 then z2b 0x2D :: print_base 10 (- z) else print_base 10 z.

(** *** Printing and parsing agree *)

Lemma digits_bounds fuel base z acc :
  1 < base → 0 ≤ z → Forall (λ d, 0 ≤ d < base) acc →
  z < base ^ Z.of_nat fuel → Forall (λ d, 0 ≤ d < base) (digits fuel base z acc).
Proof.
  intros Hb. revert z acc. induction fuel as [|fuel IH]; intros z acc Hz Ha Hlt; [done|].
  cbn [digits]. destruct (Z.ltb_spec z base); [by constructor; [lia|]|].
  apply IH.
  - apply Z.div_pos; lia.
  - constructor; [apply Z.mod_pos_bound; lia|done].
  - rewrite Nat2Z.inj_succ, Z.pow_succ_r in Hlt by lia. apply Z.div_lt_upper_bound; lia.
Qed.

Definition value_of (base : Z) (ds : list Z) (acc : Z) : Z := fold_left (λ a d, a * base + d) ds acc.

Lemma digits_value fuel base z acc v :
  1 < base → 0 ≤ z → z < base ^ Z.of_nat fuel → (0 < fuel)%nat →
  value_of base (digits fuel base z acc) v =
  value_of base acc (v * base ^ (Z.of_nat (length (digits fuel base z acc)) - Z.of_nat (length acc)) + z).
Proof.
  intros Hb. revert z acc. induction fuel as [|fuel IH]; intros z acc Hz Hlt Hf; [lia|].
  cbn [digits]. destruct (Z.ltb_spec z base) as [Hs|Hs].
  - unfold value_of. cbn [fold_left length]. f_equal.
    replace (Z.of_nat (S (length acc)) - Z.of_nat (length acc)) with 1 by lia. lia.
  - assert (0 < fuel)%nat as Hf'.
    { destruct fuel; [|lia]. change (base ^ Z.of_nat 1) with (base ^ 1) in Hlt.
      rewrite Z.pow_1_r in Hlt. lia. }
    rewrite IH; [|apply Z.div_pos; lia| |done].
    + unfold value_of. cbn [fold_left length]. f_equal.
      set (n := Z.of_nat (length (digits _ _ _ _))).
      assert (Z.of_nat (S (length acc)) ≤ n) as Hn.
      { unfold n. clear. enough (∀ f z l, length l ≤ length (digits f base z l))%nat as H
          by (specialize (H fuel (z / base) (z mod base :: acc)); cbn in H; lia).
        intros f. induction f as [|f IHf]; intros z' l; cbn [digits]; [done|].
        destruct (z' <? base); cbn [length]; [lia|].
        specialize (IHf (z' / base) (z' mod base :: l)). cbn [length] in IHf. lia. }
      replace (n - Z.of_nat (length acc)) with (n - Z.of_nat (S (length acc)) + 1) by lia.
      rewrite Z.pow_add_r by lia. rewrite Z.pow_1_r.
      pose proof (Z.div_mod z base ltac:(lia)). nia.
    + rewrite Nat2Z.inj_succ, Z.pow_succ_r in Hlt by lia. apply Z.div_lt_upper_bound; lia.
Qed.

Lemma digit_char_digit d : 0 ≤ d < 10 → digit (digit_char d) = Some d.
Proof.
  intros Hd. unfold digit, digit_char, in_range. rewrite (proj2 (Z.ltb_lt d 10)) by lia.
  rewrite b2z_z2b, Z.mod_small by lia.
  rewrite (proj2 (Z.leb_le 0x30 (0x30 + d))), (proj2 (Z.leb_le (0x30 + d) 0x39)) by lia.
  cbn [andb]. f_equal. lia.
Qed.

Lemma parse_digits_chars ds acc :
  Forall (λ d, 0 ≤ d < 10) ds → parse_digits (digit_char <$> ds) acc = Some (value_of 10 ds acc).
Proof.
  intros Hd. revert acc. induction Hd as [|d ds Hd _ IH]; intros acc; [done|].
  cbn [fmap list_fmap parse_digits]. rewrite digit_char_digit by done. apply IH.
Qed.

Lemma digits_nonempty base z : digits 64 base z [] ≠ [].
Proof.
  enough (∀ f z l, (f ≠ O ∨ l ≠ []) → digits f base z l ≠ []) as H by (apply H; by left).
  clear z. intros f. induction f as [|f IH]; intros z l Hl; cbn [digits].
  - by destruct Hl.
  - destruct (z <? base); [done|]. apply IH. by right.
Qed.

Lemma ParseUint_print z : 0 ≤ z < 10 ^ 64 → ParseUint (print_base 10 z) = Some z.
Proof.
  intros Hz. unfold print_base. pose proof (digits_nonempty 10 z) as Hne.
  assert (parse_digits (digit_char <$> digits 64 10 z []) 0 = Some z) as E.
  { rewrite parse_digits_chars.
    - rewrite digits_value by (cbn; lia). unfold value_of. cbn [fold_left]. reflexivity.
    - apply digits_bounds; [lia|lia|constructor|]. change (Z.of_nat 64) with 64. lia. }
  unfold ParseUint. destruct (digits 64 10 z []) as [|d ds]; [done|]. exact E.
Qed.

Lemma print_head z : 0 ≤ z < 10 ^ 64 →
  ∃ c rest, print_base 10 z = c :: rest ∧ ch c 0x2D = false ∧ ch c 0x2B = false.
Proof.
  intros Hz. pose proof (digits_nonempty 10 z) as Hne.
  assert (Forall (λ d, 0 ≤ d < 10) (digits 64 10 z [])) as Hd.
  { apply digits_bounds; [lia|lia|constructor|]. change (Z.of_nat 64) with 64. lia. }
  unfold print_base. destruct (digits 64 10 z []) as [|d ds]; [done|].
  apply Forall_cons in Hd as [Hd _]. exists (digit_char d), (digit_char <$> ds).
  split; [done|]. unfold ch, digit_char. rewrite (proj2 (Z.ltb_lt d 10)) by lia.
  rewrite b2z_z2b, Z.mod_small by lia. split; apply Z.eqb_neq; lia.
Qed.

Lemma ParseInt_FormatInt z : is_i64 z → ParseInt (FormatInt z) = Some z.
Proof.
  unfold is_i64. intros Hz. unfold FormatInt. destruct (Z.ltb_spec z 0) as [Hn|Hn].
  - cbn [ParseInt]. change (ch (z2b 0x2D) 0x2D) with true. cbv iota.
    rewrite ParseUint_print by lia. destruct (Z.gtb_spec (- z) (2 ^ 63)); [lia|]. f_equal. lia.
  - destruct (print_head z ltac:(lia)) as (c & rest & E & H1 & H2). unfold ParseInt. rewrite E, H1, H2.
    rewrite <-E, ParseUint_print by lia. rewrite Z.geb_leb.
    destruct (Z.leb_spec (2 ^ 63) z); [lia|done].
Qed.

(** ** mime.ParseMediaType *)

Definition TrimLeft (s : bytes) : bytes := trim_fuel (length s) space_runes s.

(** [strings.ToLower] as far as it can produce ASCII: letters, and the dotted
    capital I (U+0130). *)
Fixpoint lower (s : bytes) : bytes :=
  match s with
  | [] => []
  | c :: rest =>
      if in_range 0x41 0x5A c then z2b (b2z c + 32) :: lower rest
      else match rest with
           | c1 :: rest1 => if ch c 0xC4 && ch c1 0xB0 then z2b 0x69 :: lower rest1 else c :: lower rest
           | [] => [c]
           end
  end.

Definition tspecials : bytes := bs "()<>@,;:\/[]?=" ++ [z2b 0x22].
Definition isTSpecial (c : byte) : bool := existsb (Byte.eqb c) tspecials.
Definition isTokenChar (c : byte) : bool := in_range 0x21 0x7E c && negb (isTSpecial c).

Fixpoint consumeToken (s : bytes) : bytes * bytes :=
  match s with
  | c :: rest => if isTokenChar c then let '(t, r) := consumeToken rest in (c :: t, r) else ([], s)
  | [] => ([], [])
  end.

(** The inside of a quoted string: its value and what follows the quote. *)
Fixpoint quoted (s : bytes) : option (bytes * bytes) :=
  match s with
  | [] => None
  | c :: rest =>
      if ch c 0x22 then Some ([], rest)
      else
        match rest with
        | c1 :: rest1 =>
            if ch c 0x5C && isTSpecial c1 then
              match quoted rest1 with Some (v, r) => Some (c1 :: v, r) | None => None end
            else if ch c 0x0D || ch c 0x0A then None
            else match quoted rest with Some (v, r) => Some (c :: v, r) | None => None end
        | [] => None
        end
  end.

Definition consumeValue (s : bytes) : option (bytes * bytes) :=
  match s with
  | [] => None
  | c :: rest =>
      if ch c 0x22 then quoted rest
      else let '(t, r) := consumeToken s in if beq t [] then None else Some (t, r)
  end.

Definition consumeMediaParam (s : bytes) : option (bytes * bytes * bytes) :=
  match TrimLeft s with
  | c :: rest =>
      if negb (ch c 0x3B) then None
      else
        let '(param, rest) := consumeToken (TrimLeft rest) in
        if beq param [] then None
        else
          match TrimLeft rest with
          | c :: rest =>
              if negb (ch c 0x3D) then None
              else match consumeValue (TrimLeft rest) with
                   | Some (value, rest) => Some (lower param, value, rest)
                   | None => None
                   end
          | [] => None
          end
  | [] => None
  end.

(** The parameter loop; [false] is a parse error or a conflicting duplicate. *)
Fixpoint media_params (fuel : nat) (s : bytes) (params : gmap bytes bytes) : bool :=
  match fuel with
  | O => true
  | S fuel =>
      let s := TrimLeft s in
      if beq s [] then true
      else
        match consumeMediaParam s with
        | None => beq (TrimSpace s) [z2b 0x3B]
        | Some (key, value, rest) =>
            match params !! key with
            | Some v => beq v value && media_params fuel rest params
            | None => media_params fuel rest (<[key := value]> params)
            end
        end
  end.

(** [mediaType, _, err := mime.ParseMediaType(v)] with
    [err == nil && mediaType == "application/json"]. *)
Definition is_json_media (v : bytes) : bool :=
  let '(base, rest) := cut 0x3B v in
  beq (TrimSpace (lower base)) (bs "application/json") &&
  media_params (S (length v)) (match rest with Some r => z2b 0x3B :: r | None => [] end) ∅.

Example media_examples :
  is_json_media (bs "application/json") = true ∧
  is_json_media (bs " Application/JSON ; charset=utf-8;") = true ∧
  is_json_media (bs "application/json; charset") = false ∧
  is_json_media (bs "application/json; a=1; A=2") = false ∧
  is_json_media (bs "text/plain") = false ∧ is_json_media [] = false.
Proof. vm_compute. repeat split; reflexivity. Qed.

(** ** encoding/json *)

Definition replacement : bytes := map z2b [0xEF; 0xBF; 0xBD].

(** [utf8.EncodeRune] *)
Definition EncodeRune (r : Z) : bytes :=
  map z2b
    (if r <? 0x80 then [r]
     else if r <? 0x800 then [0xC0 + r / 64; 0x80 + r mod 64]
     else if r <? 0x10000 then [0xE0 + r / 4096; 0x80 + r / 64 mod 64; 0x80 + r mod 64]
     else [0xF0 + r / 262144; 0x80 + r / 4096 mod 64; 0x80 + r / 64 mod 64; 0x80 + r mod 64]).

Definition hex4 (a b c d : byte) : option Z :=
  match hex_digit a, hex_digit b, hex_digit c, hex_digit d with
  | Some a, Some b, Some c, Some d => Some (((a * 16 + b) * 16 + c) * 16 + d)
  | _, _, _, _ => None
  end.

Definition simple_escape (c : byte) : option byte :=
  if ch c 0x22 || ch c 0x5C || ch c 0x2F then Some c
  else if ch c 0x62 then Some (z2b 8) else if ch c 0x66 then Some (z2b 12)
  else if ch c 0x6E then Some (z2b 10) else if ch c 0x72 then Some (z2b 13)
  else if ch c 0x74 then Some (z2b 9) else None.

(** The length of the well-formed UTF-8 sequence at the head, if there is one. *)
Definition utf8_head (s : bytes) : option nat :=
  List.find (λ n, (n <=? length s)%nat && utf8_ValidString (take n s)) [1; 2; 3; 4]%nat.

Definition prepend (p : bytes) (r : option (bytes * bytes)) : option (bytes * bytes) :=
  match r with Some (v, rest) => Some (p ++ v, rest) | None => None end.

(** A string literal after its opening quote: its value and what follows the
    closing quote. *)
Fixpoint json_string (fuel : nat) (s : bytes) : option (bytes * bytes) :=
  match fuel, s with
  | O, _ | _, [] => None
  | S fuel, c :: rest =>
      if ch c 0x22 then Some ([], rest)
      else if b2z c <? 0x20 then None
      else if ch c 0x5C then
        match rest with
        | [] => None
        | e :: rest =>
            if ch e 0x75 then
              match rest with
              | a :: b :: c :: d :: rest =>
                  match hex4 a b c d with
                  | None => None
                  | Some rr =>
                      if (0xD800 <=? rr) && (rr <? 0xE000) then
                        match rest with
                        | b1 :: u1 :: a1 :: b2 :: c1 :: d1 :: rest1 =>
                            match (if ch b1 0x5C && ch u1 0x75 then hex4 a1 b2 c1 d1 else None) with
                            | Some rr1 =>
                                if (rr <? 0xDC00) && (0xDC00 <=? rr1) && (rr1 <? 0xE000) then
                                  prepend (EncodeRune ((rr - 0xD800) * 1024 + (rr1 - 0xDC00) + 0x10000))
                                    (json_string fuel rest1)
                                else prepend replacement (json_string fuel rest)
                            | None => prepend replacement (json_string fuel rest)
                            end
                        | _ => prepend replacement (json_string fuel rest)
                        end
                      else prepend (EncodeRune rr) (json_string fuel rest)
                  end
              | _ => None
              end
            else
              match simple_escape e with
              | Some x => prepend [x] (json_string fuel rest)
              | None => None
              end
        end
      else
        match utf8_head s with
        | Some n => prepend (take n s) (json_string fuel (drop n s))
        | None => prepend replacement (json_string fuel rest)
        end
  end.

Fixpoint skip_ws (s : bytes) : bytes :=
  match s with
  | c :: rest => if ch c 0x20 || ch c 0x09 || ch c 0x0A || ch c 0x0D then skip_ws rest else s
  | [] => []
  end.

(** Field names match exactly or by case folding: ASCII letters, the long s
    (U+017F) and the Kelvin sign (U+212A). *)
Fixpoint fold_key (s : bytes) : bytes :=
  match s with
  | [] => []
  | c :: rest =>
      if in_range 0x41 0x5A c then z2b (b2z c + 32) :: fold_key rest
      else
        match rest with
        | c1 :: rest1 =>
            if ch c 0xC5 && ch c1 0xBF then z2b 0x73 :: fold_key rest1
            else
              match rest1 with
              | c2 :: rest2 =>
                  if ch c 0xE2 && ch c1 0x84 && ch c2 0xAA then z2b 0x6B :: fold_key rest2
                  else c :: fold_key rest
              | [] => c :: fold_key rest
              end
        | [] => [c]
        end
  end.

Definition struct_field (fields : list string) (key : bytes) : option string :=
  List.find (λ f, beq (fold_key key) (bs f)) fields.

Abbreviation fields_of := (gmap string bytes).

(** The members of an object whose fields are strings, with [DisallowUnknownFields]:
    a value is a string, or [null], which leaves the field as it is. Any other
    value, and any unknown name, is an error. *)
Fixpoint json_members (fuel : nat) (fields : list string) (s : bytes) (acc : fields_of)
  : option (fields_of * bytes) :=
  match fuel with
  | O => None
  | S fuel =>
      match skip_ws s with
      | q :: s =>
          if negb (ch q 0x22) then None
          else
            match json_string (S (length s)) s with
            | None => None
            | Some (key, s) =>
                match struct_field fields key, skip_ws s with
                | Some f, c :: s =>
                    if negb (ch c 0x3A) then None
                    else
                      let value :=
                        match skip_ws s with
                        | q :: s' =>
                            if ch q 0x22 then
                              match json_string (S (length s')) s' with
                              | Some (v, rest) => Some (<[f := v]> acc, rest)
                              | None => None
                              end
                            else match strip_prefix (bs "null") (q :: s') with
                                 | Some rest => Some (acc, rest)
                                 | None => None
                                 end
                        | [] => None
                        end in
                      match value with
                      | None => None
                      | Some (acc, s) =>
                          match skip_ws s with
                          | c :: rest =>
                              if ch c 0x2C then json_members fuel fields rest acc
                              else if ch c 0x7D then Some (acc, rest)
                              else None
                          | [] => None
                          end
                      end
                | _, _ => None
                end
            end
      | [] => None
      end
  end.

(** A decoder that disallows unknown fields, then [ensureJSONEnd], over a body
    limited to [maxBytes]. The top-level [null] leaves the struct empty. *)
Definition decode_json (fields : list string) (maxBytes : Z) (body : bytes) : option fields_of :=
  if blen body >? maxBytes then None
  else
    let value :=
      match skip_ws body with
      | c :: s =>
          if ch c 0x7B then
            match skip_ws s with
            | c2 :: rest => if ch c2 0x7D then Some (∅, rest)
                            else json_members (S (length s)) fields s ∅
            | [] => None
            end
          else match strip_prefix (bs "null") (c :: s) with
               | Some rest => Some (∅, rest)
               | None => None
               end
      | [] => None
      end in
    match value with
    | Some (m, rest) => if beq (skip_ws rest) [] then Some m else None
    | None => None
    end.

Definition field (m : fields_of) (f : string) : bytes := default [] (m !! f).

(** ** Writing an object of strings

    How a client writes a request: strings of printable ASCII, escaped. *)

Definition plain_char (c : byte) : bool :=
  in_range 0x20 0x7E c && negb (ch c 0x22) && negb (ch c 0x5C).

Definition json_quote (v : bytes) : bytes := z2b 0x22 :: v ++ [z2b 0x22].

Definition json_member (x : string * bytes) : bytes :=
  json_quote (bs x.1) ++ colon ++ json_quote x.2.

Definition write_object (l : list (string * bytes)) : bytes :=
  z2b 0x7B :: join [z2b 0x2C] (json_member <$> l) ++ [z2b 0x7D].

(** What is written so is decoded. *)

Lemma json_string_plain v rest fuel :
  forallb plain_char v = true → (length v < fuel)%nat →
  json_string fuel (v ++ z2b 0x22 :: rest) = Some (v, rest).
Proof.
  revert fuel. induction v as [|c v IH]; intros [|fuel] Hv Hf; cbn [length] in Hf; try lia; [done|].
  cbn [forallb] in Hv. apply andb_true_iff in Hv as [Hc Hv].
  unfold plain_char, in_range in Hc. rewrite !andb_true_iff, !negb_true_iff in Hc.
  destruct Hc as [[[Hlo Hhi] Hq] Hb]. apply Z.leb_le in Hlo, Hhi.
  cbn [app json_string]. rewrite Hq, Hb, (proj2 (Z.ltb_ge _ _)) by lia.
  assert (utf8_head (c :: v ++ z2b 0x22 :: rest) = Some 1%nat) as ->.
  { unfold utf8_head. cbn. by rewrite (proj2 (Z.ltb_lt _ _)) by lia. }
  cbn [take drop]. rewrite IH by (done || lia). done.
Qed.

Definition member_ok (fields : list string) (x : string * bytes) : Prop :=
  forallb plain_char (bs x.1) = true ∧ struct_field fields (bs x.1) = Some x.1 ∧
  forallb plain_char x.2 = true.

Definition collect (l : list (string * bytes)) (acc : fields_of) : fields_of :=
  foldl (λ m x, <[x.1 := x.2]> m) acc l.

Definition ws (c : byte) : bool := ch c 0x20 || ch c 0x09 || ch c 0x0A || ch c 0x0D.

Lemma skip_ws_cons c s : ws c = false → skip_ws (c :: s) = c :: s.
Proof. unfold ws. intros E. cbn [skip_ws]. by rewrite E. Qed.

Lemma json_member_shape k v s :
  json_member (k, v) ++ s =
  z2b 0x22 :: bs k ++ z2b 0x22 :: z2b 0x3A :: z2b 0x22 :: v ++ z2b 0x22 :: s.
Proof.
  unfold json_member, json_quote, colon. cbn [fst snd].
  repeat (rewrite <-?app_assoc; cbn [app]). done.
Qed.

(** One member, before a comma or the closing brace. *)
Lemma json_members_one fields x fuel c rest acc :
  member_ok fields x → ch c 0x2C = true ∨ ch c 0x7D = true →
  json_members (S fuel) fields (json_member x ++ c :: rest) acc =
  if ch c 0x2C then json_members fuel fields rest (<[x.1 := x.2]> acc)
  else Some (<[x.1 := x.2]> acc, rest).
Proof.
  intros (Hk & Hf & Hv) Hc. destruct x as [k v]. cbn [fst snd] in *. rewrite json_member_shape.
  assert (ws c = false) as Hw.
  { unfold ws, ch in *. destruct Hc as [E%Z.eqb_eq|E%Z.eqb_eq]; by rewrite E. }
  cbn [json_members]. rewrite skip_ws_cons by done. change (ch (z2b 0x22) 0x22) with true.
  cbn [negb]. rewrite json_string_plain by (done || (rewrite length_app; cbn [length]; lia)).
  rewrite Hf, skip_ws_cons by done. change (ch (z2b 0x3A) 0x3A) with true. cbn [negb].
  rewrite (skip_ws_cons (z2b 0x22)) by done. change (ch (z2b 0x22) 0x22) with true.
  rewrite json_string_plain by (done || (rewrite length_app; cbn [length]; lia)). cbv iota zeta.
  rewrite skip_ws_cons by done. destruct (ch c 0x2C) eqn:E; [done|]. by destruct Hc as [Hc| ->].
Qed.

Lemma json_members_write fields x l fuel acc :
  Forall (member_ok fields) (x :: l) → (length l < fuel)%nat →
  json_members fuel fields (join [z2b 0x2C] (json_member <$> x :: l) ++ [z2b 0x7D]) acc =
  Some (collect (x :: l) acc, []).
Proof.
  revert x fuel acc. induction l as [|y l IH]; intros x [|fuel] acc Hl Hf; cbn [length] in Hf; try lia;
    apply Forall_cons in Hl as [Hx Hl].
  - cbn [fmap list_fmap join flat_map]. rewrite app_nil_r.
    rewrite json_members_one by (done || by right). done.
  - specialize (IH y fuel (<[x.1 := x.2]> acc) Hl ltac:(lia)).
    cbn [fmap list_fmap join flat_map] in *. rewrite <-!app_assoc in *. cbn [app] in *.
    rewrite json_members_one by (done || by left). change (ch (z2b 0x2C) 0x2C) with true. cbv iota.
    exact IH.
Qed.

Lemma decode_json_write fields max x l :
  Forall (member_ok fields) (x :: l) → blen (write_object (x :: l)) ≤ max →
  decode_json fields max (write_object (x :: l)) = Some (collect (x :: l) ∅).
Proof.
  intros Hl Hmax. unfold decode_json. rewrite Z.gtb_ltb, (proj2 (Z.ltb_ge _ _)) by done.
  unfold write_object. rewrite skip_ws_cons by done.
  change (ch (z2b 0x7B) 0x7B) with true. cbv iota zeta. set (body := join _ _ ++ _).
  assert (∃ rest, skip_ws body = z2b 0x22 :: rest) as [rest ->].
  { unfold body. cbn [fmap list_fmap join]. rewrite <-app_assoc. destruct x as [k v].
    rewrite json_member_shape, skip_ws_cons by done. eauto. }
  change (ch (z2b 0x22) 0x7D) with false. cbv iota. unfold body.
  rewrite json_members_write; [done|done|].
  rewrite length_app. enough (length l ≤ length (join [z2b 0x2C] (json_member <$> x :: l)))%nat
    by lia.
  cbn [fmap list_fmap join]. rewrite length_app. clear. induction l as [|y l IH]; [cbn; lia|].
  cbn [fmap list_fmap flat_map length app] in *. rewrite length_app. lia.
Qed.
