(* ===== verification/GoCrypto.v ===== *)
(** The parts of the standard library behind the administration console's
    credentials: SHA-1, HMAC, base32, the standard base64 alphabet, splitting of
    texts and upper-casing. *)

From S2P Require Import Prelude GoStd GoNet.

(** ** crypto/sha1 (FIPS 180-4) on 32-bit words kept as [Z] *)

Definition rotl (n x : Z) : Z := rotr (32 - n) x.

Definition sha1_init : list Z := [0x67452301; 0xEFCDAB89; 0x98BADCFE; 0x10325476; 0xC3D2E1F0].

(** The function and the constant of round [t]. *)
Definition sha1_f (t : nat) (b c d : Z) : Z :=
  if (t <? 20)%nat then Ch b c d
  else if (t <? 40)%nat then xor3 b c d
  else if (t <? 60)%nat then Maj b c d
  else xor3 b c d.
Definition sha1_k (t : nat) : Z :=
  if (t <? 20)%nat then 0x5A827999 else if (t <? 40)%nat then 0x6ED9EBA1
  else if (t <? 60)%nat then 0x8F1BBCDC else 0xCA62C1D6.

Definition sha1_round (t : nat) (w : Z) (st : list Z) : list Z :=
  match st with
  | [a; b; c; d; e] => [w32 (rotl 5 a + sha1_f t b c d + e + sha1_k t + w); a; rotl 30 b; c; d]
  | _ => st
  end.

Definition sha1_next (win : list Z) : Z :=
  match win with
  | w0 :: _ :: w2 :: _ :: _ :: _ :: _ :: _ :: w8 :: _ :: _ :: _ :: _ :: w13 :: _ =>
      rotl 1 (Z.lxor (xor3 w13 w8 w2) w0)
  | _ => 0
  end.

Fixpoint sha1_rounds (ts : list nat) (win st : list Z) : list Z :=
  match ts, win with
  | t :: ts, w :: rest => sha1_rounds ts (rest ++ [sha1_next win]) (sha1_round t w st)
  | _, _ => st
  end.

Definition sha1_block (st : list Z) (block : bytes) : list Z :=
  zip_with (λ a b, w32 (a + b)) st (sha1_rounds (seq 0 80) (words_of 16 block) st).

Fixpoint sha1_blocks (n : nat) (st : list Z) (b : bytes) : list Z :=
  match n with
  | O => st
  | S n => sha1_blocks n (sha1_block st (take 64 b)) (drop 64 b)
  end.

Definition Sum1 (msg : bytes) : bytes :=
  let padded := sha_pad msg in
  flat_map (be_put 4) (sha1_blocks (Nat.div (length padded) 64) sha1_init padded).

Example sha1_abc : Sum1 (bs "abc") = be_put 20 0xa9993e364706816aba3e25717850c26c9cd0d89d.
Proof. vm_compute. reflexivity. Qed.

(** ** crypto/hmac, for hashes with 64-byte blocks *)

Definition hmac_key (hash : bytes → bytes) (key : bytes) : bytes :=
  let key := if blen key >? 64 then hash key else key in
  key ++ repeat Byte.x00 (64 - length key).
Definition xor_pad (v : Z) (key : bytes) : bytes := map (λ b, z2b (Z.lxor (b2z b) v)) key.

Definition hmac (hash : bytes → bytes) (key msg : bytes) : bytes :=
  let key := hmac_key hash key in
  hash (xor_pad 0x5C key ++ hash (xor_pad 0x36 key ++ msg)).

(** RFC 2202 and RFC 4231, test case 2. *)
Example hmac_sha1_jefe :
  hmac Sum1 (bs "Jefe") (bs "what do ya want for nothing?") =
  be_put 20 0xeffcdf6ae5eb2fa2d27416d5f184df9c259a7c79.
Proof. vm_compute. reflexivity. Qed.
Example hmac_sha256_jefe :
  hmac Sum256 (bs "Jefe") (bs "what do ya want for nothing?") =
  be_put 32 0x5bdcc146bf60754e6a042426089575c75a003f089d2739839dec58b964ec3843.
Proof. vm_compute. reflexivity. Qed.

(** ** base64.RawStdEncoding: the URL alphabet with its last two letters changed *)

Definition to_std (c : byte) : byte :=
  if ch c 0x2D then z2b 0x2B else if ch c 0x5F then z2b 0x2F else c.
Definition to_url (c : byte) : byte :=
  if ch c 0x2B then z2b 0x2D else if ch c 0x2F then z2b 0x5F else c.

Definition RawStd_Encode (b : bytes) : bytes := map to_std (RawURL_Encode b).
Definition RawStd_Decode (s : bytes) : option bytes :=
  if existsb (λ c, ch c 0x2D || ch c 0x5F) s then None else RawURL_Decode (map to_url s).

(** ** base32.StdEncoding without padding *)

Definition alphabet32 : bytes := bs "ABCDEFGHIJKLMNOPQRSTUVWXYZ234567".
Definition letter32 (v : Z) : byte := default Byte.x00 (alphabet32 !! Z.to_nat (Z.land v 31)).
Definition value32 (c : byte) : option Z := index_from c alphabet32 0.

(** The letters of the five-bit groups of [bits] bits. *)
Fixpoint groups32 (n : nat) (bits v : Z) : bytes :=
  match n with
  | O => []
  | S n => letter32 (Z.shiftr v (bits - 5)) :: groups32 n (bits - 5) v
  end.

Fixpoint base32_Encode (src : bytes) : bytes :=
  match src with
  | [] => []
  | [a] => groups32 2 10 (Z.shiftl (be_get [a]) 2)
  | [a; b] => groups32 4 20 (Z.shiftl (be_get [a; b]) 4)
  | [a; b; c] => groups32 5 25 (Z.shiftl (be_get [a; b; c]) 1)
  | [a; b; c; d] => groups32 7 35 (Z.shiftl (be_get [a; b; c; d]) 3)
  | a :: b :: c :: d :: e :: r => groups32 8 40 (be_get [a; b; c; d; e]) ++ base32_Encode r
  end.

Fixpoint values32 (s : bytes) : option (list Z) :=
  match s with
  | [] => Some []
  | c :: s => v ← value32 c; l ← values32 s; Some (v :: l)
  end.

(** The number of the five-bit groups. *)
Definition number32 (l : list Z) : Z := fold_left (λ a v, a * 32 + v) l 0.

(** A final group of 1, 3 or 6 letters adds no bytes. *)
Fixpoint pack32 (l : list Z) : bytes :=
  match l with
  | v0 :: v1 :: v2 :: v3 :: v4 :: v5 :: v6 :: v7 :: r =>
      be_put 5 (number32 [v0; v1; v2; v3; v4; v5; v6; v7]) ++ pack32 r
  | [v0; v1] => be_put 1 (Z.shiftr (number32 l) 2)
  | [v0; v1; v2; v3] => be_put 2 (Z.shiftr (number32 l) 4)
  | [v0; v1; v2; v3; v4] => be_put 3 (Z.shiftr (number32 l) 1)
  | [v0; v1; v2; v3; v4; v5; v6] => be_put 4 (Z.shiftr (number32 l) 3)
  | _ => []
  end.

Definition base32_Decode (s : bytes) : option bytes :=
  pack32 <$> values32 (List.filter (λ c, negb (is_newline c)) s).

Example base32_examples :
  base32_Encode (bs "foobar") = bs "MZXW6YTBOI" ∧
  base32_Decode (bs "MZXW6YTBOI") = Some (bs "foobar") ∧ base32_Decode (bs "MZXW6YTBO1") = None.
Proof. vm_compute. repeat split; reflexivity. Qed.

(** ** strings *)

(** [strings.Split] at one byte. *)
Fixpoint Split (sep : Z) (s : bytes) : list bytes :=
  match s with
  | [] => [[]]
  | c :: rest =>
      if ch c sep then [] :: Split sep rest
      else match Split sep rest with
           | x :: l => (c :: x) :: l
           | [] => [[c]]
           end
  end.

(** [strings.ToUpper] as far as it can produce ASCII: letters, the dotless i
    (U+0131) and the long s (U+017F). *)
Fixpoint upper (s : bytes) : bytes :=
  match s with
  | [] => []
  | c :: rest =>
      if in_range 0x61 0x7A c then z2b (b2z c - 32) :: upper rest
      else match rest with
           | c1 :: rest1 =>
               if ch c 0xC4 && ch c1 0xB1 then z2b 0x49 :: upper rest1
               else if ch c 0xC5 && ch c1 0xBF then z2b 0x53 :: upper rest1
               else c :: upper rest
           | [] => [c]
           end
  end.

Fixpoint trim_right (c : Z) (s : bytes) : bytes :=
  match s with
  | [] => []
  | x :: rest => match trim_right c rest with
                 | [] => if ch x c then [] else [x]
                 | r => x :: r
                 end
  end.

(** ** Round trips *)

Lemma letter32_props :
  forallb (λ i, match value32 (letter32 (Z.of_nat i)) with
                | Some j => (j =? Z.of_nat i) | None => false end) (seq 0 32) = true.
Proof. vm_compute. reflexivity. Qed.

Lemma letter32_mod v : letter32 v = letter32 (v mod 32) ∧ 0 ≤ v mod 32 < 32.
Proof.
  split; [|apply Z.mod_pos_bound; lia]. unfold letter32. change 31 with (Z.ones 5).
  rewrite !Z.land_ones by lia. change (2 ^ 5) with 32. by rewrite Z.mod_mod by lia.
Qed.

Lemma value32_letter v : value32 (letter32 v) = Some (v mod 32).
Proof.
  destruct (letter32_mod v) as [-> Hb]. pose proof letter32_props as Hall.
  rewrite forallb_forall in Hall.
  specialize (Hall (Z.to_nat (v mod 32)) ltac:(apply in_seq; lia)). rewrite Z2Nat.id in Hall by lia.
  destruct (value32 _) as [j|]; [|done]. by apply Z.eqb_eq in Hall as ->.
Qed.

(** The letters of [n] groups carry the low [5 n] bits. *)
Fixpoint digits32 (n : nat) (bits v : Z) : list Z :=
  match n with
  | O => []
  | S n => Z.shiftr v (bits - 5) mod 32 :: digits32 n (bits - 5) v
  end.

Lemma values32_groups n bits v rest l :
  values32 rest = Some l → values32 (groups32 n bits v ++ rest) = Some (digits32 n bits v ++ l).
Proof.
  intros Hr. revert bits. induction n as [|n IH]; intros bits; [done|].
  cbn [groups32 digits32 app values32]. rewrite value32_letter, IH. done.
Qed.

Lemma number32_digits n v a :
  fold_left (λ a v, a * 32 + v) (digits32 n (5 * Z.of_nat n) v) a =
  a * 32 ^ Z.of_nat n + v mod 32 ^ Z.of_nat n.
Proof.
  revert a. induction n as [|n IH]; intros a.
  - cbn [digits32 fold_left]. change (32 ^ Z.of_nat 0) with 1. rewrite Z.mod_1_r. lia.
  - cbn [digits32 fold_left]. replace (5 * Z.of_nat (S n) - 5) with (5 * Z.of_nat n) by lia.
    rewrite IH, Nat2Z.inj_succ, Z.pow_succ_r by lia.
    rewrite Z.shiftr_div_pow2 by lia. replace (2 ^ (5 * Z.of_nat n)) with (32 ^ Z.of_nat n).
    2: { change 32 with (2 ^ 5). by rewrite <-Z.pow_mul_r by lia. }
    set (m := 32 ^ Z.of_nat n). assert (0 < m) by (apply Z.pow_pos_nonneg; lia).
    rewrite (Z.mul_comm 32 m), Z.rem_mul_r by lia. lia.
Qed.

Lemma number32_small n v : 0 ≤ v < 32 ^ Z.of_nat n → number32 (digits32 n (5 * Z.of_nat n) v) = v.
Proof. intros Hv. unfold number32. rewrite number32_digits, Z.mod_small by done. lia. Qed.

Lemma be_get_lt b n : length b = n → 0 ≤ be_get b < 2 ^ (8 * Z.of_nat n).
Proof.
  intros Hl. pose proof (be_get_bound b n Hl) as Hb. change 256 with (2 ^ 8) in Hb.
  by rewrite <-Z.pow_mul_r in Hb by lia.
Qed.

(** [n] letters of [k] bytes, shifted left by [s] bits. *)
Lemma group_bytes b k n s :
  length b = k → 5 * Z.of_nat n = 8 * Z.of_nat k + s → 0 ≤ s →
  be_put k (Z.shiftr (number32 (digits32 n (5 * Z.of_nat n) (Z.shiftl (be_get b) s))) s) = b.
Proof.
  intros Hk Hn Hs. pose proof (be_get_lt b k Hk) as Hb. rewrite number32_small.
  - rewrite Z.shiftr_shiftl_l, Z.sub_diag, Z.shiftl_0_r by lia. by apply be_put_get.
  - rewrite Z.shiftl_mul_pow2 by lia. change 32 with (2 ^ 5).
    rewrite <-Z.pow_mul_r, Hn, Z.pow_add_r by lia. nia.
Qed.

Lemma values32_encode b : ∃ l, values32 (base32_Encode b) = Some l ∧ pack32 l = b.
Proof.
  induction b as [b IH] using (induction_ltof1 _ (@length byte)). unfold ltof in IH.
  assert (∀ n bits v, values32 (groups32 n bits v) = Some (digits32 n bits v)) as Hg.
  { intros n bits v. rewrite <-(app_nil_r (groups32 n bits v)), <-(app_nil_r (digits32 n bits v)).
    by apply values32_groups. }
  destruct b as [|x [|y [|z [|u [|v r]]]]]; cbn [base32_Encode]; rewrite ?Hg.
  - by exists [].
  - eexists. split; [done|]. exact (group_bytes [x] 1 2 2 eq_refl eq_refl ltac:(lia)).
  - eexists. split; [done|]. exact (group_bytes [x; y] 2 4 4 eq_refl eq_refl ltac:(lia)).
  - eexists. split; [done|]. exact (group_bytes [x; y; z] 3 5 1 eq_refl eq_refl ltac:(lia)).
  - eexists. split; [done|]. exact (group_bytes [x; y; z; u] 4 7 3 eq_refl eq_refl ltac:(lia)).
  - destruct (IH r) as (l & Hl & Hp); [cbn; lia|].
    eexists. split; [by apply values32_groups|]. rewrite <-Hp.
    pose proof (group_bytes [x; y; z; u; v] 5 8 0 eq_refl eq_refl ltac:(lia)) as E.
    rewrite Z.shiftr_0_r, Z.shiftl_0_r in E. change (5 * Z.of_nat 8) with 40 in E.
    change (x :: y :: z :: u :: v :: pack32 l) with ([x; y; z; u; v] ++ pack32 l).
    rewrite <-E at 2. reflexivity.
Qed.

(** Every letter of an encoding is a letter of the alphabet. *)
Lemma letter32_forall (P : byte → bool) v :
  forallb (λ i, P (letter32 (Z.of_nat i))) (seq 0 32) = true → P (letter32 v) = true.
Proof.
  rewrite forallb_forall. intros Hall. destruct (letter32_mod v) as [-> Hb].
  specialize (Hall (Z.to_nat (v mod 32)) ltac:(apply in_seq; lia)).
  by rewrite Z2Nat.id in Hall by lia.
Qed.

Lemma groups32_forall (P : byte → bool) n bits v :
  forallb (λ i, P (letter32 (Z.of_nat i))) (seq 0 32) = true → forallb P (groups32 n bits v) = true.
Proof.
  intros Hall. revert bits. induction n as [|n IH]; intros bits; [done|].
  cbn [groups32 forallb]. by rewrite letter32_forall, IH.
Qed.

Lemma base32_forall (P : byte → bool) b :
  forallb (λ i, P (letter32 (Z.of_nat i))) (seq 0 32) = true → forallb P (base32_Encode b) = true.
Proof.
  intros Hall. induction b as [b IH] using (induction_ltof1 _ (@length byte)). unfold ltof in IH.
  destruct b as [|x [|y [|z [|u [|v r]]]]]; cbn [base32_Encode]; try (done || by apply groups32_forall).
  rewrite forallb_app, groups32_forall, IH by (done || (cbn; lia)). done.
Qed.

Lemma filter_forallb {A} (P : A → bool) l : forallb P l = true → List.filter P l = l.
Proof.
  induction l as [|a l IH]; [done|]. cbn [forallb List.filter]. rewrite andb_true_iff.
  intros [-> Hl]. by rewrite IH.
Qed.

Lemma base32_Decode_Encode b : base32_Decode (base32_Encode b) = Some b.
Proof.
  unfold base32_Decode. rewrite filter_forallb by (apply base32_forall; vm_compute; reflexivity).
  destruct (values32_encode b) as (l & -> & E). cbn. by rewrite E.
Qed.

(** The same for the standard base64 alphabet. *)
Lemma sextet_forall (P : byte → bool) b :
  forallb (λ i, P (sextet (Z.of_nat i))) (seq 0 64) = true → forallb P (RawURL_Encode b) = true.
Proof.
  intros Hall. assert (∀ v, P (sextet v) = true) as Hs.
  { intros v. rewrite forallb_forall in Hall. pose proof (Z.mod_pos_bound v 64 ltac:(lia)).
    specialize (Hall (Z.to_nat (v mod 64)) ltac:(apply in_seq; lia)). rewrite Z2Nat.id in Hall by lia.
    unfold sextet in *. by rewrite !land63, Z.mod_mod in * by lia. }
  induction b as [b IH] using (induction_ltof1 _ (@length byte)). unfold ltof in IH.
  destruct b as [|x [|y [|z r]]]; cbn [RawURL_Encode forallb]; rewrite ?Hs; try done.
  cbn [andb]. apply IH. cbn. lia.
Qed.

Lemma map_forallb {A} (P : A → bool) (f : A → A) l :
  (∀ a, P a = true → f a = a) → forallb P l = true → map f l = l.
Proof.
  intros Hf. induction l as [|a l IH]; [done|]. cbn. rewrite andb_true_iff. intros [Ha Hl].
  by rewrite (Hf a Ha), IH.
Qed.

Lemma RawStd_Decode_Encode b : RawStd_Decode (RawStd_Encode b) = Some b.
Proof.
  unfold RawStd_Decode, RawStd_Encode.
  assert (forallb (λ c, Byte.eqb (to_url (to_std c)) c &&
            negb (ch (to_std c) 0x2D || ch (to_std c) 0x5F)) (RawURL_Encode b) = true) as Hall
    by (apply sextet_forall; vm_compute; reflexivity).
  assert (∀ l, forallb (λ c, Byte.eqb (to_url (to_std c)) c &&
            negb (ch (to_std c) 0x2D || ch (to_std c) 0x5F)) l = true →
          existsb (λ c, ch c 0x2D || ch c 0x5F) (map to_std l) = false ∧ map to_url (map to_std l) = l)
    as Hl.
  { clear. induction l as [|c l IH]; [done|]. cbn [forallb map existsb].
    rewrite !andb_true_iff, negb_true_iff. intros [[Hc Hn] Hl]. destruct (IH Hl) as [-> ->].
    rewrite Hn. apply Byte.byte_dec_bl in Hc. by rewrite Hc. }
  destruct (Hl _ Hall) as [-> ->]. apply RawURL_Decode_Encode.
Qed.
