(* ===== verification/GoForm.v ===== *)
(** The parts of [net/url] and [net/http] behind forms: percent-encoding, query
    strings and [Request.ParseForm]. *)

From S2P Require Import Prelude GoStd GoNet GoWeb GoCrypto.

(** ** Percent-encoding *)

Definition percent : byte := z2b 0x25.

(** [QueryUnescape] *)
Fixpoint QueryUnescape (s : bytes) : option bytes :=
  match s with
  | [] => Some []
  | c :: rest =>
      if ch c 0x25 then
        match rest with
        | a :: b :: rest' =>
            match hex_digit a, hex_digit b with
            | Some x, Some y => cons (z2b (x * 16 + y)) <$> QueryUnescape rest'
            | _, _ => None
            end
        | _ => None
        end
      else if ch c 0x2B then cons (z2b 0x20) <$> QueryUnescape rest
      else cons c <$> QueryUnescape rest
  end.

Definition is_alnum (c : byte) : bool :=
  in_range 0x61 0x7A c || in_range 0x41 0x5A c || in_range 0x30 0x39 c.
Definition unreserved (c : byte) : bool :=
  is_alnum c || ch c 0x2D || ch c 0x5F || ch c 0x2E || ch c 0x7E.

Definition hex_upper (v : Z) : byte := z2b (if v <? 10 then 0x30 + v else 0x41 + (v - 10)).
Definition percent_encode (c : byte) : bytes :=
  [percent; hex_upper (b2z c / 16); hex_upper (b2z c mod 16)].

(** [QueryEscape] *)
Definition QueryEscape (s : bytes) : bytes :=
  flat_map (λ c, if ch c 0x20 then [z2b 0x2B] else if unreserved c then [c] else percent_encode c) s.

(** [PathEscape]: also [$ & + = : @] stay. *)
Definition PathEscape (s : bytes) : bytes :=
  flat_map (λ c, if unreserved c || ch c 0x24 || ch c 0x26 || ch c 0x2B || ch c 0x3D ||
                    ch c 0x3A || ch c 0x40 then [c] else percent_encode c) s.

(** ** Query strings *)

Abbreviation form := (list (bytes * bytes)).

(** One [key=value]; [None] is an error. *)
Definition parse_pair (pair : bytes) : option (bytes * bytes) :=
  if existsb (λ c, ch c 0x3B) pair then None
  else
    let '(key, value) := cut 0x3D pair in
    k ← QueryUnescape key; v ← QueryUnescape (default [] value); Some (k, v).

(** [ParseQuery]: the values, and whether every pair was well formed. *)
Definition ParseQuery (query : bytes) : form * bool :=
  let pairs := List.filter (λ p, negb (beq p [])) (Split 0x26 query) in
  (omap parse_pair pairs, forallb (λ p, bool_decide (is_Some (parse_pair p))) pairs).

(** [Values.Get] *)
Definition Get (f : form) (key : string) : bytes :=
  match List.find (λ x, beq x.1 (bs key)) f with Some (_, v) => v | None => [] end.

Example query_examples :
  ParseQuery (bs "a=1&b=x+y%21&a=2&&c") =
    ([(bs "a", bs "1"); (bs "b", bs "x y!"); (bs "a", bs "2"); (bs "c", [])], true) ∧
  (ParseQuery (bs "a=%zz&b=1;c=2")).2 = false ∧
  QueryUnescape (QueryEscape (bs "a b/%&=")) = Some (bs "a b/%&=").
Proof. vm_compute. repeat split; reflexivity. Qed.

(** ** Forms *)

(** [mime.ParseMediaType]: the media type, if it is well formed, and whether the
    parameters are. *)
Definition ParseMediaType (v : bytes) : option bytes * bool :=
  let '(base, rest) := cut 0x3B v in
  let mediatype := TrimSpace (lower base) in
  let '(typ, after) := consumeToken mediatype in
  let valid :=
    negb (beq typ []) &&
    match after with
    | [] => true
    | c :: sub =>
        ch c 0x2F && (let '(subtype, after) := consumeToken sub in
                      negb (beq subtype []) && beq after [])
    end in
  if negb valid then (None, false)
  else (Some mediatype,
        media_params (S (length v)) (match rest with Some r => z2b 0x3B :: r | None => [] end) ∅).

(** [ParseForm] of a POST request behind a [MaxBytesReader]: the body's values
    ([PostForm]), or [None] on an error. *)
Definition ParseForm (contentType rawQuery body : bytes) (maxBytes : Z) : option form :=
  let contentType := if beq contentType [] then bs "application/octet-stream" else contentType in
  let '(mediatype, params_ok) := ParseMediaType contentType in
  if negb params_ok then None
  else
    let post :=
      if bool_decide (mediatype = Some (bs "application/x-www-form-urlencoded")) then
        if blen body >? maxBytes then None
        else let '(values, ok) := ParseQuery body in if ok then Some values else None
      else Some [] in
    match post with
    | None => None
    | Some values => if (ParseQuery rawQuery).2 then Some values else None
    end.
