(* ===== verification/GoUrl.v ===== *)
(** [url.Parse] of net/url (Go 1.25) and prefixes of net/netip, as far as the
    configuration, the console and the relay use them. *)

From S2P Require Import Prelude GoStd GoNet GoWeb GoCrypto GoForm.

(** ** Addresses and prefixes *)

Definition Is4In6 (a : Addr) : bool :=
  match a with Addr6 [0; 0; 0; 0; 0; 0xFFFF; _; _] _ => true | _ => false end.

Definition IsLoopback (a : Addr) : bool :=
  match Unmap a with
  | Addr4 (o :: _) => o =? 127
  | Addr6 g _ => bool_decide (g = [0; 0; 0; 0; 0; 0; 0; 1])
  | _ => false
  end.

(** [netip.ParsePrefix] *)
Definition ParsePrefix (s : bytes) : option Prefix :=
  match cut_last 0x2F s with
  | None => None
  | Some (address, bits) =>
      match ParseAddr address with
      | None => None
      | Some ip =>
          if negb (beq (Zone ip) []) then None
          else if (1 <? blen bits) && negb (match bits with c :: _ => in_range 0x31 0x39 c | [] => false end)
          then None
          else match ParseInt bits with
               | None => None
               | Some n => if (n <? 0) || (n >? BitLen ip) then None else Some (mkPrefix ip n)
               end
      end
  end.

(** The first [bits] of fields of [w] bits each. *)
Fixpoint mask_fields (w bits : Z) (l : list Z) : list Z :=
  match l with
  | [] => []
  | x :: l => (if w <=? bits then x else if bits <=? 0 then 0 else x - x mod 2 ^ (w - bits)) ::
              mask_fields w (bits - w) l
  end.

Definition Masked (p : Prefix) : Prefix :=
  mkPrefix (match prefix_addr p with
            | Addr4 o => Addr4 (mask_fields 8 (prefix_bits p) o)
            | Addr6 g _ => Addr6 (mask_fields 16 (prefix_bits p) g) []
            end) (prefix_bits p).

Definition PrefixString (p : Prefix) : bytes :=
  AddrString (prefix_addr p) ++ z2b 0x2F :: FormatInt (prefix_bits p).

#[export] Instance Prefix_eq_dec : EqDecision Prefix.
Proof. solve_decision. Defined.

Example prefix_examples :
  (PrefixString ∘ Masked <$> ParsePrefix (bs "10.9.8.7/12")) = Some (bs "10.0.0.0/12") ∧
  (PrefixString ∘ Masked <$> ParsePrefix (bs "2001:db8:ffff::/33")) = Some (bs "2001:db8:8000::/33") ∧
  ParsePrefix (bs "10.0.0.0/08") = None ∧ ParsePrefix (bs "10.0.0.0/33") = None ∧
  ParsePrefix (bs "10.0.0.0/+8") = None ∧ IsLoopback (Addr4 [127; 1; 2; 3]) = true.
Proof. vm_compute. repeat split; reflexivity. Qed.

(** ** Percent-encoding in hosts *)

Inductive escape_mode : Type := EncHost | EncZone | EncOther.

(** [!shouldEscape] for a host. *)
Definition host_byte (c : byte) : bool :=
  unreserved c || existsb (Byte.eqb c) (bs "!$&'()*+,;=:[]<>") || ch c 0x22.

(** [unescape] *)
Fixpoint unescape (mode : escape_mode) (s : bytes) : option bytes :=
  match s with
  | [] => Some []
  | c :: rest =>
      if ch c 0x25 then
        match rest with
        | a :: b :: rest' =>
            match hex_digit a, hex_digit b with
            | Some x, Some y =>
                let v := z2b (x * 16 + y) in
                let allowed := match mode with
                               | EncHost => (8 <=? x) || ch v 0x25
                               | EncZone => ch v 0x25 || ch v 0x20 || host_byte v
                               | EncOther => true
                               end in
                if allowed then cons v <$> unescape mode rest' else None
            | _, _ => None
            end
        | _ => None
        end
      else if (match mode with EncOther => false | _ => (b2z c <? 0x80) && negb (host_byte c) end)
      then None
      else cons c <$> unescape mode rest
  end.

(** [escape] with [encodeHost] *)
Definition escape_host (s : bytes) : bytes :=
  flat_map (λ c, if host_byte c then [c] else percent_encode c) s.

(** ** URLs *)

Record URL : Type := mkURL {
  Scheme : bytes;
  Opaque_part : bytes;
  User : option (bytes * option bytes);
  Host : bytes;
  Path : bytes;
  ForceQuery : bool;
  RawQuery : bytes;
  Fragment : bytes
}.

Definition validOptionalPort (port : bytes) : bool :=
  match port with
  | [] => true
  | c :: rest => ch c 0x3A && forallb (in_range 0x30 0x39) rest
  end.

(** The last [v] and what follows it, or nothing. *)
Definition from_last (v : Z) (s : bytes) : bytes :=
  match cut_last v s with Some (_, rest) => z2b v :: rest | None => [] end.

(** The first occurrence of [sub]: before, and from it on. *)
Fixpoint split_at (sub s : bytes) : option (bytes * bytes) :=
  match strip_prefix sub s with
  | Some _ => Some ([], s)
  | None =>
      match s with
      | [] => None
      | c :: rest => match split_at sub rest with
                     | Some (a, b) => Some (c :: a, b)
                     | None => None
                     end
      end
  end.

Definition parseHost (host : bytes) : option bytes :=
  match cut_last 0x5B host with
  | Some (before, inner) =>
      if negb (beq before []) then None
      else match cut_last 0x5D inner with
      | None => None
      | Some (hostname, colonPort) =>
          if negb (validOptionalPort colonPort) then None
          else
            port ← unescape EncHost colonPort;
            unescaped ←
              match split_at (bs "%25") hostname with
              | Some (a, z) => a' ← unescape EncHost a; z' ← unescape EncZone z; Some (a' ++ z')
              | None => unescape EncHost hostname
              end;
            match ParseAddr unescaped with
            | Some (Addr6 _ _) => Some ([z2b 0x5B] ++ unescaped ++ [z2b 0x5D] ++ port)
            | _ => None
            end
      end
  | None =>
      if negb (validOptionalPort (from_last 0x3A host)) then None else unescape EncHost host
  end.

Definition userinfo_byte (c : byte) : bool :=
  is_alnum c || existsb (Byte.eqb c) (bs "-._:~!$&'()*+,;=%@").

Definition parseAuthority (authority : bytes) : option (option (bytes * option bytes) * bytes) :=
  match cut_last 0x40 authority with
  | None => host ← parseHost authority; Some (None, host)
  | Some (userinfo, rest) =>
      host ← parseHost rest;
      if negb (forallb userinfo_byte userinfo) then None
      else
        let '(name, password) := cut 0x3A userinfo in
        name' ← unescape EncOther name;
        match password with
        | None => Some (Some (name', None), host)
        | Some p => p' ← unescape EncOther p; Some (Some (name', Some p'), host)
        end
  end.

(** [getScheme]: scheme and rest, or an error. *)
Fixpoint scheme_of (i : nat) (seen s : bytes) (all : bytes) : option (bytes * bytes) :=
  match s with
  | [] => Some ([], all)
  | c :: rest =>
      if in_range 0x61 0x7A c || in_range 0x41 0x5A c then scheme_of (S i) (seen ++ [c]) rest all
      else if in_range 0x30 0x39 c || ch c 0x2B || ch c 0x2D || ch c 0x2E then
        match i with O => Some ([], all) | _ => scheme_of (S i) (seen ++ [c]) rest all end
      else if ch c 0x3A then match i with O => None | _ => Some (seen, rest) end
      else Some ([], all)
  end.
Definition getScheme (raw : bytes) : option (bytes * bytes) := scheme_of 0 [] raw raw.

Definition count_byte (v : Z) (s : bytes) : nat := length (List.filter (λ c, ch c v) s).

(** The parse of what precedes a fragment. *)
Definition parse_url (raw fragment : bytes) : option URL :=
  if existsb (λ c, (b2z c <? 0x20) || ch c 0x7F) raw then None
  else if beq raw (bs "*") then Some (mkURL [] [] None [] (bs "*") false [] fragment)
  else
    '(scheme, rest) ← getScheme raw;
    let scheme := lower scheme in
    let '(force, rest, query) :=
      if (match last rest with Some c => ch c 0x3F | None => false end) &&
         (count_byte 0x3F rest =? 1)%nat
      then (true, removelast rest, [])
      else let '(a, b) := cut 0x3F rest in (false, a, default [] b) in
    let rooted := HasPrefix rest (bs "/") in
    if negb rooted && negb (beq scheme []) then
      Some (mkURL scheme rest None [] [] force query fragment)
    else if negb rooted && has_char 0x3A (cut 0x2F rest).1 then None
    else
      '(user, host, rest) ←
        (if (negb (beq scheme []) || negb (HasPrefix rest (bs "///"))) && HasPrefix rest (bs "//") then
           let '(authority, path) := cut 0x2F (drop 2 rest) in
           '(user, host) ← parseAuthority authority;
           Some (user, host, match path with Some p => z2b 0x2F :: p | None => [] end)
         else Some (None, [], rest));
      path ← unescape EncOther rest;
      Some (mkURL scheme [] user host path force query fragment).

(** [url.Parse] *)
Definition url_Parse (raw : bytes) : option URL :=
  let '(u, fragment) := cut 0x23 raw in
  fragment ← unescape EncOther (default [] fragment);
  parse_url u fragment.

(** [String], of a URL with a scheme, a host and neither user, path, query nor
    fragment. *)
Definition origin_String (u : URL) : bytes :=
  Scheme u ++ bs "://" ++ escape_host (Host u) ++ (if ForceQuery u then bs "?" else []).

(** [Hostname] *)
Definition Hostname (u : URL) : bytes :=
  let host := Host u in
  let host := match cut_last 0x3A host with
              | Some (before, port) => if validOptionalPort (z2b 0x3A :: port) then before else host
              | None => host
              end in
  match host with
  | c :: rest =>
      if ch c 0x5B && (match last rest with Some d => ch d 0x5D | None => false end)
      then removelast rest else host
  | [] => host
  end.

Example url_examples :
  (origin_String <$> url_Parse (bs "HTTPS://Example.org:8443")) = Some (bs "https://Example.org:8443") ∧
  (Host <$> url_Parse (bs "http://[::1]:80/x?y#z")) = Some (bs "[::1]:80") ∧
  (Hostname <$> url_Parse (bs "http://[fe80::1%25en0]:80")) = Some (bs "fe80::1%en0") ∧
  (Host <$> url_Parse (bs "chrome-extension://abcdefghijklmnopabcdefghijklmnop")) =
    Some (bs "abcdefghijklmnopabcdefghijklmnop") ∧
  (User <$> url_Parse (bs "http://u:p%40@h/")) = Some (Some (bs "u", Some (bs "p@"))) ∧
  (Opaque_part <$> url_Parse (bs "mailto:a@b")) = Some (bs "a@b") ∧
  url_Parse (bs "http://h:8x") = None ∧ url_Parse (bs "http://[127.0.0.1]") = None ∧
  url_Parse (bs ":x") = None ∧ url_Parse (bs "http://a b") = None ∧
  (ForceQuery <$> url_Parse (bs "http://h?")) = Some true.
Proof. vm_compute. repeat split; reflexivity. Qed.
