(* ===== verification/GoPath.v ===== *)
(** Lexical paths: the parts of path/filepath that configuration and backups use,
    for a system with [/] as separator. *)

From S2P Require Import Prelude GoStd GoNet GoCrypto.

Definition slash : byte := z2b 0x2F.
Definition dot : bytes := bs ".".
Definition dotdot : bytes := bs "..".

Definition rooted (path : bytes) : bool := match path with c :: _ => ch c 0x2F | [] => false end.

(** One element of a path onto the elements before it, in reverse. *)
Definition clean_step (absolute : bool) (stack : list bytes) (element : bytes) : list bytes :=
  if beq element [] || beq element dot then stack
  else if beq element dotdot then
    match stack with
    | top :: below => if beq top dotdot then dotdot :: stack else below
    | [] => if absolute then [] else [dotdot]
    end
  else element :: stack.

Definition clean_elements (path : bytes) : list bytes :=
  reverse (fold_left (clean_step (rooted path)) (Split 0x2F path) []).

(** [filepath.Clean] *)
Definition Clean (path : bytes) : bytes :=
  if rooted path then slash :: join [slash] (clean_elements path)
  else match clean_elements path with [] => dot | l => join [slash] l end.

(** [filepath.Join] of two elements *)
Definition Join (a b : bytes) : bytes :=
  if beq a [] then (if beq b [] then [] else Clean b)
  else if beq b [] then Clean a else Clean (a ++ slash :: b).

(** [filepath.Dir] *)
Definition filepath_Dir (path : bytes) : bytes :=
  match cut_last 0x2F path with
  | Some (before, _) => Clean (before ++ [slash])
  | None => dot
  end.

(** [filepath.Base] *)
Definition Base (path : bytes) : bytes :=
  if beq path [] then dot
  else
    let path := trim_right 0x2F path in
    let path := match cut_last 0x2F path with Some (_, rest) => rest | None => path end in
    if beq path [] then [slash] else path.

(** [filepath.Abs], as the elements below the root, in the working directory
    [cwd]. *)
Definition Abs (cwd path : bytes) : list bytes :=
  clean_elements (if rooted path then path else cwd ++ slash :: path).

(** [filepath.Rel] of absolute paths. *)
Fixpoint Rel (base target : list bytes) : list bytes :=
  match base, target with
  | b :: base', t :: target' => if beq b t then Rel base' target' else repeat dotdot (length base) ++ target
  | [], _ => target
  | _, [] => repeat dotdot (length base)
  end.

Example path_examples :
  Clean (bs "a//b/./../c/") = bs "a/c" ∧ Clean (bs "../../x") = bs "../../x" ∧ Clean [] = bs "." ∧
  Clean (bs "/../a") = bs "/a" ∧ filepath_Dir (bs "data/x.db") = bs "data" ∧
  filepath_Dir (bs "x.db") = bs "." ∧ filepath_Dir (bs "/x.db") = bs "/" ∧
  Join (bs "data") (bs "keys") = bs "data/keys" ∧ Base (bs "a/b//") = bs "b" ∧
  Abs (bs "/srv") (bs "../x") = [bs "x"] ∧
  Rel [bs "a"; bs "b"] [bs "a"; bs "c"; bs "d"] = [bs ".."; bs "c"; bs "d"].
Proof. vm_compute. repeat split; reflexivity. Qed.

(** ** Facts *)

(** An element that a path can end in: a plain name. *)
Definition plain_name (e : bytes) : bool :=
  negb (beq e []) && negb (beq e dot) && negb (beq e dotdot) && forallb (λ c, negb (ch c 0x2F)) e.

Lemma plain_step a st e : plain_name e = true → clean_step a st e = e :: st.
Proof.
  unfold plain_name, clean_step. rewrite !andb_true_iff, !negb_true_iff. by intros [[[-> ->] ->] _].
Qed.

(** [strings.Split] at a byte. *)
Section Split.
Context (sep : Z).
Definition without (e : bytes) : bool := forallb (λ c, negb (ch c sep)) e.

Lemma Split_one e : without e = true → Split sep e = [e].
Proof.
  induction e as [|c e IH]; [done|]. cbn [without forallb Split]. rewrite andb_true_iff, negb_true_iff.
  intros [-> He]. by rewrite IH.
Qed.

Lemma Split_at c s t : ch c sep = true → Split sep (s ++ c :: t) = Split sep s ++ Split sep t.
Proof.
  intros Hc. induction s as [|d s IH]; cbn [app Split]; [by rewrite Hc|].
  destruct (ch d sep); [by rewrite IH|].
  rewrite IH. assert (∃ x l, Split sep s = x :: l) as (x & l & ->); [|done].
  clear. induction s as [|d s (x & l & IH)]; [by exists [], []|]. cbn [Split].
  destruct (ch d sep); [by eauto|]. rewrite IH. eauto.
Qed.

Lemma Split_without s : Forall (λ e, without e = true) (Split sep s).
Proof.
  induction s as [|c s IH]; [by apply Forall_singleton|]. cbn [Split]. destruct (ch c sep) eqn:E.
  - by constructor.
  - destruct (Split sep s) as [|x l]; [apply Forall_singleton; cbn; by rewrite E|].
    inversion IH as [|? ? Hx Hl]; subst. constructor; [|done]. unfold without in *. cbn [forallb]. by rewrite E, Hx.
Qed.
End Split.

Lemma Split_plain e : forallb (λ c, negb (ch c 0x2F)) e = true → Split 0x2F e = [e].
Proof. apply Split_one. Qed.

Lemma Split_slash s t : Split 0x2F (s ++ slash :: t) = Split 0x2F s ++ Split 0x2F t.
Proof. by apply Split_at. Qed.

(** No slash within an element, and no empty or [.] element on the stack. *)
Definition no_slash (e : bytes) : Prop := forallb (λ c, negb (ch c 0x2F)) e = true.
Definition tidy (e : bytes) : Prop := e ≠ [] ∧ e ≠ dot ∧ no_slash e.

Lemma Split_no_slash s : Forall no_slash (Split 0x2F s).
Proof. apply Split_without. Qed.

Lemma tidy_fold a l st :
  Forall no_slash l → Forall tidy st → Forall tidy (fold_left (clean_step a) l st).
Proof.
  revert st. induction l as [|e l IH]; intros st Hl Hst; [done|]. cbn [fold_left].
  inversion Hl as [|? ? He Hl']; subst. apply IH; [done|]. unfold clean_step.
  destruct (beq e [] || beq e dot) eqn:E; [done|]. apply orb_false_iff in E as [E1 E2].
  apply beq_false in E1, E2. destruct (beq e dotdot); [|by constructor].
  destruct st as [|t st]; [by destruct a; repeat constructor|].
  destruct (beq t dotdot); [by constructor|]. by inversion Hst.
Qed.

(** What the elements [st], in reverse, do to the stack [C]. *)
Definition effect (C st : list bytes) : list bytes := fold_left (clean_step true) (reverse st) C.

Lemma effect_cons C e st : effect C (e :: st) = clean_step true (effect C st) e.
Proof. unfold effect. by rewrite reverse_cons, fold_left_app. Qed.

Lemma effect_step C st e :
  Forall tidy st → effect C (clean_step false st e) = clean_step true (effect C st) e.
Proof.
  intros Hst. unfold clean_step at 1. destruct (beq e [] || beq e dot) eqn:E.
  { unfold clean_step. by rewrite E. }
  destruct (beq e dotdot) eqn:Ed; [|apply effect_cons]. apply beq_true in Ed as ->.
  destruct st as [|t st]; [apply (effect_cons C dotdot [])|].
  destruct (beq t dotdot) eqn:Et; [apply effect_cons|]. rewrite effect_cons.
  inversion Hst as [|? ? [Hn [Hd _]] _]; subst. unfold clean_step at 2.
  rewrite (proj2 (beq_false _ _) Hn), (proj2 (beq_false _ _) Hd), Et. cbn [orb].
  change (effect C st = clean_step true (t :: effect C st) dotdot). unfold clean_step.
  change (beq dotdot [] || beq dotdot dot) with false. change (beq dotdot dotdot) with true. cbv iota.
  by rewrite Et.
Qed.

Lemma effect_fold C l st :
  Forall no_slash l → Forall tidy st →
  effect C (fold_left (clean_step false) l st) = fold_left (clean_step true) l (effect C st).
Proof.
  revert st. induction l as [|e l IH]; intros st Hl Hst; [done|]. cbn [fold_left].
  inversion Hl as [|? ? He Hl']; subst. rewrite IH; [|done|].
  - by rewrite effect_step.
  - by apply (tidy_fold false [e]); [constructor|].
Qed.

(** A cleaned relative path has the effect of the path. *)
Lemma join_Split l :
  l ≠ [] → Forall no_slash l → Split 0x2F (join [slash] l) = l.
Proof.
  destruct l as [|x l]; [done|]. intros _ Hl. cbn [join]. revert x Hl.
  induction l as [|y l IH]; intros x Hl; inversion Hl as [|? ? Hx Hl']; subst; cbn [flat_map].
  - rewrite app_nil_r. by apply Split_plain.
  - change ([slash] ++ y)%list with (slash :: y). rewrite <-app_comm_cons, Split_slash, (Split_plain x) by done.
    by rewrite IH.
Qed.

Lemma clean_elements_tidy p : Forall tidy (clean_elements p).
Proof. apply Forall_reverse, tidy_fold; [apply Split_no_slash|constructor]. Qed.

Lemma tidy_no_slash l : Forall tidy l → Forall no_slash l.
Proof. intros Hl. eapply Forall_impl; [exact Hl|]. by intros e (_ & _ & He). Qed.

Lemma Clean_relative p C :
  rooted p = false → fold_left (clean_step true) (Split 0x2F (Clean p)) C =
                     fold_left (clean_step true) (Split 0x2F p) C.
Proof.
  intros Hr. unfold Clean. rewrite Hr. transitivity (effect C (fold_left (clean_step false) (Split 0x2F p) [])).
  2: { by rewrite effect_fold; [|apply Split_no_slash|constructor]. }
  pose proof (clean_elements_tidy p) as Ht. unfold effect.
  assert (clean_elements p = reverse (fold_left (clean_step false) (Split 0x2F p) [])) as <-.
  { unfold clean_elements. by rewrite Hr. }
  destruct (clean_elements p) as [|x l] eqn:E; [done|]. rewrite join_Split; [done|done|by apply tidy_no_slash].
Qed.

(** The elements of an absolute path are plain names. *)
Lemma plain_fold l st :
  Forall no_slash l → Forall (λ e, plain_name e = true) st →
  Forall (λ e, plain_name e = true) (fold_left (clean_step true) l st).
Proof.
  revert st. induction l as [|e l IH]; intros st Hl Hst; [done|]. cbn [fold_left].
  inversion Hl as [|? ? He Hl']; subst. apply IH; [done|]. unfold clean_step.
  destruct (beq e [] || beq e dot) eqn:E; [done|]. destruct (beq e dotdot) eqn:Ed.
  - destruct st as [|t st]; [done|]. inversion Hst as [|? ? Ht Hst']; subst.
    destruct (beq t dotdot) eqn:Et; [|done]. unfold plain_name in Ht. by rewrite Et, andb_false_r in Ht.
  - constructor; [|done]. unfold plain_name. apply orb_false_iff in E as [-> ->]. rewrite Ed. exact He.
Qed.

Lemma plain_push l C :
  Forall (λ e, plain_name e = true) l → fold_left (clean_step true) l C = reverse l ++ C.
Proof.
  intros Hl. revert C. induction Hl as [|e l He _ IH]; intros C; [done|]. cbn [fold_left].
  by rewrite plain_step, IH, reverse_cons, <-app_assoc.
Qed.

Lemma plain_no_slash l : Forall (λ e, plain_name e = true) l → Forall no_slash l.
Proof.
  intros Hl. eapply Forall_impl; [exact Hl|]. intros e He. unfold plain_name in He.
  by apply andb_true_iff in He as [_ He].
Qed.

Lemma Clean_nonempty p : Clean p ≠ [].
Proof.
  unfold Clean. destruct (rooted p); [done|]. pose proof (clean_elements_tidy p) as Hf.
  destruct (clean_elements p) as [|x l]; [done|]. apply Forall_cons in Hf as [[Hx _] _]. by destruct x.
Qed.

Lemma Join_nonempty a b : b ≠ [] → Join a b ≠ [].
Proof.
  intros Hb. unfold Join. rewrite (proj2 (beq_false _ _) Hb). destruct (beq a []); apply Clean_nonempty.
Qed.

Section Absolute.
Context (cwd : bytes) (Hcwd : rooted cwd = true).

Lemma Abs_elements p : Abs cwd p =
  reverse (fold_left (clean_step true) (Split 0x2F p)
    (if rooted p then [] else fold_left (clean_step true) (Split 0x2F cwd) [])).
Proof.
  unfold Abs, clean_elements. destruct (rooted p) eqn:Hp; [by rewrite Hp|].
  replace (rooted (cwd ++ slash :: p)) with true by (by destruct cwd).
  by rewrite Split_slash, fold_left_app.
Qed.

Lemma Abs_plain p : Forall (λ e, plain_name e = true) (Abs cwd p).
Proof.
  rewrite Abs_elements. apply Forall_reverse, plain_fold; [apply Split_no_slash|].
  destruct (rooted p); [constructor|]. apply plain_fold; [apply Split_no_slash|constructor].
Qed.

Lemma rooted_Clean p : rooted (Clean p) = rooted p.
Proof.
  unfold Clean. destruct (rooted p) eqn:Hp; [done|]. pose proof (clean_elements_tidy p) as Ht.
  destruct (clean_elements p) as [|x l]; [done|]. apply Forall_cons in Ht as [(Hx & _ & Hs) _].
  destruct x as [|c x]; [done|]. unfold no_slash in Hs. cbn in Hs |- *.
  apply andb_true_iff in Hs as [Hc _]. by apply negb_true_iff in Hc.
Qed.

(** Cleaning does not change what a path names. *)
Lemma Abs_Clean p : Abs cwd (Clean p) = Abs cwd p.
Proof.
  rewrite !Abs_elements, rooted_Clean. destruct (rooted p) eqn:Hp; [|by rewrite Clean_relative].
  f_equal. unfold Clean. rewrite Hp. change (slash :: ?x) with ([] ++ slash :: x).
  rewrite Split_slash. cbn [Split fold_left app]. change (clean_step true [] []) with (@nil bytes).
  unfold clean_elements. rewrite Hp.
  set (st := fold_left (clean_step true) (Split 0x2F p) []).
  assert (Forall (λ e, plain_name e = true) st) as Hst.
  { apply plain_fold; [apply Split_no_slash|constructor]. }
  destruct (decide (st = [])) as [->|Hne]; [done|].
  rewrite join_Split.
  - rewrite plain_push by (by apply Forall_reverse). by rewrite reverse_involutive, app_nil_r.
  - intros E. apply Hne. rewrite <-(reverse_involutive st). by rewrite E.
  - by apply Forall_reverse, plain_no_slash.
Qed.

Lemma plain_not_rooted e : plain_name e = true → rooted e = false ∧ e ≠ [].
Proof.
  unfold plain_name. rewrite !andb_true_iff, !negb_true_iff. intros [[[He _] _] Hs].
  apply beq_false in He. destruct e as [|c e]; [done|]. cbn in Hs |- *. apply andb_true_iff in Hs as [Hc _].
  by apply negb_true_iff in Hc.
Qed.

(** A file in a directory. *)
Lemma Abs_Join d e : plain_name e = true → Abs cwd (Join d e) = Abs cwd d ++ [e].
Proof.
  intros He. destruct (plain_not_rooted e He) as [Hr Hne]. unfold Join.
  rewrite (proj2 (beq_false _ _) Hne). destruct (beq d []) eqn:Hd.
  - apply beq_true in Hd as ->. rewrite Abs_Clean, !Abs_elements, Hr. cbn [rooted Split fold_left].
    rewrite Split_plain by (unfold plain_name in He; by apply andb_true_iff in He as [_ He]).
    cbn [fold_left]. rewrite plain_step by done. rewrite reverse_cons. f_equal.
  - rewrite Abs_Clean, !Abs_elements. apply beq_false in Hd.
    replace (rooted (d ++ slash :: e)) with (rooted d) by (by destruct d).
    rewrite Split_slash, fold_left_app, (Split_plain e)
      by (unfold plain_name in He; by apply andb_true_iff in He as [_ He]).
    cbn [fold_left]. by rewrite plain_step, reverse_cons.
Qed.
End Absolute.
