(* ===== verification/Config.v ===== *)
(** The configuration of both programs: internal/config/config.go and the limits
    cmd/server/main.go derives from it, and internal/adminweb/config.go. The
    environment is a function from names to values, empty where unset. *)

From S2P Require Import Prelude GoStd GoNet GoWeb GoCrypto GoForm GoUrl GoPath RateLimit ClientAddress.

#[local] Open Scope string_scope.
#[local] Open Scope Z_scope.

Abbreviation environment := (string → bytes).

(** ** The server *)

Definition defaultAddress : bytes := bs "127.0.0.1:8080".
Definition defaultDatabasePath : bytes := bs "data/syncnotifications.db".
Definition defaultShutdownTimeout : Z := 10 * Second.

(** Zero where not configured. *)
Record AbuseLimitOverrides : Type := mkOverrides {
  MembershipAttemptsPerMinute : Z;
  RotationAttemptsPerMinute : Z;
  RateLimitMaxClientBuckets : Z;
  RelayAuthAttemptsPerMinute : Z;
  RelayAuthMaxClientBuckets : Z;
  RelayAuthMaxConcurrent : Z;
  RelayAuthFrameTimeout : Z
}.

Record Config : Type := mkConfig {
  Address : bytes;
  DatabasePath : bytes;
  ShutdownTimeout : Z;
  ReadHeaderTimeout : Z;
  RequestReadTimeout : Z;
  TLSCertFile : bytes;
  TLSKeyFile : bytes;
  TrustedProxyCIDRs : list Prefix;
  AbuseLimits : AbuseLimitOverrides
}.

Definition envOrDefault (env : environment) (key : string) (fallback : bytes) : bytes :=
  if beq (env key) [] then fallback else env key.

Definition integer_text (z : Z) : string := String.string_of_list_byte (FormatInt z).

Definition parsePositiveInteger (name : string) (raw : bytes) (maximum : Z) : result Z :=
  match ParseInt raw with
  | Some value =>
      if (value <? 1) || (value >? maximum)
      then Err (New (name ++ " must be an integer from 1 through " ++ integer_text maximum))
      else Ok value
  | None => Err (New (name ++ " must be an integer from 1 through " ++ integer_text maximum))
  end.

(** A variable that keeps its default when unset. *)
Definition integer_or (env : environment) (name : string) (maximum fallback : Z) : result Z :=
  if beq (env name) [] then Ok fallback else parsePositiveInteger name (env name) maximum.

Definition seconds_or (env : environment) (name : string) (fallback : Z) : result Z :=
  if beq (env name) [] then Ok fallback
  else let? seconds := parsePositiveInteger name (env name) 86400 in Ok (seconds * Second).

Definition canonical_prefix (part : bytes) : option Prefix :=
  match ParsePrefix part with
  | Some prefix =>
      if negb (beq (Zone (prefix_addr prefix)) []) || Is4In6 (prefix_addr prefix) ||
         negb (bool_decide (prefix = Masked prefix)) || negb (beq part (PrefixString prefix))
      then None else Some prefix
  | None => None
  end.

(** [variable] names the setting in the error. *)
Fixpoint parse_prefixes (variable : string) (parts : list bytes) : result (list Prefix) :=
  match parts with
  | [] => Ok []
  | part :: rest =>
      match canonical_prefix part with
      | None => Err (New (variable ++ " must contain canonical comma-separated CIDR prefixes"))
      | Some prefix => let? l := parse_prefixes variable rest in Ok (prefix :: l)
      end
  end.

Definition parseTrustedProxyCIDRs (variable : string) (raw : bytes) : result (list Prefix) :=
  if beq raw [] then Ok [] else parse_prefixes variable (Split 0x2C raw).

Definition Load (env : environment) : result Config :=
  let? shutdown := seconds_or env "NM_SHUTDOWN_TIMEOUT_SECONDS" defaultShutdownTimeout in
  let? header := seconds_or env "NM_READ_HEADER_TIMEOUT_SECONDS" (5 * Second) in
  let? request := seconds_or env "NM_REQUEST_READ_TIMEOUT_SECONDS" (10 * Second) in
  let cert := env "NM_TLS_CERT_FILE" in
  let key := env "NM_TLS_KEY_FILE" in
  fail_if xorb (beq cert []) (beq key [])
    with_msg "NM_TLS_CERT_FILE and NM_TLS_KEY_FILE must be configured together" in
  let? proxies := parseTrustedProxyCIDRs "NM_TRUSTED_PROXY_CIDRS" (env "NM_TRUSTED_PROXY_CIDRS") in
  let? membership := integer_or env "NM_MEMBERSHIP_ATTEMPTS_PER_MINUTE" 1000000 0 in
  let? rotation := integer_or env "NM_ROTATION_ATTEMPTS_PER_MINUTE" 1000000 0 in
  let? buckets := integer_or env "NM_RATE_LIMIT_MAX_CLIENT_BUCKETS" 1000000 0 in
  let? relay := integer_or env "NM_RELAY_AUTH_ATTEMPTS_PER_MINUTE" 1000000 0 in
  let? relayBuckets := integer_or env "NM_RELAY_AUTH_MAX_CLIENT_BUCKETS" 1000000 0 in
  let? concurrent := integer_or env "NM_RELAY_AUTH_MAX_CONCURRENT" 65536 0 in
  let? timeout := seconds_or env "NM_RELAY_AUTH_FRAME_TIMEOUT_SECONDS" 0 in
  Ok (mkConfig (envOrDefault env "NM_ADDRESS" defaultAddress)
        (envOrDefault env "NM_DATABASE_PATH" defaultDatabasePath) shutdown header request cert key proxies
        (mkOverrides membership rotation buckets relay relayBuckets concurrent timeout)).

(** *** The limits of the server *)

Definition override (configured default : Z) : Z := if configured =? 0 then default else configured.

Definition configuredHTTPRateLimits (o : AbuseLimitOverrides) : RateLimits :=
  let limits := DefaultRateLimits in
  let buckets := override (RateLimitMaxClientBuckets o) in
  mkRateLimits
    (mkAttemptLimits (override (MembershipAttemptsPerMinute o) (AttemptsPerMinute (MembershipLimits limits)))
       (buckets (MaxClientBuckets (MembershipLimits limits))))
    (mkAttemptLimits (override (RotationAttemptsPerMinute o) (AttemptsPerMinute (RotationLimits limits)))
       (buckets (MaxClientBuckets (RotationLimits limits)))).

Definition configuredRelayAuthenticationLimits (o : AbuseLimitOverrides) : AuthenticationLimits :=
  let limits := DefaultAuthenticationLimits in
  mkAuthenticationLimits
    (mkAttemptLimits (override (RelayAuthAttemptsPerMinute o) (AttemptsPerMinute (AuthAttempts limits)))
       (override (RelayAuthMaxClientBuckets o) (MaxClientBuckets (AuthAttempts limits))))
    (override (RelayAuthMaxConcurrent o) (MaxConcurrent limits))
    (override (RelayAuthFrameTimeout o) (FrameTimeout limits)).

(** ** The console *)

Definition defaultAdminAddress : bytes := bs "127.0.0.1:8081".

Record RuntimeConfig : Type := mkRuntimeConfig {
  rc_Address : bytes;
  rc_ExpectedOrigin : bytes;
  rc_DatabasePath : bytes;
  rc_AuthorityKeyDirectory : bytes;
  rc_RecoveryCodeEnabled : bool;
  rc_TrustedProxyCIDRs : list Prefix;
  rc_ShutdownTimeout : Z
}.

(** [envOrDefault] of adminweb: the value without surrounding space. *)
Definition admin_envOrDefault (env : environment) (name : string) (fallback : bytes) : bytes :=
  let value := TrimSpace (env name) in if beq value [] then fallback else value.

Definition loadRecoveryCodeSwitch (env : environment) : result bool :=
  let value := lower (TrimSpace (env "NM_ADMIN_RECOVERY_CODE")) in
  if beq value [] || beq value (bs "on") then Ok true
  else if beq value (bs "off") then Ok false
  else Err (New "NM_ADMIN_RECOVERY_CODE must be on or off").

Definition exact_origin (text : bytes) : option URL :=
  match url_Parse text with
  | Some u =>
      if (beq (Scheme u) (bs "http") || beq (Scheme u) (bs "https")) && negb (beq (Host u) []) &&
         negb (bool_decide (is_Some (User u))) && beq (Path u) [] && beq (RawQuery u) [] &&
         beq (Fragment u) [] && beq (origin_String u) text
      then Some u else None
  | None => None
  end.

Definition loopback_text (text : bytes) : bool :=
  match ParseAddr text with Some a => IsLoopback a | None => false end.

Definition LoadRuntimeConfig (env : environment) : result RuntimeConfig :=
  let address := admin_envOrDefault env "NM_ADMIN_ADDRESS" defaultAdminAddress in
  match SplitHostPort address with
  | None => Err (New "NM_ADMIN_ADDRESS must contain an IP address and port")
  | Some host =>
  match ParseAddr host with
  | None => Err (New "NM_ADMIN_ADDRESS must use a loopback IP address")
  | Some ip =>
  fail_if negb (IsLoopback ip) || negb (beq (Zone ip) [])
    with_msg "NM_ADMIN_ADDRESS must use a loopback IP address" in
  let originText := admin_envOrDefault env "NM_ADMIN_ORIGIN" (bs "http://" ++ address)%list in
  match exact_origin originText with
  | None => Err (New "NM_ADMIN_ORIGIN must be an exact canonical HTTP or HTTPS origin")
  | Some origin =>
  fail_if beq (Scheme origin) (bs "http") && negb (loopback_text (Hostname origin))
    with_msg "HTTP NM_ADMIN_ORIGIN must use a loopback IP address" in
  let? recovery := loadRecoveryCodeSwitch env in
  let? proxies := parseTrustedProxyCIDRs "NM_ADMIN_TRUSTED_PROXY_CIDRS"
                    (env "NM_ADMIN_TRUSTED_PROXY_CIDRS") in
  let databasePath := admin_envOrDefault env "NM_DATABASE_PATH" defaultDatabasePath in
  Ok (mkRuntimeConfig address originText databasePath
        (admin_envOrDefault env "NM_AUTHORITY_KEY_DIR"
           (Join (filepath_Dir databasePath) (bs "authority-keys")))
        recovery proxies (10 * Second))
  end end end.

(** ** Properties *)

Lemma parsePositiveInteger_Ok name raw maximum v :
  parsePositiveInteger name raw maximum = Ok v → 1 ≤ v ≤ maximum.
Proof.
  unfold parsePositiveInteger. destruct (ParseInt raw) as [n|]; [|done].
  destruct ((n <? 1) || (n >? maximum)) eqn:E; [done|]. intros Hv. apply Ok_inj in Hv as <-.
  apply orb_false_iff in E as [E1 E2]. rewrite Z.gtb_ltb in E2. lia.
Qed.

(** A setting is its default or in range. *)
Lemma integer_or_Ok env name maximum fallback v :
  integer_or env name maximum fallback = Ok v → v = fallback ∨ 1 ≤ v ≤ maximum.
Proof.
  unfold integer_or. destruct (beq (env name) []); intros Hv.
  - left. by apply Ok_inj in Hv.
  - right. by apply parsePositiveInteger_Ok in Hv.
Qed.

Lemma seconds_or_Ok env name fallback v :
  seconds_or env name fallback = Ok v → v = fallback ∨ Second ≤ v ≤ 86400 * Second.
Proof.
  unfold seconds_or. destruct (beq (env name) []); intros Hv.
  - left. by apply Ok_inj in Hv.
  - right. apply rbind_Ok in Hv as (s & Hs & Hv). apply parsePositiveInteger_Ok in Hs.
    apply Ok_inj in Hv as <-. assert (0 < Second) by reflexivity. nia.
Qed.

(** The limits of a loaded configuration are defaults or in range. *)
Lemma override_range v default maximum :
  v = 0 ∨ 1 ≤ v ≤ maximum → 1 ≤ default ≤ maximum → 1 ≤ override v default ≤ maximum.
Proof. unfold override. destruct (Z.eqb_spec v 0); lia. Qed.

Lemma override_seconds v default :
  v = 0 ∨ Second ≤ v ≤ 86400 * Second → Second ≤ default ≤ 86400 * Second →
  Second ≤ override v default ≤ 86400 * Second.
Proof. assert (0 < Second) by reflexivity. unfold override. destruct (Z.eqb_spec v 0); lia. Qed.

(** A list of prefixes is its canonical text. *)
Lemma Split_cons sep s : ∃ x l, Split sep s = x :: l.
Proof.
  induction s as [|c s (x & l & IH)]; [by exists [], []|]. cbn [Split]. destruct (ch c sep); [by eauto|].
  rewrite IH. eauto.
Qed.

Lemma Split_join sep s : 0 ≤ sep < 256 → join [z2b sep] (Split sep s) = s.
Proof.
  intros Hsep. induction s as [|c s IH]; [done|]. cbn [Split].
  destruct (Split_cons sep s) as (x & l & Hs). rewrite Hs in *. cbn [join] in IH.
  destruct (ch c sep) eqn:E; cbn [join flat_map].
  - unfold ch in E. apply Z.eqb_eq in E. rewrite app_nil_l, <-app_assoc, IH. subst sep. by rewrite z2b_b2z.
  - by rewrite <-app_comm_cons, IH.
Qed.

Definition canonical (p : Prefix) : Prop :=
  Zone (prefix_addr p) = [] ∧ Is4In6 (prefix_addr p) = false ∧ p = Masked p ∧
  ParsePrefix (PrefixString p) = Some p.

Lemma canonical_prefix_Some part p :
  canonical_prefix part = Some p → part = PrefixString p ∧ canonical p.
Proof.
  unfold canonical_prefix, canonical. destruct (ParsePrefix part) as [q|] eqn:Hp; [|done].
  destruct (_ || _) eqn:E; [done|]. intros [= ->]. rewrite !orb_false_iff, !negb_false_iff in E.
  destruct E as [[[Ez Ei] Em] Et]. apply beq_true in Ez, Et. apply bool_decide_eq_true in Em.
  rewrite <-Et. done.
Qed.

Lemma parse_prefixes_Ok variable parts l :
  parse_prefixes variable parts = Ok l → parts = PrefixString <$> l ∧ Forall canonical l.
Proof.
  revert l. induction parts as [|part parts IH]; intros l; cbn [parse_prefixes].
  { intros Hl. by apply Ok_inj in Hl as <-. }
  destruct (canonical_prefix part) as [p|] eqn:Hp; [|done]. intros Hl.
  apply rbind_Ok in Hl as (l' & Hl' & Hl). apply Ok_inj in Hl as <-.
  apply canonical_prefix_Some in Hp as [-> Hp]. destruct (IH l' Hl') as [-> Hf]. split; [done|by constructor].
Qed.

(** The trusted proxies are canonical prefixes, and the setting is their text. *)
Lemma parseTrustedProxyCIDRs_Ok variable raw l :
  parseTrustedProxyCIDRs variable raw = Ok l →
  raw = join [z2b 0x2C] (PrefixString <$> l) ∧ Forall canonical l.
Proof.
  unfold parseTrustedProxyCIDRs. destruct (beq raw []) eqn:E.
  - apply beq_true in E as ->. intros Hl. by apply Ok_inj in Hl as <-.
  - intros Hl. apply parse_prefixes_Ok in Hl as [Hs Hf]. split; [|done].
    rewrite <-Hs. by rewrite Split_join.
Qed.

(** What a loaded configuration is. *)
Lemma Load_Ok env cfg :
  Load env = Ok cfg →
  let o := AbuseLimits cfg in
  (∀ v, v ∈ [MembershipAttemptsPerMinute o; RotationAttemptsPerMinute o; RateLimitMaxClientBuckets o;
             RelayAuthAttemptsPerMinute o; RelayAuthMaxClientBuckets o] → v = 0 ∨ 1 ≤ v ≤ 1000000) ∧
  (RelayAuthMaxConcurrent o = 0 ∨ 1 ≤ RelayAuthMaxConcurrent o ≤ 65536) ∧
  (RelayAuthFrameTimeout o = 0 ∨ Second ≤ RelayAuthFrameTimeout o ≤ 86400 * Second) ∧
  (∀ t, t ∈ [ShutdownTimeout cfg; ReadHeaderTimeout cfg; RequestReadTimeout cfg] →
     Second ≤ t ≤ 86400 * Second) ∧
  (TLSCertFile cfg = [] ↔ TLSKeyFile cfg = []) ∧
  env "NM_TRUSTED_PROXY_CIDRS" = join [z2b 0x2C] (PrefixString <$> TrustedProxyCIDRs cfg) ∧
  Forall canonical (TrustedProxyCIDRs cfg).
Proof.
  unfold Load. intros Hl.
  apply rbind_Ok in Hl as (shutdown & H1 & Hl). apply rbind_Ok in Hl as (header & H2 & Hl).
  apply rbind_Ok in Hl as (request & H3 & Hl). cbv zeta in Hl. apply fail_if_Ok in Hl as [Htls Hl].
  apply rbind_Ok in Hl as (proxies & Hp & Hl).
  do 6 (let v := fresh "v" in let Hv := fresh "Hv" in apply rbind_Ok in Hl as (v & Hv & Hl);
        apply integer_or_Ok in Hv).
  apply rbind_Ok in Hl as (timeout & Ht & Hl). apply Ok_inj in Hl as <-.
  apply seconds_or_Ok in H1, H2, H3, Ht. apply parseTrustedProxyCIDRs_Ok in Hp as [Hp Hf]. cbn.
  assert (0 < Second) by reflexivity. unfold defaultShutdownTimeout in H1.
  split_and!; try done.
  - intros x Hx. rewrite !elem_of_cons, elem_of_nil in Hx. destruct_or! Hx; subst; done.
  - intros x Hx. rewrite !elem_of_cons, elem_of_nil in Hx. destruct_or! Hx; subst; lia.
  - destruct (env "NM_TLS_CERT_FILE"), (env "NM_TLS_KEY_FILE"); done.
Qed.
