(* ===== verification/Interleave.v ===== *)
(** Programs of atomic actions on a shared state, and their interleavings.

    A handler that takes locks is a program: each critical section, and each
    transaction on the database, is one action, and between two of them anything
    else may happen. *)

From S2P Require Import Prelude.

(** [Atomic f k] changes the state [w] to [f w] and goes on with [k w]. *)
Inductive prog (W A : Type) : Type :=
| Ret (a : A)
| Atomic (f : W → W) (k : W → prog W A).
Arguments Ret {W A} _.
Arguments Atomic {W A} _ _.

Fixpoint pbind {W A B} (p : prog W A) (next : A → prog W B) : prog W B :=
  match p with
  | Ret a => next a
  | Atomic f k => Atomic f (λ w, pbind (k w) next)
  end.

Declare Scope prog_scope.
Delimit Scope prog_scope with prog.
Notation "'let!' x ':=' p 'in' k" := (pbind p (λ x, k))
  (at level 200, x pattern, k at level 200) : prog_scope.

(** One action. *)
Definition act {W A} (f : W → W * A) : prog W A := Atomic (λ w, (f w).1) (λ w, Ret (f w).2).
Definition reads {W A} (f : W → A) : prog W A := Atomic id (λ w, Ret (f w)).

(** Without interference. *)
Fixpoint run_prog {W A} (p : prog W A) (w : W) : W * A :=
  match p with
  | Ret a => (w, a)
  | Atomic f k => run_prog (k w) (f w)
  end.

Lemma run_bind {W A B} (p : prog W A) (next : A → prog W B) w w' a :
  run_prog p w = (w', a) → run_prog (pbind p next) w = run_prog (next a) w'.
Proof.
  revert w. induction p as [b|f k IH]; intros w; cbn [pbind run_prog]; [by intros [= -> ->]|]. apply IH.
Qed.

(** On a component of a larger state. *)
Fixpoint lift {V W A} (get : W → V) (set : V → W → W) (p : prog V A) : prog W A :=
  match p with
  | Ret a => Ret a
  | Atomic f k => Atomic (λ w, set (f (get w)) w) (λ w, lift get set (k (get w)))
  end.

(** ** Specifications

    From any state with the invariant [I], reached however between the actions,
    every action keeps [I] and is a step of [G]; the result satisfies [Q]. *)
Fixpoint obeys {W A} (I : W → Prop) (G : W → W → Prop) (Q : A → Prop) (p : prog W A) : Prop :=
  match p with
  | Ret a => Q a
  | Atomic f k => ∀ w, I w → I (f w) ∧ G w (f w) ∧ obeys I G Q (k w)
  end.

Section Rules.
Context {W : Type} (I : W → Prop) (G : W → W → Prop).

Lemma obeys_bind {A B} (p : prog W A) (next : A → prog W B) Q R :
  obeys I G Q p → (∀ a, Q a → obeys I G R (next a)) → obeys I G R (pbind p next).
Proof.
  intros Hp Hk. induction p as [a|f k IH]; cbn [pbind obeys] in *; [by apply Hk|].
  intros w Hw. destruct (Hp w Hw) as (H1 & H2 & H3). auto.
Qed.

Lemma obeys_act {A} (f : W → W * A) (Q : A → Prop) :
  (∀ w, I w → I (f w).1 ∧ G w (f w).1 ∧ Q (f w).2) → obeys I G Q (act f).
Proof. intros Hf w Hw. exact (Hf w Hw). Qed.

Lemma obeys_mono {A} (p : prog W A) (Q R : A → Prop) :
  (∀ a, Q a → R a) → obeys I G Q p → obeys I G R p.
Proof.
  intros HQ. induction p as [a|f k IH]; cbn [obeys]; [apply HQ|]. intros Hp w Hw.
  destruct (Hp w Hw) as (H1 & H2 & H3). auto.
Qed.

Lemma obeys_lift {V A} (get : W → V) (set : V → W → W) (J : V → Prop) (H : V → V → Prop)
  (p : prog V A) Q :
  (∀ w, I w → J (get w)) →
  (∀ w v, I w → J v → H (get w) v → I (set v w) ∧ G w (set v w)) →
  obeys J H Q p → obeys I G Q (lift get set p).
Proof.
  intros HJ Hset. induction p as [a|f k IH]; cbn [lift obeys]; [done|]. intros Hp w Hw.
  destruct (Hp (get w) (HJ w Hw)) as (H1 & H2 & H3).
  destruct (Hset w _ Hw H1 H2) as [? ?]. auto.
Qed.

Context `{!Reflexive G}.

Lemma obeys_reads {A} (f : W → A) (Q : A → Prop) :
  (∀ w, I w → Q (f w)) → obeys I G Q (reads f).
Proof. intros Hf w Hw. unfold id. split_and!; [exact Hw|reflexivity|exact (Hf w Hw)]. Qed.
End Rules.

(** A program run alone. *)
Lemma obeys_run {W A} (I : W → Prop) (G : W → W → Prop) (Q : A → Prop) p w :
  Reflexive G → Transitive G → I w → obeys I G Q p →
  I (run_prog p w).1 ∧ G w (run_prog p w).1 ∧ Q (run_prog p w).2.
Proof.
  intros HR HT. revert w. induction p as [a|f k IH]; intros w Hw Hp; cbn [run_prog obeys] in *.
  { by split_and!. }
  destruct (Hp w Hw) as (H1 & H2 & H3). destruct (IH w (f w) H1 H3) as (? & ? & ?).
  split_and!; [done| |done]. by transitivity (f w).
Qed.

(** ** Interleavings

    Programs are started one after another, and then take their actions in any
    order; the environment, here the other processes on the database and the
    clock, acts in between. *)
Section Pool.
Context {W A : Type} (starts : prog W A → Prop) (env : W → W → Prop).

Inductive pstep : W * list (prog W A) → W * list (prog W A) → Prop :=
| P_start w l p : starts p → pstep (w, l) (w, (l ++ [p])%list)
| P_env w w' l : env w w' → pstep (w, l) (w', l)
| P_act w l i f k : l !! i = Some (Atomic f k) → pstep (w, l) (f w, <[i := k w]> l).

Definition psteps := rtc pstep.

(** Rely-guarantee: what every program and the environment obey holds of every
    interleaving. *)
Lemma pool_obeys I G :
  (∀ p, starts p → obeys I G (λ _, True) p) →
  (∀ w w', I w → env w w' → I w' ∧ G w w') →
  Reflexive G → Transitive G →
  ∀ w l w' l', psteps (w, l) (w', l') → I w → Forall (obeys I G (λ _, True)) l →
    I w' ∧ G w w' ∧ Forall (obeys I G (λ _, True)) l'.
Proof.
  intros Hs He HR HT w l w' l' Hsteps.
  remember (w, l) as s eqn:Es. remember (w', l') as s' eqn:Es'. revert w l Es.
  induction Hsteps as [s|s [w1 l1] s' Hstep _ IH]; intros w l -> Hw Hl.
  { injection Es' as <- <-. by split_and!. }
  enough (I w1 ∧ G w w1 ∧ Forall (obeys I G (λ _, True)) l1) as (H1 & H2 & H3).
  { destruct (IH Es' w1 l1 eq_refl H1 H3) as (? & ? & ?). split_and!; [done| |done].
    by transitivity w1. }
  inversion Hstep as [x y p Hp|x x' y Hx|x y i f k Hi]; simplify_eq.
  - split_and!; [done|done|]. apply Forall_app. split; [done|]. constructor; [by apply Hs|constructor].
  - destruct (He _ _ Hw Hx). by split_and!.
  - pose proof (Forall_lookup_1 _ _ _ _ Hl Hi) as Hf. destruct (Hf w Hw) as (? & ? & ?).
    split_and!; [done|done|]. by apply Forall_insert.
Qed.
End Pool.

(** ** Resources

    [q] counts units of a resource that programs acquire and release. A program
    that holds [n] units, never outside 0 to 1, returns them before it ends. *)
Fixpoint accounts {W A} (q : W → Z) (n : Z) (p : prog W A) : Prop :=
  0 ≤ n ≤ 1 ∧
  match p with
  | Ret _ => n = 0
  | Atomic f k => ∀ w, accounts q (n + q (f w) - q w) (k w)
  end.

Definition zsum (l : list Z) : Z := foldr Z.add 0 l.

Lemma zsum_insert l (i : nat) n m : l !! i = Some n → zsum (<[i := m]> l) = zsum l - n + m.
Proof.
  unfold zsum. revert i. induction l as [|x l IH]; intros [|i] Hi; try done; cbn in Hi.
  - injection Hi as ->. cbn. lia.
  - change (foldr Z.add 0 (x :: <[i := m]> l) = foldr Z.add 0 (x :: l) - n + m). cbn [foldr].
    rewrite (IH i Hi). lia.
Qed.

Lemma zsum_snoc l n : zsum (l ++ [n]) = zsum l + n.
Proof. unfold zsum. induction l as [|x l IH]; cbn; [lia|]. rewrite IH. lia. Qed.

Definition finished {W A} (p : prog W A) : bool := match p with Ret _ => true | _ => false end.

Section Accounting.
Context {W A : Type} (q : W → Z) (starts : prog W A → Prop) (env : W → W → Prop).
Context (Hstart : ∀ p, starts p → accounts q 0 p) (Henv : ∀ w w', env w w' → q w' = q w).

Lemma accounts_range n (p : prog W A) : accounts q n p → 0 ≤ n ≤ 1.
Proof. by destruct p; intros [? _]. Qed.

(** The units in use are those that running programs hold. *)
Lemma pool_accounts w l w' l' :
  psteps starts env (w, l) (w', l') → ∀ ns, Forall2 (accounts q) ns l → q w = zsum ns →
  ∃ ns', Forall2 (accounts q) ns' l' ∧ q w' = zsum ns'.
Proof.
  intros Hsteps. remember (w, l) as s eqn:Es. remember (w', l') as s' eqn:Es'. revert w l Es.
  induction Hsteps as [s|s [w1 l1] s' Hstep _ IH]; intros w l -> ns Hns Hq.
  { injection Es' as <- <-. by exists ns. }
  enough (∃ ns1, Forall2 (accounts q) ns1 l1 ∧ q w1 = zsum ns1) as (ns1 & H1 & H2)
    by exact (IH Es' w1 l1 eq_refl ns1 H1 H2).
  inversion Hstep as [x y p Hp|x x' y Hx|x y i f k Hi]; simplify_eq.
  - exists (ns ++ [0]). rewrite zsum_snoc. split; [|lia]. apply Forall2_app; [done|]. auto.
  - exists ns. split; [done|]. by rewrite (Henv _ _ Hx).
  - destruct (Forall2_lookup_r _ _ _ _ _ Hns Hi) as (n & Hn & _ & Ha).
    exists (<[i := n + q (f w) - q w]> ns). split; [by apply Forall2_insert|].
    rewrite (zsum_insert _ _ _ _ Hn). lia.
Qed.

Lemma zsum_accounts ns (l : list (prog W A)) :
  Forall2 (accounts q) ns l →
  0 ≤ zsum ns ≤ Z.of_nat (length (List.filter (λ p, negb (finished p)) l)).
Proof.
  unfold zsum. induction 1 as [|n p ns l Hn _ IH]; cbn; [lia|]. pose proof (accounts_range _ _ Hn).
  destruct p as [a|f k]; cbn; [|lia]. destruct Hn as [_ ->]. lia.
Qed.
End Accounting.

(** ** Causes

    Every result of [p] that satisfies [good] was decided by an action, taken in a
    state that justifies it. *)
Inductive returns {W A} : prog W A → A → Prop :=
| returns_ret a : returns (Ret a) a
| returns_act f k w a : returns (k w) a → returns (Atomic f k) a.

Fixpoint caused {W A} (good : A → Prop) (J : W → A → Prop) (p : prog W A) : Prop :=
  match p with
  | Ret a => ¬ good a
  | Atomic f k => ∀ w, caused good J (k w) ∨ ∀ a, returns (k w) a → good a → J w a
  end.

(** The first action of a program, and what is left to do after it. *)
Definition first_action {W A} (p : prog W A) (w : W) : W :=
  match p with Ret _ => w | Atomic f _ => f w end.
Definition remaining {W A} (p : prog W A) (w : W) : prog W A :=
  match p with Ret _ => p | Atomic _ k => k w end.

Lemma first_action_bind {W A B} (p : prog W A) (next : A → prog W B) f k w :
  p = Atomic f k → first_action (pbind p next) w = f w ∧ remaining (pbind p next) w = pbind (k w) next.
Proof. by intros ->. Qed.

(** ** Schedules *)

(** A schedule to execute: programs to start and to advance. *)
Inductive command (W A : Type) : Type :=
| Start (p : prog W A)
| Advance (i : nat).
Arguments Start {W A} _.
Arguments Advance {W A} _.

Definition command_step {W A} (s : W * list (prog W A)) (c : command W A) : W * list (prog W A) :=
  match c with
  | Start p => (s.1, (s.2 ++ [p])%list)
  | Advance i =>
      match s.2 !! i with
      | Some (Atomic f k) => (f s.1, <[i := k s.1]> s.2)
      | _ => s
      end
  end.
Definition schedule {W A} (l : list (command W A)) (s : W * list (prog W A)) := foldl command_step s l.

Lemma schedule_steps {W A} (starts : prog W A → Prop) env (l : list (command W A)) s :
  Forall (λ c, match c with Start p => starts p | Advance _ => True end) l →
  psteps starts env s (schedule l s).
Proof.
  intros Hl. revert s. induction Hl as [|c l Hc _ IH]; intros s; [by apply rtc_refl|].
  unfold schedule. cbn [foldl]. fold (schedule l (command_step s c)).
  transitivity (command_step s c); [|apply IH]. destruct s as [w ps]. destruct c as [p|i]; cbn.
  - apply rtc_once. by constructor.
  - destruct (ps !! i) as [[a|f k]|] eqn:E; [done| |done]. apply rtc_once.
    exact (P_act _ _ w ps i f k E).
Qed.
