(* ===== verification/RelayHandshake.v ===== *)
(** internal/relay/authenticated_handler.go: from an HTTP request to an
    authenticated session. A handshake is a program over the shared state of the
    handler: the attempt limiter, the authentication slots, the authenticator and
    the registry. The WebSocket upgrade itself (gorilla/websocket) and what the
    peer sends are part of the request; the session that follows is in [Session]. *)

From S2P Require Import Prelude GoStd GoNet GoWeb GoForm GoUrl RateLimit ClientAddress Hub Session.
From S2P Require Import DeliveryStore MembershipCodec WireModel Schema Admission MembershipStore StoreSteps.
From S2P Require Import StoreExamples RelayAccess.
From S2P Require Import Interleave.

#[local] Open Scope string_scope.
#[local] Open Scope Z_scope.
#[local] Open Scope prog_scope.

(** ** State *)

Record RelayHandler : Type := mkRelayHandler {
  rh_MaxConcurrent : Z;
  rh_authTimeout : Z
}.

Record relay_world : Type := mkRelayWorld {
  rw_db : DB;
  rw_now : Z;
  rw_auth : Authenticator;
  rw_attempts : clientRateLimiter;
  rw_slots : Z
}.

#[export] Hint Extern 0 (@Update relay_world _ ?proj) =>
  derive_update (λ r, mkRelayWorld (rw_db r) (rw_now r) (rw_auth r) (rw_attempts r) (rw_slots r)) proj
  : typeclass_instances.

(** The first message of the peer; [Silent]: an error, or nothing in time. *)
Inductive FirstMessage : Type :=
| Silent
| Message (binary : bool) (data : bytes).

(** [hq_Upgradable]: the upgrade succeeds if the origin is permitted. *)
Record HandshakeRequest : Type := mkHandshakeRequest {
  hq_Method : string;
  hq_Client : ClientInfo;
  hq_Origin : bytes;
  hq_Upgradable : bool;
  hq_First : FirstMessage
}.

Inductive HandshakeResult : Type :=
| Refused (status : Z) (headers : list (string * string)) (msg : string)
| UpgradeFailed
| PolicyViolation (reason : string)
| SessionOpened (peer : PeerIdentity) (credentialVersion : Z).

(** ** Operations *)

Definition permittedWebSocketOrigin (origin : bytes) : bool :=
  if beq origin [] then true
  else match url_Parse origin with
       | Some parsed => beq (Scheme parsed) (bs "chrome-extension") && negb (beq (Host parsed) [])
       | None => false
       end.

Definition NewAuthenticatedWebSocketHandler (clientAddresses : Resolver) (limits : AuthenticationLimits)
  : result (RelayHandler * clientRateLimiter) :=
  let? _ := validateAuthenticationLimits limits in
  match newClientRateLimiter clientAddresses (AuthAttempts limits) with
  | Some attempts => Ok (mkRelayHandler (MaxConcurrent limits) (FrameTimeout limits), attempts)
  | None => Err (New "panic")
  end.

Definition read_first (m : FirstMessage) : result (PeerIdentity * bytes) :=
  match m with
  | Silent => Err (New "read")
  | Message binary data => readAuthenticationFrame binary data
  end.

Definition writeGenericClose : HandshakeResult := PolicyViolation "authentication failed".

Section Handshake.
Context (h : RelayHandler).

Definition attempt (r : HandshakeRequest) : prog relay_world (result bool) :=
  act (λ w, let '(ok, l) := allow (rw_attempts w) (hq_Client r) (rw_now w) in
            (w <| rw_attempts := l |>, ok)).

(** The non-blocking send on the slot channel, and the receive. *)
Definition acquire : prog relay_world bool :=
  act (λ w, if rw_slots w <? rh_MaxConcurrent h then (w <| rw_slots := rw_slots w + 1 |>, true)
            else (w, false)).
Definition release : prog relay_world unit :=
  act (λ w, (w <| rw_slots := rw_slots w - 1 |>, tt)).

Definition authenticate_peer (peer : PeerIdentity) (token : bytes) : prog relay_world (result Z) :=
  act (λ w, let '(v, a, db) := AuthenticateConnection peer token (rw_now w) (rw_auth w) (rw_db w) in
            (w <| rw_auth := a |> <| rw_db := db |>, v)).

(** The deferred release of the slot, then the result. *)
Definition release_with (out : HandshakeResult) : prog relay_world HandshakeResult :=
  let! _ := release in Ret out.

Definition handshake (r : HandshakeRequest) : prog relay_world HandshakeResult :=
  if negb (String.eqb (hq_Method r) "GET") then
    Ret (Refused 405 [("Allow", "GET")] "method not allowed")
  else
    let! allowed := attempt r in
    match allowed with
    | Err _ => Ret (Refused 400 [] "invalid client address")
    | Ok false => Ret (Refused 429 [("Retry-After", "60")] "too many connection attempts")
    | Ok true =>
        let! slot := acquire in
        if negb slot then Ret (Refused 503 [] "authentication capacity unavailable")
        else if negb (hq_Upgradable r && permittedWebSocketOrigin (hq_Origin r)) then
          release_with UpgradeFailed
        else match read_first (hq_First r) with
        | Err _ => release_with writeGenericClose
        | Ok (peer, token) =>
            let! version := authenticate_peer peer token in
            match authenticated version with
            | None => release_with writeGenericClose
            | Some version => release_with (SessionOpened peer version)
            end
        end
    end.
End Handshake.

(** ** The end of a session, for the log *)

Inductive EndError : Type :=
| EndErr (e : error)
| EndNet (timeout : bool)
| EndEOF
| EndClose (code : Z).

Definition CloseNormalClosure : Z := 1000.
Definition CloseGoingAway : Z := 1001.

Definition is_err (target : error) (e : EndError) : bool :=
  match e with EndErr e => errors_Is e target | _ => false end.

Definition relaySessionEndReason (e : option EndError) : string :=
  match e with
  | None => "completed"
  | Some e =>
      if is_err ErrAlreadyConnected e then "already_connected"
      else if is_err ErrStaleCredential e then "stale_credential"
      else if is_err ErrHandoverTimeout e then "handover_timeout"
      else if is_err ErrSessionSuperseded e then "superseded"
      else if is_err ErrDeviceDisconnected e then "authorization_revoked"
      else if is_err ErrCanceled e then "canceled"
      else match e with
           | EndNet true => "timeout"
           | EndEOF => "peer_closed"
           | EndClose code => if (code =? CloseNormalClosure) || (code =? CloseGoingAway)
                              then "peer_closed" else "transport_error"
           | _ => "transport_error"
           end
  end.

(** ** Origins *)

(** Web pages are refused. *)
Lemma scheme_of_prefix s c rest seen all i :
  forallb (λ c, in_range 0x61 0x7A c || in_range 0x41 0x5A c) s = true →
  scheme_of i seen (s ++ c :: rest)%list all =
  scheme_of (i + length s) (seen ++ s)%list (c :: rest)%list all.
Proof.
  revert i seen. induction s as [|x s IH]; intros i seen Hs.
  { by rewrite Nat.add_0_r, app_nil_r. }
  cbn [forallb] in Hs. apply andb_true_iff in Hs as [Hx Hs]. cbn [app scheme_of]. rewrite Hx.
  rewrite IH by done. rewrite <-app_assoc. cbn [app length].
  by rewrite Nat.add_succ_r.
Qed.

Lemma cut_app v s rest :
  forallb (λ c, negb (ch c v)) s = true → cut v (s ++ rest)%list = ((s ++ (cut v rest).1)%list, (cut v rest).2).
Proof.
  induction s as [|c s IH]; cbn [forallb app cut]; [by destruct (cut v rest)|].
  rewrite andb_true_iff, negb_true_iff. intros [-> Hs]. by rewrite IH.
Qed.

Lemma forallb_impl {A} (P Q : A → bool) l :
  (∀ x, P x = true → Q x = true) → forallb P l = true → forallb Q l = true.
Proof. rewrite !forallb_forall. eauto. Qed.

(** The scheme of a parsed URL. *)
Lemma parse_url_scheme raw fragment scheme rest u :
  getScheme raw = Some (scheme, rest) → raw ≠ bs "*" → parse_url raw fragment = Some u →
  Scheme u = lower scheme.
Proof.
  intros Hg Hr Hp. unfold parse_url in Hp. destruct (existsb _ _); [done|].
  rewrite (proj2 (beq_false _ _) Hr) in Hp. apply bind_Some in Hp as ([s' r'] & Hgs & Hp).
  rewrite Hg in Hgs. injection Hgs as <- <-. cbv zeta in Hp.
  match type of Hp with context [match ?x with _ => _ end] => destruct x as [[force rest'] query] end.
  destruct (_ && _); [by injection Hp as <-|]. destruct (_ && _); [done|].
  apply bind_Some in Hp as ([[user host] path] & _ & Hp). apply bind_Some in Hp as (path' & _ & Hp).
  by injection Hp as <-.
Qed.

Definition lower_letter (c : byte) : bool := in_range 0x61 0x7A c.

Lemma letter_not v c : (v <? 0x61) || (0x7A <? v) = true → lower_letter c = true → ch c v = false.
Proof.
  unfold lower_letter, in_range, ch. rewrite orb_true_iff, andb_true_iff, Z.eqb_neq, !Z.ltb_lt, !Z.leb_le. lia.
Qed.

(** The scheme is what precedes the first colon. *)
Lemma url_scheme s rest u :
  forallb lower_letter s = true → s ≠ [] →
  url_Parse (s ++ z2b 0x3A :: rest)%list = Some u → Scheme u = lower s.
Proof.
  intros Hs Hne. unfold url_Parse. rewrite cut_app.
  2: { eapply forallb_impl; [|exact Hs]. intros c Hc. by rewrite (letter_not 0x23 c). }
  assert (∃ r, (cut 0x23 (z2b 0x3A :: rest)).1 = z2b 0x3A :: r) as [r ->].
  { cbn [cut]. change (ch (z2b 0x3A) 0x23) with false. cbv iota. destruct (cut 0x23 rest). by eexists. }
  destruct (unescape _ _) as [fragment|]; [|done]. cbn [mbind option_bind].
  apply (parse_url_scheme _ _ s r).
  - unfold getScheme. rewrite scheme_of_prefix.
    2: { eapply forallb_impl; [|exact Hs]. intros c Hc. unfold lower_letter in Hc. by rewrite Hc. }
    destruct s as [|c s]; [done|]. reflexivity.
  - destruct s as [|c s]; [done|]. intros [= -> _]. done.
Qed.

(** Browser pages cannot open a session: an origin with another scheme than an
    extension's is refused. *)
Lemma web_origin_refused s rest :
  forallb lower_letter s = true → s ≠ [] → lower s ≠ bs "chrome-extension" →
  permittedWebSocketOrigin (s ++ z2b 0x3A :: rest)%list = false.
Proof.
  intros Hs Hne Hl. unfold permittedWebSocketOrigin. rewrite (proj2 (beq_false _ _)) by (by destruct s).
  destruct (url_Parse _) as [u|] eqn:Hu; [|done]. rewrite (url_scheme s rest u Hs Hne Hu).
  by rewrite (proj2 (beq_false _ _) Hl).
Qed.

(** Text without the byte [v]. *)
Lemma cut_none v s : forallb (λ c, negb (ch c v)) s = true → cut v s = (s, None).
Proof. intros Hs. pose proof (cut_app v s [] Hs) as Hc. rewrite app_nil_r in Hc. rewrite Hc. cbn. by rewrite app_nil_r. Qed.

Lemma cut_last_none v s : forallb (λ c, negb (ch c v)) s = true → cut_last v s = None.
Proof.
  induction s as [|c s IH]; [done|]. cbn [forallb cut_last]. rewrite andb_true_iff, negb_true_iff.
  intros [Hc Hs]. by rewrite (IH Hs), Hc.
Qed.

Lemma unescape_plain s : forallb lower_letter s = true → unescape EncHost s = Some s.
Proof.
  induction s as [|c s IH]; [done|]. cbn [forallb unescape]. rewrite andb_true_iff. intros [Hc Hs].
  rewrite (letter_not 0x25 c) by done. rewrite (IH Hs). cbn [fmap option_fmap option_map].
  assert (host_byte c = true) as Hh.
  { unfold host_byte, unreserved, is_alnum. unfold lower_letter in Hc. by rewrite Hc. }
  by rewrite Hh, andb_false_r.
Qed.

Lemma letters_without v s :
  (v <? 0x61) || (0x7A <? v) = true → forallb lower_letter s = true → forallb (λ c, negb (ch c v)) s = true.
Proof. intros Hv. apply forallb_impl. intros c Hc. by rewrite (letter_not v c). Qed.

(** The browser extension is admitted. *)
Lemma extension_origin_permitted id :
  forallb lower_letter id = true → id ≠ [] →
  permittedWebSocketOrigin (bs "chrome-extension://" ++ id)%list = true.
Proof.
  intros Hid Hne. unfold permittedWebSocketOrigin. rewrite (proj2 (beq_false _ _)) by done.
  unfold url_Parse. rewrite cut_none.
  2: { rewrite forallb_app, andb_true_iff. split; [reflexivity|]. by apply letters_without. }
  cbn [default]. change (unescape EncOther (default [] None)) with (Some ([] : bytes)).
  cbn [mbind option_bind]. unfold parse_url. rewrite existsb_app.
  replace (existsb _ id) with false.
  2: { symmetry. apply not_true_iff_false. rewrite existsb_exists. intros (c & Hc & Hx).
       rewrite forallb_forall in Hid. specialize (Hid c Hc). unfold lower_letter, in_range, ch in *.
       rewrite andb_true_iff, !Z.leb_le in Hid. rewrite orb_true_iff, Z.ltb_lt, Z.eqb_eq in Hx. lia. }
  cbn [orb]. rewrite (proj2 (beq_false _ _)) by done.
  change (existsb _ (bs "chrome-extension://")) with false. cbn [orb].
  change (getScheme (bs "chrome-extension://" ++ id)%list)
    with (Some (bs "chrome-extension", (bs "//" ++ id)%list)). cbn [mbind option_bind].
  assert (forallb (λ c, negb (ch c 0x3F)) (bs "//" ++ id)%list = true) as Hq.
  { rewrite forallb_app, andb_true_iff. split; [reflexivity|]. by apply letters_without. }
  assert (count_byte 0x3F (bs "//" ++ id)%list = 0%nat) as ->.
  { unfold count_byte. revert Hq. generalize (bs "//" ++ id)%list. clear. intros l.
    induction l as [|c l IH]; [done|]. cbn [forallb List.filter]. rewrite andb_true_iff, negb_true_iff.
    intros [-> Hl]. by apply IH. }
  rewrite andb_false_r, (cut_none _ _ Hq). cbn [default].
  change (HasPrefix (bs "//" ++ id)%list (bs "/")) with true.
  change (HasPrefix (bs "//" ++ id)%list (bs "//")) with true. cbn [negb andb].
  change (drop 2 (bs "//" ++ id)%list) with id.
  change (beq (lower (bs "chrome-extension")) []) with false. cbn [negb orb andb].
  rewrite (cut_none 0x2F id) by (by apply letters_without). unfold parseAuthority.
  rewrite (cut_last_none 0x40 id) by (by apply letters_without). unfold parseHost, from_last.
  rewrite (cut_last_none 0x5B id), (cut_last_none 0x3A id) by (by apply letters_without).
  cbn [validOptionalPort negb]. rewrite (unescape_plain id Hid).
  cbn [mbind option_bind fst snd unescape Scheme Host]. by rewrite (proj2 (beq_false _ _) Hne).
Qed.

(** ** Slots *)

Lemma accounts_act {W A B} (q : W → Z) n (f : W → W * A) (next : A → prog W B) :
  0 ≤ n ≤ 1 → (∀ w, accounts q (n + q (f w).1 - q w) (next (f w).2)) →
  accounts q n (pbind (act f) next).
Proof. intros Hn Hf. split; [exact Hn|exact Hf]. Qed.

Lemma release_accounts n out : n = 1 → accounts rw_slots n (release_with out).
Proof. intros ->. split; [lia|]. intros w. cbn. split; lia. Qed.

Section Slots.
Context (h : RelayHandler).

Lemma handshake_accounts r : accounts rw_slots 0 (handshake h r).
Proof.
  unfold handshake. destruct (negb _); [by split|]. apply accounts_act; [lia|]. intros w.
  destruct (allow (rw_attempts w) (hq_Client r) (rw_now w)) as [ok l]. cbn [fst snd rw_slots upd].
  rewrite Z.add_0_l, Z.sub_diag. destruct ok as [[]|e]; [|by split..].
  apply accounts_act; [lia|]. clear w. intros w.
  destruct (rw_slots w <? rh_MaxConcurrent h); cbn [fst snd rw_slots upd negb]; cycle 1.
  { rewrite Z.add_0_l, Z.sub_diag. by split. }
  replace (0 + (rw_slots w + 1) - rw_slots w) with 1 by lia.
  destruct (negb _); [by apply release_accounts|].
  destruct (read_first (hq_First r)) as [[peer token]|e]; [|by apply release_accounts].
  apply accounts_act; [lia|]. clear w. intros w.
  destruct (AuthenticateConnection _ _ _ _ _) as [[v a] db]. cbn [fst snd rw_slots upd].
  destruct (authenticated v); apply release_accounts; lia.
Qed.

(** Sessions and other processes use the registry and the authenticator. *)
Definition relay_elsewhere (w w' : relay_world) : Prop :=
  ∃ db t a, w' = w <| rw_db := db |> <| rw_now := t |> <| rw_auth := a |>.

Definition is_handshake (p : prog relay_world HandshakeResult) : Prop := ∃ r, p = handshake h r.
Definition relay_runs := psteps is_handshake relay_elsewhere.

Definition within_capacity (w : relay_world) : Prop := rw_slots w ≤ rh_MaxConcurrent h.

Definition anything (w w' : relay_world) : Prop := True.

Lemma release_obeys out : obeys within_capacity anything (λ _, True) (release_with out).
Proof. intros w Hw. split_and!; [unfold within_capacity in *; cbn; lia|done|done]. Qed.

Lemma handshake_obeys r : obeys within_capacity anything (λ _, True) (handshake h r).
Proof.
  unfold handshake. destruct (negb _); [done|].
  eapply (obeys_bind _ _ _ _ (λ _, True)).
  { apply obeys_act. intros w Hw. by destruct (allow _ _ _). }
  intros [[]|e] _; [|done..]. eapply (obeys_bind _ _ _ _ (λ _, True)).
  { apply obeys_act. intros w Hw. destruct (rw_slots w <? rh_MaxConcurrent h) eqn:E; [|done].
    split_and!; [unfold within_capacity; cbn; lia|done|done]. }
  intros [] _; [|done]. cbn [negb]. destruct (negb _); [by apply release_obeys|].
  destruct (read_first (hq_First r)) as [[peer token]|e]; [|by apply release_obeys].
  eapply (obeys_bind _ _ _ _ (λ _, True)).
  { apply obeys_act. intros w Hw. by destruct (AuthenticateConnection _ _ _ _ _) as [[v a] db]. }
  intros v _. destruct (authenticated v); apply release_obeys.
Qed.

(** C34: authentication slots are neither exceeded nor leaked. In every
    interleaving of handshakes, however each of them ends: the slots in use are
    at most the configured number and at most the handshakes in progress, so once
    all handshakes have ended every slot is free; and a handshake is refused for
    want of capacity only while that many are in progress. *)
Theorem auth_slots_accounted w0 w l :
  rw_slots w0 = 0 → 0 ≤ rh_MaxConcurrent h → relay_runs (w0, []) (w, l) →
  let busy := Z.of_nat (length (List.filter (λ p, negb (finished p)) l)) in
  0 ≤ rw_slots w ≤ rh_MaxConcurrent h ∧ rw_slots w ≤ busy ∧
  ((run_prog (acquire h) w).2 = false → rh_MaxConcurrent h ≤ busy).
Proof.
  intros H0 Hm Hr busy.
  destruct (pool_accounts rw_slots is_handshake relay_elsewhere) with (w := w0) (l := @nil (prog relay_world HandshakeResult))
    (w' := w) (l' := l) (ns := @nil Z) as (ns & Hns & Hq); [|by intros ? ? (? & ? & ? & ->)|done|constructor|done|].
  { intros p (r & ->). apply handshake_accounts. }
  pose proof (zsum_accounts _ _ _ Hns) as Hz. rewrite <-Hq in Hz. fold busy in Hz.
  destruct (pool_obeys is_handshake relay_elsewhere within_capacity anything) with (w := w0)
    (l := @nil (prog relay_world HandshakeResult)) (w' := w) (l' := l) as (Hcap & _ & _);
    [|by intros ? ? ? (? & ? & ? & ->)|done|done|done|unfold within_capacity; lia|constructor|].
  { intros p (r & ->). apply handshake_obeys. }
  unfold within_capacity in Hcap. split_and!; try lia. unfold acquire, act. cbn [run_prog].
  destruct (Z.ltb_spec (rw_slots w) (rh_MaxConcurrent h)); [done|]. cbn [snd]. lia.
Qed.

(** ** Sessions *)

(** What opening a session rests on: in the state [w] of the registry the peer was
    an approved device with this token and credential version. *)
Definition admits (r : HandshakeRequest) (w : relay_world) (out : HandshakeResult) : Prop :=
  ∃ peer token frame d, out = SessionOpened peer (credential_version d) ∧
    hq_First r = Message true frame ∧ EncodeAuthenticationFrame peer token = Ok frame ∧
    device_rows (rw_db w) !! peer = Some d ∧ approved_row d = true ∧
    auth_token_hash d = Sum256 token ∧ 1 ≤ credential_version d.

Definition is_session (out : HandshakeResult) : Prop := ∃ peer v, out = SessionOpened peer v.

Lemma caused_act {W A B} (good : B → Prop) J (f : W → W * A) (next : A → prog W B) :
  (∀ w, caused good J (next (f w).2)) → caused good J (pbind (act f) next).
Proof. intros Hf w. left. apply Hf. Qed.

Lemma release_caused J out : ¬ is_session out → caused is_session J (release_with out).
Proof. intros Ho w. by left. Qed.

Lemma release_returns out a : returns (release_with out) a → a = out.
Proof.
  unfold release_with, release, act. cbn [pbind]. intros Hr. inversion Hr as [|f k w ? Hk]; subst.
  inversion Hk; by subst.
Qed.

Lemma AuthenticateConnection_ok peer token now a db v a' db' :
  AuthenticateConnection peer token now a db = (Ok v, a', db') →
  ∃ d, device_rows db !! peer = Some d ∧ approved_row d = true ∧
    auth_token_hash d = Sum256 token ∧ credential_version d = v.
Proof.
  destruct peer as [p1 p2]. unfold AuthenticateConnection, Authenticate. cbn [fst snd].
  destruct (negb _); [done|]. destruct (device_rows db !! (p1, p2)) as [d|] eqn:Hd; [|done].
  destruct (beq _ _ && approved_row d) eqn:E; [|done]. apply andb_true_iff in E as [Eh Ea].
  apply beq_true in Eh. intros [= <- _ _]. by exists d.
Qed.

Lemma not_session_refused status headers msg : ¬ is_session (Refused status headers msg).
Proof. by intros (? & ? & ?). Qed.

(** C35: a relay session is opened only for an approved device that presented its
    own token. In every interleaving a handshake that opens a session did so by an
    action in a state of the registry where the device named in the peer's first
    message, a well-formed binary frame, was approved and not revoked, with the
    token of the frame and the credential version of the session; the request was
    a GET, and its origin none or a browser extension's. *)
Theorem session_authenticated r :
  caused is_session (admits r) (handshake h r) ∧
  ∀ peer v, returns (handshake h r) (SessionOpened peer v) →
    hq_Method r = "GET" ∧ hq_Upgradable r = true ∧ permittedWebSocketOrigin (hq_Origin r) = true.
Proof.
  unfold handshake. destruct (String.eqb_spec (hq_Method r) "GET") as [Hm|]; cbn [negb].
  2: { split; [apply not_session_refused|]. intros peer v Hr. inversion Hr. }
  split.
  - apply caused_act. intros w. destruct (allow _ _ _) as [ok l]. cbn [snd].
    destruct ok as [[]|e]; [|apply not_session_refused..]. apply caused_act. clear w l. intros w.
    destruct (rw_slots w <? rh_MaxConcurrent h); cbn [snd negb]; [|apply not_session_refused].
    destruct (negb _); [apply release_caused; by intros (? & ? & ?)|].
    destruct (read_first (hq_First r)) as [[peer token]|e] eqn:Hf;
      [|apply release_caused; by intros (? & ? & ?)].
    clear w. intros w. right. cbn [pbind act]. intros out Hr (p' & v' & ->).
    destruct (AuthenticateConnection peer token (rw_now w) (rw_auth w) (rw_db w)) as [[res a] db] eqn:Ha.
    cbn [snd pbind] in Hr. destruct res as [v|e]; cbn [authenticated] in Hr.
    2: { apply release_returns in Hr. done. }
    destruct (Z.ltb_spec v 1); apply release_returns in Hr; [done|]. injection Hr as -> ->.
    destruct (hq_First r) as [|binary frame] eqn:Hq; [done|]. cbn [read_first] in Hf.
    destruct binary; [|by unfold readAuthenticationFrame in Hf].
    apply authentication_frame_exact in Hf as (He & _).
    destruct (AuthenticateConnection_ok _ _ _ _ _ _ _ _ Ha) as (d & Hd & Hap & Ht & Hv).
    exists peer, token, frame, d. rewrite Hv. split_and!; try done; lia.
  - intros peer v Hr. split; [done|]. unfold attempt, acquire in Hr. cbn [pbind act] in Hr.
    inversion Hr as [|f k w a Hk]; subst. clear Hr. destruct (allow _ _ _) as [ok l]. cbn [snd] in Hk.
    destruct ok as [[]|e]; [|by inversion Hk..]. inversion Hk as [|f k w1 a Hk1]; subst. clear Hk.
    destruct (rw_slots w1 <? rh_MaxConcurrent h); cbn [snd negb] in Hk1; [|by inversion Hk1].
    destruct (hq_Upgradable r && permittedWebSocketOrigin (hq_Origin r)) eqn:E; cbn [negb] in Hk1.
    + by apply andb_true_iff in E.
    + by apply release_returns in Hk1.
Qed.
End Slots.

(** *** An example: a phone connects. *)

Definition relay_handler : RelayHandler := mkRelayHandler 64 (5 * Second).
Definition relay0 : relay_world :=
  mkRelayWorld joined (at_second 20) ∅
    (mkClientRateLimiter (mkFixedWindow ∅ 20 4096 Minute) (mkResolver [])) 0.
Definition phone_request : HandshakeRequest :=
  mkHandshakeRequest "GET" (mkClientInfo (bs "192.0.2.7:4711") []) [] true
    (Message true (from_ok [] (EncodeAuthenticationFrame phone token1))).
Definition connecting : list (command relay_world HandshakeResult) :=
  [Start (handshake relay_handler phone_request); Advance 0; Advance 0].

Example phone_connects :
  match (run_prog (handshake relay_handler phone_request) relay0).2 with
  | SessionOpened peer v => bool_decide (peer = phone) && (v =? 1)
  | _ => false
  end = true ∧ rw_slots (schedule connecting (relay0, [])).1 = 1.
Proof. split; vm_compute; reflexivity. Qed.

Lemma auth_slots_accounted_witness :
  let s := schedule connecting (relay0, []) in
  let busy := Z.of_nat (length (List.filter (λ p, negb (finished p)) s.2)) in
  0 ≤ rw_slots s.1 ≤ 64 ∧ rw_slots s.1 ≤ busy ∧
  ((run_prog (acquire relay_handler) s.1).2 = false → 64 ≤ busy).
Proof.
  apply (auth_slots_accounted relay_handler relay0).
  - reflexivity.
  - cbn. lia.
  - rewrite <-surjective_pairing. apply schedule_steps. repeat constructor. by exists phone_request.
Defined.
