(* ===== verification/IdentityChallenge.v ===== *)
(** internal/membership/identity_challenge.go: the challenge that a registering
    device must open with its identity key. HPKE is the class [HPKE] with the law
    that the holder of a key opens what is sealed to it. *)

From S2P Require Import Prelude GoStd MembershipCodec.

(** filippo.io/hpke, base mode with P-256, HKDF-SHA256 and AES-128-GCM. The
    sender's ephemeral key is [rand]. *)
Class HPKE : Type := {
  hpke_NewPublicKey : bytes → bool;
  hpke_Seal : bytes → bytes → bytes → bytes → option (bytes * bytes);
  hpke_Open : bytes → bytes → bytes → bytes → option bytes;
  hpke_pair : bytes → bytes → Prop
}.

(** [hpke_Seal pk info rand plaintext]; a recipient key pair [(sk, pk)] opens what
    was sealed to it under the same info, and sealing to a point of the curve
    succeeds. *)
Class HPKELaws `{HPKE} : Prop := {
  hpke_open_seal sk pk info rand pt enc ct :
    hpke_pair sk pk → hpke_Seal pk info rand pt = Some (enc, ct) →
    hpke_Open sk enc info ct = Some pt;
  hpke_valid_point pk xy : P256_Unmarshal pk = Some xy → hpke_NewPublicKey pk = true;
  hpke_seals pk info rand pt : hpke_NewPublicKey pk = true →
    is_Some (hpke_Seal pk info rand pt)
}.

Definition IdentityChallengeLifetime : Z := 5 * Minute.

Record IdentityChallenge : Type := mkIdentityChallenge {
  CanonicalPlaintext : bytes;
  ic_Digest : bytes;
  ic_Secret : bytes;
  ic_ExpiresAt : Z;
  EncapsulatedKey : bytes;
  Ciphertext : bytes
}.

Section Challenge.
Context `{Wire, HPKE}.

Definition challenge_message (w dev keyID secret : bytes) (now : Z) : IdentityPossessionChallenge :=
  mkChallenge ProtocolVersion w dev keyID secret (u64 (UnixMilli now))
    (u64 (UnixMilli (now + IdentityChallengeLifetime))) [].

(** [secret] and [rand] are the random values drawn. *)
Definition CreateIdentityChallenge (workspaceID deviceID identityPublicKey : bytes) (now : Z)
  (secret rand : bytes) : result IdentityChallenge :=
  fail_if UnixMilli now <=? 0 with_msg "identity challenge time must be positive" in
  let identityKeyID := Sum256 identityPublicKey in
  let? info := PossessionHPKEInfo workspaceID deviceID identityKeyID in
  let expiresAt := now + IdentityChallengeLifetime in
  let challenge := challenge_message workspaceID deviceID identityKeyID secret now in
  let? plaintext := EncodeIdentityPossessionChallenge challenge in
  let? digest := ChallengeDigest challenge in
  if negb (hpke_NewPublicKey identityPublicKey)
  then Err (New "parse identity challenge recipient")
  else
    match hpke_Seal identityPublicKey info rand plaintext with
    | None => Err (New "seal identity challenge")
    | Some (encapsulatedKey, ciphertext) =>
        Ok (mkIdentityChallenge plaintext digest secret expiresAt encapsulatedKey ciphertext)
    end.

(** What the device does with the response: open the challenge with its identity
    key, decode it and answer with its digest and secret (the client's part of
    the protocol, protocol/workspace-membership-v1.md). *)
Definition answer_challenge (sk identityPublicKey w dev enc ct : bytes)
  : result PendingIdentityProof :=
  let keyID := Sum256 identityPublicKey in
  let? info := PossessionHPKEInfo w dev keyID in
  match hpke_Open sk enc info ct with
  | None => Err (New "open identity challenge")
  | Some plaintext =>
      let? challenge := DecodeIdentityPossessionChallenge plaintext in
      let? digest := ChallengeDigest challenge in
      let proof := mkProof ProtocolVersion w dev keyID digest (ch_challenge_secret challenge) [] in
      let? _ := ValidateProofAgainstChallenge proof challenge in
      Ok proof
  end.

Context `{!WireLaws, !HPKELaws}.

Lemma CreateIdentityChallenge_ok w dev pk now secret rand c :
  CreateIdentityChallenge w dev pk now secret rand = Ok c →
  let m := challenge_message w dev (Sum256 pk) secret now in
  ic_Secret c = secret ∧ ic_ExpiresAt c = now + IdentityChallengeLifetime ∧
  0 < UnixMilli now ∧
  EncodeIdentityPossessionChallenge m = Ok (CanonicalPlaintext c) ∧
  ChallengeDigest m = Ok (ic_Digest c) ∧
  ∃ info, PossessionHPKEInfo w dev (Sum256 pk) = Ok info ∧
    hpke_Seal pk info rand (CanonicalPlaintext c) = Some (EncapsulatedKey c, Ciphertext c).
Proof.
  intros Hc. unfold CreateIdentityChallenge in Hc. go_inv. go_bool.
  match type of Hc with (if ?b then _ else _) = _ => destruct b; [done|] end.
  destruct (hpke_Seal _ _ _ _) as [[enc ct]|] eqn:Hs; [|done]. apply Ok_inj in Hc as <-.
  cbn. split_and!; eauto.
Qed.

Lemma challenge_typed_ok w dev keyID secret now :
  0 < UnixMilli now → challenge_typed (challenge_message w dev keyID secret now).
Proof.
  intros Hn. unfold challenge_typed, challenge_message. cbn.
  split_and!; [unfold is_u32, ProtocolVersion; lia|..]; unfold is_u64, u64;
    apply Z.mod_pos_bound; lia.
Qed.

(** The device with the identity key answers any challenge, and the answer
    carries the digest and secret that the server keeps. *)
Lemma answer_challenge_ok w dev sk pk now secret rand c :
  hpke_pair sk pk → CreateIdentityChallenge w dev pk now secret rand = Ok c →
  allBytesZero (ic_Digest c) = false →
  ∃ proof, answer_challenge sk pk w dev (EncapsulatedKey c) (Ciphertext c) = Ok proof ∧
    pr_workspace_id proof = w ∧ pr_device_id proof = dev ∧
    pr_challenge_digest proof = ic_Digest c ∧ pr_challenge_secret proof = ic_Secret c ∧
    pr_unknown proof = [] ∧ proof_typed proof ∧ validateProof proof = Ok tt.
Proof.
  intros Hpair Hc Hz. destruct (CreateIdentityChallenge_ok _ _ _ _ _ _ _ Hc)
    as (Hsec & _ & Hnow & Henc & Hdig & info & Hinfo & Hseal).
  unfold answer_challenge. rewrite Hinfo. cbn [rbind].
  rewrite (hpke_open_seal sk pk info rand _ _ _ Hpair Hseal).
  set (m := challenge_message w dev (Sum256 pk) secret now) in *.
  assert (blen (ic_Digest c) = 32) as Hlen.
  { unfold ChallengeDigest in Hdig. go_inv. rewrite <-Hdig. unfold blen, domainHash.
    by rewrite Sum256_length. }
  pose proof Henc as He. unfold EncodeIdentityPossessionChallenge in He.
  apply rbind_Ok in He as ([] & Hval & He).
  assert (DecodeIdentityPossessionChallenge (CanonicalPlaintext c) = Ok m) as Hdec.
  { unfold DecodeIdentityPossessionChallenge.
    rewrite (encode_decode challenge_typed (λ m, ch_unknown m = []) m);
      [|apply challenge_law|by apply challenge_typed_ok|reflexivity|exact He].
    cbn [rbind]. by rewrite Hval. }
  rewrite Hdec. cbn [rbind]. rewrite Hdig. cbn [rbind].
  set (proof := mkProof _ _ _ _ _ _ _).
  assert (validateProof proof = Ok tt) as Hvp.
  { unfold validateProof. cbn.
    unfold validateChallenge in Hval. apply fail_if_Ok in Hval as [_ Hval].
    apply fail_if_Ok in Hval as [_ Hval]. apply rbind_Ok in Hval as ([] & Hb & Hval).
    apply fail_if_Ok in Hval as [Hs _]. cbn in Hb, Hs. rewrite Hb. cbn [rbind].
    apply orb_false_iff in Hs as [Hs1 Hs2]. apply guard_pass.
    by rewrite Hz, Hs1, Hs2, Hlen. }
  assert (ValidateProofAgainstChallenge proof m = Ok tt) as Hv.
  { unfold ValidateProofAgainstChallenge. rewrite Hvp. cbn [rbind]. rewrite Hdig. cbn.
    by rewrite !beq_refl. }
  rewrite Hv. cbn [rbind]. exists proof. split_and!; try done.
Qed.
End Challenge.
