(* ===== verification/HttpApi.v ===== *)
(** internal/httpapi: the handlers of the HTTP API over the admission store, from
    the method and media type of a request to the status and fields of the
    response (handler.go, json.go, membership.go, preferences.go,
    credential_rotation.go).

    A handler is a function of the request, of the times and random values it
    draws, and of the server's state (the database and the attempt limiters); it
    returns the response and the state. [clock 0] is the time of a handler's
    guards, [clock 1] the time it passes to the store. A response is its status,
    the headers the handler sets and its fields; their rendering as JSON text is
    not modelled. *)

From S2P Require Import Prelude GoStd GoNet GoWeb RateLimit ClientAddress.
From S2P Require Import DeliveryStore MembershipCodec Schema Admission MembershipStore.
From S2P Require Import IdentityChallenge.

#[local] Open Scope string_scope.
#[local] Open Scope Z_scope.

(** ** Requests and responses *)

Record Request : Type := mkRequest {
  Method : string;
  Path : string;
  ContentType : bytes;
  Client : ClientInfo;
  Body : bytes
}.

Inductive json_value : Type := JString (v : bytes) | JStrings (l : list bytes).

Inductive ResponseBody : Type :=
| Text (msg : string)
| Json (fields : list (string * json_value))
| NoBody.

Record Response : Type := mkResponse {
  Status : Z;
  Headers : list (string * string);
  RespBody : ResponseBody
}.

(** [http.Error] *)
Definition Error (msg : string) (status : Z) : Response := mkResponse status [] (Text msg).
Definition with_header (h v : string) (r : Response) : Response :=
  mkResponse (Status r) ((h, v) :: Headers r) (RespBody r).

(** [writeMembershipJSON], [writePreferenceJSON] *)
Definition writeJSON (status : Z) (fields : list (string * json_value)) : Response :=
  mkResponse status [("Content-Type", "application/json")] (Json fields).

Definition method_not_allowed (allowed : string) : Response :=
  with_header "Allow" allowed (Error "method not allowed" 405).

(** ** State *)

Record Api : Type := mkApi {
  api_db : DB;
  membershipLimiter : clientRateLimiter;
  rotationLimiter : clientRateLimiter
}.

Definition set_db (db : DB) (s : Api) : Api :=
  mkApi db (membershipLimiter s) (rotationLimiter s).

(** ** Decoding *)

Definition decodeCanonicalBase64URL (value : bytes) (size : Z) : option bytes :=
  match RawURL_Decode value with
  | None => None
  | Some decoded =>
      if negb (blen decoded =? size) || negb (beq (RawURL_Encode decoded) value)
      then None else Some decoded
  end.

Definition decodeCanonicalRevision (value : bytes) : option Z :=
  match ParseInt value with
  | None => None
  | Some revision =>
      if (revision <? 0) || negb (beq (FormatInt revision) value) then None else Some revision
  end.

Definition encodeID (value : bytes) : bytes := RawURL_Encode value.

Definition maxMembershipBody : Z := 8192.
Definition maxPreferenceBody : Z := 512 * 1024.
Definition maxCredentialRotationBody : Z := 2048.

Definition registrationFields : list string :=
  ["pairing_code"; "device_type"; "device_name"; "e2ee_public_key"].
Definition membershipProofFields : list string :=
  ["workspace_id"; "device_id"; "auth_token"; "proof"].
Definition membershipStateFields : list string :=
  ["workspace_id"; "device_id"; "auth_token"; "after_roster_epoch"].
Definition preferenceReadFields : list string :=
  ["workspace_id"; "device_id"; "auth_token"; "key"].
Definition preferenceWriteFields : list string :=
  ["workspace_id"; "device_id"; "auth_token"; "key"; "expected_revision"; "payload"].
Definition credentialRotationFields : list string :=
  ["workspace_id"; "device_id"; "current_auth_token"; "rotation_code"; "pending_auth_token"].

Definition decodeMembershipJSON (r : Request) (fields : list string) : fields_of + Response :=
  match decode_json fields maxMembershipBody (Body r) with
  | Some m => inl m
  | None => inr (Error "invalid membership request" 400)
  end.

Definition decodePreferenceJSON (r : Request) (fields : list string) : fields_of + Response :=
  match decode_json fields maxPreferenceBody (Body r) with
  | Some m => inl m
  | None => inr (Error "invalid preference request" 400)
  end.

(** ** Guards before the body *)

(** [beginJSON] of the membership endpoints: [None] lets the request through. *)
Definition beginJSON (r : Request) (rateLimited : bool) (now : Z) (s : Api)
  : option Response * Api :=
  if negb (String.eqb (Method r) "POST") then (Some (method_not_allowed "POST"), s)
  else
    let '(refused, s) :=
      if rateLimited then
        let '(allowed, l) := allow (membershipLimiter s) (Client r) now in
        let s := mkApi (api_db s) l (rotationLimiter s) in
        match allowed with
        | Err _ => (Some (Error "invalid client address" 400), s)
        | Ok false =>
            (Some (with_header "Retry-After" "60" (Error "too many registration attempts" 429)), s)
        | Ok true => (None, s)
        end
      else (None, s) in
    match refused with
    | Some resp => (Some resp, s)
    | None =>
        if negb (is_json_media (ContentType r))
        then (Some (Error "content type must be application/json" 415), s)
        else (None, s)
    end.

Definition beginPreferenceJSON (r : Request) : option Response :=
  if negb (String.eqb (Method r) "POST") then Some (method_not_allowed "POST")
  else if negb (is_json_media (ContentType r))
  then Some (Error "content type must be application/json" 415)
  else None.

Section Handlers.
Context `{Wire, Ed25519, HPKE}.

(** ** Membership *)

(** Random values of a registration: the device id, its token, the challenge
    secret and the ephemeral key of the challenge. *)
Record RegisterRandom : Type := mkRegisterRandom {
  rnd_DeviceID : bytes;
  rnd_AuthToken : bytes;
  rnd_Secret : bytes;
  rnd_Ephemeral : bytes
}.

Definition register (r : Request) (clock : nat → Z) (rnd : RegisterRandom) (s : Api)
  : Response * Api :=
  match beginJSON r true (clock 0%nat) s with
  | (Some resp, s) => (resp, s)
  | (None, s) =>
  match decodeMembershipJSON r registrationFields with
  | inr resp => (resp, s)
  | inl request =>
  match RawURL_Decode (field request "e2ee_public_key") with
  | None => (Error "invalid registration request" 400, s)
  | Some publicKey =>
      let now := clock 1%nat in
      let create w dev :=
        CreateIdentityChallenge w dev publicKey now (rnd_Secret rnd) (rnd_Ephemeral rnd) in
      let createChallenge w dev :=
        let? created := create w dev in
        Ok (mkPendingChallenge (ic_Digest created) (ic_Secret created) (ic_ExpiresAt created)) in
      let input := mkRegistration (field request "pairing_code")
        (String.string_of_list_byte (field request "device_type"))
        (field request "device_name") publicKey now in
      match RegisterPending input createChallenge (rnd_DeviceID rnd) (rnd_AuthToken rnd) (api_db s) with
      | Err e =>
          if errors_Is e ErrInvalidRegistration then (Error "invalid registration request" 400, s)
          else if errors_Is e ErrInvalidPairingCode then (Error "registration denied" 403, s)
          else (Error "registration unavailable" 503, s)
      | Ok ((w, dev, token), db) =>
          match WorkspaceAuthorityPublicKey w db, create w dev with
          | Ok key, Ok challenge =>
              (writeJSON 201
                 [("workspace_id", JString (encodeID w)); ("device_id", JString (encodeID dev));
                  ("auth_token", JString (RawURL_Encode token));
                  ("authority_public_key", JString (RawURL_Encode key));
                  ("challenge_enc", JString (RawURL_Encode (EncapsulatedKey challenge)));
                  ("challenge_ciphertext", JString (RawURL_Encode (Ciphertext challenge)))],
               set_db db s)
          | _, _ => (Error "registration unavailable" 503, set_db db s)
          end
      end
  end end end.

Definition prove (r : Request) (clock : nat → Z) (s : Api) : Response * Api :=
  match beginJSON r false (clock 0%nat) s with
  | (Some resp, s) => (resp, s)
  | (None, s) =>
  match decodeMembershipJSON r membershipProofFields with
  | inr resp => (resp, s)
  | inl request =>
  let denied := Error "membership proof denied" 403 in
  match decodeCanonicalBase64URL (field request "workspace_id") 16,
        decodeCanonicalBase64URL (field request "device_id") 16,
        decodeCanonicalBase64URL (field request "auth_token") 32,
        RawURL_Decode (field request "proof") with
  | Some w, Some dev, Some token, Some proofBytes =>
      if negb (beq (RawURL_Encode proofBytes) (field request "proof")) then (denied, s)
      else
        match DecodePendingIdentityProof proofBytes with
        | Err _ => (denied, s)
        | Ok proof =>
            if negb (beq (pr_workspace_id proof) w) || negb (beq (pr_device_id proof) dev)
            then (denied, s)
            else
              match CompletePendingIdentityProof
                      (mkPendingIdentityProof w dev token (pr_challenge_digest proof)
                         (pr_challenge_secret proof) (clock 1%nat)) (api_db s) with
              | Err _ => (denied, s)
              | Ok db => (writeJSON 200 [("state", JString (bs "pending_approval"))], set_db db s)
              end
        end
  | _, _, _, _ => (denied, s)
  end end end.

Definition state_name (m : membershipState) : bytes :=
  bs match m with
     | legacy_active => "legacy_active"
     | pending_proof => "pending_proof"
     | pending_approval => "pending_approval"
     | approved => "approved"
     | revoked => "revoked"
     end.

Definition state (r : Request) (clock : nat → Z) (s : Api) : Response * Api :=
  match beginJSON r false (clock 0%nat) s with
  | (Some resp, s) => (resp, s)
  | (None, s) =>
  match decodeMembershipJSON r membershipStateFields with
  | inr resp => (resp, s)
  | inl request =>
  let denied := Error "membership state denied" 403 in
  match decodeCanonicalBase64URL (field request "workspace_id") 16,
        decodeCanonicalBase64URL (field request "device_id") 16,
        decodeCanonicalBase64URL (field request "auth_token") 32,
        decodeCanonicalRevision (field request "after_roster_epoch") with
  | Some w, Some dev, Some token, Some afterEpoch =>
      match ReadMembershipState w dev token afterEpoch (api_db s) with
      | Err _ => (denied, s)
      | Ok view =>
          (writeJSON 200
             ([("state", JString (state_name (msv_State view)));
               ("authority_public_key", JString (RawURL_Encode (msv_AuthorityPublicKey view)))] ++
              (if beq (msv_SignedCertificate view) [] then []
               else [("signed_certificate", JString (RawURL_Encode (msv_SignedCertificate view)))]) ++
              [("authority_transitions", JStrings (RawURL_Encode <$> msv_AuthorityTransitions view));
               ("rosters", JStrings (RawURL_Encode <$> msv_Rosters view));
               ("latest_roster_epoch", JString (FormatInt (msv_LatestRosterEpoch view)))]), s)
      end
  | _, _, _, _ => (denied, s)
  end end end.

(** ** Preferences *)

Definition authenticate (request : fields_of) (now : Z) (s : Api) : option bytes * Api :=
  match decodeCanonicalBase64URL (field request "workspace_id") 16,
        decodeCanonicalBase64URL (field request "device_id") 16,
        decodeCanonicalBase64URL (field request "auth_token") 32 with
  | Some w, Some dev, Some token =>
      match Authenticate w dev token now (api_db s) with
      | Ok (_, db) => (Some w, set_db db s)
      | Err _ => (None, s)
      end
  | _, _, _ => (None, s)
  end.

Definition preference_denied : Response := Error "preference access denied" 403.

Definition readPreference (r : Request) (clock : nat → Z) (s : Api) : Response * Api :=
  match beginPreferenceJSON r with
  | Some resp => (resp, s)
  | None =>
  match decodePreferenceJSON r preferenceReadFields with
  | inr resp => (resp, s)
  | inl request =>
  match authenticate request (clock 0%nat) s with
  | (None, s) => (preference_denied, s)
  | (Some w, s) =>
      match ReadWorkspacePreference w (field request "key") (api_db s) with
      | Err e =>
          if errors_Is e ErrPreferenceKeyInvalid then (Error "invalid preference key" 400, s)
          else (Error "preference read unavailable" 503, s)
      | Ok None =>
          (writeJSON 200 [("revision", JString (bs "0")); ("payload", JString []);
                          ("updated_at_ms", JString (bs "0"))], s)
      | Ok (Some record) =>
          (writeJSON 200 [("revision", JString (FormatInt (revision record)));
                          ("payload", JString (RawURL_Encode (payload record)));
                          ("updated_at_ms", JString (FormatInt (pref_updated_at_ms record)))], s)
      end
  end end end.

Definition writePreference (r : Request) (clock : nat → Z) (s : Api) : Response * Api :=
  match beginPreferenceJSON r with
  | Some resp => (resp, s)
  | None =>
  match decodePreferenceJSON r preferenceWriteFields with
  | inr resp => (resp, s)
  | inl request =>
  match authenticate request (clock 0%nat) s with
  | (None, s) => (preference_denied, s)
  | (Some w, s) =>
  match decodeCanonicalRevision (field request "expected_revision") with
  | None => (Error "invalid preference revision" 400, s)
  | Some expectedRevision =>
  match RawURL_Decode (field request "payload") with
  | None => (Error "invalid preference payload" 400, s)
  | Some value =>
      if negb (beq (RawURL_Encode value) (field request "payload"))
      then (Error "invalid preference payload" 400, s)
      else
        match WriteWorkspacePreference w (field request "key") expectedRevision value
                (clock 1%nat) (api_db s) with
        | Ok (newRevision, db) =>
            (writeJSON 200 [("revision", JString (FormatInt newRevision))], set_db db s)
        | Err e =>
            (if errors_Is e ErrPreferenceRevisionConflict then Error "preference revision conflict" 409
             else if errors_Is e ErrPreferenceKeyInvalid then Error "invalid preference key" 400
             else if errors_Is e ErrPreferencePayloadInvalid
             then Error "invalid preference payload" 400
             else Error "preference write unavailable" 503, s)
        end
  end end end end end.

(** ** Credential rotation *)

Definition rotate (r : Request) (clock : nat → Z) (s : Api) : Response * Api :=
  if negb (String.eqb (Method r) "POST") then (method_not_allowed "POST", s)
  else if negb (beq (ContentType r) (bs "application/json"))
  then (Error "content type must be application/json" 415, s)
  else
  let now := clock 0%nat in
  let '(allowed, l) := allow (rotationLimiter s) (Client r) now in
  let s := mkApi (api_db s) (membershipLimiter s) l in
  match allowed with
  | Err _ => (Error "invalid client address" 400, s)
  | Ok false =>
      (with_header "Retry-After" "60" (Error "too many credential rotation attempts" 429), s)
  | Ok true =>
  let invalid := Error "invalid credential rotation request" 400 in
  match decode_json credentialRotationFields maxCredentialRotationBody (Body r) with
  | None => (invalid, s)
  | Some request =>
  match decodeCanonicalBase64URL (field request "workspace_id") 16 with
  | None => (invalid, s)
  | Some w =>
  match decodeCanonicalBase64URL (field request "device_id") 16 with
  | None => (invalid, s)
  | Some dev =>
  match decodeCanonicalBase64URL (field request "current_auth_token") 32 with
  | None => (invalid, s)
  | Some currentToken =>
  match decodeCanonicalBase64URL (field request "pending_auth_token") 32 with
  | None => (invalid, s)
  | Some pendingToken =>
      match RotateCredential (mkCredentialRotation w dev currentToken
              (field request "rotation_code") pendingToken now) (api_db s) with
      | Ok (_, db) =>
          (mkResponse 200 [("Content-Type", "application/json")]
             (Json [("status", JString (bs "rotated"))]), set_db db s)
      | Err e =>
          if errors_Is e ErrInvalidRotation then (Error "credential rotation denied" 403, s)
          else (Error "credential rotation unavailable" 503, s)
      end
  end end end end end end.

(** ** Health and routing *)

Definition status_json (code : Z) (value : bytes) : Response :=
  mkResponse code [("Content-Type", "application/json")] (Json [("status", JString value)]).

Definition health (r : Request) : Response :=
  if negb (String.eqb (Method r) "GET") then method_not_allowed "GET" else status_json 200 (bs "ok").

(** [healthy] is the outcome of the store's health check. *)
Definition readiness (r : Request) (healthy : result unit) : Response :=
  if negb (String.eqb (Method r) "GET") then method_not_allowed "GET"
  else match healthy with
       | Err _ => status_json 503 (bs "unavailable")
       | Ok _ => status_json 200 (bs "ready")
       end.

Definition securityHeaders (resp : Response) : Response :=
  with_header "X-Content-Type-Options" "nosniff" (with_header "Cache-Control" "no-store" resp).

(** [Unhandled] is the mux's own answer, a 404 or a redirect to the cleaned path. *)
Inductive outcome : Type :=
| Answered (resp : Response)
| ToRelay
| Unhandled.

(** What one request draws. *)
Record Draw : Type := mkDraw {
  draw_clock : nat → Z;
  draw_random : RegisterRandom;
  draw_healthy : result unit
}.

(** The mux, behind the security headers. *)
Definition serve (r : Request) (d : Draw) (s : Api) : outcome * Api :=
  let answer (x : Response * Api) := (Answered (securityHeaders x.1), x.2) in
  if String.eqb (Path r) "/healthz" then answer (health r, s)
  else if String.eqb (Path r) "/readyz" then answer (readiness r (draw_healthy d), s)
  else if String.eqb (Path r) "/v1/devices/rotate" then answer (rotate r (draw_clock d) s)
  else if String.eqb (Path r) "/v1/membership/register" then
    answer (register r (draw_clock d) (draw_random d) s)
  else if String.eqb (Path r) "/v1/membership/prove" then answer (prove r (draw_clock d) s)
  else if String.eqb (Path r) "/v1/membership/state" then answer (state r (draw_clock d) s)
  else if String.eqb (Path r) "/v1/workspace/preferences/read" then
    answer (readPreference r (draw_clock d) s)
  else if String.eqb (Path r) "/v1/workspace/preferences/write" then
    answer (writePreference r (draw_clock d) s)
  else if String.eqb (Path r) "/v1/relay" then (ToRelay, s)
  else (Unhandled, s).

End Handlers.

(** [NewProductionHandler]: validated limits, a limiter per guarded endpoint. *)
Definition NewProductionHandler (db : DB) (clientAddresses : Resolver) (limits : RateLimits)
  : result Api :=
  let? _ := validateRateLimits limits in
  match newClientRateLimiter clientAddresses (MembershipLimits limits),
        newClientRateLimiter clientAddresses (RotationLimits limits) with
  | Some m, Some c => Ok (mkApi db m c)
  | _, _ => Err (New "panic")
  end.
