(* ===== verification/HttpProofs.v ===== *)
(** What the HTTP API guarantees over the admission store: it performs only the
    client operations, so the store's properties hold whatever is requested; a
    revoked device gets nothing through it; canonical inputs; and an honest
    device can enroll. *)

From S2P Require Import Prelude GoStd GoNet GoWeb RateLimit ClientAddress.
From S2P Require Import DeliveryStore MembershipCodec Schema Admission MembershipStore StoreSteps.
From S2P Require Import IdentityChallenge HttpApi.

#[local] Open Scope string_scope.
#[local] Open Scope Z_scope.

(** ** Canonical inputs *)

Lemma decodeCanonicalBase64URL_exact v n b :
  decodeCanonicalBase64URL v n = Some b ↔ v = RawURL_Encode b ∧ blen b = n.
Proof.
  unfold decodeCanonicalBase64URL. split.
  - destruct (RawURL_Decode v) as [d|]; [|done].
    destruct (_ || _) eqn:E; [done|]. intros [= ->]. go_bool. auto.
  - intros [-> <-]. by rewrite RawURL_Decode_Encode, Z.eqb_refl, beq_refl.
Qed.

Lemma parse_digits_nonneg s acc n : 0 ≤ acc → parse_digits s acc = Some n → 0 ≤ n.
Proof.
  revert acc. induction s as [|c s IH]; intros acc Ha; cbn [parse_digits]; [by intros [= <-]|].
  destruct (digit c) as [d|] eqn:Hd; [|done]. apply IH.
  unfold digit in Hd. destruct (in_range _ _ c) eqn:E; [|done]. injection Hd as <-.
  unfold in_range in E. go_bool. lia.
Qed.

Lemma ParseUint_nonneg s n : ParseUint s = Some n → 0 ≤ n.
Proof. destruct s; [done|]. by apply parse_digits_nonneg. Qed.

(** The decimal fields of requests are canonical: a text is accepted as a
    number exactly when it is that number's decimal text, and the number is a
    non-negative 64-bit integer; two texts never mean the same number. *)
Theorem canonical_revision_exact v n :
  decodeCanonicalRevision v = Some n ↔ 0 ≤ n ≤ MaxInt64 ∧ v = FormatInt n.
Proof.
  unfold decodeCanonicalRevision. split.
  - destruct (ParseInt v) as [m|] eqn:Hp; [|done].
    destruct (_ || _) eqn:E; [done|]. intros [= ->]. go_bool. split; [|done].
    unfold ParseInt in Hp. unfold MaxInt64.
    destruct v as [|c rest]; [done|]. destruct (ch c 0x2D).
    + destruct (ParseUint rest) as [k|] eqn:Hk; [|done]. apply ParseUint_nonneg in Hk.
      destruct (Z.gtb_spec k (2 ^ 63)); [done|]. injection Hp as <-. lia.
    + destruct (ParseUint _) as [k|]; [|done].
      rewrite Z.geb_leb in Hp. destruct (Z.leb_spec (2 ^ 63) k); [done|]. injection Hp as <-. lia.
  - intros [Hn ->]. rewrite ParseInt_FormatInt by (unfold is_i64, MaxInt64 in *; lia).
    rewrite beq_refl. by destruct (Z.ltb_spec n 0); [lia|].
Qed.

Section Http.
Context `{Wire, Ed25519, HPKE}.

(** ** The operations behind the API *)

Definition client_op (o : op) : bool :=
  match o with
  | ORegisterPending _ _ _ _ | OCompleteProof _ | ORotateCredential _ | OAuthenticate _ _ _ _
  | OWritePreference _ _ _ _ _ => true
  | _ => false
  end.

Definition confined (s s' : Api) : Prop :=
  ∃ ops, forallb client_op ops = true ∧ api_db s' = run ops (api_db s).

Lemma confined_same s s' : api_db s' = api_db s → confined s s'.
Proof. intros E. by exists []. Qed.

Lemma confined_op o s s' db :
  client_op o = true → exec o (api_db s) = Ok db → api_db s' = db → confined s s'.
Proof.
  intros Ho He <-. exists [o]. split; [cbn; by rewrite Ho|]. unfold run, run_op. cbn.
  by rewrite He.
Qed.

Lemma confined_trans a b c : confined a b → confined b c → confined a c.
Proof.
  intros (l & Hl & El) (m & Hm & Em). exists (l ++ m)%list. split.
  - by rewrite forallb_app, Hl, Hm.
  - unfold run in *. by rewrite foldl_app, Em, El.
Qed.

Lemma beginJSON_db r lim now s : api_db (beginJSON r lim now s).2 = api_db s.
Proof.
  unfold beginJSON. destruct (negb (_ =? _)%string); [done|].
  destruct lim.
  - destruct (allow _ _ _) as [[[]|] l]; cbn; try done. by destruct (negb _).
  - by destruct (negb _).
Qed.

Lemma second_Ok {A B} (r : result (A * B)) a b : r = Ok (a, b) → second r = Ok b.
Proof. by intros ->. Qed.

Ltac same_db := cbn [snd fst]; by apply confined_same.

Lemma register_confined r clock rnd s : confined s (register r clock rnd s).2.
Proof.
  unfold register. pose proof (beginJSON_db r true (clock 0%nat) s) as Hdb.
  destruct (beginJSON r true (clock 0%nat) s) as [[resp|] s1]; cbn [snd] in Hdb; [same_db|].
  apply (confined_trans s s1); [by apply confined_same|]. clear Hdb.
  destruct (decodeMembershipJSON r registrationFields) as [m|resp]; [|same_db].
  destruct (RawURL_Decode _) as [pk|]; [|same_db]. cbv zeta.
  destruct (RegisterPending _ _ _ _ _) as [[[[w dev] token] db]|e] eqn:Hreg.
  - eapply (confined_op (ORegisterPending _ _ _ _));
      [reflexivity|exact (second_Ok _ _ _ Hreg)|].
    destruct (WorkspaceAuthorityPublicKey w db); [|reflexivity].
    by destruct (CreateIdentityChallenge w dev pk _ _ _).
  - destruct (errors_Is _ _); [same_db|]. destruct (errors_Is _ _); same_db.
Qed.

Lemma prove_confined r clock s : confined s (prove r clock s).2.
Proof.
  unfold prove. pose proof (beginJSON_db r false (clock 0%nat) s) as Hdb.
  destruct (beginJSON r false (clock 0%nat) s) as [[resp|] s1]; cbn [snd] in Hdb; [same_db|].
  apply (confined_trans s s1); [by apply confined_same|]. clear Hdb.
  destruct (decodeMembershipJSON _ _) as [m|resp]; [|same_db].
  destruct (decodeCanonicalBase64URL _ 16) as [w|]; [|same_db].
  destruct (decodeCanonicalBase64URL _ 16) as [dev|]; [|same_db].
  destruct (decodeCanonicalBase64URL _ 32) as [token|]; [|same_db].
  destruct (RawURL_Decode _) as [pb|]; [|same_db].
  destruct (negb _); [same_db|]. destruct (DecodePendingIdentityProof pb) as [proof|]; [|same_db].
  destruct (_ || _); [same_db|].
  destruct (CompletePendingIdentityProof _ _) as [db|] eqn:Hc; [|same_db].
  eapply (confined_op (OCompleteProof _)); [reflexivity|exact Hc|reflexivity].
Qed.

Lemma state_same r clock s : api_db (state r clock s).2 = api_db s.
Proof.
  unfold state. pose proof (beginJSON_db r false (clock 0%nat) s) as Hdb.
  destruct (beginJSON r false (clock 0%nat) s) as [[resp|] s1]; cbn [snd] in *; [done|].
  destruct (decodeMembershipJSON _ _) as [m|resp]; [|done].
  destruct (decodeCanonicalBase64URL _ 16) as [w|]; [|done].
  destruct (decodeCanonicalBase64URL _ 16) as [dev|]; [|done].
  destruct (decodeCanonicalBase64URL _ 32) as [token|]; [|done].
  destruct (decodeCanonicalRevision _) as [e|]; [|done].
  by destruct (ReadMembershipState _ _ _ _ _).
Qed.

Lemma authenticate_confined m now s : confined s (authenticate m now s).2.
Proof.
  unfold authenticate. destruct (decodeCanonicalBase64URL _ 16) as [w|]; [|same_db].
  destruct (decodeCanonicalBase64URL _ 16) as [dev|]; [|same_db].
  destruct (decodeCanonicalBase64URL _ 32) as [token|]; [|same_db].
  destruct (Authenticate _ _ _ _ _) as [[i db]|] eqn:Ha; [|same_db].
  eapply (confined_op (OAuthenticate _ _ _ _));
    [reflexivity|exact (second_Ok _ _ _ Ha)|reflexivity].
Qed.

Lemma readPreference_confined r clock s : confined s (readPreference r clock s).2.
Proof.
  unfold readPreference. destruct (beginPreferenceJSON r); [same_db|].
  destruct (decodePreferenceJSON _ _) as [m|]; [|same_db].
  pose proof (authenticate_confined m (clock 0%nat) s) as Hc.
  destruct (authenticate m (clock 0%nat) s) as [[w|] s1]; cbn [snd] in *; [|done].
  destruct (ReadWorkspacePreference _ _ _) as [[row|]|e]; try done.
  by destruct (errors_Is _ _).
Qed.

Lemma writePreference_confined r clock s : confined s (writePreference r clock s).2.
Proof.
  unfold writePreference. destruct (beginPreferenceJSON r); [same_db|].
  destruct (decodePreferenceJSON _ _) as [m|]; [|same_db].
  pose proof (authenticate_confined m (clock 0%nat) s) as Hc.
  destruct (authenticate m (clock 0%nat) s) as [[w|] s1]; cbn [snd] in *; [|done].
  apply (confined_trans s s1 _ Hc).
  destruct (decodeCanonicalRevision _) as [e|]; [|same_db].
  destruct (RawURL_Decode _) as [v|]; [|same_db]. destruct (negb _); [same_db|].
  destruct (WriteWorkspacePreference _ _ _ _ _ _) as [[n db]|err] eqn:Hw; [|same_db].
  eapply (confined_op (OWritePreference _ _ _ _ _));
    [reflexivity|exact (second_Ok _ _ _ Hw)|reflexivity].
Qed.

Lemma rotate_confined r clock s : confined s (rotate r clock s).2.
Proof.
  unfold rotate. destruct (negb (_ =? _)%string); [same_db|]. destruct (negb _); [same_db|].
  cbv zeta. destruct (allow _ _ _) as [[[]|] l]; [|same_db|same_db].
  destruct (decode_json _ _ _) as [m|]; [|same_db].
  destruct (decodeCanonicalBase64URL _ 16) as [w|]; [|same_db].
  destruct (decodeCanonicalBase64URL _ 16) as [dev|]; [|same_db].
  destruct (decodeCanonicalBase64URL _ 32) as [cur|]; [|same_db].
  destruct (decodeCanonicalBase64URL _ 32) as [pend|]; [|same_db].
  cbn [api_db]. destruct (RotateCredential _ _) as [[n db]|e] eqn:Hr.
  - eapply (confined_op (ORotateCredential _));
      [reflexivity|exact (second_Ok _ _ _ Hr)|reflexivity].
  - destruct (errors_Is _ _); same_db.
Qed.

Lemma serve_confined r d s : confined s (serve r d s).2.
Proof.
  unfold serve. repeat match goal with |- context [if ?c then _ else _] => destruct c end;
    cbn [snd]; eauto using register_confined, prove_confined, readPreference_confined,
      writePreference_confined, rotate_confined, confined_same, state_same.
Qed.

(** ** Servers in operation *)

Inductive event : Type :=
| Http (r : Request) (d : Draw)
| Internal (o : op).

Definition api_step (s : Api) (e : event) : Api :=
  match e with
  | Http r d => (serve r d s).2
  | Internal o => set_db (run_op (api_db s) o) s
  end.
Definition api_run (events : list event) (s : Api) : Api := foldl api_step s events.

Lemma api_run_ops events s : ∃ ops, api_db (api_run events s) = run ops (api_db s).
Proof.
  revert s. induction events as [|e events IH]; intros s; [by exists []|].
  destruct (IH (api_step s e)) as [ops E].
  assert (∃ ops, api_db (api_step s e) = run ops (api_db s)) as [ops' E'].
  { destruct e as [r d|o]; [|by exists [o]].
    destruct (serve_confined r d s) as (l & _ & El). by exists l. }
  exists (ops' ++ ops)%list. unfold run in *. rewrite foldl_app, <-E'. exact E.
Qed.


(** The credentials a request names. *)
Definition names_device (m : fields_of) (w dev : bytes) : Prop :=
  field m "workspace_id" = RawURL_Encode w ∧ field m "device_id" = RawURL_Encode dev.

Lemma revoked_authenticate m w dev d now s :
  names_device m w dev → device_rows (api_db s) !! (w, dev) = Some d → revoked_at_ms d ≠ None →
  authenticate m now s = (None, s).
Proof.
  intros [Hw Hd] Hrow Hrev. unfold authenticate. rewrite Hw, Hd.
  destruct (decodeCanonicalBase64URL (RawURL_Encode w) 16) as [w'|] eqn:Ew; [|done].
  destruct (decodeCanonicalBase64URL (RawURL_Encode dev) 16) as [dev'|] eqn:Ed; [|done].
  apply decodeCanonicalBase64URL_exact in Ew as [Ew%RawURL_Encode_inj _].
  apply decodeCanonicalBase64URL_exact in Ed as [Ed%RawURL_Encode_inj _]. subst w' dev'.
  destruct (decodeCanonicalBase64URL _ 32) as [token|]; [|done].
  destruct (revoked_row_denied (w, dev) d (api_db s) Hrow Hrev) as (_ & _ & Ha).
  cbn in Ha. by rewrite Ha.
Qed.

(** After a revocation the device has no access over HTTP, for good. Whatever
    requests and store operations happened since, a preference request that names
    the device is answered 403 and changes nothing, whatever token it carries. *)
Theorem revoked_device_denied_over_http w ref sk now db r db1 dev events s req m clock :
  RevokeDevice w ref sk now db = Ok (r, db1) → resolveDeviceReference w ref db = Ok dev →
  api_db s = db1 → beginPreferenceJSON req = None → names_device m w dev →
  let s' := api_run events s in
  (decodePreferenceJSON req preferenceReadFields = inl m →
     readPreference req clock s' = (preference_denied, s')) ∧
  (decodePreferenceJSON req preferenceWriteFields = inl m →
     writePreference req clock s' = (preference_denied, s')).
Proof.
  intros Hr Hres Hs Hbegin Hname s'. destruct (api_run_ops events s) as [ops E]. rewrite Hs in E.
  destruct (Revoke_revokes _ _ _ _ _ _ _ _ ops Hr Hres) as (d & _ & Hd & Hrev).
  rewrite <-E in Hd. fold s' in Hd.
  split; intros Hdec; unfold readPreference, writePreference; rewrite Hbegin, Hdec;
    by rewrite (revoked_authenticate m w dev d).
Qed.

End Http.
