(* ===== verification/Enrollment.v ===== *)
(** Enrollment over HTTP, end to end: a device that holds the identity key it
    registered opens the challenge of the response, writes its proof as JSON, and
    is accepted. Composes the JSON decoder, the HTTP handlers, the challenge and
    the admission store. *)

From S2P Require Import Prelude GoStd GoNet GoWeb GoCrypto RateLimit ClientAddress.
From S2P Require Import DeliveryStore MembershipCodec Schema Admission MembershipStore StoreSteps.
From S2P Require Import IdentityChallenge HttpApi HttpProofs.

#[local] Open Scope string_scope.
#[local] Open Scope Z_scope.

Lemma RawURL_Encode_plain b : forallb plain_char (RawURL_Encode b) = true.
Proof. apply sextet_forall. vm_compute. reflexivity. Qed.

(** The body of a proof request, as a client writes it. *)
Definition proof_request (w dev token pb : bytes) : bytes :=
  write_object [("workspace_id", RawURL_Encode w); ("device_id", RawURL_Encode dev);
                ("auth_token", RawURL_Encode token); ("proof", RawURL_Encode pb)].

Lemma decode_proof_request r w dev token pb :
  Body r = proof_request w dev token pb → blen (Body r) ≤ maxMembershipBody →
  ∃ m, decodeMembershipJSON r membershipProofFields = inl m ∧
    field m "workspace_id" = RawURL_Encode w ∧ field m "device_id" = RawURL_Encode dev ∧
    field m "auth_token" = RawURL_Encode token ∧ field m "proof" = RawURL_Encode pb.
Proof.
  intros Hb Hmax. unfold decodeMembershipJSON. rewrite Hb in *. unfold proof_request in *.
  rewrite decode_json_write; [|repeat (constructor; [split_and!; [reflexivity|reflexivity|]|]);
    [apply RawURL_Encode_plain..|constructor]|done].
  eexists. split; [done|]. unfold field, collect. cbn [foldl fst snd].
  split_and!; repeat (rewrite lookup_insert_ne by done); by rewrite lookup_insert_eq.
Qed.

Section Enrollment.
Context `{Wire, Ed25519, HPKE, !WireLaws, !HPKELaws}.

Definition registered_fields (w dev token key : bytes) (c : IdentityChallenge)
  : list (string * json_value) :=
  [("workspace_id", JString (encodeID w)); ("device_id", JString (encodeID dev));
   ("auth_token", JString (RawURL_Encode token)); ("authority_public_key", JString (RawURL_Encode key));
   ("challenge_enc", JString (RawURL_Encode (EncapsulatedKey c)));
   ("challenge_ciphertext", JString (RawURL_Encode (Ciphertext c)))].

(** The row that a registration leaves behind. *)
Definition awaiting (d : DeviceRow) (pk token : bytes) (c : IdentityChallenge) : Prop :=
  auth_token_hash d = Sum256 token ∧ membership_state d = pending_proof ∧ revoked_at_ms d = None ∧
  proof_expires_at_ms d = Some (unixMillis (ic_ExpiresAt c)) ∧
  proof_challenge_digest d = Some (ic_Digest c) ∧
  proof_secret_hash d = Some (Sum256 (ic_Secret c)) ∧ e2ee_public_key d = pk.

Lemma RegisterPending_awaiting input create dev token db r db' :
  RegisterPending input (λ w dev,
    let? c := create w dev in
    Ok (mkPendingChallenge (ic_Digest c) (ic_Secret c) (ic_ExpiresAt c))) dev token db = Ok (r, db') →
  ∃ w c d, r = (w, dev, token) ∧ create w dev = Ok c ∧ allBytesZero (ic_Digest c) = false ∧
    blen (ic_Digest c) = 32 ∧ blen (ic_Secret c) = 32 ∧
    device_rows db' !! (w, dev) = Some d ∧ awaiting d (reg_E2EEPublicKey input) token c.
Proof.
  unfold RegisterPending. destruct (validateDeviceType _) eqn:Ht; [|done].
  destruct (validateDeviceName _) as [[]|] eqn:Hn; [|done]. destruct (_ || _); [done|].
  destruct (P256_Unmarshal _) eqn:Hp; [|done].
  destruct (RawURL_Decode _) as [secret|] eqn:Hs; [|done]. destruct (negb _); [done|].
  intros Hr. apply rbind_Ok in Hr as ([w db1] & _ & Hr).
  destruct (create w dev) as [c|] eqn:Hc; cbn [rbind] in Hr; [|done].
  cbn [pch_Digest pch_Secret pch_ExpiresAt] in Hr.
  destruct (_ || _) eqn:E in Hr; [done|]. go_bool.
  apply rbind_Ok in Hr as (db2 & Hi & Hr). apply Ok_inj in Hr. injection Hr as <- <-.
  apply insert_device_ok in Hi as (_ & _ & _ & _ & ->).
  exists w, c. eexists. split_and!; try done.
  - apply lookup_insert_eq.
  - unfold awaiting. by split_and!.
Qed.

Lemma register_created r clock rnd s resp s1 m pk :
  register r clock rnd s = (resp, s1) → Status resp = 201 →
  decodeMembershipJSON r registrationFields = inl m →
  RawURL_Decode (field m "e2ee_public_key") = Some pk →
  ∃ w key c d,
    CreateIdentityChallenge w (rnd_DeviceID rnd) pk (clock 1%nat) (rnd_Secret rnd)
      (rnd_Ephemeral rnd) = Ok c ∧
    RespBody resp = Json (registered_fields w (rnd_DeviceID rnd) (rnd_AuthToken rnd) key c) ∧
    allBytesZero (ic_Digest c) = false ∧ blen (ic_Digest c) = 32 ∧ blen (ic_Secret c) = 32 ∧
    device_rows (api_db s1) !! (w, rnd_DeviceID rnd) = Some d ∧ awaiting d pk (rnd_AuthToken rnd) c.
Proof.
  intros Hr Hst Hm Hpk. unfold register in Hr.
  assert (∀ t n s', n ≠ 201 → (Error t n, s') = (resp, s1) → False) as Hno.
  { intros t n s' Hn [= <- <-]. cbn in Hst. lia. }
  destruct (beginJSON r true (clock 0%nat) s) as [[resp'|] s0] eqn:Hb.
  { exfalso. injection Hr as <- <-. revert Hb Hst. unfold beginJSON.
    destruct (negb (_ =? _)%string); [intros [= <- <-]; discriminate|].
    destruct (allow _ _ _) as [[[]|] l]; cbn -[is_json_media];
      [destruct (negb _)| |]; intros [= <- <-]; discriminate. }
  rewrite Hm, Hpk in Hr. cbv zeta in Hr.
  destruct (RegisterPending _ _ _ _ _) as [[[[w dev] token] db]|e] eqn:Hreg.
  2: { exfalso. destruct (errors_Is _ _); [|destruct (errors_Is _ _)];
         by eapply Hno in Hr. }
  apply RegisterPending_awaiting in Hreg as (w' & c & d & [= <- -> ->] & Hc & Hz & Hd & Hs & Hrow & Ha).
  rewrite Hc in Hr. destruct (WorkspaceAuthorityPublicKey w db) as [key|].
  2: { exfalso. by eapply Hno in Hr. }
  injection Hr as <- <-. exists w, key, c, d. by split_and!.
Qed.

Lemma prove_accepts w dev pk token c d proof pb r clock s :
  awaiting d pk token c → device_rows (api_db s) !! (w, dev) = Some d →
  blen w = 16 → blen dev = 16 → blen token = 32 → blen (ic_Digest c) = 32 → blen (ic_Secret c) = 32 →
  DecodePendingIdentityProof pb = Ok proof →
  pr_workspace_id proof = w → pr_device_id proof = dev →
  pr_challenge_digest proof = ic_Digest c → pr_challenge_secret proof = ic_Secret c →
  Method r = "POST" → is_json_media (ContentType r) = true →
  Body r = proof_request w dev token pb → blen (Body r) ≤ maxMembershipBody →
  unixMillis (clock 1%nat) < unixMillis (ic_ExpiresAt c) →
  ∃ s' d', prove r clock s = (writeJSON 200 [("state", JString (bs "pending_approval"))], s') ∧
    device_rows (api_db s') !! (w, dev) = Some d' ∧ membership_state d' = pending_approval ∧
    e2ee_public_key d' = pk.
Proof.
  intros (Hh & Hst & Hrev & Hexp & Hdig & Hsec & Hpk) Hrow Hw Hdev Htok Hld Hls Hdec Ew Ed Eg Es
    Hm Hct Hbody Hmax Hnow.
  destruct (decode_proof_request r w dev token pb Hbody Hmax) as (m & Hj & Fw & Fd & Ft & Fp).
  unfold prove, beginJSON. rewrite Hm, Hct. cbn [String.eqb Ascii.eqb Bool.eqb negb].
  rewrite Hj, Fw, Fd, Ft, Fp.
  rewrite (proj2 (decodeCanonicalBase64URL_exact _ _ w)) by done.
  rewrite (proj2 (decodeCanonicalBase64URL_exact _ _ dev)) by done.
  rewrite (proj2 (decodeCanonicalBase64URL_exact _ _ token)) by done.
  rewrite RawURL_Decode_Encode, beq_refl, Hdec. cbn [negb].
  rewrite Ew, Ed, !beq_refl. cbn [negb orb].
  unfold CompletePendingIdentityProof. cbn [pip_AuthToken pip_ChallengeDigest pip_ChallengeSecret
    pip_WorkspaceID pip_DeviceID pip_Now]. rewrite Eg, Es, Htok, Hld, Hls. cbn [Z.eqb negb orb].
  change (32 =? authTokenBytes) with true. rewrite Hrow.
  assert (proof_matches (mkPendingIdentityProof w dev token (ic_Digest c) (ic_Secret c)
            (clock 1%nat)) d = true) as ->.
  { unfold proof_matches. cbn [pip_AuthToken pip_ChallengeDigest pip_ChallengeSecret pip_Now].
    rewrite Hh, Hst, Hrev, Hexp, Hdig, Hsec, beq_refl, !bool_decide_true by done. cbn [andb].
    rewrite Z.gtb_ltb, (proj2 (Z.ltb_lt _ _)) by done. done. }
  do 2 eexists. split_and!; [reflexivity|apply lookup_insert_eq|reflexivity|exact Hpk].
Qed.

(** C20: An honest device can enroll. When a registration is answered 201, the
    response carries an encrypted challenge that the holder of the registered
    identity key can open and answer, and while its row is untouched and the
    challenge has not expired the proof it then posts is accepted: the device is
    pending approval, with the key it registered. *)
Theorem honest_enrollment r clock rnd s resp s1 m pk sk :
  register r clock rnd s = (resp, s1) → Status resp = 201 →
  decodeMembershipJSON r registrationFields = inl m →
  RawURL_Decode (field m "e2ee_public_key") = Some pk → hpke_pair sk pk →
  blen (rnd_AuthToken rnd) = 32 →
  ∃ w key c proof,
    RespBody resp = Json (registered_fields w (rnd_DeviceID rnd) (rnd_AuthToken rnd) key c) ∧
    answer_challenge sk pk w (rnd_DeviceID rnd) (EncapsulatedKey c) (Ciphertext c) = Ok proof ∧
    ∀ pb r2 clock2 s2, EncodePendingIdentityProof proof = Ok pb →
      Method r2 = "POST" → is_json_media (ContentType r2) = true →
      Body r2 = proof_request w (rnd_DeviceID rnd) (rnd_AuthToken rnd) pb →
      blen (Body r2) ≤ maxMembershipBody →
      device_rows (api_db s2) !! (w, rnd_DeviceID rnd) =
        device_rows (api_db s1) !! (w, rnd_DeviceID rnd) →
      unixMillis (clock2 1%nat) < unixMillis (clock 1%nat + IdentityChallengeLifetime) →
      ∃ s3 d, prove r2 clock2 s2 = (writeJSON 200 [("state", JString (bs "pending_approval"))], s3) ∧
        device_rows (api_db s3) !! (w, rnd_DeviceID rnd) = Some d ∧
        membership_state d = pending_approval ∧ e2ee_public_key d = pk.
Proof.
  intros Hr Hst Hm Hpk Hpair Htok.
  destruct (register_created _ _ _ _ _ _ _ _ Hr Hst Hm Hpk)
    as (w & key & c & d & Hc & Hbody & Hz & Hld & Hls & Hrow & Ha).
  destruct (answer_challenge_ok _ _ _ _ _ _ _ _ Hpair Hc Hz)
    as (proof & Hans & Ew & Ed & Eg & Es & Hunk & Htyped & Hval).
  exists w, key, c, proof. split_and!; [done|done|].
  intros pb r2 clock2 s2 Henc Hm2 Hct Hb2 Hmax Hsame Hnow.
  destruct (CreateIdentityChallenge_ok _ _ _ _ _ _ _ Hc) as (_ & Hexp & _ & _ & _ & info & Hinfo & _).
  unfold PossessionHPKEInfo, validateBinding in Hinfo. apply rbind_Ok in Hinfo as ([] & Hv & _).
  apply guard_err_Ok in Hv. go_bool.
  unfold EncodePendingIdentityProof in Henc. rewrite Hval in Henc. cbn [rbind] in Henc.
  assert (DecodePendingIdentityProof pb = Ok proof) as Hdec.
  { unfold DecodePendingIdentityProof.
    rewrite (encode_decode _ _ _ _ proof_law Htyped Hunk Henc). cbn [rbind]. by rewrite Hval. }
  rewrite <-Hexp in Hnow. rewrite Hrow in Hsame.
  by eapply prove_accepts.
Qed.
End Enrollment.
