(* ===== verification/HttpExamples.v ===== *)
(** The HTTP API on concrete requests: a phone enrolls, and after its revocation
    it is refused. Instantiates the theorems about the API with an HPKE of the
    interface's laws. *)

From S2P Require Import Prelude GoStd GoNet GoWeb RateLimit ClientAddress.
From S2P Require Import DeliveryStore MembershipCodec WireModel Schema Admission MembershipStore StoreSteps.
From S2P Require Import StoreExamples IdentityChallenge HttpApi HttpProofs Enrollment.

#[local] Open Scope string_scope.
#[local] Open Scope Z_scope.

(** An HPKE with the interface's laws, to evaluate: the key pair is one value, and
    the ciphertext is the plaintext behind a tag of the key and the info. *)
Definition hpke_tag (pk info : bytes) : bytes := Sum256 (pk ++ info).

#[export] Instance hpke_model : HPKE := {|
  hpke_NewPublicKey pk := match P256_Unmarshal pk with Some _ => true | None => false end;
  hpke_Seal pk info rand pt := Some (rand, (hpke_tag pk info ++ pt)%list);
  hpke_Open sk enc info ct := strip_prefix (hpke_tag sk info) ct;
  hpke_pair sk pk := sk = pk |}.

Lemma strip_prefix_self p s : strip_prefix p (p ++ s)%list = Some s.
Proof. induction p as [|a p IH]; [done|]. cbn. by rewrite (Byte.byte_dec_lb eq_refl), IH. Qed.

#[export] Instance hpke_model_laws : HPKELaws.
Proof.
  constructor; cbn [hpke_pair hpke_Seal hpke_Open hpke_NewPublicKey].
  - intros sk pk info rand pt enc ct -> [= <- <-]. apply strip_prefix_self.
  - intros pk xy Hxy. cbn. by rewrite Hxy.
  - intros. eauto.
Qed.

Definition post (path : string) (body : bytes) : Request :=
  mkRequest "POST" path (bs "application/json") (mkClientInfo (bs "192.0.2.7:4711") []) body.

Definition api_over (db : DB) : Api :=
  from_ok (mkApi db (mkClientRateLimiter (mkFixedWindow ∅ 1 1 1) (mkResolver []))
             (mkClientRateLimiter (mkFixedWindow ∅ 1 1 1) (mkResolver [])))
    (NewProductionHandler db (mkResolver []) DefaultRateLimits).

Definition register_request : Request :=
  post "/v1/membership/register" (write_object
    [("pairing_code", RawURL_Encode pairing_secret); ("device_type", bs "android");
     ("device_name", bs "Pixel"); ("e2ee_public_key", RawURL_Encode p256_G)]).

Definition enroll_random : RegisterRandom :=
  mkRegisterRandom dev1 token1 challenge_secret (repeat Byte.x07 65).

Definition enroll_clock (n : nat) : Z := at_second 2.
Definition proof_clock (n : nat) : Z := at_second 3.

Definition enrolling : Response * Api :=
  register register_request enroll_clock enroll_random (api_over paired).

Definition fields_decoded (m : fields_of + Response) : fields_of :=
  match m with inl m => m | inr _ => ∅ end.
Definition is_inl {A B} (x : A + B) : bool := match x with inl _ => true | inr _ => false end.
Lemma fields_decoded_inl m : is_inl m = true → m = inl (fields_decoded m).
Proof. by destruct m. Qed.

(** The whole exchange: the device opens the challenge of the response, encodes
    its proof and posts it. *)
Definition response_field (name : string) (r : Response) : bytes :=
  match RespBody r with
  | Json l =>
      match List.find (λ x, String.eqb x.1 name) l with
      | Some (_, JString v) => default [] (RawURL_Decode v)
      | _ => []
      end
  | _ => []
  end.

Definition proving : Response * Api :=
  let '(resp, s) := enrolling in
  let w := response_field "workspace_id" resp in
  let dev := response_field "device_id" resp in
  let proof :=
    let? p := answer_challenge p256_G p256_G w dev (response_field "challenge_enc" resp)
                (response_field "challenge_ciphertext" resp) in
    EncodePendingIdentityProof p in
  prove (post "/v1/membership/prove"
           (proof_request w dev (response_field "auth_token" resp) (from_ok [] proof)))
    proof_clock s.

Example enrollment_runs : Status enrolling.1 = 201 ∧ Status proving.1 = 200.
Proof. split; vm_compute; reflexivity. Qed.

Lemma register_key :
  bool_decide (RawURL_Decode (field (fields_decoded (decodeMembershipJSON register_request
    registrationFields)) "e2ee_public_key") = Some p256_G) = true.
Proof. vm_compute. reflexivity. Qed.

Lemma enrolling_eq :
  register register_request enroll_clock enroll_random (api_over paired) = (enrolling.1, enrolling.2).
Proof. unfold enrolling. apply surjective_pairing. Qed.

Lemma honest_enrollment_witness :
  Status enrolling.1 = 201 ∧
  ∃ w key c proof,
    RespBody enrolling.1 = Json (registered_fields w dev1 token1 key c) ∧
    answer_challenge p256_G p256_G w dev1 (EncapsulatedKey c) (Ciphertext c) = Ok proof.
Proof.
  pose proof (proj1 enrollment_runs) as Hst. split; [exact Hst|].
  assert (is_inl (decodeMembershipJSON register_request registrationFields) = true) as Hj
    by (vm_compute; reflexivity).
  pose proof (bool_decide_eq_true_1 _ register_key) as Hk.
  destruct (honest_enrollment register_request enroll_clock enroll_random (api_over paired)
    enrolling.1 enrolling.2 _ p256_G p256_G enrolling_eq Hst
    (fields_decoded_inl _ Hj) Hk eq_refl eq_refl)
    as (w & key & c & proof & Hb & Ha & _).
  exists w, key, c, proof. split; [exact Hb|exact Ha].
Defined.

(** The phone of the store's run, revoked, asks for a preference. *)
Definition preference_request : Request :=
  post "/v1/workspace/preferences/read" (write_object
    [("workspace_id", RawURL_Encode ws1); ("device_id", RawURL_Encode dev1);
     ("auth_token", RawURL_Encode token1); ("key", theme)]).

Definition preference_fields : fields_of :=
  list_to_map [("workspace_id", RawURL_Encode ws1); ("device_id", RawURL_Encode dev1);
    ("auth_token", RawURL_Encode token1); ("key", theme)].

Lemma preference_request_decodes :
  bool_decide (fields_decoded (decodePreferenceJSON preference_request preferenceReadFields)
    = preference_fields) && is_inl (decodePreferenceJSON preference_request preferenceReadFields) = true.
Proof. vm_compute. reflexivity. Qed.

Lemma revoked_device_denied_over_http_witness :
  is_ok (RevokeDevice ws1 ref1 sk1 (at_second 10) joined) = true ∧
  ∀ events,
    let s := api_over (from_ok no_revocation (RevokeDevice ws1 ref1 sk1 (at_second 10) joined)).2 in
    readPreference preference_request proof_clock (api_run events s) =
    (preference_denied, api_run events s).
Proof.
  pose proof (f_revokes _ _ _ example_facts) as Hok. split; [exact Hok|]. intros events s.
  destruct (andb_prop _ _ preference_request_decodes) as [Hm Hi].
  apply (bool_decide_eq_true_1 _) in Hm.
  pose proof (fields_decoded_inl _ Hi) as Hd. rewrite Hm in Hd.
  destruct (revoked_device_denied_over_http ws1 ref1 sk1 (at_second 10) joined _ _ dev1 events s
    preference_request preference_fields proof_clock (is_ok_pair no_revocation _ Hok)
    (f_resolves _ _ _ example_facts) eq_refl eq_refl (conj eq_refl eq_refl)) as [Hread _].
  exact (Hread Hd).
Defined.
