(* ===== verification/AdminCredential.v ===== *)
(** The console account of internal/adminweb: password hashes (credential.go),
    time-based codes (totp.go) and the account itself (account.go). scrypt is the
    class [Scrypt] with what the console relies on. *)

From S2P Require Import Prelude GoStd GoNet GoWeb GoCrypto Schema.

#[local] Open Scope string_scope.
#[local] Open Scope Z_scope.

(** ** Password hashes *)

(** golang.org/x/crypto/scrypt: [scrypt_Key password salt N r p keyLen]. *)
Class Scrypt : Type := {
  scrypt_Key : bytes → bytes → Z → Z → Z → Z → option bytes
}.

(** A key has the requested length, and the parameters of new passwords derive
    one. *)
Class ScryptLaws `{Scrypt} : Prop := {
  scrypt_length pw salt N r p n k : scrypt_Key pw salt N r p n = Some k → blen k = n;
  scrypt_derives pw salt : is_Some (scrypt_Key pw salt (2 ^ 15) 8 1 32)
}.

Definition scryptMinLogN : Z := 10.
Definition scryptMaxLogN : Z := 20.
Definition scryptMaxR : Z := 32.
Definition scryptMaxP : Z := 8.
Definition scryptMinSalt : Z := 16.
Definition scryptMinDigest : Z := 32.
Definition newPasswordLogN : Z := 15.
Definition newPasswordR : Z := 8.
Definition newPasswordP : Z := 1.
Definition newPasswordDigest : Z := 32.

Record passwordHash : Type := mkPasswordHash {
  ph_logN : Z;
  ph_r : Z;
  ph_p : Z;
  ph_salt : bytes;
  ph_digest : bytes
}.

(** The loop over the [name=value] parameters. *)
Fixpoint parse_parameters (parameters : list bytes) (values : gmap bytes Z) : result (gmap bytes Z) :=
  match parameters with
  | [] => Ok values
  | parameter :: rest =>
      match cut 0x3D parameter with
      | (_, None) => Err (New "password hash parameters must be name=value")
      | (name, Some value) =>
          match ParseInt value with
          | None => Err (New "password hash parameters must be integers")
          | Some parsed => parse_parameters rest (<[name := parsed]> values)
          end
      end
  end.

Definition parsePasswordHash (encoded : bytes) : result passwordHash :=
  match Split 0x24 encoded with
  | [f0; f1; f2; f3; f4] =>
      fail_if negb (beq f0 []) || negb (beq f1 (bs "scrypt"))
        with_msg "password hash must use the PHC scrypt form" in
      let parameters := Split 0x2C f2 in
      fail_if negb (Nat.eqb (length parameters) 3)
        with_msg "password hash must carry exactly ln, r and p" in
      let? values := parse_parameters parameters ∅ in
      match values !! bs "ln", values !! bs "r", values !! bs "p" with
      | Some logN, Some blockSize, Some parallelism =>
          fail_if (logN <? scryptMinLogN) || (logN >? scryptMaxLogN) ||
                  (blockSize <? 1) || (blockSize >? scryptMaxR) ||
                  (parallelism <? 1) || (parallelism >? scryptMaxP)
            with_msg "password hash parameters are out of range" in
          match RawStd_Decode f3 with
          | None => Err (New "password hash salt must be unpadded base64 of at least 16 bytes")
          | Some salt =>
              fail_if blen salt <? scryptMinSalt
                with_msg "password hash salt must be unpadded base64 of at least 16 bytes" in
              match RawStd_Decode f4 with
              | None => Err (New "password hash digest must be unpadded base64 of at least 32 bytes")
              | Some digest =>
                  fail_if blen digest <? scryptMinDigest
                    with_msg "password hash digest must be unpadded base64 of at least 32 bytes" in
                  Ok (mkPasswordHash logN blockSize parallelism salt digest)
              end
          end
      | _, _, _ => Err (New "password hash must carry exactly ln, r and p")
      end
  | _ => Err (New "password hash must use the PHC scrypt form")
  end.

Section Password.
Context `{Scrypt}.

Definition hash_matches (h : passwordHash) (password : bytes) : bool :=
  match scrypt_Key password (ph_salt h) (2 ^ ph_logN h) (ph_r h) (ph_p h) (blen (ph_digest h)) with
  | Some candidate => beq candidate (ph_digest h)
  | None => false
  end.

(** [salt] is the random salt. *)
Definition hashPassword (password salt : bytes) : result bytes :=
  match scrypt_Key password salt (2 ^ newPasswordLogN) newPasswordR newPasswordP newPasswordDigest with
  | None => Err (New "derive password digest")
  | Some digest =>
      Ok (bs "$scrypt$ln=" ++ FormatInt newPasswordLogN ++ bs ",r=" ++ FormatInt newPasswordR ++
          bs ",p=" ++ FormatInt newPasswordP ++ bs "$" ++ RawStd_Encode salt ++ bs "$" ++
          RawStd_Encode digest)%list
  end.
End Password.

Definition constantTimeEquals (left right : bytes) : bool := beq (Sum256 left) (Sum256 right).

(** ** Time-based codes *)

Definition totpStepSeconds : Z := 30.
Definition totpDigits : Z := 6.
Definition totpSkewSteps : Z := 1.
Definition totpModulus : Z := 1000000.

Definition encodeTOTPSecret (secret : bytes) : bytes := base32_Encode secret.

Fixpoint formatTOTPSecret (fuel : nat) (encoded : bytes) : bytes :=
  match fuel with
  | O => encoded
  | S fuel =>
      if (length encoded <=? 4)%nat then encoded
      else take 4 encoded ++ z2b 0x20 :: formatTOTPSecret fuel (drop 4 encoded)
  end.

Definition parseTOTPSecret (encoded : bytes) : result bytes :=
  let normalized := upper (List.filter (λ c, negb (ch c 0x20)) (TrimSpace encoded)) in
  let normalized := trim_right 0x3D normalized in
  match base32_Decode normalized with
  | None => Err (New "TOTP secret must be base32 of at least 16 bytes")
  | Some secret =>
      fail_if blen secret <? 16 with_msg "TOTP secret must be base32 of at least 16 bytes" in
      Ok secret
  end.

(** [Unix() / 30], with the division of Go. *)
Definition totpCounter (moment : Z) : Z := Z.quot (moment / Second) totpStepSeconds.

Definition pad_digits (n : nat) (b : bytes) : bytes := (repeat (z2b 0x30) (n - length b) ++ b)%list.

Definition totpCode (secret : bytes) (counter : Z) : bytes :=
  let sum := hmac Sum1 secret (PutUint64 counter) in
  let offset := Z.to_nat (Z.land (b2z (default Byte.x00 (last sum))) 15) in
  let truncated := Z.land (be_get (slice offset (offset + 4) sum)) 0x7FFFFFFF in
  pad_digits 6 (print_base 10 (truncated mod totpModulus)).

(** RFC 6238, appendix B, with six digits. *)
Example totp_rfc6238 :
  totpCode (bs "12345678901234567890") (totpCounter (59 * Second)) = bs "287082" ∧
  totpCode (bs "12345678901234567890") (totpCounter (1111111109 * Second)) = bs "081804".
Proof. split; vm_compute; reflexivity. Qed.

Record totpVerifier : Type := mkTotpVerifier {
  tv_secret : bytes;
  tv_newest : Z;
  tv_armed : bool
}.

Definition newTOTPVerifier (secret : bytes) : totpVerifier := mkTotpVerifier secret 0 false.

Definition digitsOnly (value : bytes) : bool := forallb (in_range 0x30 0x39) value.

(** The loop over the steps: the last match. *)
Fixpoint match_step (v : totpVerifier) (candidate : bytes) (counters : list Z) (matched : option Z)
  : option Z :=
  match counters with
  | [] => matched
  | counter :: rest =>
      if tv_armed v && (counter <=? tv_newest v) then match_step v candidate rest matched
      else match_step v candidate rest
             (if beq (totpCode (tv_secret v) counter) candidate then Some counter else matched)
  end.

Definition verify (v : totpVerifier) (presented : bytes) (moment : Z) : bool * totpVerifier :=
  let candidate := TrimSpace presented in
  if negb (blen candidate =? totpDigits) || negb (digitsOnly candidate) then (false, v)
  else
    let current := totpCounter moment in
    match match_step v candidate
            (map (λ d, current + d) (seqZ (- totpSkewSteps) (2 * totpSkewSteps + 1))) None with
    | Some matched => (true, mkTotpVerifier (tv_secret v) matched true)
    | None => (false, v)
    end.

(** ** The account *)

Definition DefaultAdministratorName : bytes := bs "admin".
Definition defaultAdministratorPassword : bytes := bs "sevenmirror".
Definition minPasswordBytes : Z := 12.
Definition maxPasswordBytes : Z := 256.
Definition maxAccountNameBytes : Z := 64.

(** [a_secondFactor] is the address of the shared verifier. *)
Record account : Type := mkAccount {
  a_name : bytes;
  a_hash : passwordHash;
  a_secret : bytes;
  a_secondFactor : option nat;
  a_updatedAt : Z;
  a_initialized : bool
}.

(** The zero [time.Time], 0001-01-01 UTC. *)
Definition zero_time : Z := -62135596800 * Second.

Definition no_hash : passwordHash := mkPasswordHash 0 0 0 [] [].
Definition defaultAccount : account :=
  mkAccount DefaultAdministratorName no_hash [] None zero_time false.

Definition printableName (name : bytes) : bool :=
  forallb (λ c, negb ((b2z c <=? 0x20) || ch c 0x7F)) name.
Definition hasControlCharacter (value : bytes) : bool :=
  existsb (λ c, (b2z c <? 0x20) || ch c 0x7F) value.

Definition validateAccountName (name : bytes) : result unit :=
  guard_err (beq name [] || (blen name >? maxAccountNameBytes) || negb (printableName name))
    "用户名须为 1 到 64 个字节，不含空格或控制字符。".

Definition validateNewPassword (password : bytes) : result unit :=
  fail_if (blen password <? minPasswordBytes) || (blen password >? maxPasswordBytes)
    with_msg "新密码须为 12 到 256 个字节。" in
  fail_if beq (TrimSpace password) [] with_msg "新密码不能只由空格组成。" in
  fail_if hasControlCharacter password with_msg "新密码不能包含控制字符。" in
  guard_err (constantTimeEquals password defaultAdministratorPassword) "新密码不能沿用初始密码。".

(** [factor] is the address of the new verifier. *)
Definition accountFromCredential (c : AdministratorCredential) (factor : nat) : result account :=
  let name := TrimSpace (ac_Name c) in
  let? _ := wrapf "stored administrator name" (validateAccountName name) in
  let? hash := wrapf "stored administrator password hash" (parsePasswordHash (ac_PasswordHash c)) in
  let? secret := wrapf "stored administrator TOTP secret" (parseTOTPSecret (ac_TOTPSecret c)) in
  Ok (mkAccount name hash secret (Some factor) (ac_UpdatedAt c) true).

Definition nameMatches (a : account) (candidate : bytes) : bool :=
  if negb (a_initialized a) then constantTimeEquals candidate DefaultAdministratorName
  else constantTimeEquals candidate (a_name a).

Definition passwordMatches `{Scrypt} (a : account) (password : bytes) : bool :=
  if negb (a_initialized a) then constantTimeEquals password defaultAdministratorPassword
  else hash_matches (a_hash a) password.

(** ** Round trips *)

Lemma Split_none sep s : forallb (λ c, negb (ch c sep)) s = true → Split sep s = [s].
Proof.
  induction s as [|c s IH]; [done|]. cbn [forallb Split]. rewrite andb_true_iff, negb_true_iff.
  intros [-> Hs]. by rewrite IH.
Qed.

Lemma Split_app sep c s rest :
  forallb (λ c, negb (ch c sep)) s = true → ch c sep = true →
  Split sep (s ++ c :: rest) = s :: Split sep rest.
Proof.
  intros Hs Hc. induction s as [|x s IH]; cbn [app Split]; [by rewrite Hc|].
  cbn [forallb] in Hs. apply andb_true_iff in Hs as [Hx Hs]. apply negb_true_iff in Hx.
  by rewrite Hx, IH.
Qed.

Lemma RawStd_letters (P : byte → bool) b :
  forallb (λ i, P (to_std (sextet (Z.of_nat i)))) (seq 0 64) = true →
  forallb P (RawStd_Encode b) = true.
Proof.
  intros Hall. unfold RawStd_Encode. pose proof (sextet_forall (λ c, P (to_std c)) b Hall) as Hf.
  revert Hf. generalize (RawURL_Encode b). clear. induction l as [|c l IH]; [done|].
  cbn [forallb map]. rewrite !andb_true_iff. tauto.
Qed.

Section PasswordProofs.
Context `{Scrypt, !ScryptLaws}.

(** A new password hash parses, and matches the password it was made of. *)
Lemma hashPassword_parses password salt encoded :
  16 ≤ blen salt → hashPassword password salt = Ok encoded →
  ∃ h, parsePasswordHash encoded = Ok h ∧ hash_matches h password = true.
Proof.
  intros Hs. unfold hashPassword.
  destruct (scrypt_Key _ _ _ _ _ _) as [digest|] eqn:Hk; [|done]. intros He. apply Ok_inj in He as <-.
  pose proof (scrypt_length _ _ _ _ _ _ _ Hk) as Hd. unfold newPasswordDigest in Hd.
  exists (mkPasswordHash newPasswordLogN newPasswordR newPasswordP salt digest). split.
  - unfold parsePasswordHash.
    match goal with |- context [Split 0x24 ?t] => assert (Split 0x24 t =
      [[]; bs "scrypt"; bs "ln=15,r=8,p=1"; RawStd_Encode salt; RawStd_Encode digest]) as -> end.
    { change (bs "$scrypt$ln=" ++ FormatInt newPasswordLogN ++ bs ",r=" ++ FormatInt newPasswordR ++
        bs ",p=" ++ FormatInt newPasswordP ++ bs "$" ++ RawStd_Encode salt ++ bs "$" ++
        RawStd_Encode digest)%list
        with ([] ++ z2b 0x24 :: bs "scrypt" ++ z2b 0x24 :: bs "ln=15,r=8,p=1" ++ z2b 0x24 ::
              RawStd_Encode salt ++ z2b 0x24 :: RawStd_Encode digest)%list.
      assert (∀ b, forallb (λ c, negb (ch c 0x24)) (RawStd_Encode b) = true) as Hl
        by (intros b; apply RawStd_letters; vm_compute; reflexivity).
      rewrite (Split_app 0x24 (z2b 0x24) []) by reflexivity. f_equal.
      rewrite (Split_app 0x24 (z2b 0x24) (bs "scrypt")) by reflexivity. f_equal.
      rewrite (Split_app 0x24 (z2b 0x24) (bs "ln=15,r=8,p=1")) by reflexivity. f_equal.
      rewrite Split_app by (apply Hl || reflexivity). f_equal. apply Split_none, Hl. }
    rewrite guard_pass by reflexivity. cbn [rbind].
    assert (Split 0x2C (bs "ln=15,r=8,p=1") = [bs "ln=15"; bs "r=8"; bs "p=1"]) as ->
      by (vm_compute; reflexivity).
    rewrite guard_pass by reflexivity. cbn [rbind].
    assert (parse_parameters [bs "ln=15"; bs "r=8"; bs "p=1"] ∅ =
      Ok (<[bs "p" := 1]> (<[bs "r" := 8]> (<[bs "ln" := 15]> ∅)))) as -> by reflexivity.
    cbn [rbind].
    rewrite !(lookup_insert_ne _ _ (bs "ln")), lookup_insert_eq by discriminate.
    rewrite (lookup_insert_ne _ _ (bs "r")), lookup_insert_eq, lookup_insert_eq by discriminate.
    rewrite guard_pass by reflexivity. cbn [rbind]. rewrite !RawStd_Decode_Encode.
    rewrite guard_pass by (apply Z.ltb_ge; unfold scryptMinSalt; lia). cbn [rbind].
    by rewrite guard_pass by (apply Z.ltb_ge; unfold scryptMinDigest; lia).
  - unfold hash_matches. cbn [ph_salt ph_logN ph_r ph_p ph_digest]. rewrite Hd. unfold newPasswordDigest in Hk. rewrite Hk. apply beq_refl.
Qed.

Lemma hashPassword_length password salt encoded :
  blen salt = 16 → hashPassword password salt = Ok encoded → 0 < blen encoded ≤ 512.
Proof.
  intros Hs. unfold hashPassword.
  destruct (scrypt_Key _ _ _ _ _ _) as [digest|] eqn:Hk; [|done]. intros He. apply Ok_inj in He as <-.
  pose proof (scrypt_length _ _ _ _ _ _ _ Hk) as Hd. unfold newPasswordDigest in Hd.
  assert (∀ b, blen (RawStd_Encode b) ≤ 2 * blen b + 1) as Hb.
  { intros b. unfold RawStd_Encode, blen. rewrite length_map. clear.
    induction b as [b IH] using (induction_ltof1 _ (@length byte)). unfold ltof in IH.
    destruct b as [|x [|y [|z r]]]; cbn [RawURL_Encode length]; [lia..|].
    specialize (IH r ltac:(cbn; lia)). lia. }
  pose proof (Hb salt). pose proof (Hb digest). pose proof (blen_nonneg (RawStd_Encode salt)).
  pose proof (blen_nonneg (RawStd_Encode digest)). rewrite !blen_app.
  change (blen (bs "$scrypt$ln=")) with 11. change (blen (FormatInt newPasswordLogN)) with 2.
  change (blen (bs ",r=")) with 3. change (blen (FormatInt newPasswordR)) with 1.
  change (blen (bs ",p=")) with 3. change (blen (FormatInt newPasswordP)) with 1.
  change (blen (bs "$")) with 1. lia.
Qed.
End PasswordProofs.

(** *** Shared secrets *)

Lemma TrimSpace_ends s c d :
  head s = Some c → last s = Some d → no_space_byte c = true → no_space_byte d = true →
  TrimSpace s = s.
Proof.
  intros Hc Hd Nc Nd. unfold no_space_byte in Nc, Nd.
  rewrite forallb_app, andb_true_iff in Nc, Nd. destruct Nc as [Nc _], Nd as [_ Nd].
  unfold TrimSpace. rewrite (trim_fuel_none _ space_runes).
  - rewrite trim_fuel_none; [apply rev_involutive|].
    apply last_Some in Hd as (s' & ->). rewrite rev_app_distr. cbn [rev app].
    exact (strip_any_head _ _ _ Nd).
  - destruct s as [|x s]; [discriminate|]. injection Hc as ->. exact (strip_any_head _ _ _ Nc).
Qed.

Definition letter_byte (c : byte) : bool :=
  no_space_byte c && negb (in_range 0x61 0x7A c) && (b2z c <? 0x80) && negb (ch c 0x3D) &&
  negb (ch c 0x20).

Lemma encode_letters b : forallb letter_byte (base32_Encode b) = true.
Proof. apply base32_forall. vm_compute. reflexivity. Qed.

Lemma upper_letters s : forallb letter_byte s = true → upper s = s.
Proof.
  induction s as [|c s IH]; [done|]. cbn [forallb upper]. rewrite andb_true_iff. intros [Hc Hs].
  unfold letter_byte in Hc. rewrite !andb_true_iff, !negb_true_iff in Hc.
  destruct Hc as [[[[_ Hl] Hb] _] _]. rewrite Hl, IH by done. destruct s as [|d s]; [done|].
  apply Z.ltb_lt in Hb. unfold ch. rewrite !(proj2 (Z.eqb_neq (b2z c) _)) by lia. done.
Qed.

Lemma trim_right_letters s : forallb letter_byte s = true → trim_right 0x3D s = s.
Proof.
  induction s as [|c s IH]; [done|]. cbn [forallb trim_right]. rewrite andb_true_iff. intros [Hc Hs].
  rewrite IH by done. unfold letter_byte in Hc. rewrite !andb_true_iff, !negb_true_iff in Hc.
  destruct Hc as [[_ Hc] _]. rewrite Hc. by destruct s.
Qed.

(** A text that is the encoding but for spaces inside it. *)
Lemma parseTOTPSecret_spaced s text :
  16 ≤ blen s → List.filter (λ c, negb (ch c 0x20)) text = encodeTOTPSecret s →
  head text = head (encodeTOTPSecret s) → last text = last (encodeTOTPSecret s) →
  parseTOTPSecret text = Ok s.
Proof.
  intros Hs Hf Hh Hl. unfold parseTOTPSecret, encodeTOTPSecret in *.
  pose proof (encode_letters s) as He. pose proof He as Hall. rewrite forallb_forall in Hall.
  assert (∀ c, letter_byte c = true → no_space_byte c = true) as Hn.
  { intros c Hc. unfold letter_byte in Hc. rewrite !andb_true_iff in Hc. apply Hc. }
  assert (base32_Encode s ≠ []) as Hne.
  { intros E. pose proof (base32_Decode_Encode s) as D. rewrite E in D. injection D as <-.
    unfold blen in Hs. cbn in Hs. lia. }
  destruct (base32_Encode s) as [|c e] eqn:E; [done|].
  assert (is_Some (last (c :: e))) as [d Hd] by (apply last_is_Some; done).
  rewrite (TrimSpace_ends text c d).
  - rewrite Hf, upper_letters, trim_right_letters, <-E, base32_Decode_Encode by done.
    by rewrite guard_pass by (apply Z.ltb_ge; lia).
  - exact Hh.
  - by rewrite Hl.
  - apply Hn, Hall. by left.
  - apply Hn, Hall, list_elem_of_In, last_Some_elem_of. exact Hd.
Qed.

Lemma parseTOTPSecret_encode s : 16 ≤ blen s → parseTOTPSecret (encodeTOTPSecret s) = Ok s.
Proof.
  intros Hs. apply parseTOTPSecret_spaced; try done. apply filter_forallb.
  apply base32_forall. vm_compute. reflexivity.
Qed.

Lemma formatTOTPSecret_spec fuel e :
  forallb letter_byte e = true →
  List.filter (λ c, negb (ch c 0x20)) (formatTOTPSecret fuel e) = e ∧
  head (formatTOTPSecret fuel e) = head e ∧ last (formatTOTPSecret fuel e) = last e.
Proof.
  assert (∀ l, forallb letter_byte l = true → List.filter (λ c, negb (ch c 0x20)) l = l) as Hf.
  { intros l Hl. apply filter_forallb. rewrite forallb_forall in *. intros c Hc.
    specialize (Hl c Hc). unfold letter_byte in Hl. rewrite !andb_true_iff in Hl. apply Hl. }
  revert e. induction fuel as [|fuel IH]; intros e He; cbn [formatTOTPSecret]; [by auto|].
  destruct (Nat.leb_spec (length e) 4) as [Hl|Hl]; [by auto|].
  assert (forallb letter_byte (take 4 e) = true ∧ forallb letter_byte (drop 4 e) = true) as [H1 H2].
  { rewrite <-(take_drop 4 e), forallb_app, andb_true_iff in He. exact He. }
  destruct (IH _ H2) as (Ff & _ & Fl). split_and!.
  - rewrite List.filter_app, (Hf _ H1). cbn [List.filter]. change (ch (z2b 0x20) 0x20) with true.
    cbn [negb]. by rewrite Ff, take_drop.
  - destruct e as [|c e]; [cbn in Hl; lia|]. done.
  - rewrite <-(take_drop 4 e) at 3. rewrite !last_app, last_cons, Fl.
    destruct (last (drop 4 e)) as [d|] eqn:E; [done|].
    apply last_None in E. apply (f_equal length) in E. rewrite length_drop in E. cbn in E. lia.
Qed.

(** What the setup page shows is the secret: read back by hand, with its spaces,
    it is the secret again. *)
Lemma parseTOTPSecret_format s fuel :
  16 ≤ blen s → parseTOTPSecret (formatTOTPSecret fuel (encodeTOTPSecret s)) = Ok s.
Proof.
  intros Hs. destruct (formatTOTPSecret_spec fuel (encodeTOTPSecret s) (encode_letters s))
    as (Hf & Hh & Hl). by apply parseTOTPSecret_spaced.
Qed.

(** *** Verification *)

Lemma match_step_sound v cand counters m c :
  match_step v cand counters m = Some c →
  m = Some c ∨ (c ∈ counters ∧ (tv_armed v = true → tv_newest v < c) ∧
                totpCode (tv_secret v) c = cand).
Proof.
  revert m. induction counters as [|x l IH]; intros m; cbn [match_step]; [auto|].
  destruct (tv_armed v && (x <=? tv_newest v)) eqn:E.
  - intros Hm. destruct (IH m Hm) as [?|(Hin & ? & ?)]; [by left|right].
    split_and!; try done. by apply elem_of_cons; right.
  - intros Hm. apply IH in Hm as [Hm|(Hin & ? & ?)].
    + destruct (beq _ cand) eqn:Eb; [|by left]. injection Hm as <-. right.
      apply beq_true in Eb. split_and!; [by apply elem_of_cons; left| |done].
      intros Ha. rewrite Ha in E. cbn [andb] in E. apply Z.leb_gt in E. lia.
    + right. split_and!; try done. by apply elem_of_cons; right.
Qed.

Lemma match_step_complete v cand counters m c :
  c ∈ counters → (tv_armed v = true → tv_newest v < c) → totpCode (tv_secret v) c = cand →
  is_Some (match_step v cand counters m).
Proof.
  intros Hin Ha Hc. assert (∀ l m, is_Some m → is_Some (match_step v cand l m)) as Hkeep.
  { induction l as [|x l IH]; intros m' Hm; cbn [match_step]; [done|].
    destruct (_ && _); [by apply IH|]. apply IH. destruct (beq _ _); [eauto|done]. }
  revert m. induction counters as [|x l IH]; intros m; [by apply elem_of_nil in Hin|].
  cbn [match_step]. apply elem_of_cons in Hin as [<-|Hin].
  - destruct (tv_armed v && (c <=? tv_newest v)) eqn:E.
    { apply andb_true_iff in E as [E1 E2]. apply Z.leb_le in E2. specialize (Ha E1). lia. }
    rewrite Hc, beq_refl. apply Hkeep. eauto.
  - destruct (_ && _); by apply IH.
Qed.

(** What an accepted code means, and what it leaves behind. *)
Lemma verify_accepts v presented moment v' :
  verify v presented moment = (true, v') →
  ∃ c, v' = mkTotpVerifier (tv_secret v) c true ∧ (tv_armed v = true → tv_newest v < c) ∧
    totpCounter moment - 1 ≤ c ≤ totpCounter moment + 1 ∧
    totpCode (tv_secret v) c = TrimSpace presented.
Proof.
  unfold verify. destruct (_ || _); [done|].
  destruct (match_step _ _ _ _) as [c|] eqn:E; [|done]. intros [= <-]. exists c.
  apply match_step_sound in E as [?|(Hin & Ha & Hc)]; [done|]. split_and!; try done.
  all: apply list_elem_of_fmap in Hin as (d & -> & Hd); apply elem_of_seqZ in Hd;
    unfold totpSkewSteps in Hd; lia.
Qed.

Lemma verify_rejects v presented moment v' : verify v presented moment = (false, v') → v' = v.
Proof.
  unfold verify. destruct (_ || _); [by intros [= <-]|]. by destruct (match_step _ _ _ _); intros [= <-].
Qed.

Lemma digits_length fuel base z acc k :
  1 < base → 0 ≤ z < base ^ Z.of_nat (S k) →
  (length (digits fuel base z acc) ≤ S k + length acc)%nat.
Proof.
  intros Hb. revert z acc k. induction fuel as [|fuel IH]; intros z acc k Hz; cbn [digits]; [lia|].
  destruct (Z.ltb_spec z base); [cbn; lia|]. destruct k as [|k].
  { change (base ^ Z.of_nat 1) with (base ^ 1) in Hz. rewrite Z.pow_1_r in Hz. lia. }
  specialize (IH (z / base) (z mod base :: acc) k). cbn [length] in IH.
  enough (0 ≤ z / base < base ^ Z.of_nat (S k)) by (specialize (IH ltac:(done)); lia).
  split; [apply Z.div_pos; lia|]. apply Z.div_lt_upper_bound; [lia|].
  rewrite Nat2Z.inj_succ, Z.pow_succ_r in Hz by lia. lia.
Qed.

Lemma digit_char_range d : 0 ≤ d < 10 → in_range 0x30 0x39 (digit_char d) = true.
Proof.
  intros Hd. unfold in_range, digit_char. rewrite (proj2 (Z.ltb_lt d 10)) by lia.
  rewrite b2z_z2b, Z.mod_small by lia. apply andb_true_iff. rewrite !Z.leb_le. lia.
Qed.

Lemma pad_digits_spec n z :
  0 ≤ z < 10 ^ Z.of_nat (S n) → (S n ≤ 64)%nat →
  blen (pad_digits (S n) (print_base 10 z)) = Z.of_nat (S n) ∧
  digitsOnly (pad_digits (S n) (print_base 10 z)) = true.
Proof.
  intros Hz Hn. pose proof (digits_length 64 10 z [] n ltac:(lia) Hz) as Hl. cbn [length] in Hl.
  unfold pad_digits, print_base. split.
  - unfold blen. rewrite length_app, repeat_length, length_fmap. lia.
  - unfold digitsOnly. rewrite forallb_app. apply andb_true_iff. split.
    + apply forallb_forall. intros c Hc. apply repeat_spec in Hc as ->. reflexivity.
    + apply forallb_forall. intros c Hc. apply list_elem_of_In, list_elem_of_fmap in Hc as (d & -> & Hd).
      apply digit_char_range.
      assert (Forall (λ d, 0 ≤ d < 10) (digits 64 10 z [])) as Hf.
      { apply digits_bounds; [lia|lia|constructor|]. eapply Z.lt_le_trans; [apply Hz|].
        apply Z.pow_le_mono_r; lia. }
      rewrite Forall_forall in Hf. by apply Hf.
Qed.

Lemma totpCode_spec secret c :
  blen (totpCode secret c) = totpDigits ∧ digitsOnly (totpCode secret c) = true.
Proof. apply (pad_digits_spec 5); [|lia]. apply Z.mod_pos_bound. reflexivity. Qed.

Lemma digits_trimmed s : digitsOnly s = true → TrimSpace s = s.
Proof.
  intros Hs. apply TrimSpace_plain. unfold digitsOnly in Hs. rewrite forallb_forall in *.
  intros c Hc. specialize (Hs c Hc). revert Hs. clear. destruct c; vm_compute; congruence.
Qed.

(** The code of the current step is accepted unless that step, or a later one,
    was used. *)
Lemma verify_current v moment :
  (tv_armed v = true → tv_newest v < totpCounter moment) →
  ∃ v', verify v (totpCode (tv_secret v) (totpCounter moment)) moment = (true, v').
Proof.
  intros Ha. destruct (totpCode_spec (tv_secret v) (totpCounter moment)) as [Hl Hd].
  unfold verify. rewrite (digits_trimmed _ Hd), Hl, Hd, Z.eqb_refl. cbn [negb orb].
  destruct (match_step_complete v (totpCode (tv_secret v) (totpCounter moment))
    (map (λ d, totpCounter moment + d) (seqZ (- totpSkewSteps) (2 * totpSkewSteps + 1))) None
    (totpCounter moment)) as [c Hc]; [|done|done|rewrite Hc; eauto].
  apply list_elem_of_fmap. exists 0. split; [lia|]. apply elem_of_seqZ. unfold totpSkewSteps. lia.
Qed.

Lemma base32_nonempty b : blen (base32_Encode b) = 0 → blen b = 0.
Proof.
  intros E. pose proof (base32_Decode_Encode b) as D. unfold blen in *.
  destruct (base32_Encode b); [|cbn in E; lia]. injection D as <-. done.
Qed.

Lemma groups32_length n bits v : length (groups32 n bits v) = n.
Proof. revert bits. induction n as [|n IH]; intros bits; [done|]. cbn. by rewrite IH. Qed.

Lemma base32_length b n : blen b ≤ n → blen (base32_Encode b) ≤ 2 * n.
Proof.
  enough (blen (base32_Encode b) ≤ 2 * blen b) by lia. unfold blen. clear n.
  induction b as [b IH] using (induction_ltof1 _ (@length byte)). unfold ltof in IH.
  destruct b as [|x [|y [|z [|u [|v r]]]]]; cbn [base32_Encode];
    rewrite ?length_app, ?groups32_length; cbn [length]; try lia.
  specialize (IH r ltac:(cbn; lia)). lia.
Qed.

(** ** Stored credentials *)

Section Stored.
Context `{Scrypt, !ScryptLaws}.

(** The credential that the setup stores. *)
Definition setup_credential (name hash secret : bytes) (now : Z) : AdministratorCredential :=
  mkAdministratorCredential name hash (encodeTOTPSecret secret) now.

(** It passes the store's validation and reads back as the account with this
    name, password and secret. *)
Lemma setup_credential_reads raw password salt hash secret now factor :
  validateAccountName (TrimSpace raw) = Ok tt → blen salt = 16 → hashPassword password salt = Ok hash →
  blen secret = 20 →
  let c := setup_credential (TrimSpace raw) hash secret now in
  validateAdministratorCredential c = Ok tt ∧
  ∃ h, hash_matches h password = true ∧
    accountFromCredential c factor = Ok (mkAccount (TrimSpace raw) h secret (Some factor) now true).
Proof.
  intros Hname Hsalt Hhash Hsecret c.
  destruct (hashPassword_parses password salt hash ltac:(lia) Hhash) as (h & Hp & Hm). split.
  - unfold validateAdministratorCredential, c, setup_credential, encodeTOTPSecret.
    cbn [ac_Name ac_PasswordHash ac_TOTPSecret].
    unfold validateAccountName in Hname. apply guard_err_Ok in Hname.
    apply orb_false_iff in Hname as [Hn _]. apply orb_false_iff in Hn as [Hn1 Hn2].
    pose proof (hashPassword_length password salt hash Hsalt Hhash) as Hl.
    rewrite !guard_pass; [done|..].
    + apply orb_false_iff. split.
      * apply Z.eqb_neq. intros E. apply base32_nonempty in E; lia.
      * rewrite Z.gtb_ltb. apply Z.ltb_ge. pose proof (base32_length secret 20). lia.
    + rewrite Z.gtb_ltb. apply orb_false_iff. split; [apply Z.eqb_neq; lia|apply Z.ltb_ge; lia].
    + apply orb_false_iff. split; [|exact Hn2]. apply Z.eqb_neq. intros E. unfold blen in E.
      destruct (TrimSpace raw); [done|cbn in E; lia].
  - exists h. split; [done|]. unfold accountFromCredential, c, setup_credential.
    cbn [ac_Name ac_PasswordHash ac_TOTPSecret ac_UpdatedAt].
    rewrite TrimSpace_idem, Hname, Hp, parseTOTPSecret_encode by lia. reflexivity.
Qed.
End Stored.
