(* ===== verification/FileSystem.v ===== *)
(** A file system and the calls of package os on it, for one process.

    A path is a Go string; what it names are its elements below the root, in the
    working directory. Nodes are directories, regular files, symbolic links and
    others; a link may be the last element of a path, links among the parents are
    outside the model, and so are other processes. Every call may fail: an oracle
    tells which do, and how much a failing write wrote. *)

From S2P Require Import Prelude GoStd GoNet GoCrypto GoPath.

#[local] Open Scope string_scope.
#[local] Open Scope Z_scope.

(** ** Nodes *)

Abbreviation path := (list bytes).

Inductive node : Type :=
| Dir (perm : Z)
| File (perm : Z) (data : bytes)
| Link (target : path)
| Other (perm : Z).

#[export] Instance node_eq_dec : EqDecision node.
Proof. solve_decision. Defined.

Abbreviation files :=
  (@gmap path (@list_eq_dec bytes (@list_eq_dec _ byte_eq_decision))
     (@list_countable bytes _ (@list_countable _ _ byte_countable)) node).

(** The working directory and the mode bits that new nodes do not get. *)
Class Process : Type := {
  cwd : bytes;
  cwd_rooted : rooted cwd = true;
  umask : Z
}.

Definition abs `{Process} (p : bytes) : path := Abs cwd p.
Definition unmasked `{Process} (perm : Z) : Z := Z.ldiff perm umask.

Definition owner_only : Z := 0x180.
Definition owner_dir : Z := 0x1C0.

Definition ErrExist : error := New "file exists".
Definition ErrNotExist : error := New "no such file or directory".

(** What a failing call reports. *)
Definition io_fault : error := New "input/output error".

(** ** Programs *)

(** Which calls fail, how much a failing write wrote, and what else a failing
    writer may leave in its file. *)
Record oracle : Type := mkOracle {
  fails : nat → bool;
  wrote : nat → nat;
  garbled : nat → bytes
}.

(** A program runs against an oracle from the number of calls made so far and a
    file system. *)
Definition io (A : Type) : Type := oracle → nat * files → result A * (nat * files).

Definition io_ret {A} (a : A) : io A := λ _ s, (Ok a, s).
Definition io_err {A} (e : error) : io A := λ _ s, (Err e, s).
Definition io_result {A} (r : result A) : io A := λ _ s, (r, s).

Definition io_bind {A B} (m : io A) (next : A → io B) : io B := λ o s,
  match m o s with
  | (Ok a, s') => next a o s'
  | (Err e, s') => (Err e, s')
  end.

Create HintDb fs.

Declare Scope io_scope.
Delimit Scope io_scope with io.
Notation "'do!' x ':=' m 'in' k" := (io_bind m (λ x, k))
  (at level 200, x pattern, k at level 200) : io_scope.

(** [fmt.Errorf("context: %w", err)] *)
Definition io_wrapf {A} (context : string) (m : io A) : io A := λ o s,
  let '(r, s') := m o s in (wrapf context r, s').

(** A deferred cleanup, which runs when [m] fails; its own errors are ignored. *)
Definition on_error {A} (m : io A) (cleanup : io unit) : io A := λ o s,
  match m o s with
  | (Ok a, s') => (Ok a, s')
  | (Err e, s') => (Err e, (cleanup o s').2)
  end.

(** The failure of [m] as a value. *)
Definition io_try {A} (m : io A) : io (result A) := λ o s, let '(r, s') := m o s in (Ok r, s').

(** One call: it may fail and change nothing, or do [f]. *)
Definition call {A} (f : files → result A * files) : io A := λ o '(t, fs),
  if fails o t then (Err (io_fault), (S t, fs))
  else let '(r, fs') := f fs in (r, (S t, fs')).

(** A call that only reads. *)
Definition reading {A} (f : files → result A) : io A := call (λ fs, (f fs, fs)).

(** ** Calls *)

Section Calls.
Context `{Process}.

(** The root directory always exists. *)
Definition lookup_node (fs : files) (p : path) : option node :=
  match fs !! p with
  | Some n => Some n
  | None => if bool_decide (p = []) then Some (Dir 0x1ED) else None
  end.

Definition is_dir (fs : files) (p : path) : bool :=
  match lookup_node fs p with Some (Dir _) => true | _ => false end.

Definition parent (p : path) : path := removelast p.

(** Links at the end of a path. *)
Fixpoint follow (n : nat) (fs : files) (p : path) : option path :=
  match fs !! p with
  | Some (Link t) => match n with O => None | S n => follow n fs t end
  | _ => Some p
  end.
Definition max_links : nat := 40.

(** [os.Lstat] *)
Definition Lstat (p : path) (fs : files) : result node :=
  match lookup_node fs p with Some n => Ok n | None => Err ErrNotExist end.

(** [os.Open] and [File.Stat]: the node behind the links. *)
Definition Open (p : path) (fs : files) : result node :=
  match follow max_links fs p with
  | Some q => match lookup_node fs q with
              | Some n => Ok n
              | None => Err ErrNotExist
              end
  | None => Err (New "too many levels of symbolic links")
  end.

Definition is_link (n : node) : bool := match n with Link _ => true | _ => false end.
Definition is_directory (n : node) : bool := match n with Dir _ => true | _ => false end.
Definition is_regular (n : node) : bool := match n with File _ _ => true | _ => false end.

(** [Mode().Perm()] *)
Definition perm_of (n : node) : Z :=
  match n with Dir p | File p _ | Other p => p | Link _ => 0x1FF end.

(** [io.ReadAll] of an opened node *)
Definition ReadAll (n : node) : result bytes :=
  match n with File _ data => Ok data | _ => Err (New "read") end.

(** [os.Mkdir] *)
Definition Mkdir (p : path) (perm : Z) : io unit := call (λ fs,
  match lookup_node fs p with
  | Some _ => (Err ErrExist, fs)
  | None => if is_dir fs (parent p) then (Ok tt, <[p := Dir (unmasked perm)]> fs)
            else (Err ErrNotExist, fs)
  end).

(** One directory of [os.MkdirAll]. *)
Definition mkdir_missing (p : path) (perm : Z) : io unit := call (λ fs,
  match Open p fs with
  | Ok (Dir _) => (Ok tt, fs)
  | Ok _ => (Err (New "not a directory"), fs)
  | Err _ => match lookup_node fs p with
             | Some _ => (Err ErrExist, fs)
             | None => if is_dir fs (parent p) then (Ok tt, <[p := Dir (unmasked perm)]> fs)
                       else (Err ErrNotExist, fs)
             end
  end).

(** The directories of a path, from the root down. *)
Fixpoint ancestry (done rest : path) : list path :=
  match rest with [] => [] | e :: rest => ((done ++ [e]) :: ancestry (done ++ [e]) rest)%list end.

Fixpoint mkdir_each (ps : list path) (perm : Z) : io unit :=
  match ps with
  | [] => io_ret tt
  | p :: ps => (do! _ := mkdir_missing p perm in mkdir_each ps perm)%io
  end.

(** [os.MkdirAll] *)
Definition MkdirAll (p : path) (perm : Z) : io unit := mkdir_each ([] :: ancestry [] p) perm.

Definition set_perm (perm : Z) (n : node) : node :=
  match n with Dir _ => Dir perm | File _ d => File perm d | Other _ => Other perm | Link t => Link t end.

(** [os.Chmod] *)
Definition Chmod (p : path) (perm : Z) : io unit := call (λ fs,
  match follow max_links fs p with
  | Some q => match lookup_node fs q with
              | Some n => (Ok tt, <[q := set_perm perm n]> fs)
              | None => (Err ErrNotExist, fs)
              end
  | None => (Err (New "too many levels of symbolic links"), fs)
  end).

(** [os.OpenFile] with [O_CREATE|O_EXCL] *)
Definition CreateExclusive (p : path) (perm : Z) : io unit := call (λ fs,
  match lookup_node fs p with
  | Some _ => (Err ErrExist, fs)
  | None => if is_dir fs (parent p) then (Ok tt, <[p := File (unmasked perm) []]> fs)
            else (Err ErrNotExist, fs)
  end).

(** [File.Chmod], on the file that this process created at [p]. *)
Definition FChmod (p : path) (perm : Z) : io unit := call (λ fs,
  match fs !! p with
  | Some n => (Ok tt, <[p := set_perm perm n]> fs)
  | None => (Err ErrNotExist, fs)
  end).

Definition put_data (p : path) (data : bytes) (fs : files) : files :=
  match fs !! p with Some (File perm _) => <[p := File perm data]> fs | _ => fs end.

(** [File.Write], on the empty file that this process created at [p]; a failing
    write may have written a part. *)
Definition Write (p : path) (data : bytes) : io unit := λ o '(t, fs),
  if fails o t then (Err (io_fault), (S t, put_data p (take (wrote o t) data) fs))
  else (Ok tt, (S t, put_data p data fs)).

(** [File.Sync] and [File.Close] *)
Definition Sync : io unit := call (λ fs, (Ok tt, fs)).
Definition Close : io unit := call (λ fs, (Ok tt, fs)).

(** What follows the creation of a protected file: its mode, its content, and both
    on the disk. *)
Definition fill_protected (p : path) (content : bytes) : io unit :=
  (do! _ := FChmod p owner_only in
   do! _ := Write p content in
   do! _ := Sync in
   Close)%io.

(** [os.Remove] *)
Definition Remove (p : path) : io unit := call (λ fs,
  match fs !! p with
  | Some (Dir _) =>
      if bool_decide (map_Forall (λ q _, q = p ∨ ¬ p `prefix_of` q) fs) then (Ok tt, delete p fs)
      else (Err (New "directory not empty"), fs)
  | Some _ => (Ok tt, delete p fs)
  | None => (Err ErrNotExist, fs)
  end).

Definition below (p q : path) : bool := bool_decide (p `prefix_of` q).

(** [os.RemoveAll] *)
Definition RemoveAll (p : path) : io unit :=
  call (λ fs, (Ok tt, filter (λ x, below p x.1 = false) fs)).

(** [os.ReadDir]: the names in a directory. *)
Definition entries_of (fs : files) (p : path) : list bytes :=
  omap (λ x, if bool_decide (x.1 ≠ []) && bool_decide (parent x.1 = p) then last x.1 else None)
    (map_to_list fs).

Definition ReadDir (p : path) (fs : files) : result (list bytes) :=
  match follow max_links fs p with
  | Some q => if is_dir fs q then Ok (entries_of fs q) else Err (New "not a directory")
  | None => Err (New "too many levels of symbolic links")
  end.
End Calls.

(** ** Weakest preconditions

    [wp o m Q E fs]: from [fs], against [o], a success of [m] satisfies [Q] and a
    failure [E]. *)
Definition wp {A : Type} (o : oracle) (m : io A) (Q : A → files → Prop) (E : error → files → Prop)
  (fs : files) : Prop :=
  ∀ t, match m o (t, fs) with
       | (Ok a, (_, fs')) => Q a fs'
       | (Err e, (_, fs')) => E e fs'
       end.

(** Some call fails; no call does. *)
Definition faulty (o : oracle) : Prop := ∃ t, fails o t = true.
Definition healthy (o : oracle) : Prop := ∀ t, fails o t = false.

Lemma healthy_faulty o : healthy o → ¬ faulty o.
Proof. intros Hh [t Ht]. by rewrite Hh in Ht. Qed.

Section Rules.
Context (o : oracle).
Implicit Types fs : files.

Lemma wp_ret {A : Type} (a : A) (Q : A → files → Prop) (E : error → files → Prop) fs : Q a fs → wp o (io_ret a) Q E fs.
Proof. by intros HQ t. Qed.
Lemma wp_err {A : Type} (e : error) (Q : A → files → Prop) (E : error → files → Prop) fs : E e fs → wp o (io_err e) Q E fs.
Proof. by intros HE t. Qed.
Lemma wp_result {A : Type} (r : result A) (Q : A → files → Prop) (E : error → files → Prop) fs :
  match r with Ok a => Q a fs | Err e => E e fs end → wp o (io_result r) Q E fs.
Proof. intros Hr t. unfold io_result. by destruct r. Qed.

Lemma wp_bind {A B : Type} (m : io A) (next : A → io B) (Q : B → files → Prop) (E : error → files → Prop) fs :
  wp o m (λ a, wp o (next a) Q E) E fs → wp o (io_bind m next) Q E fs.
Proof.
  intros Hm t. unfold io_bind. specialize (Hm t). destruct (m o (t, fs)) as [[a|e] [t' fs']]; [|done].
  apply Hm.
Qed.

Lemma wp_mono {A : Type} (m : io A) (Q Q' : A → files → Prop) (E E' : error → files → Prop) fs :
  wp o m Q E fs → (∀ a fs', Q a fs' → Q' a fs') → (∀ e fs', E e fs' → E' e fs') → wp o m Q' E' fs.
Proof. intros Hm HQ HE t. specialize (Hm t). destruct (m o (t, fs)) as [[a|e] [t' fs']]; auto. Qed.

Lemma wp_wrapf {A : Type} c (m : io A) (Q : A → files → Prop) (E : error → files → Prop) fs :
  wp o m Q (λ e : error, E (Wrapf c e)) fs → wp o (io_wrapf c m) Q E fs.
Proof.
  intros Hm t. unfold io_wrapf. specialize (Hm t). by destruct (m o (t, fs)) as [[a|e] [t' fs']].
Qed.

Lemma wp_try {A : Type} (m : io A) (Q : result A → files → Prop) (E : error → files → Prop) fs :
  wp o m (λ a, Q (Ok a)) (λ e : error, Q (Err e)) fs → wp o (io_try m) Q E fs.
Proof.
  intros Hm t. unfold io_try. specialize (Hm t). by destruct (m o (t, fs)) as [[a|e] [t' fs']].
Qed.

Lemma wp_on_error {A : Type} (m : io A) cleanup (Q : A → files → Prop) (E : error → files → Prop) fs :
  wp o m Q (λ e : error, wp o cleanup (λ _, E e) (λ _, E e)) fs → wp o (on_error m cleanup) Q E fs.
Proof.
  intros Hm t. unfold on_error. specialize (Hm t). destruct (m o (t, fs)) as [[a|e] [t' fs']]; [done|].
  specialize (Hm t'). by destruct (cleanup o (t', fs')) as [[[]|e'] [t'' fs'']].
Qed.

Lemma wp_call {A : Type} (f : files → result A * files) (Q : A → files → Prop) (E : error → files → Prop) fs :
  (faulty o → E io_fault fs) →
  match f fs with (Ok a, fs') => Q a fs' | (Err e, fs') => E e fs' end →
  wp o (call f) Q E fs.
Proof.
  intros HE Hf t. unfold call. destruct (fails o t) eqn:Ht; [apply HE; by exists t|].
  by destruct (f fs) as [[a|e] fs'].
Qed.

Lemma wp_reading {A : Type} (f : files → result A) (Q : A → files → Prop) (E : error → files → Prop) fs :
  (faulty o → E io_fault fs) →
  match f fs with Ok a => Q a fs | Err e => E e fs end → wp o (reading f) Q E fs.
Proof. intros HE Hf. apply wp_call; [done|]. by destruct (f fs). Qed.

Lemma wp_Write p d (Q : unit → files → Prop) (E : error → files → Prop) fs :
  (faulty o → ∀ n, E io_fault (put_data p (take n d) fs)) → Q tt (put_data p d fs) → wp o (Write p d) Q E fs.
Proof.
  intros HE HQ t. unfold Write. destruct (fails o t) eqn:Ht; [apply HE; by exists t|done].
Qed.
End Rules.

(** ** The calls *)

Lemma lookup_node_None (fs : files) p : lookup_node fs p = None ↔ fs !! p = None ∧ p ≠ [].
Proof. unfold lookup_node. destruct (fs !! p); [naive_solver|]. case_bool_decide; naive_solver. Qed.

Lemma lookup_node_Some (fs : files) p n : fs !! p = Some n → lookup_node fs p = Some n.
Proof. unfold lookup_node. by intros ->. Qed.

Lemma follow_plain n (fs : files) p : (∀ t, fs !! p ≠ Some (Link t)) → follow n fs p = Some p.
Proof. intros Hl. destruct n; cbn; destruct (fs !! p) as [[]|] eqn:E; try done; by destruct (Hl target). Qed.

Lemma Open_node (fs : files) p n : lookup_node fs p = Some n → is_link n = false → Open p fs = Ok n.
Proof.
  intros Hp Hl. unfold Open. rewrite follow_plain; [by rewrite Hp|]. intros t E.
  rewrite (lookup_node_Some _ _ _ E) in Hp. by simplify_eq.
Qed.

Lemma follow_not_link k (fs : files) p q t : follow k fs p = Some q → lookup_node fs q ≠ Some (Link t).
Proof.
  revert p. induction k as [|k IH]; intros p; cbn; destruct (fs !! p) as [[]|] eqn:E; try done;
    try (by apply IH); intros [= <-]; unfold lookup_node; rewrite E; try done; by case_bool_decide.
Qed.

Lemma Lstat_plain (fs : files) p n : fs !! p = Some n → Lstat p fs = Ok n.
Proof. intros Hp. unfold Lstat. by rewrite (lookup_node_Some _ _ _ Hp). Qed.

Lemma snoc_not_prefix (p : path) e l : ¬ (p ++ e :: l)%list `prefix_of` p.
Proof. intros Hp%prefix_length. rewrite length_app in Hp. cbn in Hp. lia. Qed.

Lemma parent_snoc (p : path) e : parent (p ++ [e]) = p.
Proof. apply removelast_last. Qed.

(** Two file systems that agree outside [P]. *)
Definition agree (P : path → Prop) (fs fs' : files) : Prop := ∀ q, ¬ P q → fs' !! q = fs !! q.

#[export] Instance agree_preorder P : PreOrder (agree P).
Proof. split; [by intros fs q|]. intros a b c Hab Hbc q Hq. by rewrite Hbc, Hab. Qed.

Lemma agree_weaken (P P' : path → Prop) fs fs' :
  (∀ q, P q → P' q) → agree P fs fs' → agree P' fs fs'.
Proof. intros HP Ha q Hq. apply Ha. auto. Qed.

Lemma agree_insert (P : path → Prop) p n (fs : files) : P p → agree P fs (<[p := n]> fs).
Proof. intros Hp q Hq. apply lookup_insert_ne. by intros ->. Qed.

(** Directories made on the way to [p], and nothing else. *)
Definition made `{Process} (perm : Z) (p : path) (fs fs' : files) : Prop :=
  ∀ q, fs' !! q = fs !! q ∨
       fs !! q = None ∧ fs' !! q = Some (Dir (unmasked perm)) ∧ q `prefix_of` p.

Section CallRules.
Context `{Process} (o : oracle).
Implicit Types (fs : files) (Q : unit → files → Prop) (E : error → files → Prop).

Lemma wp_Mkdir p perm Q E fs :
  (faulty o → E io_fault fs) → (∀ e, lookup_node fs p ≠ None ∨ is_dir fs (parent p) = false → E e fs) →
  (lookup_node fs p = None → Q tt (<[p := Dir (unmasked perm)]> fs)) → wp o (Mkdir p perm) Q E fs.
Proof.
  intros Hf HE HQ. apply wp_call; [done|]. destruct (lookup_node fs p); [apply HE; by left|].
  destruct (is_dir fs (parent p)); [by apply HQ|]. apply HE. by right.
Qed.

Lemma wp_CreateExclusive p perm Q E fs :
  (faulty o → E io_fault fs) → (lookup_node fs p ≠ None → E ErrExist fs) →
  (is_dir fs (parent p) = false → E ErrNotExist fs) →
  (lookup_node fs p = None → Q tt (<[p := File (unmasked perm) []]> fs)) →
  wp o (CreateExclusive p perm) Q E fs.
Proof.
  intros Hf HE Hd HQ. apply wp_call; [done|]. destruct (lookup_node fs p); [by apply HE|].
  destruct (is_dir fs (parent p)); [by apply HQ|]. by apply Hd.
Qed.

Lemma wp_Chmod p perm n Q E fs :
  (faulty o → E io_fault fs) → Open p fs = Ok n →
  (∀ q, lookup_node fs q = Some n → (lookup_node fs p = Some n → q = p) →
        Q tt (<[q := set_perm perm n]> fs)) →
  wp o (Chmod p perm) Q E fs.
Proof.
  intros Hf Hp HQ. apply wp_call; [done|]. unfold Open in Hp.
  destruct (follow max_links fs p) as [q|] eqn:Hq; [|done].
  destruct (lookup_node fs q) as [n'|] eqn:Hn; [|done]. simplify_eq. apply HQ; [done|]. intros Hpn.
  rewrite follow_plain in Hq; [by simplify_eq|]. intros t Ht. rewrite (lookup_node_Some _ _ _ Ht) in Hpn.
  simplify_eq. by apply (follow_not_link _ _ _ _ _ Hq) in Hn.
Qed.

Lemma wp_FChmod p perm n Q E fs :
  (faulty o → E io_fault fs) → fs !! p = Some n →
  Q tt (<[p := set_perm perm n]> fs) → wp o (FChmod p perm) Q E fs.
Proof. intros Hf Hp HQ. apply wp_call; [done|]. by rewrite Hp. Qed.

Lemma wp_Sync Q E fs : (faulty o → E io_fault fs) → Q tt fs → wp o Sync Q E fs.
Proof. intros Hf HQ. by apply wp_call. Qed.

Lemma wp_Close Q E fs : (faulty o → E io_fault fs) → Q tt fs → wp o Close Q E fs.
Proof. intros Hf HQ. by apply wp_call. Qed.

(** Of a file. *)
Lemma wp_Remove p n Q E fs :
  (faulty o → E io_fault fs) → fs !! p = Some n → is_directory n = false → Q tt (delete p fs) →
  wp o (Remove p) Q E fs.
Proof. intros Hf Hp Hn HQ. apply wp_call; [done|]. rewrite Hp. by destruct n. Qed.

Lemma wp_RemoveAll p Q E fs :
  (faulty o → E io_fault fs) →
  (∀ fs', agree (prefix p) fs fs' → (∀ q, p `prefix_of` q → fs' !! q = None) → Q tt fs') →
  wp o (RemoveAll p) Q E fs.
Proof.
  intros Hf HQ. apply wp_call; [done|]. apply HQ.
  - intros q Hq. apply option_eq. intros n. rewrite map_lookup_filter_Some. unfold below. cbn [fst].
    rewrite bool_decide_eq_false. naive_solver.
  - intros q Hq. apply eq_None_not_Some. intros [n Hn]. apply map_lookup_filter_Some in Hn as [_ Hn].
    unfold below in Hn. cbn [fst] in Hn. by rewrite bool_decide_true in Hn.
Qed.

Lemma made_refl perm p fs : made perm p fs fs.
Proof. by left. Qed.

Lemma made_trans perm p fs fs1 fs2 : made perm p fs fs1 → made perm p fs1 fs2 → made perm p fs fs2.
Proof.
  intros H1 H2 q. destruct (H2 q) as [->|(Hn & Hd & Hp)]; [apply H1|].
  destruct (H1 q) as [E|(_ & E & _)]; [|congruence]. right. by rewrite <-E.
Qed.

Lemma made_insert perm p fs q :
  fs !! q = None → q `prefix_of` p → made perm p fs (<[q := Dir (unmasked perm)]> fs).
Proof.
  intros Hq Hp q'. destruct (decide (q' = q)) as [->|Hne]; [right; by rewrite lookup_insert_eq|].
  left. by rewrite lookup_insert_ne.
Qed.

Lemma made_inside perm p fs fs' q : ¬ q `prefix_of` p → made perm p fs fs' → fs' !! q = fs !! q.
Proof. intros Hq Hm. by destruct (Hm q) as [?|(_ & _ & ?)]. Qed.

(** A path whose directories exist or can be made. *)
Definition clear_way fs (p : path) : Prop :=
  ∀ q, q `prefix_of` p → lookup_node fs q = None ∨ ∃ d, lookup_node fs q = Some (Dir d).

Lemma made_clear perm p fs fs' : made perm p fs fs' → clear_way fs p → clear_way fs' p.
Proof.
  intros Hm Hc q Hq. specialize (Hc q Hq). unfold lookup_node in *.
  destruct (Hm q) as [->|(Hn & -> & _)]; [done|]. right. eauto.
Qed.

Lemma clear_Open fs p q d : clear_way fs p → q `prefix_of` p → Open q fs = Ok (Dir d) → is_dir fs q = true.
Proof.
  intros Hc Hq Ho. unfold is_dir. destruct (Hc q Hq) as [Hn|[d' ->]]; [|done].
  apply lookup_node_None in Hn as Hn'. unfold Open in Ho. rewrite follow_plain in Ho.
  - by rewrite Hn in Ho.
  - intros t Ht. destruct Hn' as [Hn' _]. congruence.
Qed.

Lemma clear_Open_node fs p d : clear_way fs p → Open p fs = Ok (Dir d) → lookup_node fs p = Some (Dir d).
Proof.
  intros Hc Ho. pose proof (clear_Open fs p p d Hc (reflexivity p) Ho) as Hd. unfold is_dir in Hd.
  destruct (lookup_node fs p) as [[d'| | |]|] eqn:E; try done. rewrite (Open_node _ _ _ E) in Ho by done.
  by simplify_eq.
Qed.

Lemma wp_mkdir_missing target p perm Q E fs :
  p `prefix_of` target → (faulty o → E io_fault fs) →
  (∀ e, ¬ clear_way fs target ∨ is_dir fs (parent p) = false ∧ p ≠ [] → E e fs) →
  (∀ fs' d, made perm target fs fs' → Open p fs' = Ok (Dir d) → Q tt fs') →
  wp o (mkdir_missing p perm) Q E fs.
Proof.
  intros Hp Hf HE HQ. apply wp_call; [done|].
  assert (∀ n, Open p fs = Ok n → is_directory n = false → ∀ e, E e fs) as Hbad.
  { intros n Hn Hd e. apply HE. left. intros Hc. unfold Open in Hn.
    destruct (Hc p Hp) as [Hl|[d Hl]]; rewrite follow_plain in Hn;
      try (rewrite Hl in Hn; by simplify_eq/=);
      intros t Ht; by rewrite (lookup_node_Some _ _ _ Ht) in Hl. }
  destruct (Open p fs) as [[d|pm dt|t|pm]|e] eqn:Ho; [|by eapply Hbad..|].
  { eapply HQ; [apply made_refl|exact Ho]. }
  destruct (lookup_node fs p) as [n|] eqn:Hl.
  - apply HE. left. intros Hc. destruct (Hc p Hp) as [?|[d Hd]]; [congruence|].
    by rewrite (Open_node _ _ _ Hd) in Ho.
  - apply lookup_node_None in Hl as [Hl Hne]. destruct (is_dir fs (parent p)) eqn:Hd; [|apply HE; by right].
    eapply HQ; [by apply made_insert|]. apply Open_node; [|done]. apply lookup_node_Some, lookup_insert_eq.
Qed.

Lemma wp_mkdir_each target perm done rest Q E fs d0 :
  target = (done ++ rest)%list → Open done fs = Ok (Dir d0) →
  (∀ e fs', made perm target fs fs' → faulty o ∨ ¬ clear_way fs target → E e fs') →
  (∀ fs' d, made perm target fs fs' → Open target fs' = Ok (Dir d) → Q tt fs') →
  wp o (mkdir_each (ancestry done rest) perm) Q E fs.
Proof.
  revert done fs d0. induction rest as [|e rest IH]; intros done fs d0 Ht Hd HE HQ; cbn [ancestry mkdir_each].
  { apply wp_ret. subst. rewrite app_nil_r in *. eapply HQ; [apply made_refl|exact Hd]. }
  assert ((done ++ [e])%list `prefix_of` target) as Hp.
  { exists rest. by rewrite Ht, <-app_assoc. }
  apply wp_bind, (wp_mkdir_missing target); [done|intros; apply HE; [apply made_refl|by left]| |].
  - intros er [Hc|[Hc _]]; (apply HE; [apply made_refl|right]); [done|]. intros Hcl.
    rewrite parent_snoc, (clear_Open _ _ done d0 Hcl) in Hc; [done| |exact Hd]. by exists (e :: rest).
  - intros fs' d Hm Ho. apply (IH (done ++ [e])%list fs' d); [by rewrite Ht, <-app_assoc|done| |].
    + intros er fs'' Hm' Hc. apply HE; [by eapply made_trans|]. destruct Hc as [?|Hc]; [by left|right].
      intros Hcl. by eapply Hc, made_clear.
    + intros fs'' d' Hm' Ho'. eapply HQ; [by eapply made_trans|exact Ho'].
Qed.

(** What [os.MkdirAll] made is on the way to its argument; it fails on a fault or
    where something other than a directory is in the way. *)
Lemma wp_MkdirAll p perm Q E fs :
  (∀ e fs', made perm p fs fs' → faulty o ∨ ¬ clear_way fs p → E e fs') →
  (∀ fs' d, made perm p fs fs' → Open p fs' = Ok (Dir d) → Q tt fs') →
  wp o (MkdirAll p perm) Q E fs.
Proof.
  intros HE HQ. unfold MkdirAll. cbn [mkdir_each].
  apply wp_bind, (wp_mkdir_missing p); [apply prefix_nil|intros; apply HE; [apply made_refl|by left]| |].
  - intros e [Hc|[_ ?]]; [|done]. apply HE; [apply made_refl|by right].
  - intros fs' d Hm Ho. eapply wp_mkdir_each; [done|exact Ho| |].
    + intros e fs'' Hm' Hc. apply HE; [by eapply made_trans|]. destruct Hc as [?|Hc]; [by left|right].
      intros Hcl. by eapply Hc, made_clear.
    + intros fs'' d' Hm' Ho'. eapply HQ; [by eapply made_trans|exact Ho'].
Qed.

(** [m] gives the file that was created at [p] the content [c] and mode 600. *)
Definition fills (p : path) (c : bytes) (m : io unit) : Prop :=
  ∀ Q E fs, (faulty o → ∀ e pm d, errors_Is e ErrExist = false → E e (<[p := File pm d]> fs)) →
    Q tt (<[p := File owner_only c]> fs) → ∀ pm, wp o m Q E (<[p := File pm []]> fs).

Lemma put_data_insert p pm d d' fs : put_data p d (<[p := File pm d']> fs) = <[p := File pm d]> fs.
Proof. unfold put_data. by rewrite lookup_insert_eq, insert_insert_eq. Qed.

Lemma fill_protected_fills p c : fills p c (fill_protected p c).
Proof.
  intros Q E fs HE HQ pm. unfold fill_protected.
  apply wp_bind, (wp_FChmod _ _ (File pm [])); [auto|apply lookup_insert_eq|].
  rewrite insert_insert_eq. cbn [set_perm].
  apply wp_bind, wp_Write; [intros; rewrite put_data_insert; auto|]. rewrite put_data_insert.
  apply wp_bind, wp_Sync; [auto|]. apply wp_Close; auto.
Qed.

(** A new file is filled, and removed again when that fails: the failure leaves
    nothing, or, where even the removal failed, an incomplete file. *)
Lemma wp_filled p c m Q E fs pm :
  fills p c m → fs !! p = None →
  (faulty o → ∀ e, errors_Is e ErrExist = false → E e fs ∧ ∀ n, is_directory n = false → E e (<[p := n]> fs)) →
  Q tt (<[p := File owner_only c]> fs) →
  wp o (on_error m (Remove p)) Q E (<[p := File pm []]> fs).
Proof.
  intros Hm Hn HE HQ. apply wp_on_error. apply Hm; [|done]. intros Hfa e pm' d Hne.
  destruct (HE Hfa e Hne) as [H1 H2].
  apply (wp_Remove _ (File pm' d)); [auto|apply lookup_insert_eq|done|]. by rewrite delete_insert_id.
Qed.

Lemma wp_create_filled p c m Q E fs :
  fills p c m → (faulty o → E io_fault fs) → (lookup_node fs p ≠ None → E ErrExist fs) →
  (is_dir fs (parent p) = false → E ErrNotExist fs) →
  (fs !! p = None → p ≠ [] → faulty o → ∀ e, errors_Is e ErrExist = false →
   E e fs ∧ ∀ n, is_directory n = false → E e (<[p := n]> fs)) →
  (fs !! p = None → p ≠ [] → Q tt (<[p := File owner_only c]> fs)) →
  wp o (do! _ := CreateExclusive p owner_only in on_error m (Remove p))%io Q E fs.
Proof.
  intros Hm Hf Hx Hd HE HQ. apply wp_bind, wp_CreateExclusive; [done..|]. intros Hn.
  apply lookup_node_None in Hn as [Hn Hp]. by apply (wp_filled _ c); auto.
Qed.
End CallRules.

(** ** Contents: everything but the directories *)

Definition contents (fs : files) : files := filter (λ x, is_directory x.2 = false) fs.

Lemma contents_lookup (fs : files) p n : contents fs !! p = Some n ↔ fs !! p = Some n ∧ is_directory n = false.
Proof. apply map_lookup_filter_Some. Qed.

Lemma contents_None (fs : files) p : lookup_node fs p = None → contents fs !! p = None.
Proof.
  intros Hp. apply lookup_node_None in Hp as [Hp _]. apply eq_None_not_Some. intros [n Hn].
  apply contents_lookup in Hn as [Hn _]. congruence.
Qed.

Lemma contents_insert (fs : files) p n :
  is_directory n = false → contents (<[p := n]> fs) = <[p := n]> (contents fs).
Proof. intros Hn. by apply map_filter_insert_True. Qed.

Lemma contents_directory (fs : files) p d d' :
  lookup_node fs p = Some (Dir d) → contents (<[p := Dir d']> fs) = contents fs.
Proof.
  intros Hp. apply map_eq. intros q. apply option_eq. intros n. rewrite !contents_lookup.
  destruct (decide (q = p)) as [->|Hq]; [|by rewrite lookup_insert_ne]. rewrite lookup_insert_eq.
  unfold lookup_node in Hp. split; intros [Hn Hd]; simplify_eq/=. rewrite Hn in Hp. by simplify_eq/=.
Qed.

Lemma contents_made `{Process} perm p fs fs' : made perm p fs fs' → contents fs' = contents fs.
Proof.
  intros Hm. apply map_eq. intros q. apply option_eq. intros n. rewrite !contents_lookup.
  destruct (Hm q) as [->|(-> & -> & _)]; [done|]. naive_solver.
Qed.

Lemma contents_Chmod (fs : files) p d perm : lookup_node fs p = Some (Dir d) →
  contents (<[p := set_perm perm (Dir d)]> fs) = contents fs.
Proof. intros Hp. by apply contents_directory with d. Qed.

#[export] Hint Resolve contents_made contents_Chmod contents_directory made_refl : fs.
