(* ===== verification/AuthorityKey.v ===== *)
(** internal/membership/authority_key.go: the files that hold workspace authority
    keys, with the protected files of authority_backup.go. PKCS#8 is the class
    [PKCS8]. *)

From S2P Require Import Prelude GoStd GoNet GoCrypto GoPath MembershipCodec FileSystem.

#[local] Open Scope string_scope.
#[local] Open Scope Z_scope.

(** ** Files *)

(** The whole function: a regular file of mode 600, not behind a link, of at most
    [maximumBytes]. *)
Definition readProtectedRegularFile `{Process} (p : bytes) (maximumBytes : Z) (description : string)
  (fs : files) : result bytes :=
  let? pathInfo := wrapf ("stat " ++ description) (Lstat (abs p) fs) in
  fail_if is_link pathInfo with_msg (description ++ " must not be a symbolic link") in
  let? file := wrapf ("open " ++ description) (Open (abs p) fs) in
  fail_if negb (is_regular file) with_msg (description ++ " must be a regular file") in
  fail_if negb (perm_of file =? owner_only) with_msg (description ++ " permissions, want 600") in
  let? data := wrapf ("read " ++ description) (ReadAll file) in
  let encoded := take (Z.to_nat (maximumBytes + 1)) data in
  fail_if blen encoded >? maximumBytes with_msg (description ++ " is too large") in
  Ok encoded.

(** ** Keys *)

Inductive parsed_key : Type :=
| Ed25519Key (k : bytes)
| OtherKey.

Class PKCS8 : Type := {
  x509_Marshal : bytes → option bytes;
  x509_Parse : bytes → option parsed_key
}.

(** An encoded Ed25519 key parses to itself, and is small. *)
Class PKCS8Laws `{PKCS8} : Prop := {
  x509_parse_marshal k e : x509_Marshal k = Some e → x509_Parse e = Some (Ed25519Key k);
  x509_marshal_size k e : x509_Marshal k = Some e → blen e ≤ 4096
}.

Definition authorityKeyIDDomain : bytes := domain "SyncNotifications-workspace-authority-key-id-v1".

Definition AuthorityKeyID (publicKey : bytes) : bytes :=
  RawURL_Encode (Sum256 (authorityKeyIDDomain ++ publicKey)).

Definition authorityPrivateKeyFileName (keyID : bytes) : bytes :=
  (bs "workspace-authority-" ++ keyID ++ bs ".pk8")%list.
Definition AuthorityPrivateKeyPath (directory keyID : bytes) : bytes :=
  Join directory (authorityPrivateKeyFileName keyID).

Record GeneratedAuthority : Type := mkGeneratedAuthority {
  ga_PublicKey : bytes;
  ga_KeyID : bytes;
  ga_Path : bytes
}.

Section Keys.
Context `{Process, PKCS8}.

Definition parseAuthorityPrivateKey (encoded : bytes) : result bytes :=
  match x509_Parse encoded with
  | None => Err (New "parse workspace authority key")
  | Some (Ed25519Key k) =>
      fail_if negb (blen k =? PrivateKeySize) with_msg "workspace authority key is not Ed25519" in
      Ok k
  | Some OtherKey => Err (New "workspace authority key is not Ed25519")
  end.

Definition loadAuthorityPrivateKeyFile (p expected : bytes) (fs : files) : result (bytes * bytes) :=
  let? encoded := readProtectedRegularFile p 4096 "workspace authority key" fs in
  let? private := parseAuthorityPrivateKey encoded in
  fail_if negb (beq (ed_Public private) expected)
    with_msg "workspace authority private key does not match the pinned public key" in
  Ok (private, encoded).

Definition LoadAuthorityPrivateKey (p expected : bytes) (fs : files) : result bytes :=
  let? '(private, _) := loadAuthorityPrivateKeyFile p expected fs in Ok private.

Definition LoadAuthorityKey (p : bytes) (fs : files) : result (bytes * bytes) :=
  let? encoded := readProtectedRegularFile p 4096 "workspace authority key" fs in
  let? private := parseAuthorityPrivateKey encoded in
  Ok (ed_Public private, private).

Definition required {A} (m : string) (x : option A) : result A :=
  match x with Some a => Ok a | None => Err (New m) end.

(** [private] is the generated key, [None] when generation fails. *)
Definition GenerateAuthority (directory : bytes) (private : option bytes) : io GeneratedAuthority :=
  (if beq directory [] then io_err (New "authority key directory is required") else
   do! _ := io_wrapf "create authority key directory" (MkdirAll (abs directory) owner_dir) in
   do! _ := io_wrapf "protect authority key directory" (Chmod (abs directory) owner_dir) in
   do! k := io_result (required "generate workspace authority key" private) in
   do! encoded := io_result (required "encode workspace authority key" (x509_Marshal k)) in
   let publicKey := ed_Public k in
   let keyID := AuthorityKeyID publicKey in
   let p := AuthorityPrivateKeyPath directory keyID in
   do! _ := io_wrapf "create workspace authority key file" (CreateExclusive (abs p) owner_only) in
   do! _ := on_error
     (do! _ := io_wrapf "protect workspace authority key file" (FChmod (abs p) owner_only) in
      do! _ := io_wrapf "write workspace authority key file" (Write (abs p) encoded) in
      do! _ := io_wrapf "sync workspace authority key file" Sync in
      io_wrapf "close workspace authority key file" Close)
     (Remove (abs p)) in
   io_ret (mkGeneratedAuthority publicKey keyID p))%io.

(** ** Properties *)

(** A loaded key is the key it was asked for. *)
Lemma LoadAuthorityPrivateKey_ok p expected fs k :
  LoadAuthorityPrivateKey p expected fs = Ok k → ed_Public k = expected ∧ blen k = PrivateKeySize.
Proof.
  unfold LoadAuthorityPrivateKey, loadAuthorityPrivateKeyFile, parseAuthorityPrivateKey. intros Hl.
  go_inv. destruct (x509_Parse _) as [[k'|]|]; [|done|done]. go_inv. go_bool. by simplify_eq.
Qed.


Lemma key_file_name_plain b : plain_name (authorityPrivateKeyFileName (RawURL_Encode b)) = true.
Proof.
  unfold plain_name, authorityPrivateKeyFileName. rewrite !forallb_app.
  rewrite (sextet_forall (λ c, negb (ch c 0x2F))) by (vm_compute; reflexivity). reflexivity.
Qed.

Lemma abs_Join d e : plain_name e = true → abs (Join d e) = (abs d ++ [e])%list.
Proof. apply Abs_Join, cwd_rooted. Qed.

Lemma abs_key_path d pk :
  abs (AuthorityPrivateKeyPath d (AuthorityKeyID pk)) =
  (abs d ++ [authorityPrivateKeyFileName (AuthorityKeyID pk)])%list.
Proof. apply abs_Join, key_file_name_plain. Qed.

(** The protected files are exactly those that can be read. *)
Lemma readProtectedRegularFile_Ok p m what fs d :
  readProtectedRegularFile p m what fs = Ok d ↔
  fs !! abs p = Some (File owner_only d) ∧ blen d ≤ m.
Proof.
  unfold readProtectedRegularFile. split.
  - intros Hr. go_inv. apply wrapf_Ok in Hr0, Hr1, Hr2.
    assert (lookup_node fs (abs p) = Some v) as Hv by (unfold Lstat in Hr0; by case_match; simplify_eq).
    rewrite (Open_node _ _ _ Hv) in Hr1 by done. simplify_eq. destruct v0 as [|pm dt| |]; try done.
    cbn in Hr2. simplify_eq. unfold lookup_node in Hv. destruct (fs !! abs p); [|by case_bool_decide].
    go_bool. unfold blen in *. rewrite length_take in *. simplify_eq/=.
    rewrite take_ge by lia. split; [done|lia].
  - intros [Hp Hd]. rewrite (Lstat_plain _ _ _ Hp). cbn [wrapf rbind is_link guard_err].
    rewrite (Open_node _ _ _ (lookup_node_Some _ _ _ Hp)) by done. cbn.
    unfold blen in *. rewrite take_ge by lia. rewrite guard_pass by lia. done.
Qed.

Lemma loadAuthorityPrivateKeyFile_Ok p pk fs k e :
  loadAuthorityPrivateKeyFile p pk fs = Ok (k, e) ↔
  fs !! abs p = Some (File owner_only e) ∧ blen e ≤ 4096 ∧ parseAuthorityPrivateKey e = Ok k ∧ ed_Public k = pk.
Proof.
  unfold loadAuthorityPrivateKeyFile. split.
  - intros Hl. go_inv. apply readProtectedRegularFile_Ok in Hr as [Hp Hd]. go_bool. by simplify_eq.
  - intros (Hp & Hd & Hk & <-).
    rewrite (proj2 (readProtectedRegularFile_Ok p 4096 _ fs e) (conj Hp Hd)). cbn [rbind]. rewrite Hk.
    cbn [rbind]. by rewrite beq_refl.
Qed.

Context `{!PKCS8Laws}.

Lemma marshalled_parses k e :
  blen k = PrivateKeySize → x509_Marshal k = Some e → parseAuthorityPrivateKey e = Ok k.
Proof.
  intros Hk He. unfold parseAuthorityPrivateKey. rewrite (x509_parse_marshal k e He).
  by rewrite guard_pass by (by rewrite Hk).
Qed.

Lemma generated_fills o p c :
  fills o p c
    (do! _ := io_wrapf "protect workspace authority key file" (FChmod p owner_only) in
     do! _ := io_wrapf "write workspace authority key file" (Write p c) in
     do! _ := io_wrapf "sync workspace authority key file" Sync in
     io_wrapf "close workspace authority key file" Close)%io.
Proof.
  intros Q E fs HE HQ pm.
  apply wp_bind, wp_wrapf, (wp_FChmod _ _ _ (File pm [])); [auto|apply lookup_insert_eq|].
  rewrite insert_insert_eq. cbn [set_perm].
  apply wp_bind, wp_wrapf, wp_Write; [intros; rewrite put_data_insert; auto|]. rewrite put_data_insert.
  apply wp_bind, wp_wrapf, wp_Sync; [auto|]. apply wp_wrapf, wp_Close; auto.
Qed.

(** What a run of [GenerateAuthority] leaves: the files as they were, or one more. *)
Lemma wp_GenerateAuthority o directory k fs :
  let pk := ed_Public k in
  let p := AuthorityPrivateKeyPath directory (AuthorityKeyID pk) in
  wp o (GenerateAuthority directory (Some k))
    (λ g fs', g = mkGeneratedAuthority pk (AuthorityKeyID pk) p ∧ contents fs !! abs p = None ∧
       ∃ e, x509_Marshal k = Some e ∧ contents fs' = <[abs p := File owner_only e]> (contents fs))
    (λ _ fs', (contents fs' = contents fs ∨
               faulty o ∧ contents fs !! abs p = None ∧ ∃ n, contents fs' = <[abs p := n]> (contents fs)) ∧
       (faulty o ∨ directory = [] ∨ x509_Marshal k = None ∨ ¬ clear_way fs (abs directory) ∨
        lookup_node fs (abs p) ≠ None)) fs.
Proof.
  intros pk p. unfold GenerateAuthority. destruct (beq directory []) eqn:Hd.
  { apply beq_true in Hd. apply wp_err. eauto 10. }
  apply wp_bind, wp_wrapf, wp_MkdirAll.
  { intros e fs' Hm Hc. split; [left; by eapply contents_made|]. tauto. }
  intros fs1 d Hm Ho. apply contents_made in Hm as Hc1.
  apply wp_bind, wp_wrapf, (wp_Chmod _ _ _ (Dir d)); [intros; split; eauto|done|].
  intros q Hq Hqd. cbn [set_perm]. pose proof (contents_directory _ _ _ owner_dir Hq) as Hc2. rewrite Hc1 in Hc2.
  set (fs2 := <[q := Dir owner_dir]> fs1) in *. apply wp_bind, wp_result. cbn [required].
  apply wp_bind, wp_result. destruct (x509_Marshal k) as [e|] eqn:He; cbn [required]; [|by eauto 10].
  fold pk p. apply wp_bind, wp_wrapf, wp_CreateExclusive; [by eauto| | |].
  - intros Hx. split; [by left|]. do 4 right. intros Hn. apply Hx. apply lookup_node_None in Hn as [Hn Hp].
    assert (fs1 !! abs p = None) as Hn1.
    { rewrite <-Hn. eapply made_inside; [|done]. unfold p. rewrite abs_key_path. apply snoc_not_prefix. }
    apply lookup_node_None. split; [|done]. unfold fs2. rewrite lookup_insert_ne; [done|].
    intros ->. by rewrite (proj2 (lookup_node_None _ _) (conj Hn1 Hp)) in Hq.
  - intros Hx. split; [by left|]. right. right. right. left. intros Hc.
    assert (lookup_node fs1 (abs directory) = Some (Dir d)) as Hl
      by (apply clear_Open_node; [by eapply made_clear|done]).
    unfold p, is_dir, fs2 in Hx. rewrite abs_key_path, parent_snoc, (Hqd Hl) in Hx.
    by rewrite (lookup_node_Some _ _ (Dir owner_dir)) in Hx by apply lookup_insert_eq.
  - intros Hx. apply lookup_node_None in Hx as [Hx Hp].
    assert (contents fs !! abs p = None) as Hnone by (rewrite <-Hc2; by apply contents_None, lookup_node_None).
    apply wp_bind, (wp_filled _ _ e); [apply generated_fills|done| |].
    + intros Hf e' _. split; [by eauto|]. intros n Hn. split; [|by left]. right. split_and!; [done..|].
      exists n. by rewrite contents_insert, Hc2.
    + apply wp_ret. split_and!; [done..|]. exists e. split; [done|]. by rewrite contents_insert, Hc2.
Qed.

(** Generating an authority key never touches a file that exists, whichever
    system calls fail: apart from directories, the files afterwards are those
    before and perhaps one at the path named after the key, which was free. A
    success has written the key there, readable by its owner only, and it loads as
    the generated key under the public key that was returned. Without faults, and
    with a directory that exists or can be made, it succeeds unless the path is
    taken. *)
Theorem authority_key_roundtrip o t directory k fs :
  blen k = PrivateKeySize →
  let p := AuthorityPrivateKeyPath directory (AuthorityKeyID (ed_Public k)) in
  let '(r, (_, fs')) := GenerateAuthority directory (Some k) o (t, fs) in
  contents fs ⊆ contents fs' ∧ delete (abs p) (contents fs') = delete (abs p) (contents fs) ∧
  match r with
  | Ok g =>
      g = mkGeneratedAuthority (ed_Public k) (AuthorityKeyID (ed_Public k)) p ∧
      contents fs !! abs p = None ∧
      LoadAuthorityPrivateKey p (ed_Public k) fs' = Ok k ∧ LoadAuthorityKey p fs' = Ok (ed_Public k, k)
  | Err _ =>
      (faulty o ∨ contents fs' = contents fs) ∧
      (healthy o → directory ≠ [] → is_Some (x509_Marshal k) → clear_way fs (abs directory) →
       is_Some (lookup_node fs (abs p)))
  end.
Proof.
  intros Hk p. pose proof (wp_GenerateAuthority o directory k fs t) as Hw. cbv zeta in Hw. fold p in Hw.
  destruct (GenerateAuthority _ _ _ _) as [[g|e] [t' fs']].
  - destruct Hw as (-> & Hn & e & He & Hc). rewrite Hc.
    split; [by apply insert_subseteq|]. split; [by rewrite delete_insert_eq|]. do 2 (split; [done|]).
    assert (fs' !! abs p = Some (File owner_only e)) as Hp.
    { apply (contents_lookup fs'). by rewrite Hc, lookup_insert_eq. }
    pose proof (x509_marshal_size k e He) as Hs. pose proof (marshalled_parses k e Hk He) as Hm. split.
    + unfold LoadAuthorityPrivateKey.
      by rewrite (proj2 (loadAuthorityPrivateKeyFile_Ok p (ed_Public k) fs' k e) ltac:(done)).
    + unfold LoadAuthorityKey.
      rewrite (proj2 (readProtectedRegularFile_Ok p 4096 _ fs' e) ltac:(done)). cbn [rbind]. by rewrite Hm.
  - destruct Hw as [Hc Hr]. split; [|split; [|split]].
    + destruct Hc as [->|(_ & Hn & n & ->)]; [done|by apply insert_subseteq].
    + destruct Hc as [->|(_ & Hn & n & ->)]; [done|by rewrite delete_insert_eq].
    + tauto.
    + intros Hh%healthy_faulty Hd [x Hx] Hw. apply not_eq_None_Some. destruct Hr as [?|[?|[?|[?|?]]]]; congruence.
Qed.
End Keys.

(** *** An example *)

#[local] Instance pkcs8_model : PKCS8 := {|
  x509_Marshal k := if blen k <=? 64 then Some (bs "pkcs8" ++ k)%list else None;
  x509_Parse e := Ed25519Key <$> strip_prefix (bs "pkcs8") e |}.

#[local] Instance pkcs8_model_laws : PKCS8Laws.
Proof.
  constructor; intros k e; cbn [x509_Marshal x509_Parse pkcs8_model];
    destruct (Z.leb_spec (blen k) 64) as [Hl|]; try done; intros [= <-].
  - reflexivity.
  - unfold blen in *. cbn [length]. lia.
Qed.

#[local] Instance example_process : Process := {| cwd := bs "/srv"; cwd_rooted := eq_refl; umask := 0x12 |}.

Lemma authority_key_roundtrip_witness :
  let k := repeat Byte.x07 64 in
  match GenerateAuthority (bs "keys") (Some k) (mkOracle (λ _, false) (λ _, 0%nat) (λ _, [])) (0%nat, ∅) with
  | (Err _, _) => False
  | (Ok g, (_, fs)) => LoadAuthorityPrivateKey (ga_Path g) (ga_PublicKey g) fs = Ok k
  end.
Proof.
  pose proof (authority_key_roundtrip (mkOracle (λ _, false) (λ _, 0%nat) (λ _, [])) 0 (bs "keys")
    (repeat Byte.x07 64) ∅ eq_refl) as Ht.
  assert (is_ok (GenerateAuthority (bs "keys") (Some (repeat Byte.x07 64))
    (mkOracle (λ _, false) (λ _, 0%nat) (λ _, [])) (0%nat, ∅)).1 = true) as Hok by (vm_compute; reflexivity).
  cbv zeta in *. destruct (GenerateAuthority _ _ _ _) as [[g|e] [t fs]].
  - destruct Ht as (_ & _ & -> & _ & Ht & _). exact Ht.
  - discriminate Hok.
Defined.
