(* ===== verification/AuthorityBackup.v ===== *)
(** internal/membership/authority_backup.go: protected backups of a workspace
    authority key, bound to the workspace by a canonical manifest. *)

From S2P Require Import Prelude GoStd GoNet GoCrypto GoPath MembershipCodec FileSystem AuthorityKey.

#[local] Open Scope string_scope.
#[local] Open Scope Z_scope.

Definition authorityBackupManifestName : bytes := bs "manifest.txt".
Definition authorityBackupMagic : bytes := bs "SEVENMIRROR-WORKSPACE-AUTHORITY-BACKUP-V1".
Definition workspaceIDSize : Z := 16.

(** ** The manifest *)

Record authorityBackupManifest : Type := mkAuthorityManifest {
  am_WorkspaceID : bytes;
  am_AuthorityPublicKey : bytes;
  am_AuthorityKeyID : bytes;
  am_PrivateKeyFile : bytes;
  am_PrivateKeySHA256 : bytes
}.

Definition newline : byte := z2b 0x0A.

(** [name=value] *)
Definition manifest_line (name : string) (value : bytes) : bytes := (bs (name ++ "=") ++ value)%list.

(** Lines, each with its newline. *)
Definition print_lines (lines : list bytes) : bytes := flat_map (λ l, (l ++ [newline])%list) lines.

Definition encodeAuthorityBackupManifest (value : authorityBackupManifest) : bytes :=
  print_lines [
    authorityBackupMagic;
    manifest_line "workspace_id" (RawURL_Encode (am_WorkspaceID value));
    manifest_line "authority_public_key" (RawURL_Encode (am_AuthorityPublicKey value));
    manifest_line "authority_key_id" (am_AuthorityKeyID value);
    manifest_line "private_key_file" (am_PrivateKeyFile value);
    manifest_line "private_key_sha256" (RawURL_Encode (am_PrivateKeySHA256 value)) ].

Definition manifestTextValue (line : bytes) (name : string) : result bytes :=
  match strip_prefix (bs (name ++ "=")) line with
  | Some (c :: rest) => Ok (c :: rest)
  | _ => Err (New ("authority backup manifest " ++ name ++ " is invalid"))
  end.

(** Text that is the base64url form of [size] bytes. *)
Definition decode_exact (text : bytes) (size : Z) : option bytes :=
  match RawURL_Decode text with
  | Some decoded => if (blen decoded =? size) && beq (RawURL_Encode decoded) text then Some decoded else None
  | None => None
  end.

Definition decodeManifestValue (line : bytes) (name : string) (size : Z) : result bytes :=
  let? value := manifestTextValue line name in
  match decode_exact value size with
  | Some decoded => Ok decoded
  | None => Err (New ("authority backup manifest " ++ name ++ " is invalid"))
  end.

Definition decodeAuthorityBackupManifest (encoded : bytes) : result authorityBackupManifest :=
  match Split 0x0A encoded with
  | [l0; l1; l2; l3; l4; l5; l6] =>
      fail_if negb (beq l0 authorityBackupMagic) || negb (beq l6 [])
        with_msg "authority backup manifest is not canonical" in
      let? workspaceID := decodeManifestValue l1 "workspace_id" workspaceIDSize in
      let? publicKey := decodeManifestValue l2 "authority_public_key" 32 in
      let? keyID := manifestTextValue l3 "authority_key_id" in
      fail_if negb (bool_decide (is_Some (decode_exact keyID 32)))
        with_msg "authority backup manifest key ID is invalid" in
      let? privateKeyFile := manifestTextValue l4 "private_key_file" in
      fail_if negb (beq (Base privateKeyFile) privateKeyFile)
        with_msg "authority backup private key file name is invalid" in
      let? digest := decodeManifestValue l5 "private_key_sha256" 32 in
      let manifest := mkAuthorityManifest workspaceID publicKey keyID privateKeyFile digest in
      fail_if negb (beq encoded (encodeAuthorityBackupManifest manifest))
        with_msg "authority backup manifest is not canonical" in
      Ok manifest
  | _ => Err (New "authority backup manifest is not canonical")
  end.

(** ** Backups *)

Record AuthorityBackup : Type := mkAuthorityBackup {
  ab_Directory : bytes;
  ab_ManifestPath : bytes;
  ab_PrivateKeyPath : bytes;
  ab_KeyID : bytes
}.

Record AuthorityRestore : Type := mkAuthorityRestore {
  ar_PrivateKeyPath : bytes;
  ar_AlreadyPresent : bool
}.

Definition validateBackupArguments (directory workspaceID publicKey : bytes) : result unit :=
  fail_if beq directory [] with_msg "authority backup directory is required" in
  fail_if negb (blen workspaceID =? workspaceIDSize) with_msg "workspace ID must be 16 bytes" in
  fail_if beq publicKey (repeat Byte.x00 32) with_msg "workspace authority public key must not be zero" in
  Ok tt.

Section Backup.
Context `{Process, PKCS8}.

Definition validateProtectedDirectory (p : bytes) (fs : files) : result unit :=
  let? info := wrapf "stat authority backup directory" (Lstat (abs p) fs) in
  fail_if is_link info || negb (is_directory info)
    with_msg "authority backup path must be a directory, not a symbolic link" in
  fail_if negb (perm_of info =? owner_dir) with_msg "authority backup directory permissions, want 700" in
  Ok tt.

Definition writeExclusiveProtectedFile (p : bytes) (content : bytes) : io unit :=
  (do! _ := CreateExclusive (abs p) owner_only in
   on_error (fill_protected (abs p) content) (Remove (abs p)))%io.

Definition syncDirectory (p : bytes) : io unit := (do! _ := reading (Open (abs p)) in Sync)%io.

Definition VerifyAuthorityBackup (directory workspaceID expectedPublicKey : bytes) (fs : files)
  : result AuthorityBackup :=
  let? _ := validateBackupArguments directory workspaceID expectedPublicKey in
  let? _ := validateProtectedDirectory directory fs in
  let manifestPath := Join directory authorityBackupManifestName in
  let? manifestBytes := readProtectedRegularFile manifestPath 4096 "authority backup manifest" fs in
  let? manifest := decodeAuthorityBackupManifest manifestBytes in
  fail_if negb (beq (am_WorkspaceID manifest) workspaceID)
    with_msg "authority backup workspace does not match the requested workspace" in
  fail_if negb (beq (am_AuthorityPublicKey manifest) expectedPublicKey)
    with_msg "authority backup public key does not match the registry" in
  let expectedKeyID := AuthorityKeyID expectedPublicKey in
  fail_if negb (beq (am_AuthorityKeyID manifest) expectedKeyID) ||
          negb (beq (am_PrivateKeyFile manifest) (authorityPrivateKeyFileName expectedKeyID))
    with_msg "authority backup key ID binding is invalid" in
  let keyPath := Join directory (am_PrivateKeyFile manifest) in
  let? '(_, encoded) := wrapf "validate authority backup private key"
    (loadAuthorityPrivateKeyFile keyPath expectedPublicKey fs) in
  fail_if negb (beq (Sum256 encoded) (am_PrivateKeySHA256 manifest))
    with_msg "authority backup private key digest does not match the manifest" in
  Ok (mkAuthorityBackup directory manifestPath keyPath expectedKeyID).

(** The part of [CreateAuthorityBackup] that a failure undoes. *)
Definition fill_authority_backup (directory workspaceID expectedPublicKey encoded : bytes) : io AuthorityBackup :=
  (do! _ := io_wrapf "protect authority backup directory" (Chmod (abs directory) owner_dir) in
   let keyID := AuthorityKeyID expectedPublicKey in
   let keyFileName := authorityPrivateKeyFileName keyID in
   let keyPath := Join directory keyFileName in
   do! _ := io_wrapf "write authority backup private key" (writeExclusiveProtectedFile keyPath encoded) in
   let manifest := encodeAuthorityBackupManifest
     (mkAuthorityManifest workspaceID expectedPublicKey keyID keyFileName (Sum256 encoded)) in
   let manifestPath := Join directory authorityBackupManifestName in
   do! _ := io_wrapf "write authority backup manifest" (writeExclusiveProtectedFile manifestPath manifest) in
   do! _ := io_wrapf "sync authority backup directory" (syncDirectory directory) in
   io_wrapf "verify created authority backup"
     (reading (VerifyAuthorityBackup directory workspaceID expectedPublicKey)))%io.

Definition CreateAuthorityBackup (directory workspaceID sourcePrivateKeyPath expectedPublicKey : bytes)
  : io AuthorityBackup :=
  (do! _ := io_result (validateBackupArguments directory workspaceID expectedPublicKey) in
   do! (_, encoded) := io_wrapf "validate live workspace authority key"
     (reading (loadAuthorityPrivateKeyFile sourcePrivateKeyPath expectedPublicKey)) in
   do! _ := io_wrapf "create authority backup directory" (Mkdir (abs directory) owner_dir) in
   on_error (fill_authority_backup directory workspaceID expectedPublicKey encoded)
     (RemoveAll (abs directory)))%io.

(** The part of [RestoreAuthorityBackup] in the prepared destination directory. *)
Definition place_authority_key (destinationDirectory expectedPublicKey keyID encoded : bytes)
  : io AuthorityRestore :=
  (let destinationPath := Join destinationDirectory (authorityPrivateKeyFileName keyID) in
   do! written := io_try (writeExclusiveProtectedFile destinationPath encoded) in
   match written with
   | Err err =>
       if negb (errors_Is err ErrExist) then io_err (Wrapf "restore workspace authority key" err) else
       do! (_, existingEncoded) := io_wrapf "refuse to replace existing workspace authority key"
         (reading (loadAuthorityPrivateKeyFile destinationPath expectedPublicKey)) in
       if negb (beq existingEncoded encoded)
       then io_err (New "refuse to replace existing workspace authority key with different bytes")
       else io_ret (mkAuthorityRestore destinationPath true)
   | Ok _ =>
       do! _ := io_wrapf "sync authority destination directory" (syncDirectory destinationDirectory) in
       do! _ := io_wrapf "verify restored workspace authority key"
         (reading (LoadAuthorityPrivateKey destinationPath expectedPublicKey)) in
       io_ret (mkAuthorityRestore destinationPath false)
   end)%io.

(** The part of [RestoreAuthorityBackup] after the backup was read. *)
Definition install_authority_key (destinationDirectory expectedPublicKey keyID encoded : bytes)
  : io AuthorityRestore :=
  (if beq destinationDirectory [] then io_err (New "authority destination directory is required") else
   do! _ := io_wrapf "create authority destination directory" (MkdirAll (abs destinationDirectory) owner_dir) in
   do! destinationInfo := io_wrapf "stat authority destination directory"
     (reading (Lstat (abs destinationDirectory))) in
   if is_link destinationInfo || negb (is_directory destinationInfo)
   then io_err (New "authority destination must be a directory, not a symbolic link") else
   do! _ := io_wrapf "protect authority destination directory" (Chmod (abs destinationDirectory) owner_dir) in
   place_authority_key destinationDirectory expectedPublicKey keyID encoded)%io.

Definition RestoreAuthorityBackup (backupDirectory destinationDirectory workspaceID expectedPublicKey : bytes)
  : io AuthorityRestore :=
  (do! verified := io_wrapf "verify authority backup before restore"
     (reading (VerifyAuthorityBackup backupDirectory workspaceID expectedPublicKey)) in
   do! (_, encoded) := io_wrapf "read verified authority backup"
     (reading (loadAuthorityPrivateKeyFile (ab_PrivateKeyPath verified) expectedPublicKey)) in
   install_authority_key destinationDirectory expectedPublicKey (ab_KeyID verified) encoded)%io.
End Backup.

(** ** The manifest is canonical *)

Lemma decode_exact_Some text size d :
  decode_exact text size = Some d ↔ text = RawURL_Encode d ∧ blen d = size.
Proof.
  unfold decode_exact. split.
  - destruct (RawURL_Decode text) as [x|]; [|done]. destruct (_ && _) eqn:E; [|done]. intros [= ->].
    go_bool. done.
  - intros [-> <-]. by rewrite RawURL_Decode_Encode, Z.eqb_refl, beq_refl.
Qed.

Lemma manifestTextValue_Ok l name v : manifestTextValue l name = Ok v ↔ l = manifest_line name v ∧ v ≠ [].
Proof.
  unfold manifestTextValue, manifest_line. split.
  - destruct (strip_prefix _ l) as [[|c r]|] eqn:E; [done| |done]. intros [= <-].
    by apply strip_prefix_Some in E.
  - intros [-> Hv]. rewrite (proj2 (strip_prefix_Some _ _ v) eq_refl). by destruct v.
Qed.

Lemma encoded_nonempty d n : blen d = n → 0 < n → RawURL_Encode d ≠ [].
Proof. intros <- Hn. destruct d as [|a [|b [|c d]]]; cbn; [|done..]. unfold blen in Hn. cbn in Hn. lia. Qed.

Lemma decodeManifestValue_Ok l name n d :
  0 < n → decodeManifestValue l name n = Ok d ↔ l = manifest_line name (RawURL_Encode d) ∧ blen d = n.
Proof.
  intros Hn. unfold decodeManifestValue. split.
  - intros Hd. go_inv. apply manifestTextValue_Ok in Hr as [-> _].
    destruct (decode_exact v n) as [x|] eqn:E; [|done]. simplify_eq. by apply decode_exact_Some in E as [-> ?].
  - intros [-> Hd]. rewrite (proj2 (manifestTextValue_Ok _ name (RawURL_Encode d)))
      by (split; [done|by eapply encoded_nonempty]). cbn [rbind].
    by rewrite (proj2 (decode_exact_Some (RawURL_Encode d) n d)).
Qed.

(** The lines of a text that was printed from lines. *)
Lemma Split_print_lines ls :
  Forall (λ l, without 0x0A l = true) ls → Split 0x0A (print_lines ls) = (ls ++ [[]])%list.
Proof.
  induction 1 as [|l ls Hl _ IH]; [done|]. unfold print_lines in *. cbn [flat_map].
  rewrite <-app_assoc. cbn [app]. rewrite Split_at by done. by rewrite IH, Split_one.
Qed.

Lemma without_app sep a b : without sep (a ++ b)%list = without sep a && without sep b.
Proof. apply forallb_app. Qed.
Lemma encoded_without_newline b : without 0x0A (RawURL_Encode b) = true.
Proof. apply sextet_forall. vm_compute. reflexivity. Qed.

(** What a manifest can say. *)
Definition manifest_valid (m : authorityBackupManifest) : Prop :=
  blen (am_WorkspaceID m) = workspaceIDSize ∧ blen (am_AuthorityPublicKey m) = 32 ∧
  (∃ d, am_AuthorityKeyID m = RawURL_Encode d ∧ blen d = 32) ∧
  am_PrivateKeyFile m ≠ [] ∧ Base (am_PrivateKeyFile m) = am_PrivateKeyFile m ∧
  without 0x0A (am_PrivateKeyFile m) = true ∧ blen (am_PrivateKeySHA256 m) = 32.

Lemma authority_manifest_exact encoded m :
  decodeAuthorityBackupManifest encoded = Ok m ↔
  encoded = encodeAuthorityBackupManifest m ∧ manifest_valid m.
Proof.
  split.
  - intros Hd. unfold decodeAuthorityBackupManifest in Hd.
    pose proof (Split_without 0x0A encoded) as Hs.
    destruct (Split 0x0A encoded) as [|l0 [|l1 [|l2 [|l3 [|l4 [|l5 [|l6 [|]]]]]]]]; try done.
    go_inv. apply decodeManifestValue_Ok in Hr as [-> Hw], Hr0 as [-> Hk], Hr3 as [-> Hsh]; [|done..].
    apply manifestTextValue_Ok in Hr1 as [-> Hi], Hr2 as [-> Hf]. go_bool. simplify_eq. split; [done|].
    repeat (apply Forall_cons in Hs as [? Hs]).
    unfold manifest_valid. cbn. split_and!; try done.
    match goal with Hx : is_Some (decode_exact _ _) |- _ =>
      destruct Hx as [d Hx]; apply decode_exact_Some in Hx; by exists d end.
  - intros [-> (Hw & Hk & (d & Hi & Hd) & Hf & Hb & Hn & Hg)]. unfold decodeAuthorityBackupManifest.
    unfold encodeAuthorityBackupManifest at 1. rewrite Split_print_lines; cbn [app].
    2: { unfold manifest_line. rewrite Hi. repeat constructor; rewrite ?without_app, ?encoded_without_newline, ?Hn; reflexivity. }
    rewrite !beq_refl. cbn [negb orb guard_err rbind].
    rewrite (proj2 (decodeManifestValue_Ok _ "workspace_id" workspaceIDSize (am_WorkspaceID m) ltac:(done))) by done.
    rewrite (proj2 (decodeManifestValue_Ok _ "authority_public_key" 32 (am_AuthorityPublicKey m) ltac:(done))) by done.
    rewrite (proj2 (decodeManifestValue_Ok _ "private_key_sha256" 32 (am_PrivateKeySHA256 m) ltac:(done))) by done.
    rewrite (proj2 (manifestTextValue_Ok _ "authority_key_id" (am_AuthorityKeyID m)))
      by (split; [done|rewrite Hi; by eapply encoded_nonempty]).
    rewrite (proj2 (manifestTextValue_Ok _ "private_key_file" (am_PrivateKeyFile m))) by done.
    cbn [rbind]. rewrite bool_decide_true.
    2: { exists d. by apply decode_exact_Some. }
    rewrite Hb, beq_refl. cbn [negb guard_err rbind]. destruct m. cbn. by rewrite beq_refl.
Qed.

(** ** What verification accepts *)

Lemma Base_plain e : plain_name e = true → Base e = e.
Proof.
  unfold plain_name. rewrite !andb_true_iff, !negb_true_iff. intros [[[He _] _] Hs]. unfold Base. rewrite He.
  assert (trim_right 0x2F e = e ∧ cut_last 0x2F e = None) as [-> ->]; [|by rewrite He].
  clear He. induction e as [|c e IH]; [done|]. cbn [forallb trim_right cut_last] in *.
  apply andb_true_iff in Hs as [Hc%negb_true_iff Hs]. destruct (IH Hs) as [-> ->]. rewrite Hc. by destruct e.
Qed.

Lemma RawURL_Encode_length b : (length (RawURL_Encode b) ≤ 2 * length b)%nat.
Proof.
  induction b as [b IH] using (induction_ltof1 _ (@length byte)). unfold ltof in IH.
  destruct b as [|x [|y [|z r]]]; cbn [RawURL_Encode length]; [lia..|]. specialize (IH r). cbn in IH. lia.
Qed.

Section Verified.
Context `{Process, PKCS8}.

Definition key_file_name (pk : bytes) : bytes := authorityPrivateKeyFileName (AuthorityKeyID pk).

(** The manifest of a backup of [encoded]. *)
Definition manifest_of (w pk encoded : bytes) : authorityBackupManifest :=
  mkAuthorityManifest w pk (AuthorityKeyID pk) (key_file_name pk) (Sum256 encoded).

(** A key file that is the authority of [pk]. *)
Definition key_content (pk encoded : bytes) : Prop :=
  blen encoded ≤ 4096 ∧ ∃ k, parseAuthorityPrivateKey encoded = Ok k ∧ ed_Public k = pk.

(** A directory that holds a backup of the key file [encoded]. *)
Record backup_in (directory : path) (w pk encoded : bytes) (fs : files) : Prop := {
  backup_directory : lookup_node fs directory = Some (Dir owner_dir);
  backup_manifest : fs !! (directory ++ [authorityBackupManifestName])%list =
    Some (File owner_only (encodeAuthorityBackupManifest (manifest_of w pk encoded)));
  backup_key : fs !! (directory ++ [key_file_name pk])%list = Some (File owner_only encoded);
  backup_content : key_content pk encoded
}.

Definition arguments_ok (directory w pk : bytes) : Prop :=
  directory ≠ [] ∧ blen w = workspaceIDSize ∧ pk ≠ repeat Byte.x00 32 ∧ blen pk = 32.

Lemma validateBackupArguments_Ok directory w pk u :
  blen pk = 32 → validateBackupArguments directory w pk = Ok u ↔ arguments_ok directory w pk.
Proof.
  intros Hpk. unfold validateBackupArguments, arguments_ok. split.
  - intros Hv. go_inv. go_bool. done.
  - intros (Hd & Hw & Hz & _). rewrite (proj2 (beq_false _ _) Hd), Hw, (proj2 (beq_false _ _) Hz). by destruct u.
Qed.

Lemma key_file_plain pk : plain_name (key_file_name pk) = true.
Proof. apply key_file_name_plain. Qed.

Lemma manifest_of_valid w pk encoded :
  blen w = workspaceIDSize → blen pk = 32 → manifest_valid (manifest_of w pk encoded).
Proof.
  intros Hw Hpk. pose proof (key_file_plain pk) as Hp. unfold manifest_valid, manifest_of.
  cbn [am_WorkspaceID am_AuthorityPublicKey am_AuthorityKeyID am_PrivateKeyFile am_PrivateKeySHA256].
  split_and!; try done.
  - exists (Sum256 (authorityKeyIDDomain ++ pk)). split; [done|]. unfold blen. by rewrite Sum256_length.
  - by apply Base_plain.
  - unfold key_file_name, authorityPrivateKeyFileName, AuthorityKeyID. rewrite !without_app,
      encoded_without_newline. reflexivity.
  - unfold blen. by rewrite Sum256_length.
Qed.

Lemma manifest_of_small w pk encoded :
  blen w = workspaceIDSize → blen pk = 32 →
  blen (encodeAuthorityBackupManifest (manifest_of w pk encoded)) ≤ 4096.
Proof.
  intros Hw Hpk. unfold encodeAuthorityBackupManifest, print_lines, manifest_line, manifest_of, key_file_name,
    authorityPrivateKeyFileName, AuthorityKeyID, blen in *. cbn [flat_map am_WorkspaceID am_AuthorityPublicKey
    am_AuthorityKeyID am_PrivateKeyFile am_PrivateKeySHA256].
  rewrite ?length_app. cbn [length].
  pose proof (RawURL_Encode_length w). pose proof (RawURL_Encode_length pk).
  pose proof (RawURL_Encode_length (Sum256 encoded)) as Hs.
  pose proof (RawURL_Encode_length (Sum256 (authorityKeyIDDomain ++ pk))) as Hi. rewrite Sum256_length in Hs, Hi.
  unfold workspaceIDSize in *.
  change (length authorityBackupMagic) with 41%nat. cbn [length bs String.append].
  repeat match goal with |- context [length (bs ?s)] => let n := eval vm_compute in (length (bs s)) in
    change (length (bs s)) with n end. lia.
Qed.

Lemma validateProtectedDirectory_Ok p fs :
  validateProtectedDirectory p fs = Ok tt ↔ lookup_node fs (abs p) = Some (Dir owner_dir).
Proof.
  unfold validateProtectedDirectory, Lstat. split.
  - intros Hv. go_inv. apply wrapf_Ok in Hr. destruct (lookup_node fs (abs p)) as [n|]; [|done].
    go_bool. simplify_eq. destruct v; try done. go_bool. cbn in *. by subst.
  - by intros ->.
Qed.

Definition backup_record (directory pk : bytes) : AuthorityBackup :=
  mkAuthorityBackup directory (Join directory authorityBackupManifestName)
    (Join directory (key_file_name pk)) (AuthorityKeyID pk).

Lemma VerifyAuthorityBackup_Ok d w pk fs b :
  blen pk = 32 →
  VerifyAuthorityBackup d w pk fs = Ok b ↔
  arguments_ok d w pk ∧ b = backup_record d pk ∧ ∃ e, backup_in (abs d) w pk e fs.
Proof.
  intros Hpk. unfold VerifyAuthorityBackup. split.
  - intros Hv. go_inv. destruct v3 as [k e]. go_inv. go_bool. apply wrapf_Ok in Hr3.
    apply validateBackupArguments_Ok in Hr; [|done]. destruct v0.
    apply validateProtectedDirectory_Ok in Hr0. apply readProtectedRegularFile_Ok in Hr1 as [Hm _].
    apply authority_manifest_exact in Hr2 as [-> _]. apply loadAuthorityPrivateKeyFile_Ok in Hr3 as (Hk & Hs & Hp & He).
    destruct v2 as [mw mpk mid mf md].
    cbn [am_WorkspaceID am_AuthorityPublicKey am_AuthorityKeyID am_PrivateKeyFile am_PrivateKeySHA256] in *.
    subst mw mpk mid mf md. rewrite abs_Join in Hm by reflexivity. fold (key_file_name pk) in *.
    rewrite abs_Join in Hk by apply key_file_plain. split; [done|]. split; [by simplify_eq|].
    exists e. split; try done. split; eauto.
  - intros (Ha & -> & e & [Hd Hm Hk [Hs (k & Hp & He)]]). pose proof Ha as (_ & Hw & _ & _).
    rewrite (proj2 (validateBackupArguments_Ok d w pk tt Hpk) Ha). cbn [rbind].
    rewrite (proj2 (validateProtectedDirectory_Ok d fs) Hd). cbn [rbind].
    rewrite (proj2 (readProtectedRegularFile_Ok (Join d authorityBackupManifestName) 4096 _ fs _))
      by (split; [rewrite abs_Join by reflexivity; exact Hm|by apply manifest_of_small]). cbn [rbind].
    rewrite (proj2 (authority_manifest_exact _ (manifest_of w pk e)))
      by (split; [done|by apply manifest_of_valid]).
    cbn [rbind manifest_of am_WorkspaceID am_AuthorityPublicKey am_AuthorityKeyID am_PrivateKeyFile am_PrivateKeySHA256].
    fold (key_file_name pk). rewrite !beq_refl. cbn [negb orb guard_err rbind].
    rewrite (proj2 (loadAuthorityPrivateKeyFile_Ok (Join d (key_file_name pk)) pk fs k e))
      by (rewrite abs_Join by apply key_file_plain; done).
    cbn [wrapf rbind]. by rewrite beq_refl.
Qed.
End Verified.

(** ** Creating a backup *)

Section Create.
Context `{Process, PKCS8} (o : oracle).
Implicit Types fs : files.

Lemma wp_writeExclusive p c Q E fs :
  (faulty o → E io_fault fs) → (lookup_node fs (abs p) ≠ None → E ErrExist fs) →
  (is_dir fs (parent (abs p)) = false → E ErrNotExist fs) →
  (fs !! abs p = None → abs p ≠ [] → faulty o →
   ∀ e, errors_Is e ErrExist = false → E e fs ∧ ∀ n, is_directory n = false → E e (<[abs p := n]> fs)) →
  (fs !! abs p = None → abs p ≠ [] → Q tt (<[abs p := File owner_only c]> fs)) →
  wp o (writeExclusiveProtectedFile p c) Q E fs.
Proof. apply wp_create_filled, fill_protected_fills. Qed.

Lemma wp_syncDirectory p n Q E fs :
  (faulty o → E io_fault fs) → Open (abs p) fs = Ok n → Q tt fs → wp o (syncDirectory p) Q E fs.
Proof.
  intros Hf Hp HQ. apply wp_bind, wp_reading; [done|]. rewrite Hp. by apply wp_Sync.
Qed.

Lemma key_file_manifest pk : key_file_name pk ≠ authorityBackupManifestName.
Proof. intros E. apply (f_equal hd_error) in E. discriminate E. Qed.

(** A directory that can be made: its parent exists, and nothing is in its place. *)
Definition vacant fs (p : path) : Prop :=
  p ≠ [] ∧ is_dir fs (parent p) = true ∧ ∀ q, p `prefix_of` q → fs !! q = None.

(** The files with a new backup. *)
Definition with_backup (D : path) (w pk e : bytes) (fs : files) : files :=
  <[(D ++ [authorityBackupManifestName])%list :=
      File owner_only (encodeAuthorityBackupManifest (manifest_of w pk e))]>
    (<[(D ++ [key_file_name pk])%list := File owner_only e]> (<[D := Dir owner_dir]> fs)).

Lemma child_ne (D : path) e : (D ++ [e])%list ≠ D.
Proof. intros E. apply (f_equal length) in E. rewrite length_app in E. cbn in E. lia. Qed.

Lemma child_below (D : path) e : D `prefix_of` (D ++ [e])%list.
Proof. by exists [e]. Qed.

Lemma with_backup_in D w pk e fs : key_content pk e → backup_in D w pk e (with_backup D w pk e fs).
Proof.
  intros Hc. unfold with_backup. pose proof (key_file_manifest pk) as Hne.
  assert ((D ++ [authorityBackupManifestName])%list ≠ (D ++ [key_file_name pk])%list) as Hmk.
  { intros E. apply app_inj_tail in E as [_ E]. by apply Hne. }
  split; [|by rewrite lookup_insert_eq|by rewrite lookup_insert_ne, lookup_insert_eq|done].
  apply lookup_node_Some. rewrite !lookup_insert_ne by apply child_ne. apply lookup_insert_eq.
Qed.

Lemma with_backup_agree D w pk e fs : agree (prefix D) fs (with_backup D w pk e fs).
Proof.
  unfold with_backup. etransitivity; [|apply agree_insert, child_below].
  etransitivity; [|apply agree_insert, child_below]. by apply agree_insert.
Qed.

Lemma is_dir_insert fs D d : is_dir (<[D := Dir d]> fs) D = true.
Proof. unfold is_dir. by rewrite (lookup_node_Some _ _ (Dir d)) by apply lookup_insert_eq. Qed.

Lemma wp_fill_backup d w pk e x fs :
  arguments_ok d w pk → fs !! abs d = None → key_content pk e →
  wp o (fill_authority_backup d w pk e)
    (λ b fs', b = backup_record d pk ∧ fs' = with_backup (abs d) w pk e fs)
    (λ _ fs', agree (prefix (abs d)) fs fs' ∧ (faulty o ∨ ¬ vacant fs (abs d)))
    (<[abs d := Dir x]> fs).
Proof.
  intros Ha HD Hc. pose proof Ha as (_ & _ & _ & Hpk). set (D := abs d) in *. unfold fill_authority_backup. fold D.
  assert (∀ x', agree (prefix D) fs (<[D := Dir x']> fs)) as Ag by (intros; by apply agree_insert).
  apply wp_bind, wp_wrapf, (wp_Chmod _ _ _ (Dir x)); [by auto| |].
  { apply Open_node; [|done]. apply lookup_node_Some, lookup_insert_eq. }
  intros q _ Hq. rewrite Hq by apply lookup_node_Some, lookup_insert_eq. cbn [set_perm]. rewrite insert_insert_eq.
  fold (key_file_name pk). set (fs2 := <[D := Dir owner_dir]> fs).
  assert (∀ e', fs2 !! (D ++ [e'])%list = fs !! (D ++ [e'])%list) as Hchild
    by (intros; unfold fs2; apply lookup_insert_ne; apply not_eq_sym, child_ne).
  apply wp_bind, wp_wrapf, wp_writeExclusive; rewrite ?abs_Join by apply key_file_plain; fold D;
    rewrite ?parent_snoc.
  1: { intros Hf. split; [apply Ag|by left]. }
  1: { intros Hx. split; [apply Ag|right]. intros (_ & _ & Hv). apply Hx, lookup_node_None. rewrite Hchild.
       split; [apply Hv, child_below|by destruct D]. }
  1: by (unfold fs2; rewrite is_dir_insert).
  1: { intros _ _ Hf er _. split; [split; [apply Ag|by left]|]. intros n _. split; [|by left].
       etransitivity; [apply (Ag owner_dir)|apply agree_insert, child_below]. }
  intros Hkn _. set (fs3 := <[(D ++ [key_file_name pk])%list := File owner_only e]> fs2).
  assert (agree (prefix D) fs fs3) as Ag3.
  { etransitivity; [apply (Ag owner_dir)|apply agree_insert, child_below]. }
  apply wp_bind, wp_wrapf, wp_writeExclusive; rewrite ?abs_Join by reflexivity; fold D; rewrite ?parent_snoc.
  1: { intros Hf. by split; [|left]. }
  1: { intros Hx. split; [done|right]. intros (_ & _ & Hv). apply Hx, lookup_node_None. unfold fs3.
       rewrite lookup_insert_ne by (intros E; apply app_inj_tail in E as [_ E]; by apply (key_file_manifest pk)).
       rewrite Hchild. split; [apply Hv, child_below|by destruct D]. }
  1: { unfold is_dir, fs3, fs2. rewrite (lookup_node_Some _ _ (Dir owner_dir)); [done|].
       rewrite lookup_insert_ne by apply child_ne. apply lookup_insert_eq. }
  1: { intros _ _ Hf er _. split; [by split; [|left]|]. intros n _. split; [|by left].
       etransitivity; [exact Ag3|apply agree_insert, child_below]. }
  intros _ _. change (<[_ := _]> fs3) with (with_backup D w pk e fs).
  pose proof (with_backup_in D w pk e fs Hc) as Hb. pose proof (with_backup_agree D w pk e fs) as Ag4.
  apply wp_bind, wp_wrapf, (wp_syncDirectory _ (Dir owner_dir)); [intros; by split; [|left]| |].
  { apply Open_node; [apply Hb|done]. }
  apply wp_wrapf, wp_reading; [intros; by split; [|left]|].
  rewrite (proj2 (VerifyAuthorityBackup_Ok d w pk _ (backup_record d pk) Hpk)); [done|]. by eauto.
Qed.

Lemma wp_CreateAuthorityBackup d w src pk fs :
  blen pk = 32 →
  wp o (CreateAuthorityBackup d w src pk)
    (λ b fs', b = backup_record d pk ∧ arguments_ok d w pk ∧ lookup_node fs (abs d) = None ∧
       agree (prefix (abs d)) fs fs' ∧
       ∃ e, fs !! abs src = Some (File owner_only e) ∧ key_content pk e ∧
         fs' = with_backup (abs d) w pk e fs)
    (λ _ fs', agree (prefix (abs d)) fs fs' ∧ (lookup_node fs (abs d) ≠ None → fs' = fs) ∧
       (healthy o → arguments_ok d w pk → vacant fs (abs d) →
        is_ok (loadAuthorityPrivateKeyFile src pk fs) = false)) fs.
Proof.
  intros Hpk. set (D := abs d). unfold CreateAuthorityBackup. fold D.
  assert (faulty o → ¬ healthy o) as Hfh by (intros Hf Hh; by apply (healthy_faulty o Hh)).
  apply wp_bind, wp_result. destruct (validateBackupArguments d w pk) as [[]|e] eqn:Hargs.
  2: { split_and!; [done..|]. intros _ Ha _. by rewrite (proj2 (validateBackupArguments_Ok d w pk tt Hpk) Ha) in Hargs. }
  apply validateBackupArguments_Ok in Hargs; [|done].
  apply wp_bind, wp_wrapf, wp_reading; [by intros Hf; split_and!; [..|intros Hh; destruct (Hfh Hf Hh)]|].
  destruct (loadAuthorityPrivateKeyFile src pk fs) as [[k e]|er] eqn:Hl; [|by split_and!].
  apply loadAuthorityPrivateKeyFile_Ok in Hl as (Hsrc & Hsz & Hk & Hpub).
  apply wp_bind, wp_wrapf, wp_Mkdir; [by intros Hf; split_and!; [..|intros Hh; destruct (Hfh Hf Hh)]| |].
  { intros er Hbad. split_and!; [done..|]. intros _ _ (Hne & Hdir & Hfree). destruct Hbad as [Hbad|Hbad]; [|congruence].
    exfalso. apply Hbad, lookup_node_None. by auto. }
  intros Hnew. apply lookup_node_None in Hnew as Hnew'. destruct Hnew' as [HDn HDne].
  apply wp_on_error.
  eapply wp_mono; [apply (wp_fill_backup d w pk e); [done|done|by split; eauto]| |].
  - intros b fs' [-> ->]. split_and!; [done..|apply with_backup_agree|]. exists e. split_and!; [done|split; eauto|done].
  - intros er fs' [Ha Hr].
    assert (∀ fs'', agree (prefix D) fs fs'' → agree (prefix D) fs fs'' ∧
      (lookup_node fs D ≠ None → fs'' = fs) ∧ (healthy o → arguments_ok d w pk → vacant fs D → is_ok (Ok (k, e)) = false)) as HE.
    { intros fs'' Ha'. split_and!; [done|done|]. intros Hh _ Hv. destruct Hr as [Hf|Hr]; [destruct (Hfh Hf Hh)|done]. }
    apply wp_RemoveAll; [intros; by apply HE|]. intros fs'' Ha' _. apply HE. by etransitivity.
Qed.
End Create.

(** ** Restoring a backup *)

Section Restore.
Context `{Process, PKCS8} (o : oracle).
Implicit Types fs : files.

(** What a restoration into [D] may change: the directories up to it, and the key
    file. *)
Definition restore_scope (D : path) (pk : bytes) (q : path) : Prop :=
  q `prefix_of` D ∨ q = (D ++ [key_file_name pk])%list.

(** The key file is as it was, or new. *)
Definition restore_effect (D : path) (pk : bytes) (fs fs' : files) : Prop :=
  agree (restore_scope D pk) fs fs' ∧
  (contents fs' = contents fs ∨
   contents fs !! (D ++ [key_file_name pk])%list = None ∧ ∃ n, is_directory n = false ∧
   contents fs' = <[(D ++ [key_file_name pk])%list := n]> (contents fs)).

(** Where nothing is in the way of a restoration. *)
Definition restorable (d : bytes) (pk e : bytes) fs : Prop :=
  d ≠ [] ∧ clear_way fs (abs d) ∧
  (fs !! (abs d ++ [key_file_name pk])%list = None ∨
   fs !! (abs d ++ [key_file_name pk])%list = Some (File owner_only e)).

Lemma made_agree perm D pk fs fs' : made perm D fs fs' → agree (restore_scope D pk) fs fs'.
Proof. intros Hm q Hq. apply (made_inside _ _ _ _ _) with (2 := Hm). intros Hp. apply Hq. by left. Qed.

(** The files when the destination directory is ready. *)
Record prepared (D : path) (pk : bytes) (fs fs' : files) : Prop := {
  prepared_agree : agree (restore_scope D pk) fs fs';
  prepared_contents : contents fs' = contents fs;
  prepared_key : fs' !! (D ++ [key_file_name pk])%list = fs !! (D ++ [key_file_name pk])%list;
  prepared_directory : lookup_node fs' D = Some (Dir owner_dir)
}.

Lemma prepare D pk fs fs1 d :
  made owner_dir D fs fs1 → lookup_node fs1 D = Some (Dir d) →
  prepared D pk fs (<[D := Dir owner_dir]> fs1).
Proof.
  intros Hm Hl. split.
  - etransitivity; [by eapply made_agree|]. apply agree_insert. by left.
  - rewrite (contents_directory fs1 D d) by done. by eapply contents_made.
  - rewrite lookup_insert_ne by (apply not_eq_sym, child_ne).
    apply (made_inside _ _ _ _ _) with (2 := Hm). apply snoc_not_prefix.
  - apply lookup_node_Some, lookup_insert_eq.
Qed.

Lemma prepared_effect D pk fs fs' : prepared D pk fs fs' → restore_effect D pk fs fs'.
Proof. intros [Ha Hc _ _]. split; [done|by left]. Qed.

(** The file is new in the prepared directory. *)
Lemma prepared_insert D pk fs fs' n :
  prepared D pk fs fs' → fs' !! (D ++ [key_file_name pk])%list = None → is_directory n = false →
  restore_effect D pk fs (<[(D ++ [key_file_name pk])%list := n]> fs').
Proof.
  intros [Ha Hc Hk _] Hf Hn. split.
  - etransitivity; [exact Ha|]. apply agree_insert. by right.
  - right. split; [|exists n; split; [done|by rewrite contents_insert, Hc]].
    apply contents_None, lookup_node_None. split; [congruence|by destruct D].
Qed.

Lemma wp_place dd pk e fs fs2 :
  key_content pk e → prepared (abs dd) pk fs fs2 →
  let P := (abs dd ++ [key_file_name pk])%list in
  wp o (place_authority_key dd pk (AuthorityKeyID pk) e)
    (λ r fs', restore_effect (abs dd) pk fs fs' ∧ ar_PrivateKeyPath r = Join dd (key_file_name pk) ∧
       fs' !! P = Some (File owner_only e) ∧
       contents fs !! P = if ar_AlreadyPresent r then Some (File owner_only e) else None)
    (λ _ fs', restore_effect (abs dd) pk fs fs' ∧ (healthy o → ¬ restorable dd pk e fs)) fs2.
Proof.
  intros [Hsz (k & Hk & Hpub)] Hp P. unfold place_authority_key. fold (key_file_name pk).
  assert (faulty o → ¬ healthy o) as Hfh by (intros Hf Hh; by apply (healthy_faulty o Hh)).
  assert (∀ fs' : files, (∃ e', loadAuthorityPrivateKeyFile (Join dd (key_file_name pk)) pk fs' = Ok e' ∧ e'.2 = e) ↔
     fs' !! P = Some (File owner_only e)) as Hload.
  { intros fs'. split.
    - intros ([k' e'] & Hl & He). cbn in He. subst e'. apply loadAuthorityPrivateKeyFile_Ok in Hl as (Hl & _).
      by rewrite abs_Join in Hl by apply key_file_plain.
    - intros Hin. exists (k, e). split; [|done]. apply loadAuthorityPrivateKeyFile_Ok.
      by rewrite abs_Join by apply key_file_plain. }
  pose proof (prepared_effect _ _ _ _ Hp) as Heff2.
  apply wp_bind, wp_try, wp_writeExclusive; rewrite ?abs_Join by apply key_file_plain; fold P;
    [intros Hf|intros Hx|intros Hx|intros Hf Hne Hfa er Her|intros Hf Hne].
  - apply wp_err. split; [done|intros Hh; destruct (Hfh Hf Hh)].
  - replace (errors_Is ErrExist ErrExist) with true by reflexivity. cbn [negb].
    apply wp_bind, wp_wrapf, wp_reading; [intros Hf; split; [done|intros Hh; destruct (Hfh Hf Hh)]|].
    assert (∀ r, loadAuthorityPrivateKeyFile (Join dd (key_file_name pk)) pk fs2 = r →
      (∀ e', r = Ok e' → e'.2 ≠ e) → ¬ restorable dd pk e fs) as Hbad.
    { intros r Hr Hne (_ & _ & [Ht|Ht]); rewrite <-(prepared_key _ _ _ _ Hp) in Ht; fold P in Ht.
      - apply Hx, lookup_node_None. split; [done|unfold P; by destruct (abs dd)].
      - apply Hload in Ht as (e' & Hl & He'). subst r. by apply (Hne e'). }
    destruct (loadAuthorityPrivateKeyFile _ _ fs2) as [[k' e']|er] eqn:Hl.
    + destruct (beq e' e) eqn:He; cbn [negb].
      * apply beq_true in He as ->. apply wp_ret. cbn [ar_PrivateKeyPath ar_AlreadyPresent].
        assert (fs2 !! P = Some (File owner_only e)) as Hin by (apply Hload; by exists (k', e)).
        split_and!; [done..|]. rewrite <-(prepared_contents _ _ _ _ Hp). by apply contents_lookup.
      * apply wp_err. split; [done|]. intros _. apply (Hbad _ eq_refl). intros x [= <-]. by apply beq_false.
    + split; [done|]. intros _. by apply (Hbad _ eq_refl).
  - unfold P, is_dir in Hx. rewrite parent_snoc, (prepared_directory _ _ _ _ Hp) in Hx. done.
  - rewrite Her. cbn [negb].
    split; [|intros n Hnd]; apply wp_err; (split; [|intros Hh; destruct (Hfh Hfa Hh)]); [done|].
    by apply prepared_insert.
  - pose proof (prepared_insert _ _ _ _ (File owner_only e) Hp Hf eq_refl) as Heff3. fold P in Heff3.
    assert (<[P := File owner_only e]> fs2 !! P = Some (File owner_only e)) as Hin by apply lookup_insert_eq.
    apply wp_bind, wp_wrapf, (wp_syncDirectory _ _ (Dir owner_dir));
      [intros Hfa; split; [done|intros Hh; destruct (Hfh Hfa Hh)]| |].
    { apply Open_node; [|done]. pose proof (prepared_directory _ _ _ _ Hp) as Hd. unfold lookup_node in *.
      by rewrite lookup_insert_ne by apply child_ne. }
    apply wp_bind, wp_wrapf, wp_reading; [intros Hfa; split; [done|intros Hh; destruct (Hfh Hfa Hh)]|].
    unfold LoadAuthorityPrivateKey. destruct (proj2 (Hload _) Hin) as ([k' e'] & -> & _). cbn [rbind].
    apply wp_ret. cbn [ar_PrivateKeyPath ar_AlreadyPresent]. split_and!; [done..|].
    rewrite <-(prepared_contents _ _ _ _ Hp). by apply contents_None, lookup_node_None.
Qed.

Lemma wp_install dd pk e fs :
  key_content pk e →
  let P := (abs dd ++ [key_file_name pk])%list in
  wp o (install_authority_key dd pk (AuthorityKeyID pk) e)
    (λ r fs', restore_effect (abs dd) pk fs fs' ∧ ar_PrivateKeyPath r = Join dd (key_file_name pk) ∧
       fs' !! P = Some (File owner_only e) ∧
       contents fs !! P = if ar_AlreadyPresent r then Some (File owner_only e) else None)
    (λ _ fs', restore_effect (abs dd) pk fs fs' ∧ (healthy o → ¬ restorable dd pk e fs)) fs.
Proof.
  intros Hkc P. unfold install_authority_key.
  assert (faulty o → ¬ healthy o) as Hfh by (intros Hf Hh; by apply (healthy_faulty o Hh)).
  destruct (beq dd []) eqn:Hdd.
  { apply beq_true in Hdd. apply wp_err. split; [split; [done|by left]|]. by intros _ (? & _). }
  apply wp_bind, wp_wrapf, wp_MkdirAll.
  { intros er fs' Hm Hr. split; [split; [by eapply made_agree|left; by eapply contents_made]|].
    intros Hh (_ & Hc & _). destruct Hr as [Hf|Hr]; [destruct (Hfh Hf Hh)|done]. }
  intros fs1 d Hm Ho. pose proof (contents_made _ _ _ _ Hm) as Hc1. pose proof (made_agree _ _ pk _ _ Hm) as Ag1.
  assert (restore_effect (abs dd) pk fs fs1) as Heff1 by (split; [done|by left]).
  apply wp_bind, wp_wrapf, wp_reading; [intros Hf; split; [done|intros Hh; destruct (Hfh Hf Hh)]|].
  unfold Lstat. destruct (lookup_node fs1 (abs dd)) as [n|] eqn:Hl.
  2: { split; [done|]. intros _ (_ & Hc & _). by rewrite (clear_Open_node fs1 _ d) in Hl by (try done; by eapply made_clear). }
  destruct (is_link n || negb (is_directory n)) eqn:Hn.
  { apply wp_err. split; [done|]. intros _ (_ & Hc & _).
    rewrite (clear_Open_node fs1 _ d) in Hl by (try done; by eapply made_clear). by simplify_eq. }
  destruct n as [d'| | |]; try done. rewrite (Open_node _ _ _ Hl) in Ho by done.
  assert (d' = d) as -> by congruence.
  apply wp_bind, wp_wrapf, (wp_Chmod _ _ _ (Dir d)); [intros Hf; split; [done|intros Hh; destruct (Hfh Hf Hh)]| |].
  { by apply Open_node. }
  intros q _ Hq. rewrite (Hq Hl). apply wp_place; [done|]. by apply (prepare _ _ _ _ d).
Qed.

Lemma wp_RestoreAuthorityBackup bd dd w pk fs :
  blen pk = 32 →
  let P := (abs dd ++ [key_file_name pk])%list in
  wp o (RestoreAuthorityBackup bd dd w pk)
    (λ r fs', restore_effect (abs dd) pk fs fs' ∧ ar_PrivateKeyPath r = Join dd (key_file_name pk) ∧
       arguments_ok bd w pk ∧
       ∃ e, backup_in (abs bd) w pk e fs ∧ fs' !! P = Some (File owner_only e) ∧
         contents fs !! P = if ar_AlreadyPresent r then Some (File owner_only e) else None)
    (λ _ fs', restore_effect (abs dd) pk fs fs' ∧
       (healthy o → ∀ e, arguments_ok bd w pk → backup_in (abs bd) w pk e fs → ¬ restorable dd pk e fs)) fs.
Proof.
  intros Hpk P. unfold RestoreAuthorityBackup.
  assert (faulty o → ¬ healthy o) as Hfh by (intros Hf Hh; by apply (healthy_faulty o Hh)).
  assert (restore_effect (abs dd) pk fs fs) as Heff0 by (split; [done|by left]).
  apply wp_bind, wp_wrapf, wp_reading; [intros Hf; split; [done|intros Hh; destruct (Hfh Hf Hh)]|].
  destruct (VerifyAuthorityBackup bd w pk fs) as [b|er] eqn:Hv.
  2: { split; [done|]. intros _ e Ha Hb. exfalso.
       by rewrite (proj2 (VerifyAuthorityBackup_Ok bd w pk fs (backup_record bd pk) Hpk)) in Hv by eauto. }
  apply VerifyAuthorityBackup_Ok in Hv as (Ha & -> & e & Hb); [|done]. cbn [ab_PrivateKeyPath ab_KeyID backup_record].
  assert (∀ e', backup_in (abs bd) w pk e' fs → e' = e) as Huniq.
  { intros e' Hb'. pose proof (backup_key _ _ _ _ _ Hb') as E1. rewrite (backup_key _ _ _ _ _ Hb) in E1. by simplify_eq. }
  destruct (backup_content _ _ _ _ _ Hb) as [Hsz (k & Hk & Hpub)].
  assert (∀ p fs', fs' !! abs p = Some (File owner_only e) → loadAuthorityPrivateKeyFile p pk fs' = Ok (k, e)) as Hload
    by (intros; by apply loadAuthorityPrivateKeyFile_Ok).
  apply wp_bind, wp_wrapf, wp_reading; [intros Hf; split; [done|intros Hh; destruct (Hfh Hf Hh)]|].
  rewrite Hload by (rewrite abs_Join by apply key_file_plain; apply Hb).
  eapply wp_mono; [apply (wp_install dd pk e); split; eauto| |].
  - intros r fs' (He & Hp & Hf & Hc). split_and!; [done..|]. by exists e.
  - intros er fs' [He Hr]. split; [done|]. intros Hh e' _ Hb'. rewrite (Huniq e' Hb'). by apply Hr.
Qed.
End Restore.
