(* ===== verification/WorkspaceBackup.v ===== *)
(** internal/admission/backup.go and internal/workspacebackup/backup.go: backups of
    a whole workspace, a snapshot of the registry with the authority key that signs
    for it. The format of a SQLite file and its online backup are the class
    [SqliteFile]. *)

From S2P Require Import Prelude GoStd GoNet GoCrypto GoPath MembershipCodec Schema FileSystem AuthorityKey.
From S2P Require Import AuthorityBackup.

#[local] Open Scope string_scope.
#[local] Open Scope Z_scope.

(** ** Registry snapshots *)

(** What SQLite reads in a file: the answers to the two checks, the schema
    version, and the tables. *)
Record Snapshot : Type := mkSnapshot {
  sn_integrity : bytes;
  sn_foreign_key_violation : bool;
  sn_version : Z;
  sn_db : DB
}.

(** The file that an online backup of a database writes, and how a file opens,
    if it is a database at all. *)
Class SqliteFile : Type := {
  sqlite_image : DB → bytes;
  sqlite_open : bytes → option Snapshot
}.

(** SQLite's promise for one database: its backup opens as that database, intact. *)
Definition imaged `{SqliteFile} (db : DB) : Prop :=
  sqlite_open (sqlite_image db) = Some (mkSnapshot (bs "ok") false currentSchemaVersion db).

Section Registry.
Context `{Process, SqliteFile}.

(** Open a file and read all of it. *)
Definition read_file (p : bytes) (fs : files) : result bytes := let? n := Open (abs p) fs in ReadAll n.

(** The queries on an opened snapshot. *)
Definition inspect_snapshot (workspaceID image : bytes) : result bytes :=
  match sqlite_open image with
  | None => Err (New "run registry backup integrity check")
  | Some database =>
      fail_if negb (beq (sn_integrity database) (bs "ok")) with_msg "registry backup integrity check failed" in
      fail_if sn_foreign_key_violation database with_msg "registry backup foreign-key check failed" in
      fail_if negb (sn_version database =? currentSchemaVersion) with_msg "registry backup schema version" in
      match workspaces (sn_db database) !! workspaceID with
      | None => Err (New "read registry backup authority")
      | Some row =>
          let encoded := default [] (authority_public_key row) in
          fail_if negb (blen encoded =? 32) with_msg "registry backup authority is invalid" in
          Ok encoded
      end
  end.

Definition InspectRegistryBackup (p workspaceID : bytes) (fs : files) : result bytes :=
  fail_if beq p [] with_msg "registry backup path is required" in
  let? image := wrapf "open registry backup" (read_file p fs) in
  inspect_snapshot workspaceID image.

(** The online backup into an existing empty file; one that fails may leave
    anything in it. *)
Definition online_backup (p : path) (db : DB) : io unit := λ o '(t, fs),
  if fails o t then (Err io_fault, (S t, put_data p (garbled o t) fs))
  else (Ok tt, (S t, put_data p (sqlite_image db) fs)).

(** The method, on a store whose snapshot is [db]. *)
Definition BackupRegistry (db : DB) (destination : bytes) : io unit :=
  (if beq destination [] then io_err (New "registry backup destination is required") else
   do! present := io_try (reading (Lstat (abs destination))) in
   match present with
   | Ok _ => io_err (New "registry backup destination already exists")
   | Err err =>
       if negb (errors_Is err ErrNotExist) then io_err (Wrapf "stat registry backup destination" err) else
       do! _ := io_wrapf "create protected registry backup" (CreateExclusive (abs destination) owner_only) in
       do! _ := on_error (io_wrapf "protect registry backup" (FChmod (abs destination) owner_only))
                  (Remove (abs destination)) in
       do! _ := on_error (io_wrapf "close empty registry backup" Close) (Remove (abs destination)) in
       on_error
         (do! _ := io_wrapf "create online registry backup" (online_backup (abs destination) db) in
          do! _ := io_wrapf "open registry backup for sync" (reading (Open (abs destination))) in
          do! _ := io_wrapf "sync registry backup" Sync in
          io_wrapf "close registry backup" Close)
         (Remove (abs destination))
   end)%io.
End Registry.

(** ** The manifest *)

Definition manifestName : bytes := bs "manifest.txt".
Definition registryName : bytes := bs "registry.sqlite".
Definition authorityDirectory : bytes := bs "authority".
Definition manifestMagic : bytes := bs "SEVENMIRROR-WORKSPACE-BACKUP-V1".

Record manifest : Type := mkManifest {
  mf_WorkspaceID : bytes;
  mf_RegistrySHA256 : bytes;
  mf_AuthorityKeyID : bytes
}.

Definition encodeManifest (value : manifest) : bytes :=
  print_lines [
    manifestMagic;
    manifest_line "workspace_id" (RawURL_Encode (mf_WorkspaceID value));
    manifest_line "registry_file" registryName;
    manifest_line "registry_sha256" (RawURL_Encode (mf_RegistrySHA256 value));
    manifest_line "authority_directory" authorityDirectory;
    manifest_line "authority_key_id" (mf_AuthorityKeyID value) ].

Definition decodeValue (line : bytes) (name : string) (size : Z) : result bytes :=
  match strip_prefix (bs (name ++ "=")) line with
  | None => Err (New ("workspace backup manifest " ++ name ++ " is invalid"))
  | Some encoded =>
      match decode_exact encoded size with
      | Some decoded => Ok decoded
      | None => Err (New ("workspace backup manifest " ++ name ++ " is invalid"))
      end
  end.

Definition decodeManifest (encoded : bytes) : result manifest :=
  match Split 0x0A encoded with
  | [l0; l1; l2; l3; l4; l5; l6] =>
      fail_if negb (beq l0 manifestMagic) || negb (beq l6 []) ||
              negb (beq l2 (manifest_line "registry_file" registryName)) ||
              negb (beq l4 (manifest_line "authority_directory" authorityDirectory))
        with_msg "workspace backup manifest is not canonical" in
      let? workspaceBytes := decodeValue l1 "workspace_id" 16 in
      let? digestBytes := decodeValue l3 "registry_sha256" 32 in
      match strip_prefix (bs "authority_key_id=") l5 with
      | None => Err (New "workspace backup authority key ID is invalid")
      | Some keyID =>
          fail_if negb (bool_decide (is_Some (decode_exact keyID 32)))
            with_msg "workspace backup authority key ID is invalid" in
          let value := mkManifest workspaceBytes digestBytes keyID in
          fail_if negb (beq encoded (encodeManifest value))
            with_msg "workspace backup manifest is not canonical" in
          Ok value
      end
  | _ => Err (New "workspace backup manifest is not canonical")
  end.

(** ** Backups *)

Record Restore : Type := mkRestore {
  re_RegistryPath : bytes;
  re_AuthorityKeyPath : bytes;
  re_AuthorityExisted : bool
}.

Record Backup : Type := mkBackup {
  bk_Directory : bytes;
  bk_ManifestPath : bytes;
  bk_RegistryPath : bytes;
  bk_AuthorityBackup : AuthorityBackup;
  bk_AuthorityKeyID : bytes;
  bk_registrySHA256 : bytes
}.

(** A directory listing against the names it must have. *)
Definition exact_entries (what : string) (expected entries : list bytes) : result unit :=
  fail_if existsb (λ e, negb (bool_decide (e ∈ expected))) entries
    with_msg (what ++ " contains unexpected entry") in
  fail_if existsb (λ n, negb (bool_decide (n ∈ entries))) expected with_msg (what ++ " is missing an entry") in
  Ok tt.

Section Workspace.
Context `{Process, PKCS8, SqliteFile}.

Definition validateExactEntries (directory : bytes) (authorityBackup : AuthorityBackup) (fs : files) : result unit :=
  let? entries := wrapf "read workspace backup directory" (ReadDir (abs directory) fs) in
  let? _ := exact_entries "workspace backup" [manifestName; registryName; authorityDirectory] entries in
  let? authorityEntries :=
    wrapf "read authority backup directory" (ReadDir (abs (Join directory authorityDirectory)) fs) in
  exact_entries "authority backup"
    [Base (ab_ManifestPath authorityBackup); Base (ab_PrivateKeyPath authorityBackup)] authorityEntries.

(** [relative] is the path from one to the other, by its elements; [.] has none. *)
Definition pathIsWithin (root candidate : bytes) : bool :=
  let relative := Rel (abs root) (abs candidate) in
  bool_decide (relative = []) ||
  (negb (bool_decide (relative = [dotdot])) &&
   negb (match relative with first :: _ :: _ => beq first dotdot | _ => false end)).

Definition prepareProtectedDirectory (p : bytes) : io unit :=
  (do! _ := MkdirAll (abs p) owner_dir in
   do! info := reading (Lstat (abs p)) in
   if is_link info || negb (is_directory info)
   then io_err (New "restore destination must be a directory, not a symbolic link")
   else Chmod (abs p) owner_dir)%io.

Definition validateDirectory (p : bytes) (fs : files) : result unit :=
  fail_if beq p [] with_msg "workspace backup directory is required" in
  let? info := wrapf "stat workspace backup directory" (Lstat (abs p) fs) in
  fail_if is_link info || negb (is_directory info)
    with_msg "workspace backup path must be a directory, not a symbolic link" in
  fail_if negb (perm_of info =? owner_dir) with_msg "workspace backup directory permissions, want 700" in
  Ok tt.

Definition validateProtectedFile (p : bytes) (fs : files) : result unit :=
  let? info := Lstat (abs p) fs in
  fail_if is_link info || negb (is_regular info)
    with_msg "backup entry must be a regular file, not a symbolic link" in
  fail_if negb (perm_of info =? owner_only) with_msg "backup entry permissions, want 600" in
  Ok tt.

Definition readProtectedFile (p : bytes) (maximum : Z) (fs : files) : result bytes :=
  let? _ := validateProtectedFile p fs in
  let? file := Open (abs p) fs in
  let? data := ReadAll file in
  let encoded := take (Z.to_nat (maximum + 1)) data in
  fail_if blen encoded >? maximum with_msg "backup entry is too large" in
  Ok encoded.

Definition copyExclusive (source destination : bytes) : io unit :=
  (do! input := reading (Open (abs source)) in
   do! _ := CreateExclusive (abs destination) owner_only in
   on_error
     (do! _ := FChmod (abs destination) owner_only in
      do! content := reading (λ _, ReadAll input) in
      do! _ := Write (abs destination) content in
      do! _ := Sync in
      Close)
     (Remove (abs destination)))%io.

Definition fileSHA256 (p : bytes) (fs : files) : result bytes :=
  let? file := wrapf "open backup entry for hashing" (Open (abs p) fs) in
  let? data := wrapf "hash backup entry" (ReadAll file) in
  Ok (Sum256 data).

Definition writeProtectedFile (p : bytes) (content : bytes) : io unit :=
  (do! _ := CreateExclusive (abs p) owner_only in
   on_error (fill_protected (abs p) content) (Remove (abs p)))%io.

Definition Verify (directory workspaceID : bytes) (fs : files) : result Backup :=
  let? _ := validateDirectory directory fs in
  let manifestPath := Join directory manifestName in
  let? encoded := wrapf "read workspace backup manifest" (readProtectedFile manifestPath 4096 fs) in
  let? manifest := decodeManifest encoded in
  fail_if negb (beq (mf_WorkspaceID manifest) workspaceID)
    with_msg "workspace backup does not match the requested workspace" in
  let registryPath := Join directory registryName in
  let? _ := wrapf "validate registry backup" (validateProtectedFile registryPath fs) in
  let? digest := fileSHA256 registryPath fs in
  fail_if negb (beq digest (mf_RegistrySHA256 manifest))
    with_msg "registry backup digest does not match the manifest" in
  let? publicKey := InspectRegistryBackup registryPath workspaceID fs in
  fail_if negb (beq (AuthorityKeyID publicKey) (mf_AuthorityKeyID manifest))
    with_msg "workspace backup authority does not match its registry" in
  let authorityBackupPath := Join directory authorityDirectory in
  let? authorityBackup := VerifyAuthorityBackup authorityBackupPath workspaceID publicKey fs in
  let? _ := validateExactEntries directory authorityBackup fs in
  Ok (mkBackup directory manifestPath registryPath authorityBackup
        (mf_AuthorityKeyID manifest) (mf_RegistrySHA256 manifest)).

(** The part of [Create] after the snapshot was written. *)
Definition seal_workspace_backup (directory workspaceID authorityKeyDirectory : bytes) : io Backup :=
  (let registryPath := Join directory registryName in
   do! publicKey := reading (InspectRegistryBackup registryPath workspaceID) in
   let keyID := AuthorityKeyID publicKey in
   let authorityBackupPath := Join directory authorityDirectory in
   do! _ := CreateAuthorityBackup authorityBackupPath workspaceID
              (AuthorityPrivateKeyPath authorityKeyDirectory keyID) publicKey in
   do! registryDigest := reading (fileSHA256 registryPath) in
   let manifestPath := Join directory manifestName in
   do! _ := io_wrapf "write workspace backup manifest"
     (writeProtectedFile manifestPath (encodeManifest (mkManifest workspaceID registryDigest keyID))) in
   do! _ := io_wrapf "sync workspace backup directory" (syncDirectory directory) in
   io_wrapf "verify created workspace backup" (reading (Verify directory workspaceID)))%io.

(** The part of [Create] that a failure undoes. *)
Definition fill_workspace_backup (db : DB) (directory workspaceID authorityKeyDirectory : bytes) : io Backup :=
  (do! _ := io_wrapf "protect workspace backup directory" (Chmod (abs directory) owner_dir) in
   do! _ := BackupRegistry db (Join directory registryName) in
   seal_workspace_backup directory workspaceID authorityKeyDirectory)%io.

Definition Create (db : DB) (directory workspaceID authorityKeyDirectory : bytes) : io Backup :=
  (if beq directory [] || beq authorityKeyDirectory []
   then io_err (New "backup and authority key directories are required") else
   do! _ := io_wrapf "create workspace backup directory" (Mkdir (abs directory) owner_dir) in
   on_error (fill_workspace_backup db directory workspaceID authorityKeyDirectory)
     (RemoveAll (abs directory)))%io.

(** The part of [RestoreTo] whose failure removes the restored registry again. *)
Definition finish_restore (verified : Backup) (workspaceID destinationRegistry destinationAuthorityDirectory : bytes)
  : io Restore :=
  (do! restoredDigest := io_wrapf "hash restored registry" (reading (fileSHA256 destinationRegistry)) in
   if negb (beq restoredDigest (bk_registrySHA256 verified))
   then io_err (New "restored registry digest does not match the verified backup") else
   do! publicKey := io_wrapf "verify restored registry"
     (reading (InspectRegistryBackup destinationRegistry workspaceID)) in
   do! restored := RestoreAuthorityBackup (ab_Directory (bk_AuthorityBackup verified))
     destinationAuthorityDirectory workspaceID publicKey in
   io_ret (mkRestore destinationRegistry (ar_PrivateKeyPath restored) (ar_AlreadyPresent restored)))%io.

Definition RestoreTo (directory workspaceID destinationRegistry destinationAuthorityDirectory : bytes) : io Restore :=
  (if beq destinationRegistry [] || beq destinationAuthorityDirectory []
   then io_err (New "registry and authority restore destinations are required") else
   do! verified := io_wrapf "verify workspace backup before restore" (reading (Verify directory workspaceID)) in
   if pathIsWithin directory destinationRegistry || pathIsWithin directory destinationAuthorityDirectory
   then io_err (New "restore destinations must be outside the backup directory") else
   do! _ := io_wrapf "prepare registry restore directory"
     (prepareProtectedDirectory (filepath_Dir destinationRegistry)) in
   do! _ := io_wrapf "restore registry snapshot" (copyExclusive (bk_RegistryPath verified) destinationRegistry) in
   do! _ := on_error
     (io_wrapf "sync registry restore directory" (syncDirectory (filepath_Dir destinationRegistry)))
     (Remove (abs destinationRegistry)) in
   on_error (finish_restore verified workspaceID destinationRegistry destinationAuthorityDirectory)
     (do! _ := io_try (Remove (abs destinationRegistry)) in
      syncDirectory (filepath_Dir destinationRegistry)))%io.
End Workspace.
