(* ===== verification/BackupProofs.v ===== *)
(** Workspace backups: what verification accepts, what creation and restoration do
    to the files whichever calls fail, and that a backup restores. *)

From S2P Require Import Prelude GoStd GoNet GoCrypto GoPath DeliveryStore MembershipCodec Schema Admission.
From S2P Require Import FileSystem AuthorityKey AuthorityBackup WorkspaceBackup.

#[local] Open Scope string_scope.
#[local] Open Scope Z_scope.

(** ** The manifest *)

Definition workspace_manifest_valid (m : manifest) : Prop :=
  blen (mf_WorkspaceID m) = 16 ∧ blen (mf_RegistrySHA256 m) = 32 ∧
  ∃ d, mf_AuthorityKeyID m = RawURL_Encode d ∧ blen d = 32.

Lemma decodeValue_Ok l name n d :
  decodeValue l name n = Ok d ↔ l = manifest_line name (RawURL_Encode d) ∧ blen d = n.
Proof.
  unfold decodeValue, manifest_line. split.
  - destruct (strip_prefix _ l) as [v|] eqn:E; [|done]. apply strip_prefix_Some in E as ->.
    destruct (decode_exact v n) as [x|] eqn:E; [|done]. intros [= ->]. by apply decode_exact_Some in E as [-> ?].
  - intros [-> Hd]. rewrite (proj2 (strip_prefix_Some _ _ (RawURL_Encode d)) eq_refl).
    by rewrite (proj2 (decode_exact_Some (RawURL_Encode d) n d)).
Qed.

Lemma workspace_manifest_exact encoded m :
  decodeManifest encoded = Ok m ↔ encoded = encodeManifest m ∧ workspace_manifest_valid m.
Proof.
  split.
  - intros Hd. unfold decodeManifest in Hd.
    destruct (Split 0x0A encoded) as [|l0 [|l1 [|l2 [|l3 [|l4 [|l5 [|l6 [|]]]]]]]]; try done.
    go_inv. apply decodeValue_Ok in Hr as [-> Hw], Hr0 as [-> Hs].
    destruct (strip_prefix _ l5) as [i|] eqn:E; [|done]. apply strip_prefix_Some in E as ->. go_inv. go_bool.
    simplify_eq. split; [done|]. split_and!; [done..|].
    match goal with Hx : is_Some _ |- _ => destruct Hx as [d Hx]; apply decode_exact_Some in Hx; by exists d end.
  - intros [-> (Hw & Hs & d & Hi & Hd)]. unfold decodeManifest.
    unfold encodeManifest at 1. rewrite Split_print_lines; cbn [app].
    2: { unfold manifest_line. rewrite Hi. repeat constructor; rewrite ?without_app, ?encoded_without_newline; reflexivity. }
    rewrite !beq_refl. cbn [negb orb guard_err rbind].
    rewrite (proj2 (decodeValue_Ok _ "workspace_id" 16 (mf_WorkspaceID m))) by done.
    rewrite (proj2 (decodeValue_Ok _ "registry_sha256" 32 (mf_RegistrySHA256 m))) by done. cbn [rbind].
    unfold manifest_line. change (bs ("authority_key_id" ++ "=")) with (bs "authority_key_id=").
    rewrite (proj2 (strip_prefix_Some (bs "authority_key_id=") _ (mf_AuthorityKeyID m)) eq_refl).
    rewrite bool_decide_true by (exists d; by apply decode_exact_Some).
    cbn [negb guard_err rbind]. destruct m. by rewrite beq_refl.
Qed.

Lemma workspace_manifest_small m : workspace_manifest_valid m → blen (encodeManifest m) ≤ 4096.
Proof.
  intros (Hw & Hs & d & Hi & Hd). unfold encodeManifest, print_lines, manifest_line, blen in *. rewrite Hi.
  cbn [flat_map]. rewrite ?length_app. cbn [length].
  pose proof (RawURL_Encode_length (mf_WorkspaceID m)). pose proof (RawURL_Encode_length (mf_RegistrySHA256 m)).
  pose proof (RawURL_Encode_length d).
  change (length manifestMagic) with 31%nat. change (length registryName) with 15%nat.
  change (length authorityDirectory) with 9%nat. cbn [length bs String.append].
  repeat match goal with |- context [length (bs ?s)] => let n := eval vm_compute in (length (bs s)) in
    change (length (bs s)) with n end. lia.
Qed.

(** ** Entries and names *)

Lemma entries_of_spec (fs : files) D n : n ∈ entries_of fs D ↔ is_Some (fs !! (D ++ [n])%list).
Proof.
  unfold entries_of. rewrite list_elem_of_omap. split.
  - intros ([p x] & Hp & Hn). apply elem_of_map_to_list in Hp. cbn [fst] in Hn.
    destruct (_ && _) eqn:E; [|done]. go_bool. exists x. rewrite <-Hp. f_equal. subst D. unfold parent.
    destruct p as [|a p _] using rev_ind; [done|]. rewrite removelast_last, last_snoc in *. by simplify_eq.
  - intros [x Hx]. exists ((D ++ [n])%list, x). split; [by apply elem_of_map_to_list|]. cbn [fst].
    rewrite bool_decide_true by (by destruct D). rewrite bool_decide_true by apply parent_snoc. apply last_snoc.
Qed.

Lemma existsb_missing (l m : list bytes) :
  existsb (λ e, negb (bool_decide (e ∈ l))) m = false ↔ ∀ e, e ∈ m → e ∈ l.
Proof.
  induction m as [|x m IH]; cbn [existsb]; [split; [by intros _ e ?%elem_of_nil|done]|].
  rewrite orb_false_iff, negb_false_iff, bool_decide_eq_true, IH. set_solver.
Qed.

Lemma exact_entries_Ok what expected entries :
  exact_entries what expected entries = Ok tt ↔ (∀ n, n ∈ entries ↔ n ∈ expected).
Proof. unfold exact_entries. rewrite !fail_if_Ok, !existsb_missing. naive_solver. Qed.

Lemma cut_last_snoc a e : without 0x2F e = true → cut_last 0x2F (a ++ slash :: e)%list = Some (a, e).
Proof.
  intros He. assert (cut_last 0x2F e = None) as Hn.
  { induction e as [|c e IH]; [done|]. unfold without in *. cbn [forallb cut_last] in *.
    apply andb_true_iff in He as [Hc%negb_true_iff He]. by rewrite (IH He), Hc. }
  induction a as [|c a IH]; cbn [app cut_last]; [by rewrite Hn|]. by rewrite IH.
Qed.

Lemma trim_right_snoc a e : e ≠ [] → without 0x2F e = true → trim_right 0x2F (a ++ e)%list = (a ++ e)%list.
Proof.
  intros Hne He. assert (trim_right 0x2F e = e) as Ht.
  { clear Hne. induction e as [|c e IH]; [done|]. unfold without in *. cbn [forallb trim_right] in *.
    apply andb_true_iff in He as [Hc%negb_true_iff He]. rewrite (IH He), Hc. by destruct e. }
  induction a as [|c a IH]; cbn [app trim_right]; [done|]. rewrite IH. destruct (a ++ e)%list eqn:E; [|done].
  by apply app_eq_nil in E as [_ ->].
Qed.

Lemma plain_without e : plain_name e = true → without 0x2F e = true ∧ e ≠ [].
Proof.
  unfold plain_name. rewrite !andb_true_iff, negb_true_iff. intros [[[He _] _] Hs]. by apply beq_false in He.
Qed.

Lemma Base_snoc a e : plain_name e = true → Base (a ++ slash :: e)%list = e.
Proof.
  intros [He Hne]%plain_without. unfold Base. rewrite (proj2 (beq_false _ _)) by (by destruct a).
  change (a ++ slash :: e)%list with (a ++ [slash] ++ e)%list. rewrite app_assoc, trim_right_snoc by done.
  rewrite <-app_assoc. cbn [app]. rewrite cut_last_snoc by done. by rewrite (proj2 (beq_false _ _) Hne).
Qed.

(** A cleaned path ends in its last element. *)
Lemma join_snoc l e : l ≠ [] → ∃ a, join [slash] (l ++ [e])%list = (a ++ slash :: e)%list.
Proof.
  destruct l as [|x l]; [done|]. intros _. cbn [app join]. exists (x ++ flat_map (λ y, [slash] ++ y) l)%list.
  rewrite flat_map_app. cbn [flat_map]. rewrite app_nil_r, <-app_assoc. done.
Qed.

Lemma Base_Join d e : plain_name e = true → Base (Join d e) = e.
Proof.
  intros He. destruct (plain_without e He) as [Hs Hne]. destruct (plain_not_rooted e He) as [Hr _]. unfold Join.
  rewrite (proj2 (beq_false _ _) Hne). destruct (beq d []) eqn:Hd.
  - unfold Clean, clean_elements. rewrite Hr, (Split_one 0x2F e Hs). cbn [fold_left]. rewrite plain_step by done.
    cbn. rewrite app_nil_r. by apply Base_plain.
  - apply beq_false in Hd. unfold Clean, clean_elements.
    replace (rooted (d ++ slash :: e)%list) with (rooted d) by (by destruct d).
    rewrite Split_slash, fold_left_app, (Split_one 0x2F e Hs). cbn [fold_left]. rewrite plain_step by done.
    rewrite reverse_cons. set (l := reverse _). destruct (decide (l = [])) as [->|Hl].
    + destruct (rooted d).
      * cbn [app join flat_map]. rewrite app_nil_r. by apply (Base_snoc []).
      * cbn. rewrite app_nil_r. by apply Base_plain.
    + destruct (join_snoc l e Hl) as [a Ha]. destruct (rooted d).
      * rewrite Ha. by apply (Base_snoc (slash :: a)).
      * destruct (l ++ [e])%list eqn:E; [by destruct l|]. rewrite Ha. by apply Base_snoc.
Qed.

(** ** What verification accepts *)

Section Verified.
Context `{Process, PKCS8, SqliteFile}.
Implicit Types fs : files.

Lemma node_lookup fs p n : lookup_node fs p = Some n → is_directory n = false → fs !! p = Some n.
Proof. unfold lookup_node. destruct (fs !! p); [done|]. case_bool_decide; [|done]. by intros [= <-]. Qed.

Lemma validateProtectedFile_Ok p fs :
  validateProtectedFile p fs = Ok tt ↔ ∃ d, fs !! abs p = Some (File owner_only d).
Proof.
  unfold validateProtectedFile, Lstat. split.
  - intros Hv. go_inv. destruct (lookup_node fs (abs p)) as [n|] eqn:Hn; [|done]. simplify_eq. go_bool.
    destruct v as [|pm d| |]; try done. go_bool. cbn in *. subst. exists d. by apply node_lookup.
  - intros [d Hd]. by rewrite (lookup_node_Some _ _ _ Hd).
Qed.

Lemma readProtectedFile_Ok p m fs d :
  readProtectedFile p m fs = Ok d ↔ fs !! abs p = Some (File owner_only d) ∧ blen d ≤ m.
Proof.
  unfold readProtectedFile. split.
  - intros Hr. go_inv. destruct v. apply validateProtectedFile_Ok in Hr0 as [x Hx].
    rewrite (Open_node _ _ _ (lookup_node_Some _ _ _ Hx)) in Hr1 by done. simplify_eq. cbn in Hr2. simplify_eq.
    go_bool. unfold blen in *. rewrite length_take in *. rewrite take_ge by lia. split; [done|lia].
  - intros [Hp Hd]. rewrite (proj2 (validateProtectedFile_Ok p fs)) by eauto. cbn [rbind].
    rewrite (Open_node _ _ _ (lookup_node_Some _ _ _ Hp)) by done. cbn.
    unfold blen in *. rewrite take_ge by lia. by rewrite guard_pass by lia.
Qed.

Lemma validateDirectory_Ok p fs :
  validateDirectory p fs = Ok tt ↔ p ≠ [] ∧ lookup_node fs (abs p) = Some (Dir owner_dir).
Proof.
  unfold validateDirectory, Lstat. split.
  - intros Hv. go_inv. apply wrapf_Ok in Hr. destruct (lookup_node fs (abs p)) as [n|]; [|done].
    go_bool. simplify_eq. destruct v; try done. go_bool. cbn in *. by subst.
  - intros [Hp ->]. by rewrite (proj2 (beq_false _ _) Hp).
Qed.

Lemma read_file_plain p fs pm d : fs !! abs p = Some (File pm d) → read_file p fs = Ok d.
Proof. intros Hp. unfold read_file. by rewrite (Open_node _ _ _ (lookup_node_Some _ _ _ Hp)). Qed.

Lemma fileSHA256_plain p fs pm d : fs !! abs p = Some (File pm d) → fileSHA256 p fs = Ok (Sum256 d).
Proof. intros Hp. unfold fileSHA256. by rewrite (Open_node _ _ _ (lookup_node_Some _ _ _ Hp)). Qed.

Lemma ReadDir_plain fs D d : lookup_node fs D = Some (Dir d) → ReadDir D fs = Ok (entries_of fs D).
Proof.
  intros HD. unfold ReadDir. rewrite follow_plain.
  - unfold is_dir. by rewrite HD.
  - intros t Ht. rewrite (lookup_node_Some _ _ _ Ht) in HD. done.
Qed.

Lemma inspect_snapshot_size w image pk : inspect_snapshot w image = Ok pk → blen pk = 32.
Proof.
  unfold inspect_snapshot. destruct (sqlite_open image); [|done]. intros Hi. go_inv.
  destruct (workspaces _ !! w); [|done]. go_inv. go_bool. by simplify_eq.
Qed.

Definition authority_in (D : path) : path := (D ++ [authorityDirectory])%list.

(** A directory that holds a backup of the registry [reg] and the key [e]. *)
Record workspace_backup_in (D : path) (w pk reg e : bytes) fs : Prop := {
  wb_directory : lookup_node fs D = Some (Dir owner_dir);
  wb_manifest : fs !! (D ++ [manifestName])%list =
    Some (File owner_only (encodeManifest (mkManifest w (Sum256 reg) (AuthorityKeyID pk))));
  wb_registry : fs !! (D ++ [registryName])%list = Some (File owner_only reg);
  wb_snapshot : inspect_snapshot w reg = Ok pk;
  wb_authority : backup_in (authority_in D) w pk e fs;
  wb_entries n : is_Some (fs !! (D ++ [n])%list) ↔ n ∈ [manifestName; registryName; authorityDirectory];
  wb_authority_entries n : is_Some (fs !! (authority_in D ++ [n])%list) ↔
    n ∈ [authorityBackupManifestName; key_file_name pk]
}.

Definition workspace_record (d pk reg : bytes) : Backup :=
  mkBackup d (Join d manifestName) (Join d registryName) (backup_record (Join d authorityDirectory) pk)
    (AuthorityKeyID pk) (Sum256 reg).

Lemma workspace_manifest_of_valid w reg pk :
  blen w = 16 → workspace_manifest_valid (mkManifest w (Sum256 reg) (AuthorityKeyID pk)).
Proof.
  intros Hw. split_and!; [done|cbn [mf_RegistrySHA256]; unfold blen; by rewrite Sum256_length|].
  exists (Sum256 (authorityKeyIDDomain ++ pk)). split; [done|]. unfold blen. by rewrite Sum256_length.
Qed.

Lemma rbind_unit (a b : result unit) : rbind a (λ _, b) = Ok tt ↔ a = Ok tt ∧ b = Ok tt.
Proof. destruct a as [[]|]; cbn; intuition congruence. Qed.

Lemma validateExactEntries_Ok d pk fs :
  is_dir fs (abs d) = true → is_dir fs (authority_in (abs d)) = true →
  validateExactEntries d (backup_record (Join d authorityDirectory) pk) fs = Ok tt ↔
  (∀ n, is_Some (fs !! (abs d ++ [n])%list) ↔ n ∈ [manifestName; registryName; authorityDirectory]) ∧
  (∀ n, is_Some (fs !! (authority_in (abs d) ++ [n])%list) ↔ n ∈ [authorityBackupManifestName; key_file_name pk]).
Proof.
  intros Hd Ha. unfold validateExactEntries. rewrite abs_Join by reflexivity. fold (authority_in (abs d)).
  unfold is_dir in *. destruct (lookup_node fs (abs d)) as [[x| | |]|] eqn:E; try done.
  destruct (lookup_node fs (authority_in (abs d))) as [[y| | |]|] eqn:E'; try done.
  rewrite (ReadDir_plain _ _ _ E), (ReadDir_plain _ _ _ E'). cbn [wrapf rbind ab_ManifestPath ab_PrivateKeyPath backup_record].
  rewrite !Base_Join by (try reflexivity; apply key_file_plain).
  rewrite rbind_unit, !exact_entries_Ok. by setoid_rewrite entries_of_spec.
Qed.

Lemma is_dir_owner fs D : lookup_node fs D = Some (Dir owner_dir) → is_dir fs D = true.
Proof. unfold is_dir. by intros ->. Qed.

Lemma InspectRegistryBackup_plain p w fs pm d :
  p ≠ [] → fs !! abs p = Some (File pm d) → InspectRegistryBackup p w fs = inspect_snapshot w d.
Proof.
  intros Hp Hf. unfold InspectRegistryBackup. rewrite (proj2 (beq_false _ _) Hp). cbn [guard_err rbind].
  by rewrite (read_file_plain _ _ _ _ Hf).
Qed.

Lemma Verify_Ok d w fs b :
  Verify d w fs = Ok b ↔
  d ≠ [] ∧ ∃ pk reg e, b = workspace_record d pk reg ∧ arguments_ok (Join d authorityDirectory) w pk ∧
    workspace_backup_in (abs d) w pk reg e fs.
Proof.
  assert (Join d registryName ≠ []) as Hjr by (by apply Join_nonempty).
  assert (abs (Join d registryName) = (abs d ++ [registryName])%list) as Er by (by apply abs_Join).
  assert (abs (Join d manifestName) = (abs d ++ [manifestName])%list) as Em by (by apply abs_Join).
  assert (abs (Join d authorityDirectory) = authority_in (abs d)) as Ea by (by apply abs_Join).
  unfold Verify. split.
  - intros Hv. go_inv. go_bool. destruct v, v2, v6. apply wrapf_Ok in Hr0, Hr2. destruct v1 as [mw ms mi].
    cbn [mf_WorkspaceID mf_RegistrySHA256 mf_AuthorityKeyID] in *. subst mw ms mi.
    apply validateDirectory_Ok in Hr as [Hd HD]. apply readProtectedFile_Ok in Hr0 as [Hm _].
    apply workspace_manifest_exact in Hr1 as [-> _]. apply validateProtectedFile_Ok in Hr2 as [reg Hreg].
    rewrite (fileSHA256_plain _ _ _ _ Hreg) in Hr3. simplify_eq.
    rewrite (InspectRegistryBackup_plain _ _ _ _ _ Hjr Hreg) in Hr4.
    apply VerifyAuthorityBackup_Ok in Hr5 as (Ha & -> & e & Hb); [|by eapply inspect_snapshot_size].
    rewrite Ea in Hb. rewrite Er in Hreg. rewrite Em in Hm.
    apply validateExactEntries_Ok in Hr6 as [He He']; [|apply is_dir_owner; done|apply is_dir_owner; apply Hb].
    split; [done|]. exists v4, reg, e. by split_and!.
  - intros (Hd & pk & reg & e & -> & Ha & [HD Hm Hreg Hs Hb He He']).
    pose proof Ha as (_ & Hw & _ & Hpk). unfold workspaceIDSize in Hw.
    rewrite (proj2 (validateDirectory_Ok d fs)) by done. cbn [rbind].
    rewrite (proj2 (readProtectedFile_Ok (Join d manifestName) 4096 fs
      (encodeManifest (mkManifest w (Sum256 reg) (AuthorityKeyID pk))))).
    2: { split; [by rewrite Em|]. by apply workspace_manifest_small, workspace_manifest_of_valid. }
    cbn [wrapf rbind]. rewrite (proj2 (workspace_manifest_exact _ (mkManifest w (Sum256 reg) (AuthorityKeyID pk))))
      by (split; [reflexivity|by apply workspace_manifest_of_valid]).
    cbn [rbind mf_WorkspaceID mf_RegistrySHA256 mf_AuthorityKeyID]. rewrite beq_refl. cbn [negb guard_err rbind].
    rewrite <-Er in Hreg. rewrite (proj2 (validateProtectedFile_Ok _ fs)) by eauto. cbn [wrapf rbind].
    rewrite (fileSHA256_plain _ _ _ _ Hreg). cbn [rbind]. rewrite beq_refl. cbn [negb guard_err rbind].
    rewrite (InspectRegistryBackup_plain _ _ _ _ _ Hjr Hreg), Hs. cbn [rbind]. rewrite beq_refl.
    cbn [negb guard_err rbind].
    rewrite (proj2 (VerifyAuthorityBackup_Ok _ w pk fs (backup_record (Join d authorityDirectory) pk) Hpk))
      by (rewrite Ea; eauto). cbn [rbind].
    by rewrite (proj2 (validateExactEntries_Ok d pk fs (is_dir_owner _ _ HD)
      (is_dir_owner _ _ (backup_directory _ _ _ _ _ Hb)))).
Qed.
End Verified.

(** ** Paths *)

Lemma Rel_prefix base l : Rel base (base ++ l)%list = l.
Proof. induction base as [|b base IH]; cbn [app Rel]; [by destruct l|]. by rewrite beq_refl. Qed.

Lemma Rel_other base target :
  ¬ base `prefix_of` target → ∃ l, Rel base target = dotdot :: l.
Proof.
  revert target. induction base as [|b base IH]; intros target Hn; [destruct Hn; by exists target|].
  destruct target as [|t target]; cbn [Rel]; [cbn; eauto|]. destruct (beq b t) eqn:E; [|cbn; eauto].
  apply beq_true in E as ->. apply IH. intros [l ->]. apply Hn. by exists l.
Qed.

Section Effects.
Context `{Process, PKCS8, SqliteFile} (o : oracle).
Implicit Types fs : files.

Lemma pathIsWithin_spec root candidate :
  pathIsWithin root candidate = true ↔ abs root `prefix_of` abs candidate.
Proof.
  unfold pathIsWithin. split.
  - intros Hp. destruct (decide (abs root `prefix_of` abs candidate)) as [|Hn]; [done|].
    destruct (Rel_other _ _ Hn) as [l El]. rewrite El in Hp. destruct l; by vm_compute in Hp.
  - intros [l El]. rewrite El, Rel_prefix. pose proof (Abs_plain cwd cwd_rooted candidate) as Hpl.
    change (Abs cwd candidate) with (abs candidate) in Hpl. rewrite El in Hpl. apply Forall_app in Hpl as [_ Hpl].
    destruct l as [|x l]; [done|]. apply Forall_cons in Hpl as [Hx _].
    assert (beq x dotdot = false) as Hd.
    { unfold plain_name in Hx. rewrite !andb_true_iff, !negb_true_iff in Hx. tauto. }
    rewrite (bool_decide_false (x :: l = [])) by done. cbn [orb].
    rewrite bool_decide_false by (intros [= -> _]; by rewrite beq_refl in Hd). cbn [negb andb].
    destruct l; [done|]. by rewrite Hd.
Qed.

(** *** New files *)

(** What a failure to make the file [p] leaves, and why it may fail. *)
Definition spoiled (p : path) fs fs' : Prop :=
  fs' = fs ∨ faulty o ∧ fs !! p = None ∧ ∃ n, is_directory n = false ∧ fs' = <[p := n]> fs.
Definition refused (p : path) fs : Prop :=
  faulty o ∨ lookup_node fs p ≠ None ∨ is_dir fs (parent p) = false.

Lemma wp_new_file p c m (Q : unit → files → Prop) (E : error → files → Prop) fs :
  fills o p c m → (∀ e fs', spoiled p fs fs' → refused p fs → E e fs') →
  (fs !! p = None → p ≠ [] → Q tt (<[p := File owner_only c]> fs)) →
  wp o (do! _ := CreateExclusive p owner_only in on_error m (Remove p))%io Q E fs.
Proof.
  intros Hm HE HQ. apply (wp_create_filled _ _ c); [done|intros Hr; apply HE; [by left|unfold refused; tauto]..| |done].
  intros Hn Hne Hf e _. split; [apply HE; [by left|by left]|]. intros n Hd. apply HE; [|by left]. right. eauto 10.
Qed.

Lemma wp_writeProtectedFile p c (Q : unit → files → Prop) (E : error → files → Prop) fs :
  (∀ e fs', spoiled (abs p) fs fs' → refused (abs p) fs → E e fs') →
  (fs !! abs p = None → abs p ≠ [] → Q tt (<[abs p := File owner_only c]> fs)) →
  wp o (writeProtectedFile p c) Q E fs.
Proof. apply wp_new_file, fill_protected_fills. Qed.

Lemma wp_copyExclusive src dst c (Q : unit → files → Prop) (E : error → files → Prop) fs :
  fs !! abs src = Some (File owner_only c) →
  (∀ e fs', spoiled (abs dst) fs fs' → refused (abs dst) fs → E e fs') →
  (fs !! abs dst = None → abs dst ≠ [] → Q tt (<[abs dst := File owner_only c]> fs)) →
  wp o (copyExclusive src dst) Q E fs.
Proof.
  intros Hs HE HQ. apply wp_bind, wp_reading; [intros Hf; apply HE; [by left|by left]|].
  rewrite (Open_node _ _ _ (lookup_node_Some _ _ _ Hs)) by done. apply (wp_new_file _ c); [|done..].
  clear. intros Q E fs HE HQ pm.
  apply wp_bind, (wp_FChmod _ _ _ (File pm [])); [auto|apply lookup_insert_eq|].
  rewrite insert_insert_eq. cbn [set_perm]. apply wp_bind, wp_reading; [auto|]. cbn [ReadAll].
  apply wp_bind, wp_Write; [intros; rewrite put_data_insert; auto|]. rewrite put_data_insert.
  apply wp_bind, wp_Sync; [auto|]. apply wp_Close; auto.
Qed.

Lemma wp_online_backup p db (Q : unit → files → Prop) (E : error → files → Prop) fs :
  (faulty o → ∀ d, E io_fault (put_data p d fs)) → Q tt (put_data p (sqlite_image db) fs) →
  wp o (online_backup p db) Q E fs.
Proof. intros HE HQ t. unfold online_backup. destruct (fails o t) eqn:Ht; [apply HE; by exists t|done]. Qed.

Lemma wp_BackupRegistry db dst (Q : unit → files → Prop) (E : error → files → Prop) fs :
  dst ≠ [] → (∀ e fs', spoiled (abs dst) fs fs' → refused (abs dst) fs → E e fs') →
  (fs !! abs dst = None → abs dst ≠ [] → Q tt (<[abs dst := File owner_only (sqlite_image db)]> fs)) →
  wp o (BackupRegistry db dst) Q E fs.
Proof.
  intros Hd HE HQ. unfold BackupRegistry. rewrite (proj2 (beq_false _ _) Hd). set (p := abs dst) in *.
  assert (refused p fs → ∀ e, E e fs) as HE0 by (intros; apply HE; [by left|done]).
  apply wp_bind, wp_try, wp_reading; [intros Hf; apply wp_err, HE0; by left|].
  unfold Lstat. destruct (lookup_node fs p) as [n|] eqn:Hn.
  { apply wp_err, HE0. right. left. by rewrite Hn. }
  replace (errors_Is ErrNotExist ErrNotExist) with true by reflexivity. cbn [negb].
  apply wp_bind, wp_wrapf, wp_CreateExclusive; [intros; apply HE0; unfold refused; tauto..|]. intros _.
  apply lookup_node_None in Hn as [Hn Hne].
  assert (faulty o → ∀ e pm d, wp o (Remove p) (λ _, E e) (λ _, E e) (<[p := File pm d]> fs)) as Hundo.
  { intros Hf e pm d. apply (wp_Remove _ _ (File pm d)); [|apply lookup_insert_eq|done|].
    - intros _. apply HE; [|by left]. right. do 2 (split; [done|]). by exists (File pm d).
    - rewrite delete_insert_id by done. apply HE0. by left. }
  apply wp_bind, wp_on_error, wp_wrapf, (wp_FChmod _ _ _ (File (unmasked owner_only) []));
    [intros; by apply Hundo|apply lookup_insert_eq|].
  rewrite insert_insert_eq. cbn [set_perm].
  apply wp_bind, wp_on_error, wp_wrapf, wp_Close; [intros; by apply Hundo|].
  apply wp_on_error. apply wp_bind, wp_wrapf, wp_online_backup; [intros; rewrite put_data_insert; by apply Hundo|].
  rewrite put_data_insert. apply wp_bind, wp_wrapf, wp_reading; [intros; by apply Hundo|].
  rewrite (Open_node _ _ (File owner_only (sqlite_image db))) by (try done; apply lookup_node_Some, lookup_insert_eq).
  apply wp_bind, wp_wrapf, wp_Sync; [intros; by apply Hundo|]. apply wp_wrapf, wp_Close; [intros; by apply Hundo|]. auto.
Qed.
End Effects.

(** ** Creating a backup *)

Section Created.
Context `{Process, PKCS8, SqliteFile} (o : oracle).
Implicit Types fs : files.

(** The files with a new workspace backup. *)
Definition with_workspace (D : path) (w pk reg e : bytes) fs : files :=
  <[(D ++ [manifestName])%list :=
      File owner_only (encodeManifest (mkManifest w (Sum256 reg) (AuthorityKeyID pk)))]>
    (with_backup (authority_in D) w pk e
      (<[(D ++ [registryName])%list := File owner_only reg]> (<[D := Dir owner_dir]> fs))).

(** What the paths in the backup name. *)
Definition backup_node (w pk reg e : bytes) (rest : path) : option node :=
  match rest with
  | [] => Some (Dir owner_dir)
  | [n] =>
      if beq n manifestName
      then Some (File owner_only (encodeManifest (mkManifest w (Sum256 reg) (AuthorityKeyID pk))))
      else if beq n registryName then Some (File owner_only reg)
      else if beq n authorityDirectory then Some (Dir owner_dir) else None
  | [a; n] =>
      if negb (beq a authorityDirectory) then None
      else if beq n authorityBackupManifestName
      then Some (File owner_only (encodeAuthorityBackupManifest (manifest_of w pk e)))
      else if beq n (key_file_name pk) then Some (File owner_only e) else None
  | _ => None
  end.

Lemma beq_decide (a b : bytes) : beq a b = bool_decide (a = b).
Proof.
  case_bool_decide as E; [subst; apply beq_refl|]. by apply beq_false.
Qed.

Lemma with_workspace_lookup D w pk reg e fs rest :
  with_workspace D w pk reg e fs !! (D ++ rest)%list =
  match backup_node w pk reg e rest with Some n => Some n | None => fs !! (D ++ rest)%list end.
Proof.
  unfold with_workspace, with_backup, authority_in, backup_node. rewrite <-!app_assoc. cbn [app].
  assert (∀ (l : path) (n : node) (m : files),
    <[(D ++ l)%list := n]> m !! (D ++ rest)%list = if decide (rest = l) then Some n else m !! (D ++ rest)%list) as Hl.
  { intros l n m. destruct (decide (rest = l)) as [->|Hne]; [apply lookup_insert_eq|].
    apply lookup_insert_ne. intros E. apply Hne. by apply app_inv_head in E. }
  assert (∀ (n : node) (m : files),
    <[D := n]> m !! (D ++ rest)%list = if decide (rest = []) then Some n else m !! (D ++ rest)%list) as Hl0.
  { intros n m. destruct (decide (rest = [])) as [->|Hne]; [rewrite app_nil_r; apply lookup_insert_eq|].
    apply lookup_insert_ne. intros E. apply Hne, (app_inv_head D). by rewrite app_nil_r. }
  rewrite !Hl, !Hl0. pose proof (key_file_manifest pk) as Hk.
  destruct rest as [|a [|n [|]]]; rewrite ?beq_decide; repeat case_decide; repeat case_bool_decide; cbn [negb];
    simplify_eq; try done.
Qed.

Lemma with_workspace_agree D w pk reg e fs : agree (prefix D) fs (with_workspace D w pk reg e fs).
Proof.
  unfold with_workspace. etransitivity; [|apply agree_insert, child_below].
  etransitivity; [|eapply agree_weaken; [|apply with_backup_agree]].
  - etransitivity; [|apply agree_insert, child_below]. by apply agree_insert.
  - intros q [l ->]. unfold authority_in. exists (authorityDirectory :: l). by rewrite <-app_assoc.
Qed.

Ltac entry_cases :=
  split; first [by intros [? ?] | intros; exfalso; tauto | intros _; solve [eauto | tauto]].

Lemma with_workspace_in D w pk reg e fs :
  vacant fs D → inspect_snapshot w reg = Ok pk → key_content pk e →
  workspace_backup_in D w pk reg e (with_workspace D w pk reg e fs).
Proof.
  intros (_ & _ & Hv) Hi Hk.
  assert (∀ rest, with_workspace D w pk reg e fs !! (D ++ rest)%list = backup_node w pk reg e rest) as Hl.
  { intros rest. rewrite with_workspace_lookup, Hv by (by exists rest). by destruct (backup_node _ _ _ _ rest). }
  assert (∀ n, (authority_in D ++ [n])%list = (D ++ [authorityDirectory; n])%list) as Ha
    by (intros; unfold authority_in; by rewrite <-app_assoc).
  pose proof (key_file_manifest pk) as Hkm. split; try done.
  - apply lookup_node_Some. pose proof (Hl []) as E. by rewrite app_nil_r in E.
  - split; [apply lookup_node_Some, (Hl [authorityDirectory])|rewrite Ha, Hl; done| |done].
    rewrite Ha, Hl. cbn [backup_node]. rewrite beq_refl, (proj2 (beq_false _ _) Hkm), beq_refl. done.
  - intros n. rewrite Hl. cbn [backup_node]. rewrite !beq_decide, !elem_of_cons, elem_of_nil.
    repeat case_bool_decide; entry_cases.
  - intros n. rewrite Ha, Hl. cbn [backup_node]. rewrite !beq_decide, !elem_of_cons, elem_of_nil.
    repeat case_bool_decide; cbn [negb]; entry_cases.
Qed.

(** A store and a key directory that can be backed up. *)
Definition backup_ready (db : DB) (w kd : bytes) fs : Prop :=
  ∃ pk, inspect_snapshot w (sqlite_image db) = Ok pk ∧ blen w = 16 ∧ pk ≠ repeat Byte.x00 32 ∧
    is_ok (loadAuthorityPrivateKeyFile (AuthorityPrivateKeyPath kd (AuthorityKeyID pk)) pk fs) = true.

Lemma agree_child D e n fs : agree (prefix D) fs (<[(D ++ [e])%list := n]> fs).
Proof. apply agree_insert, child_below. Qed.

Lemma agree_spoiled D e fs fs' : spoiled o (D ++ [e])%list fs fs' → agree (prefix D) fs fs'.
Proof. intros [->|(_ & _ & n & _ & ->)]; [done|apply agree_child]. Qed.

(** A directory in which a file is refused was not new, or a call failed. *)
Lemma refused_child D e fs fs' :
  is_dir fs' D = true → fs' !! (D ++ [e])%list = fs !! (D ++ [e])%list →
  refused o (D ++ [e])%list fs' → faulty o ∨ ¬ vacant fs D.
Proof.
  intros Hd He [Hf|[Hn|Hn]]; [by left| |]; [|rewrite parent_snoc in Hn; congruence].
  right. intros (_ & _ & Hv). apply Hn, lookup_node_None. rewrite He. split; [apply Hv, child_below|by destruct D].
Qed.

Lemma key_path_last kd pk :
  last (abs (AuthorityPrivateKeyPath kd (AuthorityKeyID pk))) = Some (key_file_name pk).
Proof. rewrite abs_key_path. apply last_snoc. Qed.

Lemma key_file_registry pk : key_file_name pk ≠ registryName.
Proof. intros E. apply (f_equal hd_error) in E. discriminate E. Qed.

(** The key file is not in the part of the backup that exists before it is copied. *)
Lemma key_file_elsewhere D kd pk reg e fs :
  let p := abs (AuthorityPrivateKeyPath kd (AuthorityKeyID pk)) in
  <[(D ++ [registryName])%list := File owner_only reg]> (<[D := Dir owner_dir]> fs) !! p =
    Some (File owner_only e) ↔
  fs !! p = Some (File owner_only e) ∧ p ≠ D.
Proof.
  intros p. rewrite lookup_insert_ne.
  - destruct (decide (p = D)) as [->|Hne].
    + rewrite lookup_insert_eq. split; [done|tauto].
    + rewrite lookup_insert_ne by done. tauto.
  - intros E. pose proof (key_path_last kd pk) as Hl. fold p in Hl. rewrite <-E, last_snoc in Hl.
    injection Hl as Hl. by apply (key_file_registry pk).
Qed.

Lemma load_elsewhere D kd pk reg fs :
  fs !! D = None →
  let p := AuthorityPrivateKeyPath kd (AuthorityKeyID pk) in
  is_ok (loadAuthorityPrivateKeyFile p pk
    (<[(D ++ [registryName])%list := File owner_only reg]> (<[D := Dir owner_dir]> fs))) = false →
  is_ok (loadAuthorityPrivateKeyFile p pk fs) = false.
Proof.
  intros HD p Hn. destruct (loadAuthorityPrivateKeyFile p pk fs) as [[k e]|] eqn:Hl; [|done].
  apply loadAuthorityPrivateKeyFile_Ok in Hl as (Hl & Hs & Hk & Hp).
  rewrite (proj2 (loadAuthorityPrivateKeyFile_Ok p pk _ k e)) in Hn; [done|].
  split_and!; [|done..]. apply key_file_elsewhere. split; [done|]. intros E. fold p in E. congruence.
Qed.

Lemma vacant_authority D reg fs :
  vacant fs D →
  vacant (<[(D ++ [registryName])%list := File owner_only reg]> (<[D := Dir owner_dir]> fs)) (authority_in D).
Proof.
  intros (_ & _ & Hv). split_and!; [unfold authority_in; by destruct D| |].
  - unfold authority_in, is_dir. rewrite parent_snoc.
    rewrite (lookup_node_Some _ _ (Dir owner_dir)); [done|].
    rewrite lookup_insert_ne by apply child_ne. apply lookup_insert_eq.
  - intros q [l ->]. unfold authority_in. rewrite <-app_assoc. cbn [app].
    rewrite lookup_insert_ne by (intros E; apply app_inv_head in E; discriminate E).
    rewrite lookup_insert_ne; [apply Hv; by exists (authorityDirectory :: l)|].
    intros E. apply (f_equal length) in E. rewrite length_app in E. cbn in E. lia.
Qed.

Lemma wp_seal d w kd reg fs :
  d ≠ [] → fs !! abs d = None →
  wp o (seal_workspace_backup d w kd)
    (λ b fs', ∃ pk e, fs' = with_workspace (abs d) w pk reg e fs ∧ Verify d w fs' = Ok b ∧
       inspect_snapshot w reg = Ok pk ∧ key_content pk e ∧
       fs !! abs (AuthorityPrivateKeyPath kd (AuthorityKeyID pk)) = Some (File owner_only e))
    (λ _ fs', agree (prefix (abs d)) fs fs' ∧
       (healthy o → vacant fs (abs d) → ∀ pk, inspect_snapshot w reg = Ok pk → blen w = 16 →
        pk ≠ repeat Byte.x00 32 →
        is_ok (loadAuthorityPrivateKeyFile (AuthorityPrivateKeyPath kd (AuthorityKeyID pk)) pk fs) = false))
    (<[(abs d ++ [registryName])%list := File owner_only reg]> (<[abs d := Dir owner_dir]> fs)).
Proof.
  intros Hd HD. set (D := abs d) in *. set (fs3 := <[_ := _]> _). unfold seal_workspace_backup.
  assert (agree (prefix D) fs fs3) as Ag3 by (etransitivity; [by apply agree_insert|apply agree_child]).
  set (E := λ fs' : files, agree (prefix D) fs fs' ∧
       (healthy o → vacant fs D → ∀ pk, inspect_snapshot w reg = Ok pk → blen w = 16 →
        pk ≠ repeat Byte.x00 32 →
        is_ok (loadAuthorityPrivateKeyFile (AuthorityPrivateKeyPath kd (AuthorityKeyID pk)) pk fs) = false)).
  assert (∀ fs', agree (prefix D) fs fs' → faulty o ∨ ¬ vacant fs D → E fs') as Hfail.
  { intros fs' Ha [Hf|Hv]; (split; [done|]); intros Hh Hv'; [by destruct (healthy_faulty o Hh)|done]. }
  assert (abs (Join d registryName) = (D ++ [registryName])%list) as Er by (by apply abs_Join).
  assert (abs (Join d authorityDirectory) = authority_in D) as Ea by (by apply abs_Join).
  assert (fs3 !! abs (Join d registryName) = Some (File owner_only reg)) as Hreg3
    by (rewrite Er; apply lookup_insert_eq).
  apply wp_bind, wp_reading; [intros; apply Hfail; [done|by left]|].
  rewrite (InspectRegistryBackup_plain _ _ _ _ _ (Join_nonempty d registryName ltac:(done)) Hreg3).
  destruct (inspect_snapshot w reg) as [pk|er] eqn:Hi; [|by split].
  pose proof (inspect_snapshot_size _ _ _ Hi) as Hpk.
  assert (∀ n, n ≠ authorityDirectory → ¬ authority_in D `prefix_of` (D ++ [n])%list) as Hout.
  { intros n Hn [l E']. unfold authority_in in E'. rewrite <-app_assoc in E'. apply app_inv_head in E'. by simplify_eq/=. }
  assert (∀ q, authority_in D `prefix_of` q → D `prefix_of` q) as Hin.
  { intros q. apply transitivity, child_below. }
  apply wp_bind. eapply wp_mono; [apply (wp_CreateAuthorityBackup o _ w _ pk fs3 Hpk)| |]; rewrite ?Ea.
  2: { intros er fs' (Ag & _ & Hr). split; [etransitivity; [exact Ag3|by eapply agree_weaken]|].
       intros Hh Hv pk' E' Hw Hz. injection E' as <-.
       apply (load_elsewhere D kd pk reg fs HD), Hr; [done|by split_and!; [apply Join_nonempty|..]|].
       by apply vacant_authority. }
  intros b fs4 (_ & Ha & _ & Ag4 & e & Hsrc & Hkc & ->). apply key_file_elsewhere in Hsrc as [Hsrc _].
  set (fs4 := with_backup (authority_in D) w pk e fs3) in *.
  assert (agree (prefix D) fs fs4) as Ag by (etransitivity; [exact Ag3|by eapply agree_weaken]).
  assert (is_dir fs4 D = true) as Hdir.
  { unfold is_dir, lookup_node. rewrite Ag4 by (intros [l E']; unfold authority_in in E'; rewrite <-app_assoc in E';
      apply (f_equal length) in E'; rewrite length_app in E'; cbn in E'; lia).
    unfold fs3. rewrite lookup_insert_ne by apply child_ne. by rewrite lookup_insert_eq. }
  apply wp_bind, wp_reading; [intros; apply Hfail; [done|by left]|].
  rewrite (fileSHA256_plain _ _ owner_only reg) by (rewrite Er, Ag4 by (by apply Hout); by rewrite <-Er).
  apply wp_bind, wp_wrapf, wp_writeProtectedFile; rewrite (abs_Join d manifestName) by reflexivity; fold D.
  { intros er fs' Hsp Hr. apply Hfail; [etransitivity; [exact Ag|by eapply agree_spoiled]|].
    eapply refused_child; [exact Hdir| |exact Hr]. rewrite Ag4 by (by apply Hout).
    unfold fs3. rewrite lookup_insert_ne by (intros E'; apply app_inj_tail in E' as [_ E']; discriminate E').
    apply lookup_insert_ne, not_eq_sym, child_ne. }
  intros _ _. change (<[_ := _]> fs4) with (with_workspace D w pk reg e fs).
  pose proof (with_workspace_agree D w pk reg e fs) as Ag5.
  assert (lookup_node (with_workspace D w pk reg e fs) D = Some (Dir owner_dir)) as HD5.
  { apply lookup_node_Some. pose proof (with_workspace_lookup D w pk reg e fs []) as Hl. by rewrite app_nil_r in Hl. }
  apply wp_bind, wp_wrapf, (wp_syncDirectory _ _ (Dir owner_dir)); [intros; apply Hfail; [done|by left]| |].
  { by apply Open_node. }
  apply wp_wrapf, wp_reading; [intros; apply Hfail; [done|by left]|].
  destruct (Verify d w _) as [b'|er] eqn:Hv; [by exists pk, e|]. apply Hfail; [done|]. right. intros Hvac.
  rewrite (proj2 (Verify_Ok d w _ (workspace_record d pk reg))) in Hv; [done|].
  split; [done|]. exists pk, reg, e. split_and!; [done|done|]. by apply with_workspace_in.
Qed.

Lemma wp_fill_workspace db d w kd x fs :
  d ≠ [] → fs !! abs d = None →
  wp o (fill_workspace_backup db d w kd)
    (λ b fs', ∃ pk e, fs' = with_workspace (abs d) w pk (sqlite_image db) e fs ∧ Verify d w fs' = Ok b ∧
       inspect_snapshot w (sqlite_image db) = Ok pk ∧ key_content pk e ∧
       fs !! abs (AuthorityPrivateKeyPath kd (AuthorityKeyID pk)) = Some (File owner_only e))
    (λ _ fs', agree (prefix (abs d)) fs fs' ∧ (healthy o → vacant fs (abs d) → ¬ backup_ready db w kd fs))
    (<[abs d := Dir x]> fs).
Proof.
  intros Hd HD. set (D := abs d) in *. unfold fill_workspace_backup. fold D.
  assert (∀ fs', agree (prefix D) fs fs' → faulty o ∨ ¬ vacant fs D →
    agree (prefix D) fs fs' ∧ (healthy o → vacant fs D → ¬ backup_ready db w kd fs)) as Hfail.
  { intros fs' Ha [Hf|Hv]; (split; [done|]); intros Hh Hv'; [by destruct (healthy_faulty o Hh)|done]. }
  assert (∀ x', agree (prefix D) fs (<[D := Dir x']> fs)) as Ag by (intros; by apply agree_insert).
  apply wp_bind, wp_wrapf, (wp_Chmod _ _ _ (Dir x)); [intros; apply Hfail; [apply Ag|by left]| |].
  { apply Open_node; [|done]. apply lookup_node_Some, lookup_insert_eq. }
  intros q _ Hq. rewrite Hq by apply lookup_node_Some, lookup_insert_eq. cbn [set_perm]. rewrite insert_insert_eq.
  set (fs2 := <[D := Dir owner_dir]> fs).
  assert (abs (Join d registryName) = (D ++ [registryName])%list) as Er by (by apply abs_Join).
  assert (∀ e, fs2 !! (D ++ [e])%list = fs !! (D ++ [e])%list) as Hc2.
  { intros. unfold fs2. apply lookup_insert_ne, not_eq_sym, child_ne. }
  apply wp_bind, wp_BackupRegistry; rewrite ?Er; [by apply Join_nonempty| |].
  { intros er fs' Hsp Hr. apply Hfail; [etransitivity; [apply (Ag owner_dir)|by eapply agree_spoiled]|].
    eapply refused_child; [apply is_dir_insert|apply Hc2|exact Hr]. }
  intros Hrn _. eapply wp_mono; [by apply wp_seal|done|]. intros er fs' [Ha Hr]. split; [done|].
  intros Hh Hv (pk & Hi & Hw & Hz & Hl). by rewrite (Hr Hh Hv pk Hi Hw Hz) in Hl.
Qed.

Lemma wp_Create db d w kd fs :
  wp o (Create db d w kd)
    (λ b fs', d ≠ [] ∧ lookup_node fs (abs d) = None ∧
       ∃ pk e, fs' = with_workspace (abs d) w pk (sqlite_image db) e fs ∧ Verify d w fs' = Ok b ∧
         inspect_snapshot w (sqlite_image db) = Ok pk ∧ key_content pk e ∧
         fs !! abs (AuthorityPrivateKeyPath kd (AuthorityKeyID pk)) = Some (File owner_only e))
    (λ _ fs', agree (prefix (abs d)) fs fs' ∧ (lookup_node fs (abs d) ≠ None → fs' = fs) ∧
       (healthy o → fs' = fs ∨ ∀ q, abs d `prefix_of` q → fs' !! q = None) ∧
       (healthy o → d ≠ [] → kd ≠ [] → vacant fs (abs d) → ¬ backup_ready db w kd fs)) fs.
Proof.
  set (D := abs d). unfold Create. destruct (beq d [] || beq kd []) eqn:Hargs.
  { apply wp_err. split_and!; [done|done|by left|]. intros _ Hd Hkd.
    by rewrite (proj2 (beq_false _ _) Hd), (proj2 (beq_false _ _) Hkd) in Hargs. }
  apply orb_false_iff in Hargs as [Hd%beq_false _]. fold D.
  apply wp_bind, wp_wrapf, wp_Mkdir.
  { intros Hf. split_and!; [done|done|by left|]. intros Hh. by destruct (healthy_faulty o Hh). }
  { intros er Hbad. split_and!; [done|done|by left|]. intros _ _ _ (Hne & Hdir & Hfree).
    destruct Hbad as [Hbad|Hbad]; [|congruence]. exfalso. apply Hbad, lookup_node_None. by auto. }
  intros Hnew. apply lookup_node_None in Hnew as Hn. destruct Hn as [HD HDne]. apply wp_on_error.
  eapply wp_mono; [by apply wp_fill_workspace| |].
  - intros b fs' (pk & e & Hx). split_and!; [done..|]. by exists pk, e.
  - intros er fs' [Ha Hr]. apply wp_RemoveAll.
    + intros Hf. split_and!; [done|done|intros Hh; by destruct (healthy_faulty o Hh)|]. auto.
    + intros fs'' Ha' Hgone. split_and!; [by etransitivity|done|by right|]. auto.
Qed.
End Created.

(** ** Restoring a backup *)

Section Restored.
Context `{Process, PKCS8, SqliteFile} (o : oracle).
Implicit Types fs : files.

(** A prepared directory: only directories on the way to it changed. *)
Lemma wp_prepareProtectedDirectory p (Q : unit → files → Prop) (E : error → files → Prop) fs :
  let P := abs p in
  let ok fs' := contents fs' = contents fs ∧ agree (λ q, q `prefix_of` P) fs fs' in
  (∀ e fs', ok fs' → faulty o ∨ ¬ clear_way fs P → E e fs') →
  (∀ fs', ok fs' → lookup_node fs' P = Some (Dir owner_dir) → Q tt fs') →
  wp o (prepareProtectedDirectory p) Q E fs.
Proof.
  intros P ok HE HQ. unfold prepareProtectedDirectory. fold P.
  assert (∀ fs', made owner_dir P fs fs' → ok fs') as Hok.
  { intros fs' Hm. split; [by eapply contents_made|]. intros q Hq. by apply (made_inside _ _ _ _ _ Hq Hm). }
  apply wp_bind, wp_MkdirAll; [intros e fs' Hm Hr; apply HE; auto|]. intros fs1 d Hm Ho.
  apply wp_bind, wp_reading; [intros; apply HE; [by apply Hok|by left]|].
  assert (lookup_node fs1 P ≠ Some (Dir d) → ¬ clear_way fs P) as Hclear.
  { intros Hl Hc. apply Hl, clear_Open_node; [by eapply made_clear|done]. }
  unfold Lstat. destruct (lookup_node fs1 P) as [n|] eqn:Hl; [|apply HE; [by apply Hok|right; by apply Hclear]].
  destruct (is_link n || negb (is_directory n)) eqn:Hn.
  { apply wp_err, HE; [by apply Hok|]. right. apply Hclear. intros [= ->]. done. }
  destruct n as [d'| | |]; try done. apply (wp_Chmod _ _ _ (Dir d')).
  - intros Hf. apply HE; [by apply Hok|by left].
  - by apply Open_node.
  - intros q _ Hq. rewrite (Hq Hl). cbn [set_perm]. apply HQ.
    + destruct (Hok fs1 Hm) as [Hc Ha]. split; [by rewrite (contents_directory fs1 P d')|].
      etransitivity; [exact Ha|]. by apply agree_insert.
    + apply lookup_node_Some, lookup_insert_eq.
Qed.

(** The files that a restoration may make: the registry, and an authority key. *)
Definition restored_files (R A q : path) : Prop := q = R ∨ ∃ pk, q = (A ++ [key_file_name pk])%list.

(** No file is lost or changed, and only those two may be new. *)
Definition restoring (R A : path) fs fs' : Prop :=
  contents fs ⊆ contents fs' ∧ agree (restored_files R A) (contents fs) (contents fs').

#[export] Instance restoring_preorder R A : PreOrder (restoring R A).
Proof.
  split; [by intros fs; split|]. intros x y z [Hxy Axy] [Hyz Ayz]. split; by etransitivity.
Qed.

Lemma restoring_same R A fs fs' : contents fs' = contents fs → restoring R A fs fs'.
Proof. intros Hc. unfold restoring. by rewrite Hc. Qed.

Lemma restoring_new R A q n fs fs' :
  restored_files R A q → contents fs !! q = None → contents fs' = <[q := n]> (contents fs) → restoring R A fs fs'.
Proof. intros Hq Hn Hc. unfold restoring. rewrite Hc. split; [by apply insert_subseteq|by apply agree_insert]. Qed.

Lemma restoring_authority R ad pk fs fs' :
  restore_effect (abs ad) pk fs fs' → restoring R (abs ad) fs fs'.
Proof.
  intros [_ [Hc|(Hn & n & _ & Hc)]]; [by apply restoring_same|].
  eapply restoring_new; [|exact Hn|exact Hc]. right. by exists pk.
Qed.

(** The registry is removed again. *)
Lemma restoring_undo R A n fs fs1 fs' :
  contents fs1 = <[R := n]> (contents fs) → contents fs !! R = None → restoring R A fs1 fs' →
  contents fs' !! R = Some n ∧ ∀ fs'', contents fs'' = delete R (contents fs') → restoring R A fs fs''.
Proof.
  intros Hr Hn [Hsub Ha]. rewrite Hr in Hsub, Ha.
  assert (contents fs' !! R = Some n) as HR.
  { eapply lookup_weaken; [|exact Hsub]. apply lookup_insert_eq. }
  split; [done|]. intros fs'' Hd. unfold restoring. rewrite Hd. split.
  - apply map_subseteq_spec. intros q x Hq. rewrite lookup_delete_ne by (intros <-; congruence).
    eapply lookup_weaken; [|exact Hsub]. rewrite lookup_insert_ne; [done|]. intros <-. congruence.
  - intros q Hq. assert (q ≠ R) by (intros ->; apply Hq; by left). rewrite lookup_delete_ne by done.
    rewrite (Ha q Hq). by apply lookup_insert_ne.
Qed.

Lemma clear_contents fs p : clear_way fs p ↔ ∀ q, q `prefix_of` p → contents fs !! q = None.
Proof.
  split; intros Hc q Hq; specialize (Hc q Hq).
  - apply eq_None_not_Some. intros [n Hn]. apply contents_lookup in Hn as [Hn Hd].
    rewrite (lookup_node_Some _ _ _ Hn) in Hc. destruct Hc as [?|[d ?]]; simplify_eq/=.
  - unfold lookup_node. destruct (fs !! q) as [n|] eqn:Hn; [|case_bool_decide; eauto].
    right. destruct (is_directory n) eqn:Hd; [destruct n; simplify_eq/=; eauto|].
    by rewrite (proj2 (contents_lookup fs q n)) in Hc.
Qed.

Lemma wp_finish d w r ad pk reg fs2 :
  r ≠ [] → fs2 !! abs r = Some (File owner_only reg) → inspect_snapshot w reg = Ok pk →
  let K := (abs ad ++ [key_file_name pk])%list in
  wp o (finish_restore (workspace_record d pk reg) w r ad)
    (λ x fs', restoring (abs r) (abs ad) fs2 fs' ∧
       x = mkRestore r (Join ad (key_file_name pk)) (re_AuthorityExisted x) ∧
       ∃ e, backup_in (authority_in (abs d)) w pk e fs2 ∧ fs' !! K = Some (File owner_only e) ∧
         contents fs2 !! K = if re_AuthorityExisted x then Some (File owner_only e) else None)
    (λ _ fs', restoring (abs r) (abs ad) fs2 fs' ∧
       (healthy o → ∀ e, arguments_ok (Join d authorityDirectory) w pk →
        backup_in (authority_in (abs d)) w pk e fs2 → ¬ restorable ad pk e fs2)) fs2.
Proof.
  intros Hr HR Hi K. pose proof (inspect_snapshot_size _ _ _ Hi) as Hpk. unfold finish_restore.
  assert (abs (Join d authorityDirectory) = authority_in (abs d)) as Ea by (by apply abs_Join).
  assert (faulty o → ¬ healthy o) as Hfh by (intros Hf Hh; by apply (healthy_faulty o Hh)).
  apply wp_bind, wp_wrapf, wp_reading; [intros Hf; split; [done|intros Hh; destruct (Hfh Hf Hh)]|].
  rewrite (fileSHA256_plain _ _ _ _ HR). cbn [bk_registrySHA256 workspace_record]. rewrite beq_refl. cbn [negb].
  apply wp_bind, wp_wrapf, wp_reading; [intros Hf; split; [done|intros Hh; destruct (Hfh Hf Hh)]|].
  rewrite (InspectRegistryBackup_plain _ _ _ _ _ Hr HR), Hi.
  cbn [bk_AuthorityBackup workspace_record ab_Directory backup_record].
  apply wp_bind. eapply wp_mono; [apply (wp_RestoreAuthorityBackup o _ ad w pk fs2 Hpk)| |]; rewrite ?Ea.
  - intros x fs' (He & Hp & _ & e & Hb & Hk & Hc). apply wp_ret. cbn [re_AuthorityExisted].
    split; [by eapply restoring_authority|]. split; [by rewrite Hp|]. by exists e.
  - intros er fs' [He Hn]. split; [by eapply restoring_authority|]. exact Hn.
Qed.

(** Where nothing is in the way of restoring a workspace: the registry goes to a
    new file in a directory that exists or can be made, the key where it is
    missing or already right, and neither into the backup. *)
Record restore_ready (d r ad pk e : bytes) fs : Prop := {
  rr_registry : r ≠ [];
  rr_authority : ad ≠ [];
  rr_outside : ¬ abs d `prefix_of` abs r ∧ ¬ abs d `prefix_of` abs ad;
  rr_parent : abs (filepath_Dir r) = parent (abs r);
  rr_way : clear_way fs (parent (abs r));
  rr_free : lookup_node fs (abs r) = None;
  rr_key_way : clear_way fs (abs ad);
  rr_key : fs !! (abs ad ++ [key_file_name pk])%list = None ∨
           fs !! (abs ad ++ [key_file_name pk])%list = Some (File owner_only e);
  rr_apart : ¬ abs r `prefix_of` (abs ad ++ [key_file_name pk])%list ∧
             ¬ (abs ad ++ [key_file_name pk])%list `prefix_of` abs r
}.

Lemma parent_prefix (p : path) : parent p `prefix_of` p.
Proof.
  destruct p as [|x p _] using rev_ind; [done|]. rewrite parent_snoc. apply child_below.
Qed.

(** The backup and the destination of the key are still as they were when the
    registry has been restored. *)
Lemma ready_after d w r ad pk reg e fs fs1 :
  restore_ready d r ad pk e fs → workspace_backup_in (abs d) w pk reg e fs →
  contents fs1 = contents fs → agree (λ q, q `prefix_of` parent (abs r)) fs fs1 →
  let fs2 := <[abs r := File owner_only reg]> fs1 in
  backup_in (authority_in (abs d)) w pk e fs2 ∧ restorable ad pk e fs2.
Proof.
  intros [Hr Had [Hout Hout'] Hpar Hway Hfree Hkway Hkey [Hap Hap']] Hb Hc Ha fs2.
  set (R := abs r) in *. set (D := abs d) in *.
  assert (∀ q, q ≠ R → ¬ q `prefix_of` R → fs2 !! q = fs !! q) as Hsame.
  { intros q Hq Hp. unfold fs2. rewrite lookup_insert_ne by done. apply Ha. intros Hp'. apply Hp.
    etransitivity; [exact Hp'|apply parent_prefix]. }
  assert (∀ l, fs2 !! (D ++ l)%list = fs !! (D ++ l)%list) as HsameD.
  { intros l. apply Hsame.
    - intros E. apply Hout. rewrite <-E. by exists l.
    - intros Hp. apply Hout. etransitivity; [|exact Hp]. by exists l. }
  split.
  - destruct (wb_authority _ _ _ _ _ _ Hb) as [B1 B2 B3 B4]. unfold authority_in in *. rewrite <-!app_assoc in *.
    split; rewrite <-?app_assoc; cbn [app] in *; [|by rewrite HsameD..|done].
    unfold lookup_node in *. by rewrite HsameD.
  - split; [done|]. split.
    + apply clear_contents. intros q Hq. unfold fs2. rewrite contents_insert by done. rewrite lookup_insert_ne.
      * rewrite Hc. by eapply clear_contents.
      * intros E. apply Hap. rewrite E. etransitivity; [exact Hq|apply child_below].
    + rewrite !Hsame; [done|..]; try done; intros E; apply Hap'; by rewrite E.
Qed.

Lemma contents_delete fs p : contents (delete p fs) = delete p (contents fs).
Proof. apply map_filter_delete. Qed.

Lemma contents_File fs p pm c : contents fs !! p = Some (File pm c) ↔ fs !! p = Some (File pm c).
Proof. rewrite contents_lookup. naive_solver. Qed.

(** What a failed restoration leaves. *)
Definition restore_failed (d w r ad : bytes) fs fs' : Prop :=
  restoring (abs r) (abs ad) fs fs' ∧
  (healthy o → contents fs' !! abs r = contents fs !! abs r) ∧
  (healthy o → ∀ pk reg e, d ≠ [] → arguments_ok (Join d authorityDirectory) w pk →
   workspace_backup_in (abs d) w pk reg e fs → ¬ restore_ready d r ad pk e fs).

Lemma failed_unready d w r ad fs fs' :
  contents fs' = contents fs →
  (healthy o → ∀ pk reg e, d ≠ [] → arguments_ok (Join d authorityDirectory) w pk →
   workspace_backup_in (abs d) w pk reg e fs → ¬ restore_ready d r ad pk e fs) →
  restore_failed d w r ad fs fs'.
Proof. intros Hc Hr. split_and!; [by apply restoring_same|by rewrite Hc|done]. Qed.

Lemma failed_faulty d w r ad fs fs' :
  restoring (abs r) (abs ad) fs fs' → faulty o → restore_failed d w r ad fs fs'.
Proof. intros Hr Hf. split_and!; [done|..]; intros Hh; by destruct (healthy_faulty o Hh). Qed.

Lemma workspace_backup_unique D w pk reg e pk' reg' e' fs :
  workspace_backup_in D w pk reg e fs → workspace_backup_in D w pk' reg' e' fs → pk' = pk ∧ reg' = reg ∧ e' = e.
Proof.
  intros Hb Hb'. pose proof (wb_registry _ _ _ _ _ _ Hb') as E. rewrite (wb_registry _ _ _ _ _ _ Hb) in E.
  injection E as <-. pose proof (wb_snapshot _ _ _ _ _ _ Hb') as E. rewrite (wb_snapshot _ _ _ _ _ _ Hb) in E.
  injection E as <-. split_and!; [done..|].
  pose proof (backup_key _ _ _ _ _ (wb_authority _ _ _ _ _ _ Hb')) as E.
  rewrite (backup_key _ _ _ _ _ (wb_authority _ _ _ _ _ _ Hb)) in E. by injection E as <-.
Qed.

(** From the restored registry on, where a failure removes it. *)
Lemma wp_restore_key d w r ad pk reg e fs fs1 :
  r ≠ [] → workspace_backup_in (abs d) w pk reg e fs → contents fs1 = contents fs →
  fs1 !! abs r = None → contents fs !! abs r = None →
  (restore_ready d r ad pk e fs → agree (λ q, q `prefix_of` parent (abs r)) fs fs1) →
  ¬ abs d `prefix_of` abs r →
  let K := (abs ad ++ [key_file_name pk])%list in
  wp o (on_error (finish_restore (workspace_record d pk reg) w r ad)
         (do! _ := io_try (Remove (abs r)) in syncDirectory (filepath_Dir r)))%io
    (λ x fs', restoring (abs r) (abs ad) fs fs' ∧
       x = mkRestore r (Join ad (key_file_name pk)) (re_AuthorityExisted x) ∧
       fs' !! abs r = Some (File owner_only reg) ∧ fs' !! K = Some (File owner_only e) ∧
       (re_AuthorityExisted x = false → contents fs !! K = None))
    (λ _, restore_failed d w r ad fs) (<[abs r := File owner_only reg]> fs1).
Proof.
  intros Hr Hb Hc1 Hn1 Hn Hag Hout K. set (fs2 := <[abs r := File owner_only reg]> fs1).
  assert (contents fs2 = <[abs r := File owner_only reg]> (contents fs)) as Hc2
    by (unfold fs2; by rewrite contents_insert, Hc1).
  assert (restoring (abs r) (abs ad) fs fs2) as Hres by (eapply restoring_new; [by left|exact Hn|exact Hc2]).
  apply wp_on_error. eapply wp_mono;
    [apply (wp_finish d w r ad pk reg fs2 Hr); [apply lookup_insert_eq|apply Hb]| |].
  - intros x fs' (Hrest & Hx & e' & Hb' & Hk & Hkc).
    destruct (restoring_undo _ _ _ _ _ _ Hc2 Hn Hrest) as [HR _]. apply (proj1 (contents_File _ _ _ _)) in HR.
    assert (e' = e) as ->.
    { pose proof (backup_key _ _ _ _ _ Hb') as E. apply (proj2 (contents_File _ _ _ _)) in E.
      rewrite Hc2, lookup_insert_ne in E.
      - apply (proj1 (contents_File _ _ _ _)) in E. rewrite (backup_key _ _ _ _ _ (wb_authority _ _ _ _ _ _ Hb)) in E. by injection E.
      - intros E'. apply Hout. rewrite E'. unfold authority_in. rewrite <-app_assoc. by eexists. }
    split_and!; [by etransitivity|done..|]. intros Hex. rewrite Hex, Hc2 in Hkc.
    fold K in Hkc. destruct (decide (abs r = K)) as [E|E]; [by rewrite E, lookup_insert_eq in Hkc|].
    by rewrite lookup_insert_ne in Hkc.
  - intros er fs' [Hrest Hnot]. destruct (restoring_undo _ _ _ _ _ _ Hc2 Hn Hrest) as [HR Hundo].
    assert (restoring (abs r) (abs ad) fs fs') as Hall by (by etransitivity).
    assert (restore_failed d w r ad fs (delete (abs r) fs')) as Hgone.
    { split_and!; [apply Hundo, contents_delete|intros _; by rewrite contents_delete, lookup_delete_eq, Hn|].
      intros Hh pk' reg' e' _ Ha Hb' Hready. destruct (workspace_backup_unique _ _ _ _ _ _ _ _ _ Hb Hb') as (-> & -> & ->).
      destruct (ready_after d w r ad pk reg e fs fs1 Hready Hb Hc1 (Hag Hready)) as [B1 B2]. by apply (Hnot Hh e). }
    apply contents_lookup in HR as [HR _].
    apply wp_bind, wp_try, (wp_Remove _ _ (File owner_only reg)); [|done|done|].
    + intros Hf. apply wp_bind, wp_reading; [intros; by apply failed_faulty|].
      destruct (Open _ _); [apply wp_Sync; intros; by apply failed_faulty|by apply failed_faulty].
    + apply wp_bind, wp_reading; [done|]. destruct (Open _ _); [|done]. by apply wp_Sync.
Qed.

Lemma wp_RestoreTo d w r ad fs :
  wp o (RestoreTo d w r ad)
    (λ x fs', restoring (abs r) (abs ad) fs fs' ∧ contents fs !! abs r = None ∧
       ¬ abs d `prefix_of` abs r ∧ ¬ abs d `prefix_of` abs ad ∧
       ∃ pk reg e, Verify d w fs = Ok (workspace_record d pk reg) ∧
         workspace_backup_in (abs d) w pk reg e fs ∧
         x = mkRestore r (Join ad (key_file_name pk)) (re_AuthorityExisted x) ∧
         fs' !! abs r = Some (File owner_only reg) ∧
         fs' !! (abs ad ++ [key_file_name pk])%list = Some (File owner_only e) ∧
         (re_AuthorityExisted x = false → contents fs !! (abs ad ++ [key_file_name pk])%list = None))
    (λ _, restore_failed d w r ad fs) fs.
Proof.
  unfold RestoreTo. destruct (beq r [] || beq ad []) eqn:Hargs.
  { apply wp_err, failed_unready; [done|]. intros _ pk reg e _ _ _ Hrd.
    by rewrite (proj2 (beq_false _ _) (rr_registry _ _ _ _ _ _ Hrd)),
      (proj2 (beq_false _ _) (rr_authority _ _ _ _ _ _ Hrd)) in Hargs. }
  apply orb_false_iff in Hargs as [Hr%beq_false _].
  apply wp_bind, wp_wrapf, wp_reading; [intros; by apply failed_faulty|].
  destruct (Verify d w fs) as [b|er] eqn:Hv.
  2: { apply failed_unready; [done|]. intros _ pk reg e Hd Ha Hb _.
       by rewrite (proj2 (Verify_Ok d w fs (workspace_record d pk reg))) in Hv by eauto 10. }
  pose proof Hv as (Hd & pk & reg & e & -> & Ha & Hb)%Verify_Ok.
  destruct (pathIsWithin d r || pathIsWithin d ad) eqn:Hwithin.
  { apply wp_err, failed_unready; [done|]. intros _ pk' reg' e' _ _ _ Hrd. destruct (rr_outside _ _ _ _ _ _ Hrd) as [H1' H2'].
    apply orb_true_iff in Hwithin as [Hw|Hw]; by apply pathIsWithin_spec in Hw. }
  apply orb_false_iff in Hwithin as [Hout Hout'].
  assert (¬ abs d `prefix_of` abs r) as Houtr by (rewrite <-pathIsWithin_spec; congruence).
  assert (¬ abs d `prefix_of` abs ad) as Houta by (rewrite <-pathIsWithin_spec; congruence).
  apply wp_bind, wp_wrapf, wp_prepareProtectedDirectory.
  { intros er fs' [Hc _] Hbad. destruct Hbad as [Hf|Hbad]; [apply failed_faulty; [by apply restoring_same|done]|].
    apply failed_unready; [done|]. intros _ pk' reg' e' _ _ _ Hrd. apply Hbad.
    rewrite (rr_parent _ _ _ _ _ _ Hrd). apply Hrd. }
  intros fs1 [Hc1 Ag1] HP1. cbn [bk_RegistryPath workspace_record].
  apply wp_bind, wp_wrapf, (wp_copyExclusive _ _ _ reg).
  { rewrite abs_Join by reflexivity. apply contents_File. rewrite Hc1. apply contents_File, Hb. }
  { intros er fs' [->|(Hf & Hn & n & Hnd & ->)] Hbad.
    2: { apply failed_faulty; [|done]. eapply (restoring_new _ _ (abs r) n); [by left| |by rewrite contents_insert, Hc1].
         rewrite <-Hc1. apply eq_None_not_Some. intros [x Hx]. apply contents_lookup in Hx as [Hx _]. congruence. }
    destruct Hbad as [Hf|Hbad]; [apply failed_faulty; [by apply restoring_same|done]|].
    apply failed_unready; [done|]. intros _ pk' reg' e' _ _ _ Hrd. rewrite (rr_parent _ _ _ _ _ _ Hrd) in HP1, Ag1.
    destruct Hbad as [Hbad|Hbad]; [|unfold is_dir in Hbad; by rewrite HP1 in Hbad].
    pose proof (rr_free _ _ _ _ _ _ Hrd) as [Hfree Hne]%lookup_node_None.
    apply Hbad, lookup_node_None. split; [|done]. rewrite Ag1; [done|]. intros Hp%prefix_length.
    destruct (abs r) as [|x l _] using rev_ind; [done|]. rewrite parent_snoc, length_app in Hp. cbn in Hp. lia. }
  intros Hn1 Hne. assert (contents fs !! abs r = None) as Hn
    by (rewrite <-Hc1; by apply contents_None, lookup_node_None).
  assert (contents (<[abs r := File owner_only reg]> fs1) = <[abs r := File owner_only reg]> (contents fs)) as Hc2
    by (by rewrite contents_insert, Hc1).
  apply wp_bind, wp_on_error, wp_wrapf, (wp_syncDirectory _ _ (Dir owner_dir)).
  { intros Hf. apply (wp_Remove _ _ (File owner_only reg)); [|apply lookup_insert_eq|done|].
    - intros _. apply failed_faulty; [|done]. eapply restoring_new; [by left|exact Hn|exact Hc2].
    - apply failed_faulty; [|done]. apply restoring_same. by rewrite delete_insert_id. }
  { apply Open_node; [|done]. unfold lookup_node. rewrite lookup_insert_ne; [exact HP1|]. intros E.
    rewrite <-E, (proj2 (lookup_node_None _ _)) in HP1; [done|by split]. }
  eapply wp_mono; [apply (wp_restore_key d w r ad pk reg e fs fs1); try done| |done].
  - intros Hrd. by rewrite <-(rr_parent _ _ _ _ _ _ Hrd).
  - intros x fs' (Hx & Hx' & HR & HK & Hex). split_and!; [done..|]. by exists pk, reg, e.
Qed.
End Restored.

(** ** The properties *)

Section Properties.
Context `{Process, PKCS8, SqliteFile}.

(** Making a workspace backup writes in its new directory and nowhere else,
    whichever system calls fail; where something was already, it changes nothing
    at all, and without faults a failure leaves nothing behind. A success has left
    a directory that holds exactly the snapshot of the registry, a copy of the
    authority key the snapshot names, and the two manifests that bind them to the
    workspace. *)
Theorem workspace_backup_contained o t db d w kd (fs : files) :
  let '(r, (_, fs')) := Create db d w kd o (t, fs) in
  agree (prefix (abs d)) fs fs' ∧ (is_Some (lookup_node fs (abs d)) → fs' = fs) ∧
  match r with
  | Ok b => ∃ pk e, b = workspace_record d pk (sqlite_image db) ∧
      workspace_backup_in (abs d) w pk (sqlite_image db) e fs' ∧
      fs !! abs (AuthorityPrivateKeyPath kd (AuthorityKeyID pk)) = Some (File owner_only e)
  | Err _ => healthy o → fs' = fs ∨ ∀ q, abs d `prefix_of` q → fs' !! q = None
  end.
Proof.
  pose proof (wp_Create o db d w kd fs t) as Hw. destruct (Create _ _ _ _ _ _) as [[b|er] [t' fs']].
  - destruct Hw as (Hd & Hn & pk & e & -> & Hv & Hi & Hk & Hsrc).
    split; [apply with_workspace_agree|]. split; [intros [n Hx]; congruence|].
    assert (∀ rest n, backup_node w pk (sqlite_image db) e rest = Some n →
      with_workspace (abs d) w pk (sqlite_image db) e fs !! (abs d ++ rest)%list = Some n) as Hl
      by (intros rest n Hb; by rewrite with_workspace_lookup, Hb).
    apply Verify_Ok in Hv as (_ & pk' & reg' & e' & -> & _ & Hb). pose proof (wb_registry _ _ _ _ _ _ Hb) as E.
    rewrite (Hl [registryName] _ eq_refl) in E. injection E as <-.
    pose proof (wb_snapshot _ _ _ _ _ _ Hb) as E. rewrite Hi in E. injection E as <-.
    pose proof (backup_key _ _ _ _ _ (wb_authority _ _ _ _ _ _ Hb)) as E. unfold authority_in in E.
    rewrite <-app_assoc in E. cbn [app] in E. rewrite (Hl [authorityDirectory; key_file_name pk] (File owner_only e)) in E.
    + injection E as <-. exists pk, e. done.
    + cbn [backup_node]. rewrite !beq_refl. by rewrite (proj2 (beq_false _ _) (key_file_manifest pk)).
  - destruct Hw as (Ha & Hsame & Hh & _). split; [done|]. split; [|done]. intros [n Hn]. apply Hsame. congruence.
Qed.

(** C30: a restoration never replaces or alters a file, whichever system calls fail:
    the files afterwards are those before, with at most a registry and one
    authority key added, and without faults a failed restoration leaves no
    registry. A success has put the registry of the verified backup, byte for
    byte, where no file was, and the authority key that it names next to it;
    neither is inside the backup. *)
Theorem workspace_restore_exact o t d w r ad (fs : files) :
  let '(x, (_, fs')) := RestoreTo d w r ad o (t, fs) in
  contents fs ⊆ contents fs' ∧
  (∀ q, q ≠ abs r → (∀ pk, q ≠ (abs ad ++ [key_file_name pk])%list) → contents fs' !! q = contents fs !! q) ∧
  match x with
  | Ok x =>
      contents fs !! abs r = None ∧ pathIsWithin d r = false ∧ pathIsWithin d ad = false ∧
      ∃ pk reg e, Verify d w fs = Ok (workspace_record d pk reg) ∧
        workspace_backup_in (abs d) w pk reg e fs ∧
        x = mkRestore r (Join ad (key_file_name pk)) (re_AuthorityExisted x) ∧
        fs' !! abs r = Some (File owner_only reg) ∧
        fs' !! (abs ad ++ [key_file_name pk])%list = Some (File owner_only e)
  | Err _ => healthy o → contents fs' !! abs r = contents fs !! abs r
  end.
Proof.
  pose proof (wp_RestoreTo o d w r ad fs t) as Hw.
  assert (∀ fs', restoring (abs r) (abs ad) fs fs' → contents fs ⊆ contents fs' ∧
    (∀ q, q ≠ abs r → (∀ pk, q ≠ (abs ad ++ [key_file_name pk])%list) → contents fs' !! q = contents fs !! q)) as Hres.
  { intros fs' [Hsub Ha]. split; [done|]. intros q Hq Hk. apply Ha. intros [->|[pk ->]]; [done|by apply (Hk pk)]. }
  destruct (RestoreTo _ _ _ _ _ _) as [[x|er] [t' fs']].
  - destruct Hw as (Hr & Hn & H1' & H2' & pk & reg & e & Hv & Hb & Hx & HR & HK & _).
    destruct (Hres fs' Hr) as [Hs Ha]. do 3 (split; [done|]).
    split; [apply not_true_iff_false; by rewrite pathIsWithin_spec|].
    split; [apply not_true_iff_false; by rewrite pathIsWithin_spec|]. by exists pk, reg, e.
  - destruct Hw as (Hr & Hh & _). destruct (Hres fs' Hr). done.
Qed.

Lemma imaged_inspect db w pk :
  imaged db → WorkspaceAuthorityPublicKey w db = Ok pk → inspect_snapshot w (sqlite_image db) = Ok pk.
Proof.
  unfold imaged, WorkspaceAuthorityPublicKey, inspect_snapshot. intros ->. rewrite beq_refl, Z.eqb_refl.
  cbn [negb guard_err rbind sn_foreign_key_violation sn_db]. destruct (workspaces db !! w) as [row|]; [|done].
  destruct (authority_public_key row) as [k|]; [|done].
  replace (default [] (Some k)) with k by done. destruct (Z.eqb_spec (blen k) PublicKeySize) as [E|]; [|done].
  intros [= <-]. by rewrite E.
Qed.

(** C29: a workspace that is backed up can be restored. Without faults, a store
    whose workspace has its authority key in the key directory can be backed up
    into a new directory; the backup verifies, and from it a restoration to free
    destinations succeeds: the restored registry opens as the same database, and
    the restored key file loads as the key that was live. *)
Theorem workspace_backup_roundtrip o t db d w kd r ad pk k e (fs : files) :
  healthy o → imaged db → blen w = 16 → d ≠ [] → kd ≠ [] → vacant fs (abs d) →
  WorkspaceAuthorityPublicKey w db = Ok pk → pk ≠ repeat Byte.x00 32 →
  loadAuthorityPrivateKeyFile (AuthorityPrivateKeyPath kd (AuthorityKeyID pk)) pk fs = Ok (k, e) →
  let fs1 := with_workspace (abs d) w pk (sqlite_image db) e fs in
  ∃ b t1, Create db d w kd o (t, fs) = (Ok b, (t1, fs1)) ∧ Verify d w fs1 = Ok b ∧
    (restore_ready d r ad pk e fs1 →
     ∃ x t2 fs2 image, RestoreTo d w r ad o (t1, fs1) = (Ok x, (t2, fs2)) ∧
       read_file (re_RegistryPath x) fs2 = Ok image ∧
       sqlite_open image = Some (mkSnapshot (bs "ok") false currentSchemaVersion db) ∧
       LoadAuthorityPrivateKey (re_AuthorityKeyPath x) pk fs2 = Ok k).
Proof.
  intros Hh Him Hw Hd Hkd Hvac Hpk Hz Hload fs1. pose proof (imaged_inspect db w pk Him Hpk) as Hi.
  pose proof Hload as (Hsrc & Hsz & Hk & Hpub)%loadAuthorityPrivateKeyFile_Ok.
  pose proof (wp_Create o db d w kd fs t) as Hc. destruct (Create _ _ _ _ _ _) as [[b|er] [t1 fs']].
  2: { destruct Hc as (_ & _ & _ & Hc). destruct (Hc Hh Hd Hkd Hvac). exists pk. by rewrite Hload. }
  destruct Hc as (_ & _ & pk' & e' & -> & Hv & Hi' & _ & Hsrc'). rewrite Hi in Hi'. injection Hi' as <-.
  rewrite Hsrc in Hsrc'. injection Hsrc' as <-. exists b, t1. split; [done|]. split; [done|]. intros Hrd.
  assert (workspace_backup_in (abs d) w pk (sqlite_image db) e fs1) as Hb.
  { apply with_workspace_in; [done..|]. split; [done|by exists k]. }
  pose proof (wp_RestoreTo o d w r ad fs1 t1) as Hr. fold fs1.
  destruct (RestoreTo _ _ _ _ _ _) as [[x|er] [t2 fs2]].
  - destruct Hr as (_ & _ & _ & _ & pk' & reg' & e' & _ & Hb' & Hx & HR & HK & _).
    destruct (workspace_backup_unique _ _ _ _ _ _ _ _ _ Hb Hb') as (-> & -> & ->).
    exists x, t2, fs2, (sqlite_image db). split_and!; [done| |done|]; rewrite Hx; cbn [re_RegistryPath re_AuthorityKeyPath].
    + by eapply read_file_plain.
    + unfold LoadAuthorityPrivateKey. rewrite (proj2 (loadAuthorityPrivateKeyFile_Ok _ pk fs2 k e)); [done|].
      by rewrite abs_Join by apply key_file_plain.
  - destruct Hr as (_ & _ & Hr). destruct (Hr Hh pk (sqlite_image db) e Hd); [|done..].
    split_and!; [by apply Join_nonempty|done..|]. by eapply inspect_snapshot_size.
Qed.
End Properties.
