(* ===== verification/BackupExamples.v ===== *)
(** A workspace that is backed up and restored, on concrete files. *)

From S2P Require Import Prelude GoStd GoNet GoCrypto GoPath DeliveryStore MembershipCodec Schema Admission.
From S2P Require Import FileSystem AuthorityKey AuthorityBackup WorkspaceBackup BackupProofs.

#[local] Open Scope string_scope.
#[local] Open Scope Z_scope.

#[local] Existing Instances pkcs8_model example_process.

Definition backup_workspace : bytes := repeat Byte.x01 16.
Definition backup_key : bytes := repeat Byte.x07 64.
Definition backup_public : bytes := ed_Public backup_key.
Definition backup_encoded : bytes := (bs "pkcs8" ++ backup_key)%list.

Definition backup_db : DB :=
  empty_db <| workspaces := {[ backup_workspace := mkWorkspaceRow 0 (Some backup_public) 1 (repeat Byte.x00 32) ]} |>.

(** A registry file that stands for one database. *)
#[local] Instance one_database : SqliteFile := {|
  sqlite_image _ := bs "SQLite format 3";
  sqlite_open image :=
    if beq image (bs "SQLite format 3")
    then Some (mkSnapshot (bs "ok") false currentSchemaVersion backup_db) else None |}.

Definition backup_files : files :=
  <[ [bs "srv"] := Dir 0x1ED ]>
  (<[ [bs "srv"; bs "keys"] := Dir owner_dir ]>
  (<[ [bs "srv"; bs "keys"; key_file_name backup_public] := File owner_only backup_encoded ]> ∅)).

Definition no_faults : oracle := mkOracle (λ _, false) (λ _, 0%nat) (λ _, []).

(** *** Checks *)

Lemma ancestry_spec (done rest q : path) :
  done `prefix_of` q → q `prefix_of` (done ++ rest)%list → q = done ∨ q ∈ ancestry done rest.
Proof.
  revert done. induction rest as [|e rest IH]; intros done Hd Hq.
  - left. rewrite app_nil_r in Hq. destruct Hd as [x ->], Hq as [y E]. rewrite <-app_assoc in E.
    apply (f_equal length) in E. rewrite !length_app in E. destruct x; [by rewrite app_nil_r|cbn in E; lia].
  - cbn [ancestry]. destruct Hd as [[|x l] ->]; [left; by rewrite app_nil_r|right].
    destruct Hq as [y E]. rewrite <-app_assoc in E. apply app_inv_head in E. injection E as -> E.
    rewrite elem_of_cons. apply (IH (done ++ [x])%list).
    + exists l. by rewrite <-app_assoc.
    + exists y. rewrite <-!app_assoc. cbn. by rewrite E.
Qed.

Definition is_clear (fs : files) (p : path) : bool :=
  forallb (λ q, match lookup_node fs q with None | Some (Dir _) => true | _ => false end) ([] :: ancestry [] p).

Lemma is_clear_way fs p : is_clear fs p = true → clear_way fs p.
Proof.
  intros Hc q Hq. unfold is_clear in Hc. rewrite forallb_forall in Hc.
  assert (In q ([] :: ancestry [] p)) as Hin.
  { apply list_elem_of_In, elem_of_cons. by apply (ancestry_spec [] p q); [apply prefix_nil|]. }
  specialize (Hc q Hin). destruct (lookup_node fs q) as [[]|]; try done; eauto.
Qed.

Definition is_vacant (fs : files) (p : path) : bool :=
  bool_decide (p ≠ []) && is_dir fs (parent p) && bool_decide (map_Forall (λ q _, ¬ p `prefix_of` q) fs).

Lemma is_vacant_spec fs p : is_vacant fs p = true → vacant fs p.
Proof.
  unfold is_vacant. rewrite !andb_true_iff, !bool_decide_eq_true. intros [[Hp Hd] Ha]. split_and!; [done..|].
  intros q Hq. apply eq_None_not_Some. intros [n Hn]. by apply (Ha q n Hn).
Qed.

Definition ready_fs : files :=
  with_workspace (abs (bs "backup")) backup_workspace backup_public (sqlite_image backup_db) backup_encoded backup_files.

Lemma example_ready :
  restore_ready (bs "backup") (bs "restored/registry.db") (bs "restored/keys") backup_public backup_encoded ready_fs.
Proof.
  split; try done.
  - split; apply (bool_decide_unpack _); vm_compute; exact I.
  - apply is_clear_way. vm_compute. reflexivity.
  - apply is_clear_way. vm_compute. reflexivity.
  - left. apply (bool_decide_unpack _). vm_compute. exact I.
  - split; apply (bool_decide_unpack _); vm_compute; exact I.
Qed.

Lemma workspace_backup_roundtrip_witness :
  ∃ b t1 x t2 fs2 image,
    Create backup_db (bs "backup") backup_workspace (bs "keys") no_faults (0%nat, backup_files) =
      (Ok b, (t1, ready_fs)) ∧
    RestoreTo (bs "backup") backup_workspace (bs "restored/registry.db") (bs "restored/keys") no_faults
      (t1, ready_fs) = (Ok x, (t2, fs2)) ∧
    read_file (re_RegistryPath x) fs2 = Ok image ∧
    sqlite_open image = Some (mkSnapshot (bs "ok") false currentSchemaVersion backup_db).
Proof.
  destruct (workspace_backup_roundtrip no_faults 0 backup_db (bs "backup") backup_workspace (bs "keys")
    (bs "restored/registry.db") (bs "restored/keys") backup_public backup_key backup_encoded backup_files)
    as (b & t1 & Hc & _ & Hr).
  - done.
  - reflexivity.
  - reflexivity.
  - done.
  - done.
  - apply is_vacant_spec. vm_compute. reflexivity.
  - vm_compute. reflexivity.
  - intros E. discriminate E.
  - apply loadAuthorityPrivateKeyFile_Ok. split; [|split; [done|split; reflexivity]].
    vm_compute. reflexivity.
  - destruct (Hr example_ready) as (x & t2 & fs2 & image & Hx & Hi & Ho & _).
    exists b, t1, x, t2, fs2, image. exact (conj Hc (conj Hx (conj Hi Ho))).
Defined.
