(* ===== verification/AdminService.v ===== *)
(** internal/adminservice/service.go: the management operations over the
    admission store and the authority key files. Each store call is one
    transaction, so an operation is a program of atomic actions on the database,
    which the server and the command line use at the same time. *)

From S2P Require Import Prelude GoStd DeliveryStore MembershipCodec Schema Admission.
From S2P Require Import MembershipStore StoreSteps FileSystem AuthorityKey Interleave.

#[local] Open Scope string_scope.
#[local] Open Scope Z_scope.
#[local] Open Scope prog_scope.

Definition DefaultPairingCodeLifetime : Z := 10 * Minute.
Definition ErrInvalidDeviceState : error := New "device is not in the required state".

Record PairingCode : Type := mkPairingCode {
  pco_Code : bytes;
  pco_ExpiresAt : Z
}.

Definition DeviceAccessAction : Type := string.
Definition RejectPending : DeviceAccessAction := "reject-pending".
Definition RemoveApproved : DeviceAccessAction := "remove-approved".
Definition RevokeCurrent : DeviceAccessAction := "revoke-current".

(** What the service keeps besides the store: the key directory and the files
    in it. *)
Record Service : Type := mkService {
  authorityKeyDirectory : bytes;
  key_files : files
}.

Definition New_Service (authorityKeyDirectory : bytes) (fs : files) : result Service :=
  fail_if beq authorityKeyDirectory []
    with_msg "admission store and authority key directory are required" in
  Ok (mkService authorityKeyDirectory fs).

(** A transaction of the store; a failed one is rolled back. *)
Definition transact {A} (f : DB → result (A * DB)) : prog DB (result A) :=
  act (λ db, match f db with Ok (a, db') => (db', Ok a) | Err e => (db, Err e) end).

(** What the console needs of a service (the [Manager] interface of
    internal/adminweb). [secret] is the random value behind a pairing code. *)
Class Manager : Type := {
  ListWorkspacesM : prog DB (result (list (bytes * Z)));
  ListDevicesM : bytes → prog DB (result (list DeviceSummary));
  IssuePairingCodeM : bytes → DeviceType → bytes → Z → Z → bytes → prog DB (result PairingCode);
  ApproveDeviceM : bytes → bytes → Z → prog DB (result ApprovedMembership);
  RenameDeviceM : bytes → bytes → bytes → Z → prog DB (result RenamedDevice);
  ChangeDeviceAccessM : bytes → bytes → DeviceAccessAction → Z → prog DB (result RevokedDevice)
}.

Section Service.
Context `{Wire, Ed25519, Process, PKCS8} (s : Service).

Definition svc_ListWorkspaces : prog DB (result (list (bytes * Z))) := reads ListWorkspaces.
Definition svc_ListDevices (w : bytes) : prog DB (result (list DeviceSummary)) := reads (ListDevices w).

Definition svc_IssuePairingCode (w : bytes) (deviceType : DeviceType) (deviceName : bytes)
  (now ttl : Z) (secret : bytes) : prog DB (result PairingCode) :=
  let! r := transact (IssuePairingCode w deviceType deviceName now ttl secret) in
  Ret (let? code := r in Ok (mkPairingCode code (now + ttl))).

Definition svc_LoadAuthorityPrivateKey (w : bytes) : prog DB (result bytes) :=
  let! r := reads (WorkspaceAuthorityPublicKey w) in
  Ret (let? publicKey := r in
       LoadAuthorityPrivateKey
         (AuthorityPrivateKeyPath (authorityKeyDirectory s) (AuthorityKeyID publicKey))
         publicKey (key_files s)).

Definition find_device (reference : bytes) (devices : list DeviceSummary) : result DeviceSummary :=
  match List.find (λ d, beq (dsu_Reference d) reference) devices with
  | Some d => Ok d
  | None => Err ErrDeviceNotFound
  end.

Definition device (w deviceReference : bytes) : prog DB (result DeviceSummary) :=
  reads (λ db, let? devices := ListDevices w db in find_device deviceReference devices).

Definition productRoles (deviceType : DeviceType) : result (list Z) :=
  if bool_decide (deviceType = DeviceAndroid) then Ok [1]
  else if bool_decide (deviceType = DeviceChrome) then Ok [2; 3]
  else Err (New "unsupported device type").

Definition svc_ApproveDevice (w deviceReference : bytes) (now : Z) : prog DB (result ApprovedMembership) :=
  let! found := device w deviceReference in
  match found with
  | Err e => Ret (Err e)
  | Ok d =>
      if negb (bool_decide (dsu_MembershipState d = pending_approval)) || dsu_Revoked d
      then Ret (Err ErrInvalidDeviceState)
      else
        match productRoles (dsu_DeviceType d) with
        | Err e => Ret (Err e)
        | Ok roles =>
            let! key := svc_LoadAuthorityPrivateKey w in
            match key with
            | Err e => Ret (Err e)
            | Ok privateKey =>
                transact (ApprovePendingMembership w deviceReference roles privateKey now)
            end
        end
  end.

Definition svc_RenameDevice (w deviceReference displayName : bytes) (now : Z)
  : prog DB (result RenamedDevice) :=
  let! found := device w deviceReference in
  match found with
  | Err e => Ret (Err e)
  | Ok d =>
      if negb (bool_decide (dsu_MembershipState d = approved)) || dsu_Revoked d ||
         beq (dsu_DeviceName d) displayName
      then Ret (Err ErrInvalidDeviceState)
      else
        let! key := svc_LoadAuthorityPrivateKey w in
        match key with
        | Err e => Ret (Err e)
        | Ok privateKey => transact (RenameDevice w deviceReference displayName privateKey now)
        end
  end.

(** The zero key stands for the nil slice. *)
Definition svc_ChangeDeviceAccess (w deviceReference : bytes) (action : DeviceAccessAction) (now : Z)
  : prog DB (result RevokedDevice) :=
  let! found := device w deviceReference in
  match found with
  | Err e => Ret (Err e)
  | Ok d =>
      let is_pending := bool_decide (dsu_MembershipState d = pending_proof) ||
                        bool_decide (dsu_MembershipState d = pending_approval) in
      let is_approved := bool_decide (dsu_MembershipState d = approved) in
      if dsu_Revoked d || (String.eqb action RejectPending && negb is_pending) ||
         (String.eqb action RemoveApproved && negb is_approved) ||
         (negb (String.eqb action RejectPending) && negb (String.eqb action RemoveApproved) &&
          negb (String.eqb action RevokeCurrent))
      then Ret (Err ErrInvalidDeviceState)
      else
        let! key := (if is_approved then svc_LoadAuthorityPrivateKey w else Ret (Ok [])) in
        match key with
        | Err e => Ret (Err e)
        | Ok privateKey => transact (RevokeDevice w deviceReference privateKey now)
        end
  end.

Definition service_manager : Manager := {|
  ListWorkspacesM := svc_ListWorkspaces;
  ListDevicesM := svc_ListDevices;
  IssuePairingCodeM := svc_IssuePairingCode;
  ApproveDeviceM := svc_ApproveDevice;
  RenameDeviceM := svc_RenameDevice;
  ChangeDeviceAccessM := svc_ChangeDeviceAccess |}.
End Service.

(** ** What a manager promises *)

(** The store operations of management, on one workspace. *)
Definition management_op (w : bytes) (o : op) : Prop :=
  match o with
  | OIssuePairingCode w' _ _ _ _ _ | OApprove w' _ _ _ _ | ORename w' _ _ _ _ | ORevoke w' _ _ _ =>
      w' = w
  | _ => False
  end.

Section Laws.
Context `{Wire, Ed25519}.

(** An action leaves the database alone or performs one management operation. *)
Definition manages (w : bytes) (db db' : DB) : Prop :=
  db' = db ∨ ∃ o, management_op w o ∧ exec o db = Ok db'.

Definition always {A : Type} (_ : A) : Prop := True.

Class ManagerLaws `{M : Manager} : Prop := {
  manager_lists : obeys always eq always ListWorkspacesM ∧
                  ∀ w, obeys always eq always (ListDevicesM w);
  manager_issues w t n now ttl secret : obeys always (manages w) always (IssuePairingCodeM w t n now ttl secret);
  manager_approves w ref now : obeys always (manages w) always (ApproveDeviceM w ref now);
  manager_renames w ref name now : obeys always (manages w) always (RenameDeviceM w ref name now);
  manager_revokes w ref action now : obeys always (manages w) always (ChangeDeviceAccessM w ref action now)
}.

#[export] Instance manages_reflexive w : Reflexive (manages w).
Proof. intros db. by left. Qed.

Lemma transact_manages {A} (f : DB → result (A * DB)) w o :
  management_op w o → (∀ db, exec o db = second (f db)) →
  obeys always (manages w) always (transact f).
Proof.
  intros Ho He. apply obeys_act. intros db _. split; [done|]. split; [|done].
  destruct (f db) as [[a db']|e] eqn:Hf; [|by left]. right. exists o. split; [done|].
  by rewrite He, Hf.
Qed.

Lemma reads_manages {A} (f : DB → A) w : obeys always (manages w) always (reads f).
Proof. by apply obeys_reads; [apply _|]. Qed.

Context `{Process, PKCS8}.

Lemma load_manages s w : obeys always (manages w) always (svc_LoadAuthorityPrivateKey s w).
Proof. eapply obeys_bind; [apply reads_manages|]. done. Qed.

#[export] Instance service_laws s : ManagerLaws (M := service_manager s).
Proof.
  constructor; cbn [ListWorkspacesM ListDevicesM IssuePairingCodeM ApproveDeviceM RenameDeviceM
    ChangeDeviceAccessM service_manager].
  - split; [|intros w]; by apply obeys_reads; [apply _|].
  - intros w t n now ttl secret. eapply obeys_bind; [|done].
    by apply (transact_manages _ _ (OIssuePairingCode w t n now ttl secret)).
  - intros w ref now. eapply obeys_bind; [apply reads_manages|]. intros [d|e] _; [|done].
    destruct (_ || _); [done|]. destruct (productRoles _) as [roles|e]; [|done].
    eapply obeys_bind; [apply load_manages|]. intros [k|e] _; [|done].
    by apply (transact_manages _ _ (OApprove w ref roles k now)).
  - intros w ref name now. eapply obeys_bind; [apply reads_manages|]. intros [d|e] _; [|done].
    destruct (_ || _); [done|].
    eapply obeys_bind; [apply load_manages|]. intros [k|e] _; [|done].
    by apply (transact_manages _ _ (ORename w ref name k now)).
  - intros w ref action now. eapply obeys_bind; [apply reads_manages|]. intros [d|e] _; [|done].
    cbv zeta. destruct (_ || _ || _ || _); [done|]. eapply obeys_bind.
    { destruct (bool_decide (dsu_MembershipState d = approved)); [apply load_manages|done]. }
    intros [k|e] _; [|done]. by apply (transact_manages _ _ (ORevoke w ref k now)).
Qed.

(** *** Rejecting an application *)

(** The rows that were approved stay as they are. *)
Definition approved_kept (db db' : DB) : Prop :=
  ∀ p d, device_rows db !! p = Some d → approved_row d = true → device_rows db' !! p = Some d.

#[export] Instance approved_kept_reflexive : Reflexive approved_kept.
Proof. by intros db p d. Qed.

Lemma revoke_without_key_kept w ref now : obeys always approved_kept always (transact (RevokeDevice w ref [] now)).
Proof.
  apply obeys_act. intros db _. split; [done|]. split; [|done].
  unfold RevokeDevice. destruct (resolveDeviceReference w ref db) as [dev|e]; cbn [rbind]; [|done].
  destruct (device_rows db !! (w, dev)) as [d|] eqn:Hd; [|done].
  case_bool_decide as Hr; [done|]. destruct (bool_decide (membership_state d = approved)) eqn:Hs.
  - by cbn.
  - cbn [negb fst]. apply bool_decide_eq_false in Hs. intros p d' Hp Ha. cbn.
    rewrite lookup_insert_ne; [done|]. intros <-. rewrite Hd in Hp. injection Hp as <-.
    unfold approved_row in Ha. go_bool. done.
Qed.

(** Rejecting an application never removes a member. Whatever happens to the
    database between its transactions (the device may be approved meanwhile, by
    the console or the command line), a rejection leaves every approved device as
    it is; and an approval, a rename or a removal changes nothing but through the
    one store operation it stands for, on its own workspace. *)
Theorem rejection_spares_members (s : Service) w ref now :
  obeys always approved_kept always (svc_ChangeDeviceAccess s w ref RejectPending now) ∧
  obeys always (manages w) always (svc_ChangeDeviceAccess s w ref RejectPending now) ∧
  obeys always (manages w) always (svc_ApproveDevice s w ref now) ∧
  ∀ name, obeys always (manages w) always (svc_RenameDevice s w ref name now).
Proof.
  split; [|split_and!; [apply (manager_revokes (M := service_manager s))|
    apply (manager_approves (M := service_manager s))|
    intros; apply (manager_renames (M := service_manager s))]].
  eapply (obeys_bind _ _ _ _ always); [by apply obeys_reads; [apply _|]|].
  intros [d|e] _; [|done]. cbv zeta. rewrite (String.eqb_refl RejectPending). cbn [andb].
  destruct (bool_decide (dsu_MembershipState d = pending_proof) ||
            bool_decide (dsu_MembershipState d = pending_approval)) eqn:Hp.
  - destruct (_ || _ || _ || _); [done|].
    rewrite (bool_decide_false (dsu_MembershipState d = approved)).
    2: { intros E. rewrite E in Hp. done. }
    cbn [pbind]. apply revoke_without_key_kept.
  - cbn [negb]. rewrite orb_true_r. cbn [orb]. done.
Qed.
End Laws.
