(* ===== verification/AdminCommand.v ===== *)
(** cmd/admin/main.go and internal/protecteddir: the administration command line,
    from its arguments to the store, the key files and what it prints.

    A command is a program of atomic actions on the registry and the files, since
    the server and the console use the same registry; it ends with an exit code
    and the lines it printed. *)

From S2P Require Import Prelude GoStd GoNet GoCrypto GoPath DeliveryStore MembershipCodec Schema Admission.
From S2P Require Import MembershipStore StoreSteps Config Interleave FileSystem AuthorityKey AuthorityBackup.
From S2P Require Import WorkspaceBackup AdminService.

#[local] Open Scope string_scope.
#[local] Open Scope Z_scope.
#[local] Open Scope prog_scope.

(** ** internal/protecteddir *)

Definition Ensure `{Process} (p : bytes) : io unit :=
  (let cleaned := Clean p in
   if beq cleaned dot || beq cleaned [slash]
   then io_err (New "refuse to narrow: it resolves to the current or root directory, not a state directory") else
   do! _ := io_wrapf "create" (MkdirAll (abs p) owner_dir) in
   do! info := io_wrapf "inspect" (reading (Lstat (abs p))) in
   if is_link info || negb (is_directory info)
   then io_err (New "must be a directory, not a symbolic link") else
   io_wrapf "protect" (Chmod (abs p) owner_dir))%io.

(** ** Package flag *)

Inductive flag_kind : Type := StringFlag | DurationFlag.

Inductive flags_result : Type :=
| Parsed (set : gmap string bytes) (rest : list bytes)
| Help
| BadFlags.

Fixpoint find_flag (spec : list (string * flag_kind)) (name : bytes) : option (string * flag_kind) :=
  match spec with
  | [] => None
  | (n, k) :: spec => if beq name (bs n) then Some (n, k) else find_flag spec name
  end.

(** [time.ParseDuration], in nanoseconds. *)
Class Durations : Type := { ParseDuration : bytes → option Z }.

Definition accepts `{Durations} (kind : flag_kind) (value : bytes) : bool :=
  match kind with StringFlag => true | DurationFlag => bool_decide (is_Some (ParseDuration value)) end.

(** [FlagSet.Parse] *)
Fixpoint flags_Parse `{Durations} (spec : list (string * flag_kind)) (set : gmap string bytes) (args : list bytes)
  : flags_result :=
  match args with
  | (a :: b :: more) :: args' =>
      if negb (ch a 0x2D) then Parsed set args
      else
        let name := if ch b 0x2D then more else b :: more in
        match name with
        | [] => Parsed set args'
        | c :: _ =>
            if ch c 0x2D || ch c 0x3D then BadFlags
            else
              let '(name, value) := cut 0x3D name in
              match find_flag spec name with
              | None => if beq name (bs "help") || beq name (bs "h") then Help else BadFlags
              | Some (key, kind) =>
                  match value, args' with
                  | Some v, _ => if accepts kind v then flags_Parse spec (<[key := v]> set) args' else BadFlags
                  | None, v :: args'' =>
                      if accepts kind v then flags_Parse spec (<[key := v]> set) args'' else BadFlags
                  | None, [] => BadFlags
                  end
              end
        end
  | _ => Parsed set args
  end.

(** ** Outcomes *)

(** A value as it is printed; the forms of [%q], of durations and of times are not
    spelled out. *)
Inductive field : Type :=
| Text (name : string) (value : bytes)
| Quoted (name : string) (value : bytes)
| Number (name : string) (value : Z)
| Lasting (name : string) (value : Z)
| Instant (name : string) (value : Z).

Record outcome : Type := mkOutcome {
  exit_code : Z;
  printed : list (list field)
}.

Definition done_with (lines : list (list field)) : outcome := mkOutcome 0 lines.
Definition fatal : outcome := mkOutcome 1 [].
Definition usage : outcome := mkOutcome 2 [].

Definition id_field (name : string) (w : bytes) : field := Text name (RawURL_Encode w).

(** What a command draws from the clock and the random source. *)
Record draws : Type := mkDraws {
  dr_now : Z;
  dr_key : option bytes;
  dr_id : bytes;
  dr_secret : bytes
}.

Definition host : Type := (DB * (nat * files))%type.
Abbreviation invocation := (prog host outcome).

Section Commands.
Context `{Wire, Ed25519, Process, PKCS8, SqliteFile, Durations} (o : oracle) (env : environment) (d : draws).

Definition on_store {A} (p : prog DB A) : prog host A := lift fst (λ db h, (db, h.2)) p.
Definition on_files {A} (m : io A) : prog host (result A) :=
  act (λ h, let '(r, s) := m o h.2 in ((h.1, s), r)).

(** The error of a step ends the command. *)
Definition or_fatal {A} (p : prog host (result A)) (next : A → invocation) : invocation :=
  let! r := p in match r with Ok a => next a | Err _ => Ret fatal end.

Definition with_flags (spec : list (string * flag_kind)) (args : list bytes)
  (next : (string → option bytes) → invocation) : invocation :=
  match flags_Parse spec ∅ args with
  | Help => Ret (done_with [])
  | BadFlags => Ret usage
  | Parsed set (_ :: _) => Ret usage
  | Parsed set [] => next (λ name, set !! name)
  end.

Definition text (flags : string → option bytes) (name : string) : bytes := default [] (flags name).
Definition duration (flags : string → option bytes) (name : string) (fallback : Z) : Z :=
  match flags name with Some v => default 0 (ParseDuration v) | None => fallback end.

Definition parseWorkspaceID (value : bytes) : option bytes := decode_exact value 16.

(** A command on the workspace its flag names. *)
Definition in_workspace (flags : string → option bytes) (next : bytes → invocation) : invocation :=
  match parseWorkspaceID (text flags "workspace") with
  | Some w => next w
  | None => Ret usage
  end.

Definition command_authorityKeyDirectory (databasePath : bytes) : bytes :=
  if beq (env "NM_AUTHORITY_KEY_DIR") [] then Join (filepath_Dir databasePath) (bs "authority-keys")
  else env "NM_AUTHORITY_KEY_DIR".

(** The service, on the key files as they are. *)
Definition management (databasePath : bytes) {A} (f : Service → prog DB A) : prog host A :=
  let! fs := reads (λ h : host, h.2.2) in
  on_store (f (mkService (command_authorityKeyDirectory databasePath) fs)).

Definition initializeWorkspace (databasePath : bytes) : invocation :=
  or_fatal (on_store (reads ListWorkspaces)) (λ existing,
  match existing with
  | (id, _) :: _ => Ret (done_with [[id_field "workspace_id" id]; [Text "result" (bs "already-initialized")]])
  | [] =>
      or_fatal (on_files (GenerateAuthority (command_authorityKeyDirectory databasePath) (dr_key d))) (λ authority,
      let! created := on_store (transact (CreateWorkspace (ga_PublicKey authority) (dr_now d) (dr_id d))) in
      match created with
      | Err _ => let! _ := on_files (Remove (abs (ga_Path authority))) in Ret fatal
      | Ok workspace =>
          Ret (done_with [[id_field "workspace_id" workspace]; [Text "authority_key_id" (ga_KeyID authority)];
                          [Text "authority_private_key_file" (ga_Path authority)]])
      end)
  end).

Definition backupWorkspace (databasePath : bytes) (args : list bytes) : invocation :=
  with_flags [("workspace", StringFlag); ("output", StringFlag)] args (λ flags,
  in_workspace flags (λ workspace,
  let! db := reads (λ h : host, h.1) in
  or_fatal (on_files (Create db (text flags "output") workspace (command_authorityKeyDirectory databasePath)))
    (λ backup,
  Ret (done_with [[id_field "workspace_id" workspace]; [Text "authority_key_id" (bk_AuthorityKeyID backup)];
                  [Text "workspace_backup_directory" (bk_Directory backup)]])))).

Definition verifyWorkspaceBackup (args : list bytes) : invocation :=
  with_flags [("workspace", StringFlag); ("backup", StringFlag)] args (λ flags,
  in_workspace flags (λ workspace,
  or_fatal (on_files (reading (Verify (text flags "backup") workspace))) (λ verified,
  Ret (done_with [[id_field "workspace_id" workspace]; [Text "authority_key_id" (bk_AuthorityKeyID verified)];
                  [Text "result" (bs "verified")]])))).

Definition restoreWorkspaceBackup (args : list bytes) : invocation :=
  with_flags [("workspace", StringFlag); ("backup", StringFlag); ("database", StringFlag);
              ("authority-key-directory", StringFlag)] args (λ flags,
  in_workspace flags (λ workspace,
  or_fatal (on_files (RestoreTo (text flags "backup") workspace (text flags "database")
                        (text flags "authority-key-directory"))) (λ restored,
  Ret (done_with [[id_field "workspace_id" workspace]; [Text "registry_file" (re_RegistryPath restored)];
                  [Text "authority_private_key_file" (re_AuthorityKeyPath restored)];
                  [Text "result" (if re_AuthorityExisted restored
                                  then bs "registry-restored-authority-already-present"
                                  else bs "restored")]])))).

Definition prepareAuthorityRotation (databasePath : bytes) (args : list bytes) : invocation :=
  with_flags [] args (λ _,
  or_fatal (on_files (GenerateAuthority (command_authorityKeyDirectory databasePath) (dr_key d))) (λ generated,
  Ret (done_with [[Text "new_authority_key_id" (ga_KeyID generated)];
                  [Text "new_authority_private_key_file" (ga_Path generated)];
                  [Text "result" (bs "prepared")]]))).

Definition printAuthorityRotation (workspace publicKey : bytes) (rotated : RotatedWorkspaceAuthority)
  (result : string) : outcome :=
  done_with [[id_field "workspace_id" workspace]; [Text "authority_key_id" (AuthorityKeyID publicKey)];
             [Number "authority_epoch" (rwa_AuthorityEpoch rotated)];
             [Number "activation_roster_epoch" (rwa_RosterEpoch rotated)];
             [id_field "transition_digest" (rwa_TransitionDigest rotated)]; [Text "result" (bs result)]].

Definition rotateAuthority (databasePath : bytes) (args : list bytes) : invocation :=
  with_flags [("workspace", StringFlag); ("new-key-file", StringFlag)] args (λ flags,
  if beq (TrimSpace (text flags "new-key-file")) [] then Ret usage else
  in_workspace flags (λ workspace,
  or_fatal (on_files (reading (LoadAuthorityKey (text flags "new-key-file")))) (λ '(newPublicKey, newPrivateKey),
  or_fatal (on_store (reads (CompletedWorkspaceAuthorityRotation workspace newPublicKey))) (λ completed,
  match completed with
  | Some completed => Ret (printAuthorityRotation workspace newPublicKey completed "already-rotated")
  | None =>
      or_fatal (management databasePath (λ s, svc_LoadAuthorityPrivateKey s workspace)) (λ previousPrivateKey,
      or_fatal (on_store (transact
        (RotateWorkspaceAuthority workspace previousPrivateKey newPrivateKey (dr_now d)))) (λ rotated,
      Ret (printAuthorityRotation workspace newPublicKey rotated "rotated")))
  end)))).

Definition issuePairingCode (databasePath : bytes) (args : list bytes) : invocation :=
  with_flags [("workspace", StringFlag); ("type", StringFlag); ("name", StringFlag); ("ttl", DurationFlag)] args
    (λ flags,
  in_workspace flags (λ workspace,
  let ttl := duration flags "ttl" DefaultPairingCodeLifetime in
  or_fatal (management databasePath (λ s, svc_IssuePairingCode workspace
      (String.string_of_list_byte (text flags "type")) (text flags "name") (dr_now d) ttl (dr_secret d)))
    (λ issued,
  Ret (done_with [[Text "pairing_code" (pco_Code issued)]; [Lasting "expires_in" ttl]])))).

Definition listWorkspaces : invocation :=
  or_fatal (on_store (reads ListWorkspaces)) (λ workspaces,
  Ret (done_with ((λ w, [id_field "workspace_id" w.1; Instant "created_at" w.2]) <$> workspaces))).

Definition listDevices (args : list bytes) : invocation :=
  with_flags [("workspace", StringFlag)] args (λ flags, in_workspace flags (λ workspace,
  or_fatal (on_store (reads (ListDevices workspace))) (λ devices,
  Ret (done_with ((λ v, [Text "device_ref" (dsu_Reference v); Text "type" (bs (dsu_DeviceType v));
    Text "status" (if dsu_Revoked v then bs "revoked" else bs "active");
    Quoted "name" (dsu_DeviceName v)]) <$> devices))))).

Definition listPendingDevices (args : list bytes) : invocation :=
  with_flags [("workspace", StringFlag)] args (λ flags, in_workspace flags (λ workspace,
  or_fatal (on_store (reads (ListPendingDevices workspace))) (λ devices,
  Ret (done_with ((λ v, [Text "device_ref" (pds_Reference v); Text "type" (bs (pds_DeviceType v));
    Quoted "name" (pds_DeviceName v)]) <$> devices))))).

Definition approveDevice (databasePath : bytes) (args : list bytes) : invocation :=
  with_flags [("workspace", StringFlag); ("device-ref", StringFlag)] args (λ flags,
  in_workspace flags (λ workspace,
  or_fatal (management databasePath (λ s, svc_ApproveDevice s workspace (text flags "device-ref") (dr_now d)))
    (λ approved,
  Ret (done_with [[Text "device_ref" (am_DeviceReference approved); Text "result" (bs "approved");
                   Number "roster_epoch" (am_RosterEpoch approved)]])))).

Definition revokeDevice (databasePath : bytes) (args : list bytes) : invocation :=
  with_flags [("workspace", StringFlag); ("device-ref", StringFlag)] args (λ flags,
  in_workspace flags (λ workspace,
  let reference := text flags "device-ref" in
  or_fatal (management databasePath (λ s, svc_ChangeDeviceAccess s workspace reference RevokeCurrent (dr_now d)))
    (λ revoked,
  let result := Text "result" (if rvk_Changed revoked then bs "revoked" else bs "already-revoked") in
  if rvk_RosterEpoch revoked >? 0
  then Ret (done_with [[Text "device_ref" reference; result; Number "roster_epoch" (rvk_RosterEpoch revoked)]])
  else Ret (done_with [[Text "device_ref" reference; result]])))).

Definition renameDevice (databasePath : bytes) (args : list bytes) : invocation :=
  with_flags [("workspace", StringFlag); ("device-ref", StringFlag); ("name", StringFlag)] args (λ flags,
  in_workspace flags (λ workspace,
  or_fatal (management databasePath (λ s, svc_RenameDevice s workspace (text flags "device-ref")
      (text flags "name") (dr_now d))) (λ renamed,
  Ret (done_with [[Text "device_ref" (rnd_DeviceReference renamed); Text "result" (bs "renamed");
                   Number "roster_epoch" (rnd_RosterEpoch renamed)]])))).

Definition issueRotationCode (args : list bytes) : invocation :=
  with_flags [("workspace", StringFlag); ("device-ref", StringFlag); ("ttl", DurationFlag)] args (λ flags,
  in_workspace flags (λ workspace,
  let ttl := duration flags "ttl" (10 * Minute) in
  let reference := text flags "device-ref" in
  or_fatal (on_store (transact (IssueCredentialRotationCode workspace reference (dr_now d) ttl (dr_secret d))))
    (λ code,
  Ret (done_with [[Text "rotation_code" code]; [Text "device_ref" reference]; [Lasting "expires_in" ttl]])))).

(** [main], on an opened registry; [args] are the arguments after the program
    name. *)
Definition admin_main (args : list bytes) : invocation :=
  match args with
  | [] => Ret usage
  | name :: rest =>
      let named n := beq name (bs n) in
      if named "verify-workspace-backup" then verifyWorkspaceBackup rest
      else if named "restore-workspace-backup" then restoreWorkspaceBackup rest
      else
        let databasePath := if beq (env "NM_DATABASE_PATH") [] then bs "data/syncnotifications.db"
                            else env "NM_DATABASE_PATH" in
        or_fatal (if beq (env "NM_BACKUP_DIR") [] then Ret (Ok tt) else on_files (Ensure (env "NM_BACKUP_DIR")))
          (λ _,
        if named "init-workspace" then
          match rest with [] => initializeWorkspace databasePath | _ => Ret usage end
        else if named "backup-workspace" then backupWorkspace databasePath rest
        else if named "prepare-authority-rotation" then prepareAuthorityRotation databasePath rest
        else if named "rotate-authority" then rotateAuthority databasePath rest
        else if named "issue-pairing-code" then issuePairingCode databasePath rest
        else if named "list-workspaces" then listWorkspaces
        else if named "list-devices" then listDevices rest
        else if named "list-pending-devices" then listPendingDevices rest
        else if named "approve-device" then approveDevice databasePath rest
        else if named "revoke-device" then revokeDevice databasePath rest
        else if named "rename-device" then renameDevice databasePath rest
        else if named "issue-rotation-code" then issueRotationCode rest
        else Ret usage)
  end.
End Commands.
