(* ===== verification/StoreFile.v ===== *)
(** [admission.Open] of internal/admission/store.go up to the database driver: the
    protected directory and file of the registry. What the driver then does with
    the file is in [Migrations]. *)

From S2P Require Import Prelude GoStd GoNet GoCrypto GoPath FileSystem AdminCommand.

#[local] Open Scope string_scope.
#[local] Open Scope Z_scope.

Section Bootstrap.
Context `{Process}.

(** [os.OpenFile] with [O_CREATE|O_RDWR]: where the opened file is. *)
Definition OpenOrCreate (p : path) (perm : Z) : io path := call (λ fs,
  match follow max_links fs p with
  | Some q => match lookup_node fs q with
              | Some (Dir _) => (Err (New "is a directory"), fs)
              | Some _ => (Ok q, fs)
              | None => if is_dir fs (parent q) then (Ok q, <[q := File (unmasked perm) []]> fs)
                        else (Err ErrNotExist, fs)
              end
  | None => (Err (New "too many levels of symbolic links"), fs)
  end).

(** The function until it hands the path to the driver. *)
Definition open_file (p : bytes) : io path :=
  (if beq (TrimSpace p) [] then io_err (New "database path is required") else
   do! _ := Ensure (filepath_Dir p) in
   do! file := io_wrapf "create admission database" (OpenOrCreate (abs p) owner_only) in
   do! _ := io_wrapf "protect admission database" (FChmod file owner_only) in
   do! _ := io_wrapf "close admission database bootstrap file" Close in
   io_ret file)%io.

(** ** What it leaves *)

Lemma wp_Ensure o p Q E (fs : files) :
  (∀ e fs', contents fs' = contents fs → E e fs') →
  (∀ fs', contents fs' = contents fs → fs' !! abs p = Some (Dir owner_dir) → Q tt fs') →
  wp o (Ensure p) Q E fs.
Proof.
  intros HE HQ. unfold Ensure. destruct (_ || _); [by apply wp_err, HE|].
  apply wp_bind, wp_wrapf, wp_MkdirAll.
  { intros e fs' Hm _. apply HE. eauto with fs. }
  intros fs' d Hm Ho. apply contents_made in Hm.
  apply wp_bind, wp_wrapf, wp_reading; [by intros _; apply HE|]. unfold Lstat.
  destruct (lookup_node fs' (abs p)) as [n|] eqn:Hl; [|by apply HE].
  destruct (is_link n || negb (is_directory n)) eqn:Hd; [by apply wp_err, HE|].
  destruct n as [d'| | |]; try done.
  apply wp_wrapf, (wp_Chmod _ _ _ (Dir d')); [by intros _; apply HE|by apply Open_node|].
  intros q Hq Hp. rewrite (Hp Hl) in *. apply HQ; [|apply lookup_insert_eq].
  by rewrite contents_Chmod.
Qed.

(** Every file keeps its data; modes may change, and files may be added. *)
Definition keeps (fs fs' : files) : Prop :=
  ∀ q pm d, fs !! q = Some (File pm d) → ∃ pm', fs' !! q = Some (File pm' d).

Lemma keeps_contents (fs fs' : files) : contents fs' = contents fs → keeps fs fs'.
Proof.
  intros Hc q pm d Hq. exists pm. assert (contents fs' !! q = Some (File pm d)) as Hx.
  { rewrite Hc. by apply contents_lookup. }
  by apply contents_lookup in Hx as [? _].
Qed.

Lemma keeps_new (fs fs' : files) q n : keeps fs fs' → lookup_node fs' q = None → keeps fs (<[q := n]> fs').
Proof.
  intros Hk Hn r pm d Hr. destruct (Hk r pm d Hr) as [pm' Hr']. exists pm'.
  rewrite lookup_insert_ne; [done|]. intros ->. by rewrite (lookup_node_Some _ _ _ Hr') in Hn.
Qed.

Lemma keeps_mode (fs fs' : files) q perm n :
  keeps fs fs' → fs' !! q = Some n → keeps fs (<[q := set_perm perm n]> fs').
Proof.
  intros Hk Hn r pm d Hr. destruct (Hk r pm d Hr) as [pm' Hr']. destruct (decide (r = q)) as [->|Hne].
  - rewrite lookup_insert_eq. simplify_eq. by eexists.
  - rewrite lookup_insert_ne by done. by eexists.
Qed.

Lemma follow_insert k (fs : files) p q n :
  follow k fs p = Some q → is_link n = false → follow k (<[q := n]> fs) p = Some q.
Proof.
  intros Hf Hn. revert p Hf. induction k as [|k IH]; intros p Hf; cbn [follow] in *;
    (destruct (decide (p = q)) as [->|Hne]; [rewrite lookup_insert_eq; by destruct n|
     rewrite lookup_insert_ne by done; destruct (fs !! p) as [[]|]; naive_solver]).
Qed.

(** What is opened: a file that exists, or a new one. *)
Lemma wp_OpenOrCreate o p perm Q E (fs : files) :
  (∀ e, E e fs) →
  (∀ q fs' n, follow max_links fs' p = Some q → fs' !! q = Some n → is_directory n = false → is_link n = false →
     fs' = fs ∨ (lookup_node fs q = None ∧ fs' = <[q := n]> fs) → Q q fs') →
  wp o (OpenOrCreate p perm) Q E fs.
Proof.
  intros HE HQ. apply wp_call; [by intros _|]. destruct (follow max_links fs p) as [q|] eqn:Hf; [|done].
  destruct (lookup_node fs q) as [n|] eqn:Hl.
  - assert (is_directory n = false → Q q fs) as Hq.
    { intros Hd. apply (HQ q fs n); [done| |done| |by left].
      - unfold lookup_node in Hl. destruct (fs !! q); [done|]. destruct (bool_decide _); [|done]. by simplify_eq/=.
      - destruct n; try done. by apply follow_not_link with (t := target) in Hf. }
    destruct n; auto.
  - destruct (is_dir fs (parent q)); [|done].
    apply (HQ q _ (File (unmasked perm) [])); [by apply follow_insert|apply lookup_insert_eq|done|done|by right].
Qed.

(** The registry is private before anything is written to it. Whichever calls fail,
    opening it loses no data of any file and removes nothing; and when it succeeds
    the directory of the registry is a directory of mode 700 and the registry, what
    the path names behind its links, is not a directory and has mode 600. *)
Theorem registry_file_private o t p (fs : files) :
  let '(r, (_, fs')) := open_file p o (t, fs) in
  keeps fs fs' ∧
  match r with
  | Ok file => (TrimSpace p ≠ []) ∧ follow max_links fs' (abs p) = Some file ∧
      fs' !! abs (filepath_Dir p) = Some (Dir owner_dir) ∧
      ∃ n, fs' !! file = Some n ∧ is_directory n = false ∧ perm_of n = owner_only
  | Err _ => True
  end.
Proof.
  enough (wp o (open_file p) (λ file fs', keeps fs fs' ∧ (TrimSpace p ≠ [] ∧ follow max_links fs' (abs p) = Some file ∧
      fs' !! abs (filepath_Dir p) = Some (Dir owner_dir) ∧
      ∃ n, fs' !! file = Some n ∧ is_directory n = false ∧ perm_of n = owner_only)) (λ _, keeps fs) fs) as Hw.
  { specialize (Hw t). by destruct (open_file p o (t, fs)) as [[file|e] [t' fs']]. }
  unfold open_file. destruct (beq (TrimSpace p) []) eqn:Ht; [by apply wp_err, keeps_contents|].
  apply beq_false in Ht. apply wp_bind, wp_Ensure; [intros; by apply keeps_contents|]. intros fs1 Hc Hdir.
  apply keeps_contents in Hc. apply wp_bind, wp_wrapf, wp_OpenOrCreate; [done|].
  intros q fs2 n Hf Hn Hd Hl Hnew.
  assert (keeps fs fs2 ∧ fs2 !! abs (filepath_Dir p) = Some (Dir owner_dir)) as [Hk Hdir2].
  { destruct Hnew as [->|[Hno ->]]; [done|]. split; [by apply keeps_new|].
    rewrite lookup_insert_ne; [done|]. intros ->. by rewrite (lookup_node_Some _ _ _ Hdir) in Hno. }
  assert (q ≠ abs (filepath_Dir p)) as Hq by (intros ->; congruence || (rewrite Hdir2 in Hn; by simplify_eq)).
  apply wp_bind, wp_wrapf, (wp_FChmod _ _ _ n); [done|done|].
  pose proof (keeps_mode _ _ q owner_only n Hk Hn) as Hk'.
  apply wp_bind, wp_wrapf, wp_Close; [done|]. apply wp_ret. split; [done|]. split; [done|].
  split; [apply follow_insert; [done|by destruct n]|]. rewrite lookup_insert_ne, lookup_insert_eq by done.
  split; [done|]. eexists. split; [done|]. by destruct n.
Qed.
End Bootstrap.
