(* ===== verification/Readiness.v ===== *)
(** internal/readiness and cmd/server/healthcheck.go: the probe that a container
    runs against its own server. Certificates are the class [X509]; what the
    listener answers is an argument. *)

From S2P Require Import Prelude GoStd GoNet GoCrypto GoUrl GoPath Config FileSystem WorkspaceBackup.

#[local] Open Scope string_scope.
#[local] Open Scope Z_scope.

(** crypto/x509: the certificates in a PEM file, none when there are none; a
    certificate from its encoding; verification of a chain at the current time
    without a name. *)
Class X509 : Type := {
  certificate : Type;
  AppendCertsFromPEM : bytes → list certificate;
  ParseCertificate : bytes → result certificate;
  x509_Verify : list certificate → list certificate → certificate → result unit
}.

(** One exchange with the listener: whether it accepts a connection, the
    certificates it presents if it speaks TLS, its answer if there is one (the
    status, and whether it names a location). *)
Record exchange : Type := mkExchange {
  ex_dial : result unit;
  ex_chain : option (list bytes);
  ex_answer : result (Z * bool)
}.

Section Probe.
Context `{Process, X509}.

Record Options : Type := mkOptions { op_Address : bytes; op_CertificateFile : bytes }.

Fixpoint parse_all (raw : list bytes) : result (list certificate) :=
  match raw with
  | [] => Ok []
  | r :: raw => let? c := wrapf "parse readiness probe intermediate certificate" (ParseCertificate r) in
                let? cs := parse_all raw in Ok (c :: cs)
  end.

(** The verifier [pinnedCertificateVerifier] returns. *)
Definition verify_pinned (roots : list certificate) (rawCerts : list bytes) : result unit :=
  match rawCerts with
  | [] => Err (New "readiness probe peer presented no certificate")
  | first :: rest =>
      let? leaf := wrapf "parse readiness probe peer certificate" (ParseCertificate first) in
      let? intermediates := parse_all rest in
      wrapf "configured certificate does not verify" (x509_Verify roots intermediates leaf)
  end.

Definition pinnedCertificateVerifier (certificateFile : bytes) : io (list bytes → result unit) :=
  (do! encoded := io_wrapf "read configured certificate" (reading (read_file certificateFile)) in
   match AppendCertsFromPEM encoded with
   | [] => io_err (New "configured certificate contains no PEM certificate")
   | roots => io_ret (verify_pinned roots)
   end)%io.

(** [redirectBehavior] and [CheckRedirect]: a redirection that names a location is
    an error here. *)
Definition redirects (status : Z) (location : bool) : bool :=
  existsb (Z.eqb status) [301; 302; 303; 307; 308] && location.

(** [client.Do] *)
Definition client_Do (verify : option (list bytes → result unit)) (x : exchange) : result Z :=
  let? _ := ex_dial x in
  let? _ := match verify with
            | None => Ok tt
            | Some verify => match ex_chain x with
                             | None => Err (New "tls: first record does not look like a TLS handshake")
                             | Some chain => verify chain
                             end
            end in
  let? '(status, location) := ex_answer x in
  fail_if redirects status location with_msg "readiness probe must not be redirected" in
  Ok status.

Definition Probe (options : Options) (listener : URL → exchange) : io unit :=
  (if beq (op_Address options) [] then io_err (New "probe address is required") else
   do! verify := (if beq (op_CertificateFile options) [] then io_ret None
                  else do! v := pinnedCertificateVerifier (op_CertificateFile options) in io_ret (Some v)) in
   let scheme := match verify with Some _ => bs "https" | None => bs "http" end in
   match url_Parse (scheme ++ bs "://" ++ op_Address options ++ bs "/readyz") with
   | None => io_err (New "parse")
   | Some url =>
       do! status := io_result (client_Do verify (listener url)) in
       if negb (status =? 200) then io_err (New "readiness probe returned") else io_ret tt
   end)%io.

(** The exit code and the line it prints. *)
Definition healthcheckMain (env : environment) (listener : URL → exchange) : io (Z * option string) :=
  match Load env with
  | Err _ => io_ret (1, None)
  | Ok cfg => (do! r := io_try (Probe (mkOptions (Address cfg) (TLSCertFile cfg)) listener) in
               io_ret (match r with Ok _ => (0, Some "result=ready") | Err _ => (1, None) end))%io
  end.

(** ** What a healthy report means *)

(** A chain whose leaf verifies against the certificates of a file. *)
Definition pinned_to (encoded : bytes) (chain : list bytes) : Prop :=
  ∃ first rest leaf intermediates, chain = first :: rest ∧ AppendCertsFromPEM encoded ≠ [] ∧
    ParseCertificate first = Ok leaf ∧ Forall2 (λ raw c, ParseCertificate raw = Ok c) rest intermediates ∧
    x509_Verify (AppendCertsFromPEM encoded) intermediates leaf = Ok tt.

Lemma parse_all_Ok raw cs : parse_all raw = Ok cs ↔ Forall2 (λ r c, ParseCertificate r = Ok c) raw cs.
Proof.
  revert cs. induction raw as [|r raw IH]; intros cs; cbn [parse_all].
  - split; [intros [= <-]; constructor|by inversion 1].
  - split.
    + intros Hp. go_inv. subst cs. constructor; [by eapply wrapf_Ok|by apply IH].
    + intros Hf. apply Forall2_cons_inv_l in Hf as (c & cs' & Hc & Hcs & ->).
      rewrite (proj2 (wrapf_Ok _ _ _) Hc). cbn [rbind]. by rewrite (proj2 (IH _) Hcs).
Qed.

Lemma verify_pinned_Ok encoded chain :
  AppendCertsFromPEM encoded ≠ [] →
  verify_pinned (AppendCertsFromPEM encoded) chain = Ok tt ↔ pinned_to encoded chain.
Proof.
  intros Hne. destruct chain as [|first rest]; cbn [verify_pinned].
  { split; [done|]. by intros (? & ? & ? & ? & [=] & _). }
  split.
  - intros Hv. go_inv. apply wrapf_Ok in Hr, Hv. apply parse_all_Ok in Hr0. by exists first, rest, v, v0.
  - intros (f & r & leaf & others & [= <- <-] & _ & Hl & Hi & Hv).
    rewrite (proj2 (wrapf_Ok _ _ _) Hl). cbn [rbind]. rewrite (proj2 (parse_all_Ok _ _) Hi). cbn [rbind].
    by apply wrapf_Ok.
Qed.

(** A connection is accepted and answered with 200; over TLS, by a pinned peer. *)
Definition answers (pinned : option bytes) (x : exchange) : Prop :=
  ex_dial x = Ok tt ∧ (∃ location, ex_answer x = Ok (200, location)) ∧
  match pinned with
  | None => True
  | Some encoded => ∃ chain, ex_chain x = Some chain ∧ pinned_to encoded chain
  end.

Lemma client_Do_Ok pinned x :
  (∀ encoded, pinned = Some encoded → AppendCertsFromPEM encoded ≠ []) →
  client_Do (verify_pinned ∘ AppendCertsFromPEM <$> pinned) x = Ok 200 ↔ answers pinned x.
Proof.
  intros Hp. unfold client_Do, answers. split.
  - intros Hc. go_inv. destruct v as [], v0 as [], v1 as [status location]. go_inv. subst status.
    split; [done|]. split; [by eexists|]. destruct pinned as [encoded|]; [|done]. cbn in *.
    destruct (ex_chain x) as [chain|]; [|done]. exists chain. split; [done|]. apply verify_pinned_Ok; auto.
  - intros (-> & [location Ha] & Hc). cbn [rbind].
    replace (match _ with None => Ok tt | Some verify => _ end) with (Ok (A := unit) tt).
    + cbn [rbind]. rewrite Ha. by destruct location.
    + destruct pinned as [encoded|]; [|done]. cbn. destruct Hc as (chain & -> & Hpin). symmetry.
      apply verify_pinned_Ok; auto.
Qed.
(** What the probe needs of the files and of the listener. *)
Definition ready_at (cfg : Config) (listener : URL → exchange) (fs : files) : Prop :=
  Address cfg ≠ [] ∧
  ∃ pinned url,
    (if beq (TLSCertFile cfg) [] then pinned = None
     else ∃ encoded, pinned = Some encoded ∧ read_file (TLSCertFile cfg) fs = Ok encoded ∧
                     AppendCertsFromPEM encoded ≠ []) ∧
    url_Parse ((match pinned with Some _ => bs "https" | None => bs "http" end) ++ bs "://" ++
               Address cfg ++ bs "/readyz") = Some url ∧
    answers pinned (listener url).

(** What the configured file pins. *)
Lemma wp_verifier o file Q E (fs : files) :
  (∀ e, faulty o ∨ (∀ encoded, read_file file fs = Ok encoded → AppendCertsFromPEM encoded = []) → E e fs) →
  (∀ encoded, read_file file fs = Ok encoded → AppendCertsFromPEM encoded ≠ [] →
     Q (verify_pinned (AppendCertsFromPEM encoded)) fs) →
  wp o (pinnedCertificateVerifier file) Q E fs.
Proof.
  intros HE HQ. apply wp_bind, wp_wrapf, wp_reading; [intros; apply HE; by left|].
  destruct (read_file file fs) as [encoded|e]; [|apply HE; right; done].
  destruct (AppendCertsFromPEM encoded) as [|c cs] eqn:Ha.
  - apply wp_err, HE. right. by intros ? [= <-].
  - apply wp_ret. rewrite <-Ha. apply HQ; [done|]. by rewrite Ha.
Qed.

(** The exchange, once it is known what is pinned. *)
Lemma wp_exchange o cfg listener pinned (fs : files) :
  Address cfg ≠ [] →
  (if beq (TLSCertFile cfg) [] then pinned = None
   else ∃ encoded, pinned = Some encoded ∧ read_file (TLSCertFile cfg) fs = Ok encoded ∧
                   AppendCertsFromPEM encoded ≠ []) →
  wp o (let verify := verify_pinned ∘ AppendCertsFromPEM <$> pinned in
        let scheme := match verify with Some _ => bs "https" | None => bs "http" end in
        match url_Parse (scheme ++ bs "://" ++ Address cfg ++ bs "/readyz") with
        | None => io_err (New "parse")
        | Some url =>
            do! status := io_result (client_Do verify (listener url)) in
            if negb (status =? 200) then io_err (New "readiness probe returned") else io_ret tt
        end)%io
    (λ _ fs', fs' = fs ∧ ready_at cfg listener fs)
    (λ _ fs', fs' = fs ∧ (faulty o ∨ ¬ ready_at cfg listener fs)) fs.
Proof.
  intros Hadd Hpin. cbv zeta.
  assert (∀ pinned', (if beq (TLSCertFile cfg) [] then pinned' = None
    else ∃ encoded, pinned' = Some encoded ∧ read_file (TLSCertFile cfg) fs = Ok encoded ∧
                    AppendCertsFromPEM encoded ≠ []) → pinned' = pinned) as Hsame.
  { intros pinned' Hp. destruct (beq _ _); [congruence|].
    destruct Hp as (e1 & -> & H1 & _), Hpin as (e2 & -> & H2 & _). congruence. }
  assert (∀ encoded, pinned = Some encoded → AppendCertsFromPEM encoded ≠ []) as Hne.
  { intros encoded ->. destruct (beq _ _); [done|]. by destruct Hpin as (? & [= <-] & _ & ?). }
  assert (match verify_pinned ∘ AppendCertsFromPEM <$> pinned with Some _ => bs "https" | None => bs "http" end =
    match pinned with Some _ => bs "https" | None => bs "http" end) as -> by (by destruct pinned).
  destruct (url_Parse _) as [url|] eqn:Hu.
  - apply wp_bind, wp_result. destruct (client_Do _ _) as [status|e] eqn:Hc.
    + destruct (Z.eqb_spec status 200) as [->|Hs]; cbn [negb].
      * apply wp_ret. split; [done|]. split; [done|]. exists pinned, url. split_and!; [done|done|].
        by apply client_Do_Ok.
      * apply wp_err. split; [done|right]. intros (_ & p' & u & Hp & Hu' & Ha).
        apply Hsame in Hp as ->. rewrite Hu in Hu'. injection Hu' as <-.
        apply (client_Do_Ok _ _ Hne) in Ha. congruence.
    + split; [done|right]. intros (_ & p' & u & Hp & Hu' & Ha). apply Hsame in Hp as ->.
      rewrite Hu in Hu'. injection Hu' as <-. apply (client_Do_Ok _ _ Hne) in Ha. congruence.
  - apply wp_err. split; [done|right]. intros (_ & p' & u & Hp & Hu' & _). apply Hsame in Hp as ->. congruence.
Qed.

Lemma wp_Probe o cfg listener (fs : files) :
  wp o (Probe (mkOptions (Address cfg) (TLSCertFile cfg)) listener)
    (λ _ fs', fs' = fs ∧ ready_at cfg listener fs)
    (λ _ fs', fs' = fs ∧ (faulty o ∨ ¬ ready_at cfg listener fs)) fs.
Proof.
  unfold Probe. cbn [op_Address op_CertificateFile]. destruct (beq (Address cfg) []) eqn:Ha.
  { apply beq_true in Ha. apply wp_err. split; [done|right]. by intros [? _]. }
  apply beq_false in Ha. apply wp_bind. destruct (beq (TLSCertFile cfg) []) eqn:Hf.
  - apply wp_ret, (wp_exchange _ _ _ None); [done|]. by rewrite Hf.
  - apply wp_bind, wp_verifier.
    + intros e [He|He]; (split; [done|]); [by left|right]. intros (_ & p' & u & Hp & _). rewrite Hf in Hp.
      destruct Hp as (encoded & _ & Hr & Hne). by apply Hne, He.
    + intros encoded Hr Hne. apply wp_ret, (wp_exchange _ _ _ (Some encoded)); [done|]. rewrite Hf. by exists encoded.
Qed.

(** A healthy report can be trusted, and a working server gets one. Whatever fails,
    the probe reports readiness only when the configured address answered 200
    without a redirection, over TLS from a peer whose chain verifies against the
    configured certificates; it changes no file; and where no system call fails it
    then does report it. *)
Theorem healthcheck_exact env listener o t (fs : files) :
  let '(r, (_, fs')) := healthcheckMain env listener o (t, fs) in
  fs' = fs ∧
  (r = Ok (0, Some "result=ready") → ∃ cfg, Load env = Ok cfg ∧ ready_at cfg listener fs) ∧
  (healthy o → (∃ cfg, Load env = Ok cfg ∧ ready_at cfg listener fs) → r = Ok (0, Some "result=ready")).
Proof.
  unfold healthcheckMain. destruct (Load env) as [cfg|e].
  2: { split; [done|]. split; [done|]. by intros _ (? & ? & _). }
  unfold io_bind, io_try. pose proof (wp_Probe o cfg listener fs t) as Hw.
  destruct (Probe _ _ o (t, fs)) as [[[]|e] [t' fs']]; cbn; destruct Hw as [-> Hw].
  - split; [done|]. split; [|done]. intros _. by exists cfg.
  - split; [done|]. split; [done|]. intros Hh (cfg' & [= <-] & Hr). by destruct Hw as [?%(healthy_faulty o Hh)|?].
Qed.
End Probe.
