(* ===== verification/CommandProofs.v ===== *)
(** The administration command line: what it may do to the registry, and that a
    deployment is initialized once. *)

From S2P Require Import Prelude GoStd GoNet GoCrypto GoPath DeliveryStore MembershipCodec WireModel Schema Admission.
From S2P Require Import MembershipStore StoreSteps StoreExamples Config Interleave FileSystem AuthorityKey.
From S2P Require Import AuthorityBackup WorkspaceBackup AdminService AdminCommand.

#[local] Open Scope string_scope.
#[local] Open Scope Z_scope.
#[local] Open Scope prog_scope.

(** ** The registry *)

Create HintDb command.

Section Registry.
Context `{Wire, Ed25519, Process, PKCS8, SqliteFile, Durations} (o : oracle) (env : environment) (d : draws).

(** An action leaves the registry alone or performs one operation of the store. *)
Definition stores (db db' : DB) : Prop := db' = db ∨ ∃ op, exec op db = Ok db'.

#[export] Instance stores_reflexive : Reflexive stores.
Proof. intros db. by left. Qed.

Section Steps.
Context (R : DB → DB → Prop) `{!Reflexive R}.

(** On the registry, by [R]; on the files, anything. *)
Definition registry_by (h h' : host) : Prop := R h.1 h'.1.

#[export] Instance registry_by_reflexive : Reflexive registry_by.
Proof. intros h. unfold registry_by. reflexivity. Qed.

Lemma on_store_obeys {A : Type} (p : prog DB A) :
  obeys always R always p → obeys always registry_by always (on_store p).
Proof. intros Hp. by apply (obeys_lift _ _ _ _ always R). Qed.

Lemma on_files_obeys {A : Type} (m : io A) : obeys always registry_by always (on_files o m).
Proof.
  apply obeys_act. intros h _. destruct (m o h.2) as [r s]. split; [done|]. split; [|done].
  unfold registry_by. cbn. reflexivity.
Qed.

Lemma or_fatal_obeys {A : Type} (p : prog host (result A)) next :
  obeys always registry_by always p → (∀ a, obeys always registry_by always (next a)) →
  obeys always registry_by always (or_fatal p next).
Proof. intros Hp Hn. eapply (obeys_bind _ _ _ _ always); [exact Hp|]. by intros [a|e] _. Qed.

Lemma with_flags_obeys spec args next :
  (∀ flags, obeys always registry_by always (next flags)) →
  obeys always registry_by always (with_flags spec args next).
Proof. intros Hn. unfold with_flags. destruct (flags_Parse spec ∅ args) as [set []| |]; try done. Qed.

Lemma in_workspace_obeys flags next :
  (∀ w, obeys always registry_by always (next w)) → obeys always registry_by always (in_workspace flags next).
Proof. intros Hn. unfold in_workspace. by destruct (parseWorkspaceID _). Qed.

Lemma host_reads_obeys {A : Type} (f : host → A) : obeys always registry_by always (reads f).
Proof. by apply obeys_reads; [apply _|]. Qed.

Lemma store_reads_obeys {A : Type} (f : DB → A) : obeys always registry_by always (on_store (reads f)).
Proof. apply on_store_obeys. by apply obeys_reads. Qed.

Lemma management_command_obeys path {A : Type} (f : Service → prog DB A) :
  (∀ s, obeys always R always (f s)) → obeys always registry_by always (management env path f).
Proof.
  intros Hf. eapply (obeys_bind _ _ _ _ always); [apply host_reads_obeys|]. intros fs _. by apply on_store_obeys.
Qed.
End Steps.

Lemma transact_stores {A : Type} (f : DB → result (A * DB)) op :
  (∀ db, exec op db = second (f db)) → obeys always stores always (transact f).
Proof.
  intros He. apply obeys_act. intros db _. split; [done|]. split; [|done].
  destruct (f db) as [[a db']|e] eqn:Hf; [|by left]. right. exists op. by rewrite He, Hf.
Qed.

Lemma manages_stores {A : Type} w (p : prog DB A) Q :
  obeys always (manages w) Q p → obeys always stores Q p.
Proof.
  induction p as [a|f k IH]; cbn [obeys]; [done|]. intros Hp db Hdb. destruct (Hp db Hdb) as (Hi & Hg & Hk).
  split; [done|]. split; [|by apply IH]. destruct Hg as [->|(op & _ & Hop)]; [by left|right; eauto].
Qed.

(** Walk through a command. *)
Ltac command_obeys :=
  repeat first
    [ progress cbv zeta
    | progress intros
    | apply with_flags_obeys
    | apply in_workspace_obeys
    | apply store_reads_obeys; apply _
    | apply on_files_obeys; apply _
    | apply host_reads_obeys; apply _
    | match goal with
      | |- obeys _ _ _ (or_fatal _ _) => apply or_fatal_obeys
      | |- obeys _ _ _ (pbind _ _) => eapply (obeys_bind _ _ _ _ always)
      | |- obeys _ _ _ (match ?x with _ => _ end) => destruct x
      | |- obeys _ _ _ (Ret _) => done
      end
    | solve [eauto 2 with command] ].

(** The commands that only look, or only write files. *)
Definition reading_commands : list string :=
  ["verify-workspace-backup"; "restore-workspace-backup"; "backup-workspace"; "prepare-authority-rotation";
   "list-workspaces"; "list-devices"; "list-pending-devices"].

Lemma service_stores :
  (∀ s w ref now, obeys always stores always (svc_ApproveDevice s w ref now)) ∧
  (∀ s w ref name now, obeys always stores always (svc_RenameDevice s w ref name now)) ∧
  (∀ s w ref action now, obeys always stores always (svc_ChangeDeviceAccess s w ref action now)) ∧
  (∀ w t n now ttl secret, obeys always stores always (svc_IssuePairingCode w t n now ttl secret)) ∧
  (∀ s w, obeys always stores always (svc_LoadAuthorityPrivateKey s w)).
Proof.
  split_and!; intros.
  - eapply manages_stores, (manager_approves (M := service_manager s)).
  - eapply manages_stores, (manager_renames (M := service_manager s)).
  - eapply manages_stores, (manager_revokes (M := service_manager s)).
  - eapply manages_stores, (manager_issues (M := service_manager (mkService [] ∅))).
  - eapply (manages_stores w), load_manages.
Qed.

Lemma admin_main_stores args : obeys always (registry_by stores) always (admin_main o env d args).
Proof.
  destruct service_stores as (Ha & Hn & Hr & Hp & Hl).
  assert (∀ k now id, obeys always stores always (transact (CreateWorkspace k now id))) as Hc
    by (intros; by apply (transact_stores _ (OCreateWorkspace k now id))).
  assert (∀ w k k' now, obeys always stores always (transact (RotateWorkspaceAuthority w k k' now))) as Hro
    by (intros; by apply (transact_stores _ (ORotateAuthority w k k' now))).
  assert (∀ w r now ttl secret, obeys always stores always (transact (IssueCredentialRotationCode w r now ttl secret)))
    as Hi by (intros; by apply (transact_stores _ (OIssueRotationCode w r now ttl secret))).
  unfold admin_main, verifyWorkspaceBackup, restoreWorkspaceBackup, initializeWorkspace, backupWorkspace,
    prepareAuthorityRotation, rotateAuthority, issuePairingCode, listWorkspaces, listDevices, listPendingDevices,
    approveDevice, revokeDevice, renameDevice, issueRotationCode.
  command_obeys; first [apply on_store_obeys; auto | apply management_command_obeys; [apply _|auto]].
Qed.

Lemma reading_command_obeys name rest :
  name ∈ reading_commands → obeys always (registry_by eq) always (admin_main o env d (bs name :: rest)).
Proof.
  intros Hn. unfold reading_commands in Hn. rewrite !elem_of_cons, elem_of_nil in Hn.
  destruct Hn as [->|[->|[->|[->|[->|[->|[->|[]]]]]]]];
    unfold admin_main; cbv zeta;
    repeat match goal with |- context [beq (bs ?a) (bs ?b)] =>
      let r := eval vm_compute in (beq (bs a) (bs b)) in change (beq (bs a) (bs b)) with r; cbv iota end;
    unfold verifyWorkspaceBackup, restoreWorkspaceBackup, backupWorkspace, prepareAuthorityRotation,
      listWorkspaces, listDevices, listPendingDevices; command_obeys.
Qed.

End Registry.

(** ** Initialization *)

Section Initialization.
Context `{Wire, Ed25519, Process, PKCS8, SqliteFile, Durations} `{!PKCS8Laws} (env : environment).

Lemma wp_Generate_none o directory (fs : files) :
  wp o (GenerateAuthority directory None) (λ _ _, False) (λ _ fs', contents fs' = contents fs) fs.
Proof.
  unfold GenerateAuthority. destruct (beq directory []); [by apply wp_err|].
  apply wp_bind, wp_wrapf, wp_MkdirAll; [intros e fs' Hm _; by eapply contents_made|]. intros fs1 x Hm Ho.
  apply contents_made in Hm as Hc. apply wp_bind, wp_wrapf, (wp_Chmod _ _ _ (Dir x)); [done|done|].
  intros q Hq _. apply wp_bind, wp_result. cbn [required set_perm]. by rewrite (contents_directory _ _ _ _ Hq).
Qed.

Lemma no_workspaces db : ListWorkspaces db = Ok [] → workspaces db = ∅.
Proof.
  unfold ListWorkspaces. intros Hl. apply fail_if_Ok in Hl as [_ Hl]. apply Ok_inj, fmap_nil_inv in Hl.
  apply map_to_list_empty_iff. apply Permutation_nil_r. rewrite <-Hl. symmetry. apply merge_sort_Permutation.
Qed.

Lemma one_workspace db id row :
  workspaces db = {[ id := row ]} → blen id = 16 →
  ListWorkspaces db = Ok [(id, ws_created_at_ms row * Millisecond)].
Proof.
  intros Hw Hid. unfold ListWorkspaces. rewrite Hw, map_to_list_singleton.
  assert (merge_sort ws_le [(id, row)] = [(id, row)]) as ->.
  { apply Permutation_singleton_r. apply merge_sort_Permutation. }
  rewrite guard_pass; [done|]. cbn. by rewrite Hid.
Qed.

Definition already (id : bytes) : outcome :=
  done_with [[id_field "workspace_id" id]; [Text "result" (bs "already-initialized")]].

Lemma init_existing o d path db s id created rest :
  ListWorkspaces db = Ok ((id, created) :: rest) →
  run_prog (initializeWorkspace o env d path) (db, s) = ((db, s), already id).
Proof.
  intros Hl. unfold initializeWorkspace, or_fatal, on_store, reads. cbn [lift pbind run_prog fst snd Datatypes.id].
  by rewrite Hl.
Qed.

Lemma created_workspace pk now id db w db' :
  workspaces db = ∅ → CreateWorkspace pk now id db = Ok (w, db') →
  w = id ∧ ∃ row, workspaces db' = {[ id := row ]} ∧ authority_public_key row = Some pk ∧ blen id = 16.
Proof.
  intros Hnone Hcr. unfold CreateWorkspace in Hcr. apply fail_if_Ok in Hcr as [_ Hcr].
  apply fail_if_Ok in Hcr as [Hg Hcr]. apply orb_false_iff in Hg as [Hg _].
  apply orb_false_iff in Hg as [_ Hg%negb_false_iff%Z.eqb_eq]. apply Ok_inj in Hcr. injection Hcr as <- <-.
  split; [done|]. eexists. split; [cbn; by rewrite Hnone, insert_empty|done].
Qed.

(** The key of a workspace that was not made is removed. *)
Lemma removed_key o p e t (fs fs1 : files) :
  fs1 !! p = Some (File owner_only e) → contents fs !! p = None →
  contents fs1 = <[p := File owner_only e]> (contents fs) →
  let '(_, (_, fs2)) := Remove p o (t, fs1) in healthy o → contents fs2 = contents fs.
Proof.
  intros Hp Hn Hc.
  assert (wp o (Remove p) (λ _ fs', contents fs' = contents fs) (λ _ _, ¬ healthy o) fs1) as Hw.
  { apply (wp_Remove _ _ (File owner_only e)); [intros Hf Hh; by apply (healthy_faulty o Hh)|done|done|].
    unfold contents. rewrite map_filter_delete. fold (contents fs1). by rewrite Hc, delete_insert_id. }
  specialize (Hw t). by destruct (Remove p o (t, fs1)) as [[[]|er'] [t2 fs2]].
Qed.

(** C31: a deployment is initialized once. A run that ends well on an empty registry
    has made exactly one workspace, whose authority key is in its file and loads
    under the public key the registry holds; every later run, whatever it draws and
    whichever of its calls fail, reports the same workspace and changes nothing.
    A run that fails leaves the registry as it was and, without faults, the key
    files too: no key of a workspace that does not exist stays behind. *)
Theorem init_workspace_once o d path t db (fs : files) :
  (∀ k, dr_key d = Some k → blen k = PrivateKeySize) →
  let '((db', (t', fs')), out) := run_prog (initializeWorkspace o env d path) (db, (t, fs)) in
  (exit_code out = 0 ∧
   (∃ id, (∀ o2 d2, run_prog (initializeWorkspace o2 env d2 path) (db', (t', fs')) =
             ((db', (t', fs')), already id)) ∧
     head (printed out) = Some [id_field "workspace_id" id] ∧
     (workspaces db = ∅ → ∃ row pk k, workspaces db' = {[ id := row ]} ∧ authority_public_key row = Some pk ∧
        LoadAuthorityPrivateKey
          (AuthorityPrivateKeyPath (command_authorityKeyDirectory env path) (AuthorityKeyID pk)) pk fs' = Ok k)))
  ∨ (exit_code out = 1 ∧ db' = db ∧ (healthy o → contents fs' = contents fs)).
Proof.
  intros Hkey. destruct (ListWorkspaces db) as [[|[id created] rest]|e] eqn:Hl.
  - pose proof (no_workspaces db Hl) as Hnone.
    unfold initializeWorkspace, or_fatal, on_store, reads. cbn [lift pbind run_prog fst snd Datatypes.id].
    rewrite Hl. unfold on_files, act. cbn [pbind run_prog fst snd].
    set (dir := command_authorityKeyDirectory env path).
    destruct (dr_key d) as [k|] eqn:Hk.
    + pose proof (wp_GenerateAuthority o dir k fs t) as Hw. cbv zeta in Hw.
      destruct (GenerateAuthority dir (Some k) o (t, fs)) as [[g|e] [t1 fs1]]; cbn [fst snd].
      * destruct Hw as (-> & Hn & e & He & Hc). cbn [ga_PublicKey ga_Path ga_KeyID].
        set (pk := ed_Public k) in *. set (p := AuthorityPrivateKeyPath dir (AuthorityKeyID pk)) in *.
        assert (fs1 !! abs p = Some (File owner_only e)) as Hp
          by (apply (contents_lookup fs1); by rewrite Hc, lookup_insert_eq).
        unfold transact, act. cbn [lift pbind run_prog fst snd].
        destruct (CreateWorkspace pk (dr_now d) (dr_id d) db) as [[w db']|er] eqn:Hcr; cbn [fst snd run_prog].
        -- left. split; [done|]. destruct (created_workspace _ _ _ _ _ _ Hnone Hcr) as (-> & row & Hw' & Hr & Hid).
           exists (dr_id d). split_and!; [|done|].
           ++ intros o2 d2. eapply init_existing. by apply one_workspace.
           ++ intros _. exists row, pk, k. split_and!; [done..|]. unfold LoadAuthorityPrivateKey.
              rewrite (proj2 (loadAuthorityPrivateKeyFile_Ok p pk fs1 k e)); [done|].
              split_and!; [done|by eapply x509_marshal_size|by apply marshalled_parses; [apply Hkey|]|done].
        -- pose proof (removed_key o (abs p) e t1 _ _ Hp Hn Hc) as Hrm.
           destruct (Remove (abs p) o (t1, fs1)) as [r [t2 fs2]]. destruct r; by right.
      * right. cbn [run_prog]. split; [done|]. split; [done|]. intros Hh. destruct Hw as [[Hc|(Hf & _)] _]; [done|].
        by destruct (healthy_faulty o Hh).
    + pose proof (wp_Generate_none o dir fs t) as Hw. destruct (GenerateAuthority dir None o (t, fs)) as [[g|e] [t1 fs1]];
        [done|]. right. cbn. done.
  - rewrite (init_existing o d path db (t, fs) id created rest Hl). left. split; [done|]. exists id.
    split; [intros; by eapply init_existing|]. split; [done|]. intros Hw. unfold ListWorkspaces in Hl. rewrite Hw in Hl.
    by rewrite map_to_list_empty in Hl.
  - unfold initializeWorkspace, or_fatal, on_store, reads. cbn [lift pbind run_prog fst snd Datatypes.id]. rewrite Hl. by right.
Qed.
End Initialization.

(** *** Examples *)

#[local] Existing Instances pkcs8_model pkcs8_model_laws example_process.
#[local] Instance few_durations : Durations := {|
  ParseDuration v := if beq v (bs "10m") then Some (10 * Minute) else None |}.
#[local] Instance no_database : SqliteFile := {| sqlite_image _ := []; sqlite_open _ := None |}.

Definition quiet : oracle := mkOracle (λ _, false) (λ _, 0%nat) (λ _, []).
Definition no_settings : environment := λ _, [].
Definition draws_of (b : byte) : draws :=
  mkDraws (1700000000 * Second) (Some (repeat b 64)) (repeat b 16) (repeat b 32).
Definition registry_path : bytes := bs "data/registry.db".
Definition start (b : byte) : prog host outcome := initializeWorkspace quiet no_settings (draws_of b) registry_path.
Definition fresh_host : host := (empty_db, (0%nat, ∅)).

Example parse_flags :
  flags_Parse [("workspace", StringFlag); ("ttl", DurationFlag)] ∅ [bs "--workspace=abc"; bs "-ttl"; bs "10m"] =
    Parsed {[ "workspace" := bs "abc"; "ttl" := bs "10m" ]} [] ∧
  flags_Parse [("ttl", DurationFlag)] ∅ [bs "--ttl"; bs "soon"] = BadFlags ∧
  flags_Parse [("ttl", DurationFlag)] ∅ [bs "--"; bs "x"] = Parsed ∅ [bs "x"] ∧
  flags_Parse [] ∅ [bs "-h"] = Help.
Proof. vm_compute. repeat split; reflexivity. Qed.

Lemma init_workspace_once_witness :
  let '((db', _), out) := run_prog (start Byte.x01) fresh_host in
  exit_code out = 0 ∧ ∃ id, run_prog (start Byte.x02) (run_prog (start Byte.x01) fresh_host).1 =
    ((run_prog (start Byte.x01) fresh_host).1, already id).
Proof.
  pose proof (init_workspace_once no_settings quiet (draws_of Byte.x01) registry_path 0 empty_db ∅) as Ht.
  assert (exit_code (run_prog (start Byte.x01) fresh_host).2 = 0) as Hc by (vm_compute; reflexivity).
  change (initializeWorkspace quiet no_settings (draws_of Byte.x01) registry_path) with (start Byte.x01) in Ht.
  change (empty_db, (0%nat, ∅)) with fresh_host in Ht.
  specialize (Ht ltac:(by intros k [= <-])). destruct (run_prog (start Byte.x01) fresh_host) as [[db' [t' fs']] out].
  destruct Ht as [[_ (id & Hrun & _)]|[He _]]; [|cbn in Hc; rewrite He in Hc; discriminate Hc].
  split; [exact Hc|]. exists id. apply Hrun.
Defined.

(** Two runs at the same time. *)
Definition both : list (command host outcome) :=
  [Start (start Byte.x01); Start (start Byte.x02); Advance 0; Advance 1; Advance 0; Advance 0; Advance 1; Advance 1].

(** C33: one workspace is promised, but not to two runs at the same time: both find
    the registry empty, both end well, and the deployment has two workspaces. *)
Theorem init_race :
  ∃ w l, psteps (λ p, ∃ b, p = start b) (λ _ _, False) (fresh_host, []) (w, l) ∧
    size (workspaces w.1) = 2%nat ∧
    Forall (λ p, match p with Ret out => exit_code out = 0 | Atomic _ _ => False end) l ∧ length l = 2%nat.
Proof.
  set (s := schedule both (fresh_host, [])). exists s.1, s.2. split.
  - rewrite <-surjective_pairing. apply schedule_steps. unfold both.
    apply Forall_cons. split; [exists Byte.x01; reflexivity|].
    apply Forall_cons. split; [exists Byte.x02; reflexivity|]. repeat constructor.
  - split; [vm_compute; reflexivity|].
    assert (forallb (λ p, match p with Ret out => exit_code out =? 0 | Atomic _ _ => false end) s.2 &&
            (length s.2 =? 2)%nat = true) as Hb by (vm_compute; reflexivity).
    clearbody s. apply andb_true_iff in Hb as [Hf Hl]. apply Nat.eqb_eq in Hl. split; [|exact Hl].
    apply Forall_forall. intros p Hp. rewrite forallb_forall in Hf.
    specialize (Hf p (proj1 (list_elem_of_In _ _) Hp)). destruct p; [by apply Z.eqb_eq|discriminate Hf].
Qed.
