(* ===== verification/AdminViews.v ===== *)
(** What the administration console shows: the sections, times in the chosen zone
    and the dashboard, computed from the store's summaries (the pure parts of
    internal/adminweb/handler.go and timezone.go). The time zone database is the
    class [Timezones]. *)

From S2P Require Import Prelude GoStd GoNet GoWeb GoCrypto GoForm DeliveryStore MembershipCodec Schema Admission AdminCredential.

#[local] Open Scope string_scope.
#[local] Open Scope Z_scope.

(** ** Times *)

(** Year, month and day of a day number counted from 1970-01-01. *)
Definition civil (days : Z) : Z * Z * Z :=
  let z := days + 719468 in
  let era := z / 146097 in
  let doe := z mod 146097 in
  let yoe := (doe - doe / 1460 + doe / 36524 - doe / 146096) / 365 in
  let doy := doe - (365 * yoe + yoe / 4 - yoe / 100) in
  let mp := (5 * doy + 2) / 153 in
  let d := doy - (153 * mp + 2) / 5 + 1 in
  let m := if mp <? 10 then mp + 3 else mp - 9 in
  (yoe + era * 400 + (if m <=? 2 then 1 else 0), m, d).

Definition two (z : Z) : bytes := pad_digits 2 (print_base 10 z).

(** [Format("-07:00")] of an offset in seconds. *)
Definition format_offset (offset : Z) : bytes :=
  let zone := Z.quot offset 60 in
  let a := Z.abs zone in
  (bs (if zone <? 0 then "-" else "+") ++ two (a / 60) ++ bs ":" ++ two (a mod 60))%list.

(** [Format("2006-01-02 15:04:05 -07:00")] of an instant in nanoseconds. *)
Definition format_instant (offset instant : Z) : bytes :=
  let local := instant / Second + offset in
  let '(y, m, d) := civil (local / 86400) in
  let s := local mod 86400 in
  (pad_digits 4 (print_base 10 y) ++ bs "-" ++ two m ++ bs "-" ++ two d ++ bs " " ++
   two (s / 3600) ++ bs ":" ++ two (s mod 3600 / 60) ++ bs ":" ++ two (s mod 60) ++ bs " " ++
   format_offset offset)%list.

Example format_examples :
  format_instant 28800 (1700000000 * Second) = bs "2023-11-15 06:13:20 +08:00" ∧
  format_instant (-12600) (951782400 * Second) = bs "2000-02-28 20:30:00 -03:30" ∧
  format_instant 0 0 = bs "1970-01-01 00:00:00 +00:00".
Proof. vm_compute. repeat split; reflexivity. Qed.

(** [time.LoadLocation]: the offset of a zone at an instant, in seconds. *)
Class Timezones : Type := { LoadLocation : bytes → option (Z → Z) }.

Definition location : Type := Z → Z.
Definition UTC : location := λ _, 0.

Definition formatTime (value : Z) (l : location) : bytes := format_instant (l value) value.
Definition formatOptionalTime (value : option Z) (l : location) : bytes :=
  match value with None => bs "—" | Some v => formatTime v l end.

Definition activityLabel (value : option Z) (now : Z) (l : location) : bytes :=
  match value with
  | None => bs "从未成功连接"
  | Some v =>
      let age := now - v in
      if age <? 0 then formatTime v l
      else if age <=? 2 * Minute then bs "刚刚活动"
      else if age <=? Hour then bs "最近活动"
      else formatTime v l
  end.

(** ** Sections *)

Definition sectionDevices : string := "devices".
Definition sectionCredentials : string := "credentials".
Definition sectionSettings : string := "settings".
Definition sectionMaintenance : string := "maintenance".
Definition sectionAbout : string := "about".

Definition consoleSections : list (string * string) :=
  [(sectionDevices, "设备"); (sectionCredentials, "凭据"); (sectionSettings, "设置");
   (sectionMaintenance, "部署与维护"); (sectionAbout, "关于")].

Definition resolveSection (key : bytes) : string * string :=
  match List.find (λ s, beq (bs s.1) key) consoleSections with
  | Some s => s
  | None => (sectionDevices, "设备")
  end.

(** The navigation: key, label and whether it is the current section. *)
Definition consoleNavigation (active : string) : list (string * string * bool) :=
  (λ s, (s.1, s.2, String.eqb s.1 active)) <$> consoleSections.

(** ** Time zones *)

Definition utcZoneName : bytes := bs "UTC".

Definition consoleTimezones : list (string * list string) :=
  [("常用", ["UTC"; "Asia/Shanghai"; "Asia/Hong_Kong"; "Asia/Taipei"; "Asia/Tokyo"; "Asia/Seoul";
             "Asia/Singapore"]);
   ("亚洲与中东", ["Asia/Kolkata"; "Asia/Kathmandu"; "Asia/Dhaka"; "Asia/Bangkok"; "Asia/Ho_Chi_Minh";
             "Asia/Kuala_Lumpur"; "Asia/Manila"; "Asia/Jakarta"; "Asia/Dubai"; "Asia/Riyadh";
             "Asia/Tehran"; "Asia/Istanbul"]);
   ("欧洲", ["Europe/London"; "Europe/Dublin"; "Europe/Lisbon"; "Europe/Paris"; "Europe/Berlin";
             "Europe/Amsterdam"; "Europe/Madrid"; "Europe/Rome"; "Europe/Zurich"; "Europe/Warsaw";
             "Europe/Stockholm"; "Europe/Athens"; "Europe/Helsinki"; "Europe/Kyiv"; "Europe/Moscow"]);
   ("美洲", ["America/St_Johns"; "America/Halifax"; "America/New_York"; "America/Chicago";
             "America/Denver"; "America/Phoenix"; "America/Los_Angeles"; "America/Anchorage";
             "America/Mexico_City"; "America/Bogota"; "America/Lima"; "America/Santiago";
             "America/Sao_Paulo"; "America/Buenos_Aires"]);
   ("大洋洲与非洲", ["Australia/Perth"; "Australia/Adelaide"; "Australia/Brisbane"; "Australia/Sydney";
             "Australia/Melbourne"; "Pacific/Auckland"; "Pacific/Honolulu"; "Africa/Cairo";
             "Africa/Johannesburg"; "Africa/Lagos"; "Africa/Nairobi"])].

Record timezoneOptionView : Type := mkTimezoneOption {
  tzo_Name : bytes;
  tzo_Label : bytes;
  tzo_Selected : bool
}.

Record timezoneView : Type := mkTimezoneView {
  tz_Name : bytes;
  tz_Label : bytes;
  tz_Groups : list (string * list timezoneOptionView)
}.

Section Zones.
Context `{Timezones}.

(** The zone of the browser's cookie. *)
Definition timezoneName (cookie : option bytes) : bytes :=
  match cookie with
  | None => utcZoneName
  | Some value =>
      let name := TrimSpace value in
      match LoadLocation name with Some _ => name | None => utcZoneName end
  end.

Definition displayLocation (cookie : option bytes) : location :=
  default UTC (LoadLocation (timezoneName cookie)).

Definition timezoneLabel (name : bytes) (moment : Z) : bytes :=
  match LoadLocation name with
  | None => name
  | Some l =>
      if beq name utcZoneName then name
      else (name ++ bs "（UTC" ++ format_offset (l moment) ++ bs "）")%list
  end.

Definition timezoneDisplay (moment : Z) (current : bytes) : timezoneView :=
  mkTimezoneView current (timezoneLabel current moment)
    ((λ g : string * list string,
        (g.1, (λ name, mkTimezoneOption (bs name) (timezoneLabel (bs name) moment)
                         (beq (bs name) current)) <$> g.2)) <$> consoleTimezones).
End Zones.

(** ** The dashboard *)

Record deviceView : Type := mkDeviceView {
  dv_Reference : bytes;
  dv_Name : bytes;
  dv_Type : string;
  dv_Status : string;
  dv_RegisteredAt : bytes;
  dv_ApprovedAt : bytes;
  dv_LastAuthenticated : bytes;
  dv_LastActivity : bytes;
  dv_RemovedAt : bytes;
  dv_CanApprove : bool;
  dv_CanReject : bool;
  dv_CanRename : bool;
  dv_CanRemove : bool
}.

Record workspaceView : Type := mkWorkspaceView {
  wv_Reference : bytes;
  wv_CreatedAt : bytes;
  wv_AndroidCount : Z;
  wv_ChromeCount : Z;
  wv_PendingCount : Z;
  wv_RemovedCount : Z;
  wv_PendingDevices : list deviceView;
  wv_ActiveDevices : list deviceView;
  wv_PastDevices : list deviceView
}.

Definition deviceTypeLabel (value : DeviceType) : string :=
  if bool_decide (value = DeviceAndroid) then "Android"
  else if bool_decide (value = DeviceChrome) then "Chrome" else "未知设备".

Definition deviceStatus (d : DeviceSummary) : string :=
  if dsu_Revoked d then
    match dsu_ApprovedAt d with None => "申请已拒绝" | Some _ => "已移除" end
  else
    match dsu_MembershipState d with
    | pending_proof => "正在验证申请"
    | pending_approval => "等待批准"
    | approved => "已接入"
    | _ => "状态需要检查"
    end.

Definition in_use (d : DeviceSummary) : bool :=
  bool_decide (dsu_MembershipState d = approved) && negb (dsu_Revoked d).
Definition waiting (d : DeviceSummary) : bool :=
  (bool_decide (dsu_MembershipState d = pending_proof) ||
   bool_decide (dsu_MembershipState d = pending_approval)) && negb (dsu_Revoked d).

(** [action_reference] makes the opaque reference of a device. *)
Definition device_view (action_reference : bytes → bytes) (now : Z) (l : location) (d : DeviceSummary)
  : deviceView :=
  mkDeviceView (action_reference (dsu_Reference d)) (dsu_DeviceName d)
    (deviceTypeLabel (dsu_DeviceType d)) (deviceStatus d) (formatTime (dsu_RegisteredAt d) l)
    (formatOptionalTime (dsu_ApprovedAt d) l) (formatOptionalTime (dsu_LastAuthenticatedAt d) l)
    (activityLabel (dsu_LastActivityAt d) now l) (formatOptionalTime (dsu_RevokedAt d) l)
    (bool_decide (dsu_MembershipState d = pending_approval) && negb (dsu_Revoked d))
    (waiting d) (in_use d) (in_use d).

Definition count (P : DeviceSummary → bool) (l : list DeviceSummary) : Z :=
  Z.of_nat (length (List.filter P l)).

(** The loop over the devices of one workspace, each with the clock when it is
    its turn. *)
Definition workspace_view (reference : bytes) (action_reference : bytes → bytes) (createdAt : Z)
  (l : location) (stamped : list (DeviceSummary * Z)) : workspaceView :=
  let devices := stamped.*1 in
  let view P := (λ x, device_view action_reference x.2 l x.1) <$> List.filter (λ x, P x.1) stamped in
  mkWorkspaceView reference (formatTime createdAt l)
    (count (λ d, in_use d && bool_decide (dsu_DeviceType d = DeviceAndroid)) devices)
    (count (λ d, in_use d && negb (bool_decide (dsu_DeviceType d = DeviceAndroid)) &&
                 bool_decide (dsu_DeviceType d = DeviceChrome)) devices)
    (count waiting devices) (count dsu_Revoked devices)
    (view waiting) (view (λ d, negb (waiting d) && in_use d))
    (view (λ d, negb (waiting d) && negb (in_use d))).

Record flashMessage : Type := mkFlash {
  fl_Kind : string;
  fl_Message : bytes;
  fl_Secret : bytes
}.

Record dashboardView : Type := mkDashboardView {
  db_CSRFToken : bytes;
  db_Flash : option flashMessage;
  db_Section : string;
  db_SectionLabel : string;
  db_Navigation : list (string * string * bool);
  db_Timezone : timezoneView;
  db_AccountName : bytes;
  db_AccountUpdated : bytes;
  db_Workspaces : list workspaceView
}.
