(* ===== verification/AdminWeb.v ===== *)
(** internal/adminweb/handler.go: the administration console.

    The console keeps its account, sessions, verifiers and limiters in memory,
    under a mutex, and the rest in the registry. A handler is a program over
    [world]: each critical section, each transaction, each use of a verifier or a
    limiter and each reading of the clock is one atomic action, so handlers
    interleave with one another and with the other users of the database as they
    do in the process. Random values are arguments; a page is its view, its
    rendering as HTML is not modelled. *)

From S2P Require Import Prelude GoStd GoNet GoWeb GoCrypto GoForm GoUrl RateLimit ClientAddress.
From S2P Require Import DeliveryStore MembershipCodec Schema Admission MembershipStore.
From S2P Require Import AdminCredential Interleave AdminService AdminViews.

#[local] Open Scope string_scope.
#[local] Open Scope Z_scope.
#[local] Open Scope prog_scope.

(** ** State *)

Definition recoveryCodeLifetime : Z := 10 * Minute.
Definition sessionLifetime : Z := 8 * Hour.
Definition setupPendingLifetime : Z := 10 * Minute.
Definition maxFormBody : Z := 4096.
Definition sessionCookieName : string := "sevenmirror_admin_session".
Definition timezoneCookieName : string := "sevenmirror_admin_timezone".
Definition timezoneCookieLifetime : Z := 365 * 24 * Hour.
Definition setupPath : string := "/setup".
Definition setupFactorPath : string := "/setup/totp".

(** [ps_secondFactor] is the address of the shared verifier. *)
Record pendingSetup : Type := mkPendingSetup {
  ps_name : bytes;
  ps_passwordHash : bytes;
  ps_secret : bytes;
  ps_secondFactor : nat;
  ps_expiresAt : Z
}.

Record session : Type := mkSession {
  se_csrfToken : bytes;
  se_expiresAt : Z;
  se_flash : option flashMessage;
  se_mustInitialize : bool;
  se_pending : option pendingSetup
}.

(** What changes: the registry, the clock, and the fields of [Handler] behind its
    mutex, its limiters and its verifiers. *)
Record world : Type := mkWorld {
  w_db : DB;
  w_now : Z;
  w_account : account;
  w_recoveryUsed : bool;
  w_sessions : gmap bytes session;
  w_factors : gmap nat totpVerifier;
  w_loginAttempts : FixedWindow;
  w_setupAttempts : FixedWindow;
  w_managementActions : FixedWindow
}.

(** What does not. *)
Record Handler : Type := mkHandler {
  expectedOrigin : bytes;
  expectedHost : bytes;
  secureCookies : bool;
  workspaceRefKey : bytes;
  recoveryDigest : bytes;
  recoveryExpiresAt : Z;
  clientAddresses : Resolver
}.

#[export] Hint Extern 0 (@Update session _ ?proj) =>
  derive_update (λ r, mkSession (se_csrfToken r) (se_expiresAt r) (se_flash r)
    (se_mustInitialize r) (se_pending r)) proj : typeclass_instances.
#[export] Hint Extern 0 (@Update account _ ?proj) =>
  derive_update (λ r, mkAccount (a_name r) (a_hash r) (a_secret r) (a_secondFactor r)
    (a_updatedAt r) (a_initialized r)) proj : typeclass_instances.
#[export] Hint Extern 0 (@Update world _ ?proj) =>
  derive_update (λ r, mkWorld (w_db r) (w_now r) (w_account r) (w_recoveryUsed r) (w_sessions r)
    (w_factors r) (w_loginAttempts r) (w_setupAttempts r) (w_managementActions r)) proj
  : typeclass_instances.

(** ** Requests and responses *)

(** What the handlers read of a request. *)
Record WebRequest : Type := mkWebRequest {
  wr_Method : string;
  wr_Path : string;
  wr_Host : bytes;
  wr_Origin : bytes;
  wr_ContentType : bytes;
  wr_RawQuery : bytes;
  wr_Body : bytes;
  wr_Session : option bytes;
  wr_Zone : option bytes;
  wr_Client : ClientInfo
}.

(** The random values a handler may draw; [None] is a failing source. *)
Record WebRandom : Type := mkWebRandom {
  rand_Session : option bytes;
  rand_CSRF : option bytes;
  rand_Salt : option bytes;
  rand_Secret : option bytes;
  rand_Pairing : bytes
}.

Record cookie : Type := mkCookie {
  ck_Name : string;
  ck_Value : bytes;
  ck_Path : string;
  ck_MaxAge : Z;
  ck_HttpOnly : bool;
  ck_Secure : bool;
  ck_SameSite : string
}.

Inductive page : Type :=
| WText (msg : string)
| WRedirect (target : bytes)
| WLogin (firstRun : bool) (error : string)
| WSetup (csrf name : bytes) (firstRun : bool) (error : string)
| WFactor (csrf name secret uri : bytes) (firstRun : bool) (error : string)
| WDashboard (view : dashboardView)
| WFile (name : string)
| WNotFound.

Record WebResponse : Type := mkWebResponse {
  wp_Status : Z;
  wp_Headers : list (string * string);
  wp_Cookies : list cookie;
  wp_Page : page
}.

Definition web_error (msg : string) (status : Z) : WebResponse := mkWebResponse status [] [] (WText msg).
Definition web_header (h v : string) (r : WebResponse) : WebResponse :=
  mkWebResponse (wp_Status r) ((h, v) :: wp_Headers r) (wp_Cookies r) (wp_Page r).
Definition web_cookie (c : cookie) (r : WebResponse) : WebResponse :=
  mkWebResponse (wp_Status r) (wp_Headers r) (c :: wp_Cookies r) (wp_Page r).
Definition Redirect (target : bytes) : WebResponse := mkWebResponse 303 [] [] (WRedirect target).
Definition renderStatus (status : Z) (p : page) : WebResponse :=
  mkWebResponse status [("Content-Type", "text/html; charset=utf-8")] [] p.
Definition web_not_found : WebResponse := mkWebResponse 404 [] [] WNotFound.
Definition web_method (allowed : string) : WebResponse :=
  web_header "Allow" allowed (web_error "method not allowed" 405).

Definition landingPath (s : session) : bytes := bs (if se_mustInitialize s then setupPath else "/").

(** [randomToken] *)
Definition randomToken (value : option bytes) : option bytes := RawURL_Encode <$> value.

Definition consoleIssuer : bytes := bs "SevenMirror".

(** The parameters in the order of [url.Values.Encode]. *)
Definition totpProvisioningURI (accountName encoded : bytes) : bytes :=
  (bs "otpauth://totp/" ++ PathEscape (consoleIssuer ++ bs ":" ++ accountName) ++ bs "?algorithm=" ++
   QueryEscape (bs "SHA1") ++ bs "&digits=" ++ QueryEscape (FormatInt totpDigits) ++ bs "&issuer=" ++
   QueryEscape consoleIssuer ++ bs "&period=" ++ QueryEscape (FormatInt totpStepSeconds) ++
   bs "&secret=" ++ QueryEscape encoded)%list.

Definition actionFailure : flashMessage := mkFlash "error" (bs "操作没有完成。请刷新设备状态后重试。") [].

(** [err.Error()] *)
Fixpoint error_text (e : error) : string :=
  match e with New m => m | Wrapf c e => c ++ ": " ++ error_text e end.

(** ** Handlers *)

Section Console.
Context `{Scrypt, Timezones, Manager} (h : Handler).

Definition with_db {A} (p : prog DB A) : prog world A := lift w_db (λ db w, w <| w_db := db |>) p.
Definition now : prog world Z := reads w_now.

Definition form_of (r : WebRequest) : option form :=
  ParseForm (wr_ContentType r) (wr_RawQuery r) (wr_Body r) maxFormBody.

Definition validOrigin (r : WebRequest) : bool := beq (wr_Origin r) (expectedOrigin h).

Definition clientAddress (r : WebRequest) : bytes := from_ok (bs "invalid") (Resolve (clientAddresses h) (wr_Client r)).

(** [allowAttempts]: [false] is answered 429. *)
Definition too_many (msg : string) : WebResponse := web_header "Retry-After" "60" (web_error msg 429).

Definition allow_login (r : WebRequest) : prog world bool :=
  act (λ w, let '(ok, l) := Allow (clientAddress r) (w_now w) (w_loginAttempts w) in
            (w <| w_loginAttempts := l |>, ok)).
Definition allow_setup (r : WebRequest) : prog world bool :=
  act (λ w, let '(ok, l) := Allow (clientAddress r) (w_now w) (w_setupAttempts w) in
            (w <| w_setupAttempts := l |>, ok)).
Definition allow_action (digest : bytes) : prog world bool :=
  act (λ w, let '(ok, l) := Allow (RawURL_Encode digest) (w_now w) (w_managementActions w) in
            (w <| w_managementActions := l |>, ok)).

(** *** Sessions *)

Definition set_session (digest : bytes) (s : session) (w : world) : world :=
  w <| w_sessions := <[digest := s]> (w_sessions w) |>.

Definition currentSession (r : WebRequest) : prog world (option (session * bytes)) :=
  match wr_Session r with
  | None | Some [] => Ret None
  | Some value =>
      let digest := Sum256 value in
      act (λ w, match w_sessions w !! digest with
                | Some s => if w_now w <? se_expiresAt s then (w, Some (s, digest))
                            else (w <| w_sessions := delete digest (w_sessions w) |>, None)
                | None => (w, None)
                end)
  end.

Definition csrf_ok (r : WebRequest) (s : session) (f : form) : bool :=
  validOrigin r && beq (Get f "csrf_token") (se_csrfToken s).

(** [inr] is a refusal. *)
Definition authorizeSessionPost (r : WebRequest) : prog world ((session * bytes * form) + WebResponse) :=
  if negb (String.eqb (wr_Method r) "POST") then Ret (inr (web_method "POST"))
  else
    let! current := currentSession r in
    match current with
    | None => Ret (inr (Redirect (bs "/login")))
    | Some (s, digest) =>
        match form_of r with
        | None => Ret (inr (web_error "request rejected" 403))
        | Some f =>
            if negb (csrf_ok r s f) then Ret (inr (web_error "request rejected" 403))
            else Ret (inl (s, digest, f))
        end
    end.

Definition authorizeManagementPost (r : WebRequest) : prog world ((session * bytes * form) + WebResponse) :=
  let! a := authorizeSessionPost r in
  match a with
  | inr resp => Ret (inr resp)
  | inl (s, digest, f) =>
      if se_mustInitialize s then Ret (inr (Redirect (bs setupPath)))
      else
        let! ok := allow_action digest in
        Ret (if ok then inl (s, digest, f) else inr (too_many "too many actions"))
  end.

Definition session_cookie (value : bytes) (maxAge : Z) : cookie :=
  mkCookie sessionCookieName value "/" maxAge true (secureCookies h) "Strict".

(** *** Login *)

Definition consumeRecoveryCode (candidate : bytes) : prog world bool :=
  let digest := Sum256 candidate in
  act (λ w, if w_recoveryUsed w || negb (w_now w <? recoveryExpiresAt h) ||
               negb (beq digest (recoveryDigest h))
            then (w, false) else (w <| w_recoveryUsed := true |>, true)).

(** [verify] of the verifier at an address, under its own mutex. *)
Definition verify_at (factor : nat) (presented : bytes) : prog world bool :=
  act (λ w, match w_factors w !! factor with
            | Some v => let '(ok, v') := verify v presented (w_now w) in
                        (w <| w_factors := <[factor := v']> (w_factors w) |>, ok)
            | None => (w, false)
            end).

Definition web_authenticate (f : form) : prog world bool :=
  let candidate := TrimSpace (Get f "recovery_code") in
  if negb (beq candidate []) then consumeRecoveryCode candidate
  else
    let! current := reads w_account in
    let nameMatched := nameMatches current (TrimSpace (Get f "username")) in
    let passwordMatched := passwordMatches current (Get f "password") in
    if negb nameMatched || negb passwordMatched then Ret false
    else if negb (a_initialized current) then Ret true
    else match a_secondFactor current with
         | Some factor => verify_at factor (Get f "totp_code")
         | None => Ret false
         end.

Definition loginFailure : string :=
  "用户名、密码或动态验证码不正确。应急登录码只在下发后的十分钟内可用，且只能使用一次。".
Definition firstLoginFailure : string :=
  "初始账号或密码不正确。首次使用请按部署说明用初始账号登录，登录后必须立即设置新口令并绑定动态验证码。".

Definition renderLoginFailure : prog world WebResponse :=
  let! current := reads w_account in
  let! shown := reads w_account in
  Ret (renderStatus 401 (WLogin (negb (a_initialized shown))
         (if a_initialized current then loginFailure else firstLoginFailure))).

(** The last critical section of a login. *)
Definition open_session (rawSession csrfToken : bytes) : prog world bool :=
  act (λ w, let mustInitialize := negb (a_initialized (w_account w)) in
            (set_session (Sum256 rawSession)
               (mkSession csrfToken (w_now w + sessionLifetime) None mustInitialize None) w,
             mustInitialize)).

Definition login (r : WebRequest) (x : WebRandom) : prog world WebResponse :=
  if negb (String.eqb (wr_Path r) "/login") then Ret web_not_found
  else if String.eqb (wr_Method r) "GET" then
    let! current := currentSession r in
    match current with
    | Some (s, _) => Ret (Redirect (landingPath s))
    | None =>
        let! a := reads w_account in
        Ret (renderStatus 200 (WLogin (negb (a_initialized a)) ""))
    end
  else if negb (String.eqb (wr_Method r) "POST") then Ret (web_method "GET, POST")
  else if negb (validOrigin r) then Ret (web_error "request rejected" 403)
  else
    let! ok := allow_login r in
    if negb ok then Ret (too_many "too many attempts")
    else match form_of r with
    | None => renderLoginFailure
    | Some f =>
        let! ok := web_authenticate f in
        if negb ok then renderLoginFailure
        else match randomToken (rand_Session x), randomToken (rand_CSRF x) with
        | Some rawSession, Some csrfToken =>
            let! mustInitialize := open_session rawSession csrfToken in
            Ret (web_cookie (session_cookie rawSession (sessionLifetime / Second))
                   (Redirect (bs (if mustInitialize : bool then setupPath else "/"))))
        | _, _ => Ret (web_error "unable to start session" 500)
        end
    end.

Definition logout (r : WebRequest) : prog world WebResponse :=
  let! a := authorizeSessionPost r in
  match a with
  | inr resp => Ret resp
  | inl (_, digest, _) =>
      let! _ := act (λ w, (w <| w_sessions := delete digest (w_sessions w) |>, tt)) in
      Ret (web_cookie (session_cookie [] (-1)) (Redirect (bs "/login")))
  end.

(** *** Changing the credentials *)

Definition setup_page (s : session) (name : bytes) (error : string) : page :=
  WSetup (se_csrfToken s) name (se_mustInitialize s) error.

Definition factor_page (s : session) (p : pendingSetup) (error : string) : page :=
  let encoded := encodeTOTPSecret (ps_secret p) in
  WFactor (se_csrfToken s) (ps_name p) (formatTOTPSecret (length encoded) encoded)
    (totpProvisioningURI (ps_name p) encoded) (se_mustInitialize s) error.

(** The new verifier, and the half-finished change in the session if it is still
    there. *)
Definition store_pending (digest name hash secret : bytes) : prog world (option pendingSetup) :=
  act (λ w,
    let factor := fresh (dom (w_factors w) : gset nat) in
    let p := mkPendingSetup name hash secret factor (w_now w + setupPendingLifetime) in
    let w := w <| w_factors := <[factor := newTOTPVerifier secret]> (w_factors w) |> in
    match w_sessions w !! digest with
    | Some s => (set_session digest (s <| se_pending := Some p |>) w, Some p)
    | None => (w, None)
    end).

Definition message_of (r : result unit) : option string :=
  match r with Ok _ => None | Err e => Some (error_text e) end.

Definition setupCredential (r : WebRequest) (x : WebRandom) : prog world WebResponse :=
  if negb (String.eqb (wr_Path r) setupPath) then Ret web_not_found
  else if String.eqb (wr_Method r) "GET" then
    let! current := currentSession r in
    match current with
    | None => Ret (Redirect (bs "/login"))
    | Some (s, _) =>
        let! a := reads w_account in
        Ret (renderStatus 200 (setup_page s (a_name a) ""))
    end
  else if negb (String.eqb (wr_Method r) "POST") then Ret (web_method "GET, POST")
  else
    let! a := authorizeSessionPost r in
    match a with
    | inr resp => Ret resp
    | inl (s, digest, f) =>
        let! ok := allow_setup r in
        if negb ok then Ret (too_many "too many attempts")
        else
          let name := TrimSpace (Get f "username") in
          let password := Get f "password" in
          let fail message := Ret (renderStatus 400 (setup_page s name message)) in
          match message_of (validateAccountName name) with
          | Some m => fail m
          | None =>
          if negb (beq (Get f "password_confirm") password) then fail "两次输入的新密码不一致。"
          else match message_of (validateNewPassword password) with
          | Some m => fail m
          | None =>
          match (match rand_Salt x with Some salt => hashPassword password salt
                                      | None => Err (New "read password salt") end) with
          | Err _ => Ret (web_error "unable to prepare the credential" 500)
          | Ok encoded =>
          match rand_Secret x with
          | None => Ret (web_error "unable to generate the authenticator secret" 500)
          | Some secret =>
              let! p := store_pending digest name encoded secret in
              match p with
              | None => Ret (Redirect (bs "/login"))
              | Some p => Ret (renderStatus 200 (factor_page s p ""))
              end
          end end end end
    end.

Definition accept_credential : flashMessage :=
  mkFlash "success" (bs "凭据已更新。下次登录请使用新的用户名、密码和动态验证码。") [].

(** [SaveAdministrator] *)
Definition save_administrator (c : AdministratorCredential) : prog world (result unit) :=
  with_db (act (λ db, match SaveAdministrator c db with
                      | Ok db' => (db', Ok tt)
                      | Err e => (db, Err e)
                      end)).

(** The last critical section: the new account with the verifier that accepted
    the code, and every other session is gone. *)
Definition adopt (digest : bytes) (stored : session) (updated : account) : prog world unit :=
  act (λ w,
    (w <| w_account := updated |>
       <| w_sessions := {[digest := stored <| se_pending := None |> <| se_mustInitialize := false |>
                                          <| se_flash := Some accept_credential |>]} |>, tt)).

Definition setupSecondFactor (r : WebRequest) : prog world WebResponse :=
  if negb (String.eqb (wr_Path r) setupFactorPath) then Ret web_not_found
  else if negb (String.eqb (wr_Method r) "POST") then Ret (web_method "POST")
  else
    let! a := authorizeSessionPost r in
    match a with
    | inr resp => Ret resp
    | inl (s, digest, f) =>
        let! ok := allow_setup r in
        if negb ok then Ret (too_many "too many attempts")
        else
          let! found := reads (λ w, w_sessions w !! digest) in
          let! moment := now in
          match (match found with Some stored => (λ p, (stored, p)) <$> se_pending stored
                                | None => None end) with
          | None => Ret (Redirect (bs setupPath))
          | Some (stored, p) =>
              if negb (moment <? ps_expiresAt p) then Ret (Redirect (bs setupPath))
              else
                let! ok := verify_at (ps_secondFactor p) (Get f "totp_code") in
                if negb ok then
                  Ret (renderStatus 401 (factor_page s p
                    "动态验证码不正确。请确认验证器应用里的密钥与上一步显示的一致，并检查设备时间。"))
                else
                  let! moment := now in
                  let credential := setup_credential (ps_name p) (ps_passwordHash p) (ps_secret p) moment in
                  let! saved := save_administrator credential in
                  match saved with
                  | Err _ => Ret (web_error "unable to store the administrator credential" 500)
                  | Ok _ =>
                      match accountFromCredential credential (ps_secondFactor p) with
                      | Err _ => Ret (web_error "unable to read back the stored credential" 500)
                      | Ok updated =>
                          let! _ := adopt digest stored updated in
                          Ret (Redirect (bs "/"))
                      end
                  end
          end
    end.
(** *** Management *)

Definition actionReference (domain : string) (value : bytes) : bytes :=
  RawURL_Encode (take 12 (hmac Sum256 (workspaceRefKey h) (bs domain ++ [Byte.x00] ++ value)%list)).
Definition workspaceReference (w : bytes) : bytes := actionReference "workspace" w.
Definition deviceActionReference (w deviceReference : bytes) : bytes :=
  actionReference "device" (w ++ deviceReference)%list.

(** The last match of the loop. *)
Definition match_workspace (reference : bytes) (l : list (bytes * Z)) : option bytes :=
  fold_left (λ m x, if beq (workspaceReference x.1) reference then Some x.1 else m) l None.

Definition resolveWorkspace (reference : bytes) : prog world (option bytes) :=
  let! l := with_db ListWorkspacesM in
  Ret (match l with Ok l => match_workspace reference l | Err _ => None end).

(** A reference that two devices share resolves to none. *)
Fixpoint match_device (w reference : bytes) (l : list DeviceSummary) (matched : option bytes)
  : option bytes :=
  match l with
  | [] => matched
  | d :: l =>
      if beq (deviceActionReference w (dsu_Reference d)) reference then
        match matched with
        | Some _ => None
        | None => match_device w reference l (Some (dsu_Reference d))
        end
      else match_device w reference l matched
  end.

Definition web_resolveDeviceReference (w reference : bytes) : prog world (option bytes) :=
  let! l := with_db (ListDevicesM w) in
  Ret (match l with Ok l => match_device w reference l None | Err _ => None end).

Definition finishAction (digest : bytes) (section : string) (message : flashMessage)
  : prog world WebResponse :=
  let! _ := act (λ w, (match w_sessions w !! digest with
                       | Some s => set_session digest (s <| se_flash := Some message |>) w
                       | None => w
                       end, tt)) in
  Ret (Redirect (bs "/?section=" ++ QueryEscape (bs section))%list).

Definition success (message : bytes) : flashMessage := mkFlash "success" message [].

Definition issuePairingCode (r : WebRequest) (x : WebRandom) : prog world WebResponse :=
  let! a := authorizeManagementPost r in
  match a with
  | inr resp => Ret resp
  | inl (_, digest, f) =>
      let! workspace := resolveWorkspace (Get f "workspace_ref") in
      match workspace with
      | None => finishAction digest sectionDevices actionFailure
      | Some w =>
          let! moment := now in
          let! issued := with_db (IssuePairingCodeM w (String.string_of_list_byte (Get f "device_type"))
                                    [] moment DefaultPairingCodeLifetime (rand_Pairing x)) in
          finishAction digest sectionDevices
            match issued with
            | Err _ => actionFailure
            | Ok code =>
                mkFlash "success"
                  (bs "加入码已生成，有效期至 " ++
                   formatTime (pco_ExpiresAt code) (displayLocation (wr_Zone r)) ++ bs "。")%list
                  (pco_Code code)
            end
      end
  end.

(** The workspace and the device an action names. *)
Definition action_target (f : form) : prog world (option (bytes * bytes)) :=
  let! workspace := resolveWorkspace (Get f "workspace_ref") in
  match workspace with
  | None => Ret None
  | Some w =>
      let! reference := web_resolveDeviceReference w (Get f "device_ref") in
      Ret ((λ d, (w, d)) <$> reference)
  end.

Definition approveDevice (r : WebRequest) : prog world WebResponse :=
  let! a := authorizeManagementPost r in
  match a with
  | inr resp => Ret resp
  | inl (_, digest, f) =>
      let! target := action_target f in
      match target with
      | None => finishAction digest sectionDevices actionFailure
      | Some (w, reference) =>
          let! moment := now in
          let! done := with_db (ApproveDeviceM w reference moment) in
          finishAction digest sectionDevices
            match done with
            | Err _ => actionFailure
            | Ok _ => success (bs "设备已批准，可以继续完成连接。")
            end
      end
  end.

Definition renameDevice (r : WebRequest) : prog world WebResponse :=
  let! a := authorizeManagementPost r in
  match a with
  | inr resp => Ret resp
  | inl (_, digest, f) =>
      if negb (beq (Get f "confirm") (bs "yes")) then finishAction digest sectionDevices actionFailure
      else
        let! target := action_target f in
        match target with
        | None => finishAction digest sectionDevices actionFailure
        | Some (w, reference) =>
            let! moment := now in
            let! done := with_db (RenameDeviceM w reference (Get f "new_name") moment) in
            finishAction digest sectionDevices
              match done with
              | Err _ => actionFailure
              | Ok _ => success (bs "设备名称已更新。已接入设备将在同步后显示新名称。")
              end
        end
  end.

Definition changeDeviceAccess (r : WebRequest) (action : DeviceAccessAction) (message : string)
  : prog world WebResponse :=
  let! a := authorizeManagementPost r in
  match a with
  | inr resp => Ret resp
  | inl (_, digest, f) =>
      if negb (beq (Get f "confirm") (bs "yes")) then finishAction digest sectionDevices actionFailure
      else
        let! target := action_target f in
        match target with
        | None => finishAction digest sectionDevices actionFailure
        | Some (w, reference) =>
            let! moment := now in
            let! done := with_db (ChangeDeviceAccessM w reference action moment) in
            finishAction digest sectionDevices
              match done with Err _ => actionFailure | Ok _ => success (bs message) end
        end
  end.

Definition rejectDevice (r : WebRequest) : prog world WebResponse :=
  changeDeviceAccess r RejectPending "申请已拒绝，这台设备不能接入私有空间。".
Definition removeDevice (r : WebRequest) : prog world WebResponse :=
  changeDeviceAccess r RemoveApproved "设备已移除，需要重新申请才能再次接入。".

Definition timezone_cookie (name : bytes) : cookie :=
  mkCookie timezoneCookieName name "/" (timezoneCookieLifetime / Second) true (secureCookies h) "Strict".

Definition changeTimezone (r : WebRequest) : prog world WebResponse :=
  let! a := authorizeManagementPost r in
  match a with
  | inr resp => Ret resp
  | inl (_, digest, f) =>
      let name := TrimSpace (Get f "timezone") in
      match LoadLocation name with
      | None =>
          finishAction digest sectionSettings
            (mkFlash "error" (bs "没有这个时区。请从列表里重新选择一个。") [])
      | Some _ =>
          let! moment := now in
          let! resp := finishAction digest sectionSettings
                         (success (bs "时间显示已改为 " ++ timezoneLabel name moment ++ bs "。")%list) in
          Ret (web_cookie (timezone_cookie name) resp)
      end
  end.

(** *** The dashboard *)

Definition takeFlash (digest : bytes) : prog world (option flashMessage) :=
  act (λ w, match w_sessions w !! digest with
            | Some s => match se_flash s with
                        | Some m => (set_session digest (s <| se_flash := None |>) w, Some m)
                        | None => (w, None)
                        end
            | None => (w, None)
            end).

(** The clock is read once for each device. *)
Fixpoint stamp (devices : list DeviceSummary) : prog world (list (DeviceSummary * Z)) :=
  match devices with
  | [] => Ret []
  | d :: rest =>
      let! moment := now in
      let! l := stamp rest in
      Ret ((d, moment) :: l)
  end.

(** The workspaces of the dashboard, one listing each. *)
Fixpoint dashboard_workspaces (l : location) (workspaces : list (bytes * Z))
  : prog world (option (list workspaceView)) :=
  match workspaces with
  | [] => Ret (Some [])
  | (w, createdAt) :: rest =>
      let! devices := with_db (ListDevicesM w) in
      match devices with
      | Err _ => Ret None
      | Ok devices =>
          let! stamped := stamp devices in
          let! views := dashboard_workspaces l rest in
          Ret (cons (workspace_view (workspaceReference w) (deviceActionReference w) createdAt l
                       stamped) <$> views)
      end
  end.

Definition dashboard (r : WebRequest) : prog world WebResponse :=
  if negb (String.eqb (wr_Path r) "/") then Ret web_not_found
  else if negb (String.eqb (wr_Method r) "GET") then Ret (web_method "GET")
  else
    let! current := currentSession r in
    match current with
    | None => Ret (Redirect (bs "/login"))
    | Some (s, digest) =>
        if se_mustInitialize s then Ret (Redirect (bs setupPath))
        else
          let! a := reads w_account in
          let section := resolveSection (Get (ParseQuery (wr_RawQuery r)).1 "section") in
          let l := displayLocation (wr_Zone r) in
          let! flash := takeFlash digest in
          let! moment := now in
          let! workspaces := with_db ListWorkspacesM in
          match workspaces with
          | Err _ => Ret (web_error "unable to load the private space" 500)
          | Ok workspaces =>
              let! views := dashboard_workspaces l workspaces in
              match views with
              | None => Ret (web_error "unable to load devices" 500)
              | Some views =>
                  Ret (renderStatus 200 (WDashboard (mkDashboardView (se_csrfToken s) flash section.1
                    section.2 (consoleNavigation section.1)
                    (timezoneDisplay moment (timezoneName (wr_Zone r))) (a_name a)
                    (formatTime (a_updatedAt a) l) views)))
              end
          end
    end.

Definition asset (name contentType : string) (r : WebRequest) : WebResponse :=
  if negb (String.eqb (wr_Method r) "GET") then web_method "GET"
  else mkWebResponse 200 [("Content-Type", contentType)] [] (WFile name).
Definition stylesheet : WebRequest → WebResponse := asset "assets/admin.css" "text/css; charset=utf-8".
Definition favicon : WebRequest → WebResponse := asset "assets/favicon.ico" "image/x-icon".

(** *** The mux *)

Definition console_route (r : WebRequest) (x : WebRandom) : prog world WebResponse :=
  let path := wr_Path r in
  if String.eqb path "/login" then login r x
  else if String.eqb path "/logout" then logout r
  else if String.eqb path setupFactorPath then setupSecondFactor r
  else if String.eqb path setupPath then setupCredential r x
  else if String.eqb path "/actions/pairing-code" then issuePairingCode r x
  else if String.eqb path "/actions/approve" then approveDevice r
  else if String.eqb path "/actions/reject" then rejectDevice r
  else if String.eqb path "/actions/rename" then renameDevice r
  else if String.eqb path "/actions/remove" then removeDevice r
  else if String.eqb path "/actions/timezone" then changeTimezone r
  else if String.eqb path "/assets/admin.css" then Ret (stylesheet r)
  else if String.eqb path "/favicon.ico" then Ret (favicon r)
  else dashboard r.

Definition console_headers : list (string * string) :=
  [("Cache-Control", "no-store");
   ("Content-Security-Policy", "default-src 'none'; style-src 'self'; img-src 'self'; form-action 'self'; frame-ancestors 'none'; base-uri 'none'");
   ("Referrer-Policy", "same-origin"); ("X-Content-Type-Options", "nosniff");
   ("X-Frame-Options", "DENY")].

Definition console_securityHeaders (r : WebRequest) (next : prog world WebResponse)
  : prog world WebResponse :=
  let! resp := (if negb (beq (wr_Host r) (expectedHost h)) then Ret (web_error "request rejected" 400)
                else next) in
  Ret (mkWebResponse (wp_Status resp) (console_headers ++ wp_Headers resp)%list (wp_Cookies resp)
         (wp_Page resp)).

Definition console_handle (r : WebRequest) (x : WebRandom) : prog world WebResponse :=
  console_securityHeaders r (console_route r x).
End Console.

(** ** Construction *)

Definition origin_ok (u : URL) : bool :=
  (beq (Scheme u) (bs "http") || beq (Scheme u) (bs "https")) && negb (beq (Host u) []) &&
  negb (bool_decide (is_Some (User u))) && beq (Path u) [] && beq (RawQuery u) [] && beq (Fragment u) [].

(** [NewHandler]: [refKey] is the random reference key. *)
Definition NewConsole (recoveryCode origin : bytes) (proxies : list Prefix)
  (refKey : option bytes) (moment : Z) (db : DB) : result (Handler * world) :=
  let? '(current, factors) :=
    match LoadAdministrator db with
    | None => Ok (defaultAccount, ∅)
    | Some credential =>
        let? a := accountFromCredential credential 0%nat in
        Ok (a, {[0%nat := newTOTPVerifier (a_secret a)]})
    end in
  match url_Parse origin with
  | None => Err (New "admin expected origin must be an exact HTTP or HTTPS origin")
  | Some u =>
      fail_if negb (origin_ok u)
        with_msg "admin expected origin must be an exact HTTP or HTTPS origin" in
      let? loginAttempts := NewFixedWindow 5 128 Minute in
      let? setupAttempts := NewFixedWindow 20 128 Minute in
      let? managementActions := NewFixedWindow 30 128 Minute in
      match refKey with
      | None => Err (New "generate workspace reference key")
      | Some key =>
          Ok (mkHandler (origin_String u) (Host u) (beq (Scheme u) (bs "https")) key
                (Sum256 recoveryCode) (moment + recoveryCodeLifetime) (mkResolver proxies),
              mkWorld db moment current (beq recoveryCode []) ∅ factors loginAttempts setupAttempts
                managementActions)
      end
  end.
