(* ===== verification/ServerConfig.v ===== *)
(** Both programs from their environment: cmd/server/main.go and
    cmd/admin-web/main.go build their handlers from a loaded configuration, and
    always can. *)

From S2P Require Import Prelude GoStd GoNet GoWeb GoCrypto GoForm GoUrl GoPath RateLimit ClientAddress Config.
From S2P Require Import DeliveryStore MembershipCodec Schema Admission Hub HttpApi Interleave RelayHandshake.
From S2P Require Import FileSystem AuthorityKey AdminCredential AdminService AdminViews AdminWeb.

#[local] Open Scope string_scope.
#[local] Open Scope Z_scope.

(** ** The programs *)

Record Server : Type := mkServer {
  srv_config : Config;
  srv_relay : RelayHandler;
  srv_attempts : clientRateLimiter;
  srv_api : Api
}.

(** [main] of cmd/server, on an opened registry, up to serving. *)
Definition start_server (env : environment) (db : DB) : result Server :=
  let? cfg := wrapf "invalid configuration" (Load env) in
  let clientAddresses := mkResolver (TrustedProxyCIDRs cfg) in
  let? '(relayHandler, attempts) :=
    wrapf "configure authenticated relay"
      (NewAuthenticatedWebSocketHandler clientAddresses (configuredRelayAuthenticationLimits (AbuseLimits cfg))) in
  let? api := wrapf "configure admission rate limits"
    (NewProductionHandler db clientAddresses (configuredHTTPRateLimits (AbuseLimits cfg))) in
  Ok (mkServer cfg relayHandler attempts api).

(** [main] of cmd/admin-web; [recovery] and [refKey] are random. *)
Definition start_console (env : environment) (recovery refKey : bytes) (moment : Z) (db : DB) (fs : files)
  : result (RuntimeConfig * Service * Handler * world) :=
  let? cfg := wrapf "invalid admin configuration" (LoadRuntimeConfig env) in
  let? management := wrapf "configure administration" (New_Service (rc_AuthorityKeyDirectory cfg) fs) in
  let recoveryCode := if rc_RecoveryCodeEnabled cfg then RawURL_Encode recovery else [] in
  let? '(handler, w) := wrapf "configure admin handler"
    (NewConsole recoveryCode (rc_ExpectedOrigin cfg) (rc_TrustedProxyCIDRs cfg) (Some refKey) moment db) in
  Ok (cfg, management, handler, w).

(** ** The server *)

Lemma relay_limits_range o :
  (RelayAuthAttemptsPerMinute o = 0 ∨ 1 ≤ RelayAuthAttemptsPerMinute o ≤ 1000000) →
  (RelayAuthMaxClientBuckets o = 0 ∨ 1 ≤ RelayAuthMaxClientBuckets o ≤ 1000000) →
  (RelayAuthMaxConcurrent o = 0 ∨ 1 ≤ RelayAuthMaxConcurrent o ≤ 65536) →
  (RelayAuthFrameTimeout o = 0 ∨ Second ≤ RelayAuthFrameTimeout o ≤ 86400 * Second) →
  let l := configuredRelayAuthenticationLimits o in
  1 ≤ AttemptsPerMinute (AuthAttempts l) ≤ 1000000 ∧ 1 ≤ MaxClientBuckets (AuthAttempts l) ≤ 1000000 ∧
  1 ≤ MaxConcurrent l ≤ 65536 ∧ Second ≤ FrameTimeout l ≤ 86400 * Second.
Proof.
  intros Ha Hb Hc Ht l. unfold l, configuredRelayAuthenticationLimits, DefaultAuthenticationLimits.
  assert (0 < Second) by reflexivity.
  cbn [AuthAttempts AttemptsPerMinute MaxClientBuckets MaxConcurrent FrameTimeout].
  do 3 (split; [apply override_range; [done|lia]|]). apply override_seconds; [done|lia].
Qed.

Lemma limiter_constructs r a m : 1 ≤ a → 1 ≤ m →
  newClientRateLimiter r (mkAttemptLimits a m) = Some (mkClientRateLimiter (mkFixedWindow ∅ a m Minute) r).
Proof.
  intros Ha Hm. unfold newClientRateLimiter, NewFixedWindow. cbn [AttemptsPerMinute MaxClientBuckets].
  rewrite guard_pass; [done|]. rewrite !orb_false_iff, !Z.ltb_ge, Z.leb_gt. split_and!; [lia..|reflexivity].
Qed.

(** A server whose configuration loads also starts. Every environment that
    [Load] accepts gives limits that both handlers accept, so neither constructor
    fails or panics; the limits, the capacity and the timeouts are within the
    documented ranges, TLS has both its files or none, and the trusted proxies are
    exactly the canonical prefixes of the setting. *)
Theorem configured_server_starts env cfg db :
  Load env = Ok cfg →
  ∃ s, start_server env db = Ok s ∧ srv_config s = cfg ∧
    1 ≤ rh_MaxConcurrent (srv_relay s) ≤ 65536 ∧
    Second ≤ rh_authTimeout (srv_relay s) ≤ 86400 * Second ∧
    1 ≤ limit (windows (srv_attempts s)) ≤ 1000000 ∧ 1 ≤ maxEntries (windows (srv_attempts s)) ≤ 1000000 ∧
    (TLSCertFile cfg = [] ↔ TLSKeyFile cfg = []) ∧
    env "NM_TRUSTED_PROXY_CIDRS" = join [z2b 0x2C] (PrefixString <$> TrustedProxyCIDRs cfg) ∧
    Forall canonical (TrustedProxyCIDRs cfg).
Proof.
  intros Hl. pose proof (Load_Ok _ _ Hl) as (Hv & Hc & Ht & _ & Htls & Hp & Hf). cbv zeta in *.
  destruct (relay_limits_range (AbuseLimits cfg)) as (Ra & Rb & Rc & Rt);
    [apply Hv; set_solver|apply Hv; set_solver|exact Hc|exact Ht|].
  assert (∀ x d, x ∈ [MembershipAttemptsPerMinute (AbuseLimits cfg); RotationAttemptsPerMinute (AbuseLimits cfg);
            RateLimitMaxClientBuckets (AbuseLimits cfg); RelayAuthAttemptsPerMinute (AbuseLimits cfg);
            RelayAuthMaxClientBuckets (AbuseLimits cfg)] → 1 ≤ d ≤ 1000000 → 1 ≤ override x d) as Ho.
  { intros x d Hx Hd. by apply (override_range x d 1000000); [apply Hv|]. }
  set (l := configuredRelayAuthenticationLimits (AbuseLimits cfg)) in *.
  unfold start_server. rewrite Hl. cbn [wrapf rbind].
  unfold NewAuthenticatedWebSocketHandler, validateAuthenticationLimits. fold l.
  assert (0 < Second) by reflexivity.
  rewrite guard_pass by (rewrite !orb_false_iff, !Z.ltb_ge, Z.leb_gt; lia). cbn [rbind].
  destruct (AuthAttempts l) as [a m] eqn:Ha. cbn [AttemptsPerMinute MaxClientBuckets] in *.
  rewrite limiter_constructs by lia. cbn [wrapf rbind].
  unfold NewProductionHandler, validateRateLimits, configuredHTTPRateLimits, DefaultRateLimits.
  cbn [MembershipLimits RotationLimits AttemptsPerMinute MaxClientBuckets].
  rewrite guard_pass.
  2: { rewrite !orb_false_iff, !Z.ltb_ge. split_and!; (apply Ho; [rewrite !elem_of_cons; tauto|lia]). }
  cbn [rbind]. rewrite !limiter_constructs by (apply Ho; [rewrite !elem_of_cons; tauto|lia]). cbn [wrapf rbind].
  eexists. split; [reflexivity|].
  cbn [srv_config srv_relay srv_attempts rh_MaxConcurrent rh_authTimeout windows limit maxEntries].
  split_and!; try done; lia.
Qed.

(** ** The console *)

Lemma exact_origin_Some text u :
  exact_origin text = Some u → url_Parse text = Some u ∧ origin_ok u = true ∧ origin_String u = text.
Proof.
  unfold exact_origin, origin_ok. destruct (url_Parse text) as [v|]; [|done].
  destruct (_ && beq (origin_String v) text) eqn:E; [|done]. intros [= ->].
  apply andb_true_iff in E as [-> Et]. apply beq_true in Et. done.
Qed.

(** The console of a loaded configuration is local, and answers to exactly the
    configured origin. Every environment that [LoadRuntimeConfig] accepts gives an
    address on a loopback interface and an origin in canonical form, so that on a
    registry whose administrator credential is readable, if it has one, the
    console starts and expects that text as the [Origin] of its forms; without TLS
    the origin is a loopback address too, and session cookies are marked secure
    exactly when it is not plain HTTP. *)
Theorem configured_console_starts env cfg recovery refKey moment db fs :
  LoadRuntimeConfig env = Ok cfg →
  (∀ c, LoadAdministrator db = Some c → is_ok (accountFromCredential c 0%nat) = true) →
  (∃ host ip, SplitHostPort (rc_Address cfg) = Some host ∧ ParseAddr host = Some ip ∧
     IsLoopback ip = true ∧ Zone ip = []) ∧
  ∃ management h w u, start_console env recovery refKey moment db fs = Ok (cfg, management, h, w) ∧
    expectedOrigin h = rc_ExpectedOrigin cfg ∧ url_Parse (rc_ExpectedOrigin cfg) = Some u ∧
    expectedHost h = Host u ∧
    (secureCookies h = true ∨ loopback_text (Hostname u) = true) ∧
    (rc_RecoveryCodeEnabled cfg = false → w_recoveryUsed w = true).
Proof.
  intros Hl Hdb. unfold start_console. rewrite Hl. cbn [wrapf rbind]. unfold LoadRuntimeConfig in Hl.
  set (address := admin_envOrDefault env "NM_ADMIN_ADDRESS" defaultAdminAddress) in *.
  destruct (SplitHostPort address) as [host|] eqn:Hs; [|done].
  destruct (ParseAddr host) as [ip|] eqn:Hip; [|done]. apply fail_if_Ok in Hl as [Hloop Hl].
  destruct (exact_origin _) as [u|] eqn:Hu; [|done]. apply fail_if_Ok in Hl as [Hhttp Hl].
  apply rbind_Ok in Hl as (rec & _ & Hl). apply rbind_Ok in Hl as (proxies & _ & Hl).
  apply Ok_inj in Hl as <-. cbn [rc_Address rc_ExpectedOrigin rc_AuthorityKeyDirectory
    rc_RecoveryCodeEnabled rc_TrustedProxyCIDRs].
  apply orb_false_iff in Hloop as [Hloop Hz]. apply negb_false_iff in Hloop, Hz. apply beq_true in Hz.
  split; [by exists host, ip|]. apply exact_origin_Some in Hu as (Hu & Hok & Htext).
  unfold New_Service. rewrite guard_pass.
  2: { apply beq_false. unfold admin_envOrDefault at 1. destruct (beq _ []) eqn:E; [|by apply beq_false].
       by apply Join_nonempty. }
  cbn [wrapf rbind]. unfold NewConsole.
  assert (∃ current factors,
    match LoadAdministrator db with
    | Some c => let? a := accountFromCredential c 0%nat in
                Ok (a, ({[0%nat := newTOTPVerifier (a_secret a)]} : gmap nat totpVerifier))
    | None => Ok (defaultAccount, ∅)
    end = Ok (current, factors)) as (current & factors & ->).
  { destruct (LoadAdministrator db) as [c|] eqn:Hc; [|by eauto]. specialize (Hdb c eq_refl).
    destruct (accountFromCredential c 0%nat) as [a|e]; [|done]. cbn [rbind]. eauto. }
  cbn [rbind]. rewrite Hu, Hok. cbn [negb]. rewrite guard_pass by reflexivity. cbn [rbind].
  do 4 eexists. split; [reflexivity|]. cbn [expectedOrigin expectedHost secureCookies w_recoveryUsed].
  split; [exact Htext|]. split; [reflexivity|]. split; [reflexivity|]. split.
  - unfold origin_ok in Hok. rewrite !andb_true_iff in Hok. destruct Hok as [[[[[Hsch _] _] _] _] _].
    apply orb_true_iff in Hsch as [Hsch|Hsch]; [|by left]. right. rewrite Hsch in Hhttp.
    cbn [andb] in Hhttp. by apply negb_false_iff in Hhttp.
  - by intros ->.
Qed.

(** *** An example *)

Definition example_env (name : string) : bytes :=
  if String.eqb name "NM_TRUSTED_PROXY_CIDRS" then bs "10.0.0.0/8,fd00::/8"
  else if String.eqb name "NM_RELAY_AUTH_MAX_CONCURRENT" then bs "128"
  else if String.eqb name "NM_ADMIN_ORIGIN" then bs "https://admin.example.org"
  else [].

Lemma configured_server_starts_witness :
  match Load example_env with
  | Ok cfg => ∃ s, start_server example_env empty_db = Ok s ∧ srv_config s = cfg ∧
                1 ≤ rh_MaxConcurrent (srv_relay s) ≤ 65536
  | Err _ => False
  end.
Proof.
  destruct (Load example_env) as [cfg|e] eqn:E; [|vm_compute in E; discriminate E].
  destruct (configured_server_starts example_env cfg empty_db E) as (s & Hs & Hc & Hm & _).
  exists s. split; [exact Hs|]. split; [exact Hc|exact Hm].
Defined.

Lemma configured_console_starts_witness :
  match LoadRuntimeConfig example_env with
  | Ok cfg => ∃ management h w u,
      start_console example_env (repeat Byte.x01 32) (repeat Byte.x02 32) 0 empty_db ∅ =
        Ok (cfg, management, h, w) ∧
      expectedOrigin h = rc_ExpectedOrigin cfg ∧ url_Parse (rc_ExpectedOrigin cfg) = Some u ∧
      expectedHost h = Host u
  | Err _ => False
  end.
Proof.
  destruct (LoadRuntimeConfig example_env) as [cfg|e] eqn:E; [|vm_compute in E; discriminate E].
  destruct (configured_console_starts example_env cfg (repeat Byte.x01 32) (repeat Byte.x02 32) 0 empty_db ∅ E)
    as [_ (management & h & w & u & H1 & H2 & H3 & H4 & _)].
  - intros c Hc. discriminate Hc.
  - exists management, h, w, u. split; [exact H1|]. split; [exact H2|]. split; [exact H3|exact H4].
Defined.
