(* ===== verification/ServerRun.v ===== *)
(** The life of both programs: [main] of cmd/server/main.go and of
    cmd/admin-web/main.go, from the arguments to the exit code. The goroutines of a
    program are its main one, the one that serves and the monitor; signals, the
    listener and the time a shutdown takes are steps of the environment. *)

From S2P Require Import Prelude GoStd GoNet GoWeb GoCrypto GoForm GoUrl GoPath RateLimit ClientAddress Config.
From S2P Require Import DeliveryStore MembershipCodec Schema Admission Hub HttpApi Interleave RelayAccess RelayHandshake.
From S2P Require Import FileSystem AuthorityKey AdminCredential AdminService AdminViews AdminWeb ServerConfig.

#[local] Open Scope string_scope.
#[local] Open Scope Z_scope.

(** ** Starting *)

(** A program that exits at once with a logged message, that only probes, or that
    serves. *)
Inductive launched (A : Type) : Type :=
| Probing
| Aborted (code : Z) (message : string)
| Running (a : A).
Arguments Probing {A}.
Arguments Aborted {A} _ _.
Arguments Running {A} _.

Definition or_exit {A B} (message : string) (r : result A) (next : A → launched B) : launched B :=
  match r with Ok a => next a | Err _ => Aborted 1 message end.

(** [main] of cmd/server; [opened] is [admission.Open]. *)
Definition server_main (args : list bytes) (env : environment) (opened : bytes → result DB) : launched Server :=
  if (match args with _ :: a :: _ => beq a (bs "healthcheck") | _ => false end) then Probing else
  or_exit "invalid configuration" (Load env) (λ cfg,
  or_exit "open admission database" (opened (DatabasePath cfg)) (λ db,
  or_exit "configure the handlers" (start_server env db) Running)).

Definition transport (cfg : Config) : string := if beq (TLSCertFile cfg) [] then "http" else "https".

(** What the console prints for its operator. *)
Definition operator_lines (cfg : RuntimeConfig) (recoveryCode : bytes) (stored : bool) : list bytes :=
  ((if rc_RecoveryCodeEnabled cfg then [bs "admin_login_code=" ++ recoveryCode] else []) ++
   (if stored then [] else [bs "admin_console_uninitialized=true default_account=" ++ DefaultAdministratorName]))%list.

(** [main] of cmd/admin-web; [recovery] and [refKey] are random. *)
Definition console_main `{Process} (env : environment) (opened : bytes → result DB) (recovery refKey : bytes)
  (moment : Z) (fs : files) : launched (RuntimeConfig * Service * Handler * world * list bytes) :=
  or_exit "invalid admin configuration" (LoadRuntimeConfig env) (λ cfg,
  or_exit "open admission database" (opened (rc_DatabasePath cfg)) (λ db,
  let recoveryCode := if rc_RecoveryCodeEnabled cfg then RawURL_Encode recovery else [] in
  let credentialStored := bool_decide (is_Some (LoadAdministrator db)) in
  or_exit "configure admin handler" (start_console env recovery refKey moment db fs) (λ '(_, service, handler, w),
  Running (cfg, service, handler, w, operator_lines cfg recoveryCode credentialStored)))).

(** ** Serving and stopping *)

Inductive main_at : Type := Serving | ShuttingDown | Returning | Exited (code : Z).
Inductive serving_at : Type := Listening | ServeFailed | ServeClosed.

Record process : Type := mkProcess {
  pr_main : main_at;
  pr_serving : serving_at;
  pr_monitor : bool;
  pr_stopped : bool;
  pr_signalled : bool;
  pr_store_open : bool
}.

Definition monitor_interval : Z := 250 * Millisecond.

(** What the monitor's goroutine does with what [RunAuthorizationMonitor] returned. *)
Definition monitor_stops (e : error) : bool := negb (bool_decide (e = ErrCanceled)).

Section Life.
(** The server runs a monitor and exits when it cannot serve; the console does not
    have one, and stops. *)
Context (has_monitor exits_on_failure : bool).

Definition alive (p : process) : bool := match pr_main p with Exited _ => false | _ => true end.
Definition started : process := mkProcess Serving Listening has_monitor false false true.

Inductive pstep : process → process → Prop :=
| P_signal m s mon st sig o : alive (mkProcess m s mon st sig o) = true →
    pstep (mkProcess m s mon st sig o) (mkProcess m s mon true true o)
| P_monitor m s sig o authorize ticks : alive (mkProcess m s true true sig o) = true →
    let e := (RunAuthorizationMonitor true true monitor_interval authorize ticks ErrCanceled).2 in
    pstep (mkProcess m s true true sig o) (mkProcess m s false (true || monitor_stops e) sig o)
| P_serve_fails m mon st sig o : alive (mkProcess m Listening mon st sig o) = true →
    pstep (mkProcess m Listening mon st sig o)
      (if exits_on_failure then mkProcess (Exited 1) ServeFailed mon st sig o
       else mkProcess m ServeFailed mon true sig o)
| P_serve_closed m mon st sig o : m = ShuttingDown ∨ m = Returning →
    pstep (mkProcess m Listening mon st sig o) (mkProcess m ServeClosed mon st sig o)
| P_shutdown s mon sig o : pstep (mkProcess Serving s mon true sig o) (mkProcess ShuttingDown s mon true sig o)
| P_shutdown_fails s mon st sig o :
    pstep (mkProcess ShuttingDown s mon st sig o) (mkProcess (Exited 1) s mon st sig o)
| P_shutdown_done s mon st sig o :
    pstep (mkProcess ShuttingDown s mon st sig o) (mkProcess Returning s mon st sig o)
| P_return s mon st sig o :
    pstep (mkProcess Returning s mon st sig o) (mkProcess (Exited 0) s mon true sig false).

Record orderly (p : process) : Prop := {
  o_stopped : pr_main p ≠ Serving → pr_main p ≠ Exited 1 → pr_stopped p = true;
  o_cause : pr_stopped p = true → pr_signalled p = true ∨ (pr_serving p = ServeFailed ∧ exits_on_failure = false);
  o_code : ∀ code, pr_main p = Exited code → code = 0 ∨ code = 1;
  o_failed : pr_serving p = ServeFailed → exits_on_failure = true → pr_main p = Exited 1;
  o_store : pr_store_open p = false ↔ pr_main p = Exited 0;
  o_monitor : pr_monitor p = true → has_monitor = true
}.

Lemma orderly_step p p' : pstep p p' → orderly p → orderly p'.
Proof.
  intros Hs [S C K F O M]. destruct Hs; unfold alive in *; cbn in *; try (destruct exits_on_failure eqn:?);
    (constructor; cbn; intros; try done; try (naive_solver)).
Qed.

Lemma orderly_run p : rtc pstep started p → orderly p.
Proof.
  intros Hr. assert (orderly started) as Hi by (by constructor).
  induction Hr as [|p1 p2 p3 Hs _ IH]; [done|]. by apply IH, (orderly_step p1).
Qed.
(** *** Stopping ends *)

Definition pstep' (p p' : process) : Prop := pstep p p' ∧ p' ≠ p.

Definition steps_left (p : process) : nat :=
  ((match pr_main p with Serving => 3 | ShuttingDown => 2 | Returning => 1 | Exited _ => 0 end) +
   (match pr_serving p with Listening => 1 | _ => 0 end) + (if pr_monitor p then 1 else 0) +
   (if pr_stopped p then 0 else 1) + (if pr_signalled p then 0 else 1))%nat.

Lemma pstep_left p p' : pstep' p p' → (steps_left p' < steps_left p)%nat.
Proof.
  intros [Hs Hne]. destruct Hs; unfold steps_left, alive in *; cbn in *; try (destruct exits_on_failure; cbn);
    try (destruct m; cbn in *; try done); try (destruct mon, st, sig; cbn in *; try done; lia);
    try (destruct mon, sig; cbn in *; try done; lia); try (destruct sig; cbn; lia); naive_solver.
Qed.

Lemma pstep_terminates p : Acc (λ p' p, pstep' p p') p.
Proof.
  remember (steps_left p) as n eqn:Hn. revert p Hn. induction (lt_wf n) as [n _ IH]. intros p ->.
  constructor. intros p' Hs. eapply IH; [by apply pstep_left|done].
Qed.

(** A program stops when it is told to, and its exit code says how. In every
    interleaving of its goroutines there are finitely many steps; where none is left
    the program has exited or was not told to stop. It exits with 0 exactly when it
    closed the registry, which it does after a complete shutdown that a signal
    started or, for the console only, a listener that failed; it exits with 1
    otherwise, and then the registry was not closed. *)
Theorem programs_stop p : rtc pstep (started) p →
  Acc (λ p' p, pstep' p p') p ∧
  ((∀ p', ¬ pstep' p p') → (∃ code, pr_main p = Exited code) ∨ pr_stopped p = false) ∧
  (∀ code, pr_main p = Exited code → code = 0 ∨ code = 1) ∧
  (pr_main p = Exited 0 ↔ pr_store_open p = false) ∧
  (pr_main p = Exited 0 → pr_signalled p = true ∨ (pr_serving p = ServeFailed ∧ exits_on_failure = false)).
Proof.
  intros Hr. destruct (orderly_run p Hr) as [S C K F O M]. split_and!; [apply pstep_terminates| |done|by symmetry|].
  - intros Hn. destruct p as [m s mon st sig o]. cbn in *. destruct st; [|by right]. left.
    destruct m; [..|by eexists]; exfalso; eapply Hn; (split; [by constructor|]); done.
  - intros He. apply C, S; by rewrite He.
Qed.
End Life.
