(* ===== verification/AdminProofs.v ===== *)
(** What the administration console guarantees in every interleaving of its
    handlers with one another and with the other users of the registry. *)

From S2P Require Import Prelude GoStd GoNet GoWeb GoCrypto GoForm RateLimit ClientAddress.
From S2P Require Import DeliveryStore MembershipCodec Schema Admission MembershipStore StoreSteps.
From S2P Require Import AdminCredential Interleave AdminService AdminViews AdminWeb.

#[local] Open Scope string_scope.
#[local] Open Scope Z_scope.

Create HintDb console.

Section Console.
Context `{Wire, Ed25519, Scrypt, Timezones, M : Manager, !ManagerLaws} (h : Handler).

(** ** One pass over the handlers

    [Admissible I G]: the actions that leave the registry alone keep [I] and are
    steps of [G]. The handlers then need proofs for the two kinds of action that
    write to it. *)
Class Admissible (I : world → Prop) (G : world → world → Prop) : Prop := {
  adm_reflexive :: Reflexive G;
  adm_login r : obeys I G always (allow_login h r);
  adm_setup r : obeys I G always (allow_setup h r);
  adm_action d : obeys I G always (allow_action d);
  adm_session r : obeys I G always (currentSession r);
  adm_recovery c : obeys I G always (consumeRecoveryCode h c);
  adm_verify a p : obeys I G always (verify_at a p);
  adm_open s c : obeys I G always (open_session s c);
  adm_delete d : obeys I G always (act (λ w, (w <| w_sessions := delete d (w_sessions w) |>, tt)));
  adm_pending d n p s : obeys I G always (store_pending d n p s);
  adm_finish d s m : obeys I G always (finishAction d s m);
  adm_flash d : obeys I G always (takeFlash d);
  adm_lists : obeys I G always (with_db ListWorkspacesM) ∧
              ∀ w, obeys I G always (with_db (ListDevicesM w))
}.

Lemma account_initialized c factor a : accountFromCredential c factor = Ok a → a_initialized a = true.
Proof.
  unfold accountFromCredential. intros Ha.
  repeat (apply rbind_Ok in Ha as (? & _ & Ha)). by apply Ok_inj in Ha as <-.
Qed.

Lemma obeys_ret {A} I G (a : A) : obeys (W := world) I G always (Ret a).
Proof. done. Qed.

Section Pass.
Context (I : world → Prop) (G : world → world → Prop) `{!Admissible I G}.

Lemma adm_reads {A} (f : world → A) : obeys I G always (reads f).
Proof. by apply obeys_reads; [apply _|]. Qed.
Lemma adm_listing : obeys I G always (with_db ListWorkspacesM).
Proof. apply adm_lists. Qed.
Lemma adm_devices w : obeys I G always (with_db (ListDevicesM w)).
Proof. apply adm_lists. Qed.

Hint Resolve obeys_ret adm_reads adm_listing adm_devices adm_login adm_setup adm_action adm_session
  adm_recovery adm_verify adm_open adm_delete adm_pending adm_finish adm_flash : console.

(** Walk through a handler. *)
Ltac obey :=
  repeat first
    [ progress cbv zeta
    | progress intros
    | match goal with |- obeys _ _ _ (pbind _ _) => eapply (obeys_bind _ _ _ _ always) end
    | solve [eauto 2 with console]
    | match goal with
      | |- obeys _ _ _ (match ?x with _ => _ end) => destruct x eqn:?
      end ].

Lemma post_obeys r : obeys I G always (authorizeSessionPost h r).
Proof. unfold authorizeSessionPost. obey. Qed.
Hint Resolve post_obeys : console.

Lemma management_obeys r : obeys I G always (authorizeManagementPost h r).
Proof. unfold authorizeManagementPost. obey. Qed.
Hint Resolve management_obeys : console.

Lemma target_obeys f : obeys I G always (action_target h f).
Proof. unfold action_target, resolveWorkspace, web_resolveDeviceReference. obey. Qed.
Lemma workspace_obeys ref : obeys I G always (resolveWorkspace h ref).
Proof. unfold resolveWorkspace. obey. Qed.
Hint Resolve target_obeys workspace_obeys : console.

Lemma failure_obeys : obeys I G always renderLoginFailure.
Proof. unfold renderLoginFailure. obey. Qed.
Lemma authenticate_obeys f : obeys I G always (web_authenticate h f).
Proof. unfold web_authenticate. obey. Qed.
Hint Resolve failure_obeys authenticate_obeys : console.

Lemma login_obeys r x : obeys I G always (login h r x).
Proof. unfold login. obey. Qed.
Lemma logout_obeys r : obeys I G always (logout h r).
Proof. unfold logout. obey. Qed.
Lemma setupCredential_obeys r x : obeys I G always (setupCredential h r x).
Proof. unfold setupCredential. obey. Qed.
Lemma timezone_obeys r : obeys I G always (changeTimezone h r).
Proof. unfold changeTimezone, now. obey. Qed.
Lemma stamp_obeys ds : obeys I G always (stamp ds).
Proof. unfold now. induction ds as [|d ds IH]; cbn [stamp]; unfold now; obey. Qed.
Hint Resolve stamp_obeys : console.
Lemma workspaces_obeys l ws : obeys I G always (dashboard_workspaces h l ws).
Proof. unfold now. induction ws as [|[w c] ws IH]; cbn [dashboard_workspaces]; unfold now; obey. Qed.
Hint Resolve workspaces_obeys : console.
Lemma dashboard_obeys r : obeys I G always (dashboard h r).
Proof. unfold dashboard, now. obey. Qed.
Hint Resolve login_obeys logout_obeys setupCredential_obeys timezone_obeys dashboard_obeys : console.

(** The actions that write to the registry. *)
Context (Hsave : ∀ c, obeys I G always (save_administrator c)).
Context (Hadopt : ∀ d s a, a_initialized a = true → obeys I G always (adopt d s a)).
Context (Hissue : ∀ w t n now ttl s, obeys I G always (with_db (IssuePairingCodeM w t n now ttl s))).
Context (Happrove : ∀ w ref now, obeys I G always (with_db (ApproveDeviceM w ref now))).
Context (Hrename : ∀ w ref n now, obeys I G always (with_db (RenameDeviceM w ref n now))).
Context (Hchange : ∀ w ref a now, obeys I G always (with_db (ChangeDeviceAccessM w ref a now))).
Hint Resolve Hsave Hissue Happrove Hrename Hchange : console.

Lemma factor_obeys r : obeys I G always (setupSecondFactor h r).
Proof.
  unfold setupSecondFactor, now. obey. apply Hadopt.
  match goal with E : accountFromCredential _ _ = Ok _ |- _ => exact (account_initialized _ _ _ E) end.
Qed.
Lemma issue_obeys r x : obeys I G always (issuePairingCode h r x).
Proof. unfold issuePairingCode, now. obey. Qed.
Lemma approve_obeys r : obeys I G always (approveDevice h r).
Proof. unfold approveDevice, now. obey. Qed.
Lemma rename_obeys r : obeys I G always (renameDevice h r).
Proof. unfold renameDevice, now. obey. Qed.
Lemma change_obeys r a m : obeys I G always (changeDeviceAccess h r a m).
Proof. unfold changeDeviceAccess, now. obey. Qed.
Hint Resolve factor_obeys issue_obeys approve_obeys rename_obeys change_obeys : console.

Lemma console_obeys r x : obeys I G always (console_handle h r x).
Proof.
  unfold console_handle, console_securityHeaders, console_route, rejectDevice, removeDevice. obey.
Qed.
End Pass.

(** ** The registry *)

Definition same_db (w w' : world) : Prop := w_db w' = w_db w.
Definition db_quiet (p : prog world WebResponse) : Prop := obeys always same_db always p.

#[export] Instance same_db_reflexive : Reflexive same_db.
Proof. done. Qed.

(** An action by cases. *)
Ltac by_action :=
  intros; apply obeys_act; intros w _; split; [exact I|split; [|exact I]];
  repeat match goal with
    | |- context [match ?x with _ => _ end] => destruct x
    end; reflexivity.

#[export] Instance quiet_admissible : Admissible always same_db.
Proof.
  constructor; try apply _.
  - unfold allow_login. by_action.
  - unfold allow_setup. by_action.
  - unfold allow_action. by_action.
  - intros r. unfold currentSession. destruct (wr_Session r) as [[|c v]|]; [done| |done]. by_action.
  - unfold consumeRecoveryCode. by_action.
  - unfold verify_at. by_action.
  - unfold open_session. by_action.
  - by_action.
  - unfold store_pending. by_action.
  - intros d s m. eapply (obeys_bind _ _ _ _ always); [by_action|done].
  - unfold takeFlash. by_action.
  - destruct manager_lists as [Hw Hd]. split; [|intros w0];
      (eapply (obeys_lift _ _ _ _ always eq); [done| |by apply Hw || apply Hd]);
      intros w v _ _ <-; done.
Qed.

(** *** Who may change the registry *)

(** The session that a request names is open. *)
Definition live_session (r : WebRequest) (w : world) (s : session) : Prop :=
  ∃ value, wr_Session r = Some value ∧ w_sessions w !! Sum256 value = Some s ∧
    w_now w < se_expiresAt s.

(** The request comes from the console's own pages in that session. *)
Definition signed_in (r : WebRequest) (w : world) (s : session) : Prop :=
  live_session r w s ∧ wr_Method r = "POST" ∧ wr_Origin r = expectedOrigin h ∧
  ∃ f, form_of r = Some f ∧ Get f "csrf_token" = se_csrfToken s.

(** The first action leaves the registry alone, and nothing after it changes the
    registry unless [P] held then. *)
Definition guarded (P : world → Prop) (p : prog world WebResponse) : Prop :=
  ∀ w, w_db (first_action p w) = w_db w ∧ (P w ∨ db_quiet (remaining p w)).

Lemma quiet_guarded P p : db_quiet p → guarded P p.
Proof.
  intros Hp w. destruct p as [a|f k]; [split; [reflexivity|right; exact I]|]. destruct (Hp w I) as (_ & Hdb & Hk).
  split; [exact Hdb|right; exact Hk].
Qed.

Lemma guarded_weaken (P Q : world → Prop) p : (∀ w, P w → Q w) → guarded P p → guarded Q p.
Proof. intros HPQ Hp w. destruct (Hp w) as [Hd [HP|Hk]]; split; auto. Qed.

Lemma guarded_bind P p (next : WebResponse → prog world WebResponse) :
  guarded P p → (∀ a, db_quiet (next a)) → guarded P (pbind p next).
Proof.
  intros Hp Hn. destruct p as [a|f k]; [apply quiet_guarded, Hn|]. intros w.
  destruct (Hp w) as [Hdb [HP|Hk]]; (split; [exact Hdb|]); [left; exact HP|right].
  refine (obeys_bind _ _ _ _ always always Hk _). intros a _. apply Hn.
Qed.

(** What [authorizeSessionPost] finds. *)
Lemma authorize_cases r :
  (∃ resp, authorizeSessionPost h r = Ret (inr resp)) ∨
  ∃ f k, authorizeSessionPost h r = Atomic f k ∧ ∀ w, w_db (f w) = w_db w ∧
    ((∃ resp, k w = Ret (inr resp)) ∨
     ∃ s d form, k w = Ret (inl (s, d, form)) ∧ signed_in r w s ∧ form_of r = Some form).
Proof.
  unfold authorizeSessionPost. destruct (String.eqb_spec (wr_Method r) "POST") as [Hm|];
    cbn [negb]; [|left; eauto].
  unfold currentSession. destruct (wr_Session r) as [[|c v]|] eqn:Hs; cbn [pbind]; [left; eauto| |left; eauto].
  right. do 2 eexists. split; [reflexivity|]. intros w. cbn [pbind].
  destruct (w_sessions w !! Sum256 (c :: v)) as [s|] eqn:Hw; cbn [fst snd]; [|split; [done|left; eauto]].
  destruct (Z.ltb_spec (w_now w) (se_expiresAt s)) as [Ht|]; cbn [fst snd]; [|split; [done|left; eauto]].
  split; [done|]. destruct (form_of r) as [f|] eqn:Hf; [|left; eauto].
  destruct (csrf_ok h r s f) eqn:Hc; cbn [negb]; [|left; eauto]. right. do 3 eexists.
  split; [reflexivity|]. unfold csrf_ok, validOrigin in Hc. go_bool.
  split; [|done]. split; [by exists (c :: v)|]. split; [done|]. split; [done|]. eauto.
Qed.

Lemma guarded_post r next :
  (∀ resp, db_quiet (next (inr resp))) →
  guarded (λ w, ∃ s, signed_in r w s) (pbind (authorizeSessionPost h r) next).
Proof.
  intros Hn. destruct (authorize_cases r) as [[resp ->]|(f & k & -> & Hk)].
  { apply quiet_guarded, Hn. }
  intros w. destruct (Hk w) as [Hdb Hcase]. cbn. split; [exact Hdb|].
  destruct Hcase as [[resp ->]|(s & d & fm & -> & Hs & _)]; [right; apply Hn|left; eauto].
Qed.

Lemma guarded_management r next :
  (∀ resp, db_quiet (next (inr resp))) →
  guarded (λ w, ∃ s, signed_in r w s ∧ se_mustInitialize s = false)
    (pbind (authorizeManagementPost h r) next).
Proof.
  intros Hn. unfold authorizeManagementPost. destruct (authorize_cases r) as [[resp ->]|(f & k & -> & Hk)].
  { by apply quiet_guarded, Hn. }
  intros w. destruct (Hk w) as [Hdb Hcase]. cbn [pbind first_action remaining]. split; [exact Hdb|].
  destruct Hcase as [[resp ->]|(s & d & fm & -> & Hs & _)]; cbn [pbind]; [right; apply Hn|].
  destruct (se_mustInitialize s) eqn:Hm; cbn [pbind]; [right; apply Hn|left; eauto].
Qed.

Definition action_paths : list string :=
  ["/actions/pairing-code"; "/actions/approve"; "/actions/reject"; "/actions/rename"; "/actions/remove"].

(** The right to change the registry, of a request that arrives at [w]. *)
Definition may_change (r : WebRequest) (w : world) : Prop :=
  wr_Host r = expectedHost h ∧ ∃ s, signed_in r w s ∧
    ((wr_Path r ∈ action_paths ∧ se_mustInitialize s = false) ∨ wr_Path r = setupFactorPath).

(** C24: only an administrator changes the registry. In every interleaving, a
    request whose actions change the registry at all was, when it arrived, a POST
    from the console's own origin with the token of an open session, for one of
    the management actions in a session past the initial setup, or for the
    confirmation of new credentials; every other request, whatever it carries,
    leaves the registry as it is. *)
Theorem console_changes_authorized r x :
  guarded (may_change r) (console_handle h r x).
Proof.
  unfold console_handle, console_securityHeaders. destruct (beq (wr_Host r) (expectedHost h)) eqn:Hh;
    cbn [negb]; [|by apply quiet_guarded]. apply beq_true in Hh.
  apply guarded_bind; [|done]. unfold console_route.
  assert (∀ p, guarded (λ w, ∃ s, signed_in r w s ∧ se_mustInitialize s = false) p →
            wr_Path r ∈ action_paths → guarded (may_change r) p) as Haction.
  { intros p Hp Hpath. eapply guarded_weaken; [|exact Hp]. intros w (s & Hs & Hm).
    split; [done|]. exists s. eauto. }
  repeat (let E := fresh in
    match goal with |- guarded _ (if ?c then _ else _) => destruct c eqn:E end).
  all: first [ apply quiet_guarded; (apply login_obeys || apply logout_obeys ||
                 apply setupCredential_obeys || apply timezone_obeys || apply dashboard_obeys || done);
               apply _
             | idtac ].
  2-6: apply Haction; [apply guarded_management; done|].
  2-6: match goal with E : (wr_Path _ =? _)%string = true |- _ => apply String.eqb_eq in E; rewrite E end;
       unfold action_paths; set_solver.
  match goal with E : (wr_Path r =? setupFactorPath)%string = true |- _ => apply String.eqb_eq in E as Hp end.
  unfold setupSecondFactor. rewrite Hp. cbn [String.eqb negb].
  destruct (String.eqb (wr_Method r) "POST"); cbn [negb]; [|by apply quiet_guarded].
  eapply guarded_weaken; [|by apply guarded_post]. intros w (s & Hs). split; [done|]. eauto.
Qed.
End Console.
