(* ===== verification/AdminTraces.v ===== *)
(** Invariants of the administration console over every interleaving of its
    handlers, while other processes use the registry and the clock moves. *)

From S2P Require Import Prelude GoStd GoNet GoWeb GoCrypto GoForm GoUrl RateLimit ClientAddress.
From S2P Require Import DeliveryStore MembershipCodec Schema Admission MembershipStore StoreSteps.
From S2P Require Import AdminCredential Interleave AdminService AdminViews AdminWeb AdminProofs.

#[local] Open Scope string_scope.
#[local] Open Scope Z_scope.

(** Until the account has its own credentials, every session is confined to the
    setup. *)
Definition confined (w : world) : Prop :=
  a_initialized (w_account w) = false →
  ∀ d s, w_sessions w !! d = Some s → se_mustInitialize s = true.

(** A verifier only moves forward. *)
Definition factor_le (v v' : totpVerifier) : Prop :=
  tv_secret v' = tv_secret v ∧
  (tv_armed v = true → tv_armed v' = true ∧ tv_newest v ≤ tv_newest v').

(** What is used up stays used up, and credentials are never unset. *)
Definition advances (w w' : world) : Prop :=
  (∀ n v, w_factors w !! n = Some v → ∃ v', w_factors w' !! n = Some v' ∧ factor_le v v') ∧
  (w_recoveryUsed w = true → w_recoveryUsed w' = true) ∧
  (a_initialized (w_account w) = true → a_initialized (w_account w') = true).

(** The other users of the registry, and the clock. *)
Definition elsewhere (w w' : world) : Prop :=
  ∃ db t, w' = w <| w_db := db |> <| w_now := t |>.

#[export] Instance factor_le_preorder : PreOrder factor_le.
Proof.
  split; [by intros v; split; [|intros; split; [|lia]]|].
  intros a b c [H1 H2] [H3 H4]. split; [congruence|]. intros Ha.
  destruct (H2 Ha) as [Hb ?]. destruct (H4 Hb). split; [done|lia].
Qed.

#[export] Instance advances_reflexive : Reflexive advances.
Proof. intros w. split_and!; [|done|done]. intros n v Hn. exists v. by split. Qed.
#[export] Instance advances_transitive : Transitive advances.
Proof.
  intros a b c (F1 & R1 & I1) (F2 & R2 & I2). split_and!; [|auto|auto].
  intros n v Hn. destruct (F1 n v Hn) as (v1 & H1 & L1). destruct (F2 n v1 H1) as (v2 & H2 & L2).
  exists v2. split; [done|]. by transitivity v1.
Qed.

(** An action that leaves these fields alone. *)
Lemma advances_same w w' :
  w_factors w' = w_factors w → w_recoveryUsed w' = w_recoveryUsed w → w_account w' = w_account w →
  advances w w'.
Proof.
  intros Hf Hr Ha. unfold advances. rewrite Hf, Hr, Ha. apply advances_reflexive.
Qed.

Lemma confined_keep w w' :
  w_account w' = w_account w → w_sessions w' = w_sessions w → confined w → confined w'.
Proof. unfold confined. by intros -> ->. Qed.

Lemma confined_insert w d s : confined w →
  (a_initialized (w_account w) = false → se_mustInitialize s = true) → confined (set_session d s w).
Proof.
  intros Hc Hs Ha d' s'. cbn. destruct (decide (d' = d)) as [->|Hne].
  - rewrite lookup_insert_eq. intros [= <-]. by apply Hs.
  - rewrite lookup_insert_ne by done. by apply Hc.
Qed.

Lemma confined_delete w d : confined w → confined (w <| w_sessions := delete d (w_sessions w) |>).
Proof.
  intros Hc Ha d' s'. cbn. intros Hd. apply lookup_delete_Some in Hd as [_ Hd]. by eapply Hc.
Qed.

Lemma advances_insert w n v v' :
  w_factors w !! n = Some v → factor_le v v' →
  advances w (w <| w_factors := <[n := v']> (w_factors w) |>).
Proof.
  intros Hn Hv. split_and!; [|done|done]. intros m u Hm. cbn. destruct (decide (m = n)) as [->|Hne].
  - rewrite lookup_insert_eq. exists v'. split; [done|]. congruence.
  - rewrite lookup_insert_ne by done. by exists u.
Qed.

Lemma advances_fresh w n v :
  w_factors w !! n = None → advances w (w <| w_factors := <[n := v]> (w_factors w) |>).
Proof.
  intros Hn. split_and!; [|done|done]. intros m u Hm. cbn. rewrite lookup_insert_ne by congruence.
  by exists u.
Qed.

Lemma verify_le v presented moment : factor_le v (verify v presented moment).2.
Proof.
  destruct (verify v presented moment) as [[] v'] eqn:E; cbn [snd].
  - apply verify_accepts in E as (c & -> & Ha & _). split; [done|]. cbn. intros Hv. apply Ha in Hv.
    split; [done|lia].
  - by apply verify_rejects in E as ->.
Qed.

Section Traces.
Context `{Wire, Ed25519, Scrypt, Timezones, M : Manager, !ManagerLaws} (h : Handler).

Ltac same := solve [apply advances_same; reflexivity | by apply confined_keep | done].

Lemma lift_traces {A} (J : DB → DB → Prop) (p : prog DB A) :
  obeys always J always p → obeys confined advances always (with_db p).
Proof.
  intros Hp. eapply (obeys_lift _ _ _ _ always J); [done| |exact Hp]. intros w v Hw _ _. split; same.
Qed.

#[export] Instance traces_admissible : Admissible h confined advances.
Proof.
  constructor; try apply _.
  - intros r. apply obeys_act. intros w Hw. destruct (Allow _ _ _). split_and!; same.
  - intros r. apply obeys_act. intros w Hw. destruct (Allow _ _ _). split_and!; same.
  - intros r. apply obeys_act. intros w Hw. destruct (Allow _ _ _). split_and!; same.
  - intros r. unfold currentSession. destruct (wr_Session r) as [[|c v]|]; [done| |done].
    apply obeys_act. intros w Hw. destruct (_ !! _) as [s|]; [|by split_and!].
    destruct (_ <? _); split_and!; try same. by apply confined_delete.
  - intros c. apply obeys_act. intros w Hw. destruct (_ || _); split_and!; try same.
    split_and!; [|done|done]. intros n v Hn. by exists v.
  - intros a p. apply obeys_act. intros w Hw. destruct (w_factors w !! a) as [v|] eqn:Hv; [|by split_and!].
    pose proof (verify_le v p (w_now w)) as Hle. destruct (verify v p (w_now w)) as [ok v'].
    split_and!; [same| |done]. by eapply advances_insert.
  - intros s c. apply obeys_act. intros w Hw. split_and!; try same. apply confined_insert; [done|].
    cbn. by intros ->.
  - intros d. apply obeys_act. intros w Hw. split_and!; try same. by apply confined_delete.
  - intros d n p s. apply obeys_act. intros w Hw. cbv zeta.
    set (k := fresh _). assert (w_factors w !! k = None) as Hk.
    { apply not_elem_of_dom, is_fresh. }
    set (w' := w <| w_factors := _ |>).
    assert (advances w w') as Ha by (by apply advances_fresh).
    assert (confined w') as Hw' by same.
    change (w_sessions w') with (w_sessions w).
    destruct (w_sessions w !! d) as [s0|] eqn:Hs; [|by split_and!]. split_and!; [|exact Ha|done].
    apply confined_insert; [done|]. intros Hi. by apply (Hw Hi d s0).
  - intros d s m. eapply (obeys_bind _ _ _ _ always); [|done]. apply obeys_act. intros w Hw.
    destruct (w_sessions w !! d) as [s0|] eqn:Hs; [|by split_and!]. split_and!; try same.
    apply confined_insert; [done|]. intros Hi. by apply (Hw Hi d s0).
  - intros d. apply obeys_act. intros w Hw.
    destruct (w_sessions w !! d) as [s0|] eqn:Hs; [|by split_and!].
    destruct (se_flash s0); [|by split_and!]. split_and!; try same.
    apply confined_insert; [done|]. intros Hi. by apply (Hw Hi d s0).
  - destruct manager_lists as [Hw Hd]. split; [|intros w0]; eapply lift_traces; [exact Hw|apply Hd].
Qed.

Lemma console_traces r x : obeys confined advances always (console_handle h r x).
Proof.
  apply console_obeys; try apply _; intros.
  - apply (lift_traces (λ _ _, True)). by apply obeys_act.
  - apply obeys_act. intros w Hw. split_and!; [|split_and!|done]; try done.
    + cbn. intros Hi. cbn in Hi. congruence.
    + intros n v Hn. by exists v.
  - eapply lift_traces, manager_issues.
  - eapply lift_traces, manager_approves.
  - eapply lift_traces, manager_renames.
  - eapply lift_traces, manager_revokes.
Qed.

(** The requests of the console. *)
Definition is_request (p : prog world WebResponse) : Prop := ∃ r x, p = console_handle h r x.
Definition runs := psteps is_request elsewhere.

Lemma elsewhere_traces w w' : confined w → elsewhere w w' → confined w' ∧ advances w w'.
Proof. intros Hw (db & t & ->). split; same. Qed.

Lemma runs_obey w l w' l' :
  runs (w, l) (w', l') → confined w → Forall (obeys confined advances (λ _, True)) l →
  confined w' ∧ advances w w' ∧ Forall (obeys confined advances (λ _, True)) l'.
Proof.
  apply pool_obeys; try apply _; [|exact elsewhere_traces]. intros p (r & x & ->). apply console_traces.
Qed.

(** *** The default account *)

(** A request that is answered after at most one action, which leaves the
    registry alone. *)
Definition stops {A} (p : prog world A) (w : world) (a : A) : Prop :=
  remaining p w = Ret a ∧ w_db (first_action p w) = w_db w.

Lemma stops_ret {A} (a : A) w : stops (Ret a) w a.
Proof. done. Qed.

Lemma stops_bind {A B} (p : prog world A) (next : A → prog world B) w a b :
  stops p w a → next a = Ret b → stops (pbind p next) w b.
Proof.
  intros [Hp Hd] Hn. destruct p as [a'|f k]; cbn [remaining first_action pbind] in *.
  - injection Hp as ->. by rewrite Hn.
  - split; cbn [remaining first_action]; [by rewrite Hp|done].
Qed.

Definition setup_paths : list string := ["/login"; "/logout"; setupPath; setupFactorPath].

(** A response without a page of the console. *)
Definition withheld (p : page) : Prop :=
  match p with WText _ | WRedirect _ | WFile _ | WNotFound => True | _ => False end.

Definition refusal (r : WebResponse) : Prop := withheld (wp_Page r).

(** A session that is looked up is one of the world's. *)
Lemma current_stops r w :
  ∃ found, stops (currentSession r) w found ∧
    ∀ s d, found = Some (s, d) → w_sessions w !! d = Some s.
Proof.
  unfold currentSession. destruct (wr_Session r) as [[|c v]|]; [by exists None| |by exists None].
  unfold stops, act. cbn [remaining first_action].
  destruct (w_sessions w !! Sum256 (c :: v)) as [s|] eqn:Hs; [|by exists None].
  destruct (w_now w <? se_expiresAt s); [|by exists None].
  exists (Some (s, Sum256 (c :: v))). split; [done|]. by intros ? ? [= <- <-].
Qed.

Lemma management_stops r w :
  confined w → a_initialized (w_account w) = false →
  ∃ resp, stops (authorizeManagementPost h r) w (inr resp) ∧ refusal resp.
Proof.
  intros Hc Hi. unfold authorizeManagementPost, authorizeSessionPost.
  destruct (negb _); [by eexists; split; [apply stops_ret|]|].
  destruct (current_stops r w) as (found & Hf & Hs).
  set (answer := match found with
    | Some (s, d) => match form_of r with
        | Some f => if negb (csrf_ok h r s f) then web_error "request rejected" 403 else Redirect (bs setupPath)
        | None => web_error "request rejected" 403 end
    | None => Redirect (bs "/login") end).
  exists answer. unfold answer. destruct found as [[s d]|]; cycle 1.
  { split; [|done]. eapply stops_bind; [by eapply stops_bind|done]. }
  destruct (form_of r) as [f|]; cycle 1.
  { split; [|done]. eapply stops_bind; [by eapply stops_bind|done]. }
  destruct (negb (csrf_ok h r s f)) eqn:E.
  { split; [|done]. eapply stops_bind; [by eapply stops_bind; [exact Hf|cbn beta iota; rewrite E]|done]. }
  split; [|done]. eapply stops_bind; [by eapply stops_bind; [exact Hf|cbn beta iota; rewrite E]|].
  cbn beta iota. by rewrite (Hc Hi d s (Hs _ _ eq_refl)).
Qed.

Lemma dashboard_stops r w :
  confined w → a_initialized (w_account w) = false →
  ∃ resp, stops (dashboard h r) w resp ∧ refusal resp.
Proof.
  intros Hc Hi. unfold dashboard. destruct (negb _); [by eexists; split; [apply stops_ret|]|].
  destruct (negb _); [by eexists; split; [apply stops_ret|]|].
  destruct (current_stops r w) as ([[s d]|] & Hf & Hs).
  - exists (Redirect (bs setupPath)). split; [|done]. eapply stops_bind; [exact Hf|].
    cbn beta iota. by rewrite (Hc Hi d s (Hs _ _ eq_refl)).
  - exists (Redirect (bs "/login")). split; [|done]. by eapply stops_bind.
Qed.

Lemma NewConsole_confined code origin proxies key moment db w0 :
  NewConsole code origin proxies key moment db = Ok (h, w0) → confined w0.
Proof.
  intros Hn _ d s. enough (w_sessions w0 = ∅) as -> by done. revert Hn. unfold NewConsole.
  intros Hn. apply rbind_Ok in Hn as ([a fs] & _ & Hn). destruct (url_Parse origin) as [u|]; [|done].
  apply fail_if_Ok in Hn as [_ Hn]. do 3 (apply rbind_Ok in Hn as (? & _ & Hn)).
  destruct key as [k|]; [|done]. apply Ok_inj in Hn. by injection Hn as _ <-.
Qed.

(** C25: the default account manages nothing. As long as the console's account
    has no credentials of its own, whatever was done before and is in progress,
    every request outside login and setup is answered at once, without a page of
    the console and without touching the registry. *)
Theorem default_account_confined code origin proxies key moment db w0 w l r x :
  NewConsole code origin proxies key moment db = Ok (h, w0) → runs (w0, []) (w, l) →
  a_initialized (w_account w) = false → wr_Path r ∉ setup_paths →
  ∃ resp, stops (console_handle h r x) w resp ∧ refusal resp.
Proof.
  intros Hn Hr Hi Hp. apply NewConsole_confined in Hn.
  destruct (runs_obey _ _ _ _ Hr Hn) as (Hc & _ & _); [constructor|].
  enough (∃ resp, stops (console_route h r x) w resp ∧ refusal resp) as (resp & Hs & Hf).
  { unfold console_handle, console_securityHeaders. destruct (negb _).
    - eexists. split; [by apply stops_ret|done].
    - eexists. split; [by eapply stops_bind|done]. }
  unfold console_route. unfold setup_paths in Hp. rewrite !not_elem_of_cons in Hp.
  destruct Hp as (N1 & N2 & N3 & N4 & _).
  rewrite (proj2 (String.eqb_neq _ _) N1), (proj2 (String.eqb_neq _ _) N2),
    (proj2 (String.eqb_neq _ _) N4), (proj2 (String.eqb_neq _ _) N3).
  destruct (management_stops r w Hc Hi) as (resp & Hm & Hf).
  do 6 (destruct (String.eqb _ _); [exists resp; split; [by eapply stops_bind|done]|]).
  do 2 (destruct (String.eqb _ _); [eexists; split; [apply stops_ret|]; unfold stylesheet, favicon, asset;
    by destruct (negb _)|]).
  by apply dashboard_stops.
Qed.

(** *** Codes *)

(** The action accepts a time-based code, or a recovery code. *)
Definition accepts (factor : nat) (code : bytes) (w w' : world) : Prop :=
  run_prog (verify_at factor code) w = (w', true).
Definition recovers (code : bytes) (w w' : world) : Prop :=
  run_prog (consumeRecoveryCode h code) w = (w', true).

Lemma accepts_inv n code w w' : accepts n code w w' →
  ∃ v c, w_factors w !! n = Some v ∧
    w_factors w' !! n = Some (mkTotpVerifier (tv_secret v) c true) ∧
    (tv_armed v = true → tv_newest v < c) ∧
    totpCounter (w_now w) - 1 ≤ c ≤ totpCounter (w_now w) + 1 ∧
    totpCode (tv_secret v) c = TrimSpace code.
Proof.
  unfold accepts, verify_at, act. cbn [run_prog].
  destruct (w_factors w !! n) as [v|]; [|by intros [= ? ?]].
  destruct (verify v code (w_now w)) as [ok v'] eqn:E. cbn [fst snd]. intros Hv.
  injection Hv as <- ->. apply verify_accepts in E as (c & -> & Ha & Hb & Hc).
  exists v, c. split_and!; try done; [|lia..]. apply lookup_insert_eq.
Qed.

Lemma recovers_inv code w w' : recovers code w w' → w_recoveryUsed w = false ∧ w_recoveryUsed w' = true.
Proof.
  unfold recovers, consumeRecoveryCode, act. cbn [run_prog]. destruct (w_recoveryUsed w) eqn:Hu; cbn [orb].
  { by intros [= ?]. }
  destruct (_ || _); cbn [fst snd]; intros Hw; injection Hw as Hw; [done|]. by subst w'.
Qed.

End Traces.
