(* ===== verification/AdminLogin.v ===== *)
(** Signing in to the console with stored credentials, after any restart. *)

From S2P Require Import Prelude GoStd GoNet GoWeb GoCrypto GoForm GoUrl RateLimit ClientAddress.
From S2P Require Import DeliveryStore MembershipCodec Schema Admission MembershipStore StoreSteps.
From S2P Require Import AdminCredential Interleave AdminService AdminViews AdminWeb.

#[local] Open Scope string_scope.
#[local] Open Scope Z_scope.

Lemma name_not_empty name : validateAccountName name = Ok tt → sql_text_empty name = false.
Proof.
  unfold validateAccountName. intros Hn. apply guard_err_Ok in Hn.
  apply orb_false_iff in Hn as [Hn Hp]. apply orb_false_iff in Hn as [Hn _].
  destruct name as [|c name]; [done|]. cbn [sql_text_empty]. apply negb_false_iff in Hp.
  unfold printableName in Hp. cbn [forallb] in Hp. apply andb_true_iff in Hp as [Hc _].
  apply negb_true_iff, orb_false_iff in Hc as [Hc _]. apply Z.leb_gt in Hc. apply Z.eqb_neq. lia.
Qed.

Lemma hash_not_empty `{Scrypt} password salt hash :
  hashPassword password salt = Ok hash → sql_text_empty hash = false.
Proof.
  unfold hashPassword. destruct (scrypt_Key _ _ _ _ _ _); [|done]. intros Hh. by apply Ok_inj in Hh as <-.
Qed.

Lemma secret_not_empty secret : blen secret = 20 → sql_text_empty (encodeTOTPSecret secret) = false.
Proof.
  intros Hs. unfold encodeTOTPSecret. assert (forallb (λ c, negb (b2z c =? 0)) (base32_Encode secret) = true) as Hl
    by (apply base32_forall; vm_compute; reflexivity).
  destruct (base32_Encode secret) as [|c s] eqn:E.
  { assert (blen (base32_Encode secret) = 0) as E' by (by rewrite E). apply base32_nonempty in E'. lia. }
  cbn [sql_text_empty]. cbn [forallb] in Hl. apply andb_true_iff in Hl as [Hc _].
  by apply negb_true_iff in Hc.
Qed.

(** A limiter without entries lets the first attempt pass. *)
Lemma Allow_fresh key now lim max W l :
  NewFixedWindow lim max W = Ok l → 1 ≤ max → ∃ l', Allow key now l = (true, l').
Proof.
  unfold NewFixedWindow. intros Hl Hm. apply fail_if_Ok in Hl as [_ Hl]. apply Ok_inj in Hl as <-.
  unfold Allow. cbn [entries maxEntries]. rewrite lookup_empty. change (size (∅ : gmap bytes entry)) with 0%nat.
  destruct (Z.of_nat 0 >=? max) eqn:E; [go_bool; lia|]. eauto.
Qed.

Section Login.
Context `{Scrypt, !ScryptLaws, Timezones, Manager}.

(** The world of a console whose account has these credentials. *)
Definition credentials_at (w : world) (n : nat) (name password secret : bytes) : Prop :=
  a_initialized (w_account w) = true ∧ a_name (w_account w) = name ∧
  hash_matches (a_hash (w_account w)) password = true ∧ a_secondFactor (w_account w) = Some n ∧
  ∃ v, w_factors w !! n = Some v ∧ tv_secret v = secret ∧
    (tv_armed v = true → tv_newest v < totpCounter (w_now w)).

(** The fields of a login form. *)
Definition presents (f : form) (name password code : bytes) : Prop :=
  TrimSpace (Get f "recovery_code") = [] ∧ TrimSpace (Get f "username") = name ∧
  Get f "password" = password ∧ Get f "totp_code" = code.

Lemma authenticate_runs h f w n name password secret :
  credentials_at w n name password secret →
  presents f name password (totpCode secret (totpCounter (w_now w))) →
  ∃ fs, run_prog (web_authenticate h f) w = (w <| w_factors := fs |>, true).
Proof.
  intros (Hi & Hn & Hp & Hf & v & Hv & Hs & Ha) (Fr & Fu & Fp & Ft).
  destruct (verify_current v (w_now w) Ha) as [v' Hok]. exists (<[n := v']> (w_factors w)).
  unfold web_authenticate. rewrite Fr, beq_refl. cbn [negb]. unfold reads. cbn [pbind run_prog]. unfold id.
  unfold nameMatches, passwordMatches. rewrite Hi, Hn, Fu, Fp, Hp, Hf. cbn [negb].
  unfold constantTimeEquals. rewrite beq_refl. cbn [negb orb].
  unfold verify_at, act. cbn [run_prog]. rewrite Ft, <-Hs, Hv, Hok. reflexivity.
Qed.

Lemma allow_login_runs h r w l' :
  Allow (clientAddress h r) (w_now w) (w_loginAttempts w) = (true, l') →
  run_prog (allow_login h r) w = (w <| w_loginAttempts := l' |>, true).
Proof. unfold allow_login, act. cbn [run_prog]. by intros ->. Qed.

Lemma open_session_runs s c w :
  a_initialized (w_account w) = true →
  run_prog (open_session s c) w =
    (set_session (Sum256 s) (mkSession c (w_now w + sessionLifetime) None false None) w, false).
Proof. unfold open_session, act. cbn [run_prog]. by intros ->. Qed.

(** A login that authenticates. *)
Lemma login_runs h r x f w l' fs sess csrf :
  wr_Path r = "/login" → wr_Method r = "POST" → wr_Origin r = expectedOrigin h → form_of r = Some f →
  rand_Session x = Some sess → rand_CSRF x = Some csrf →
  a_initialized (w_account w) = true →
  Allow (clientAddress h r) (w_now w) (w_loginAttempts w) = (true, l') →
  run_prog (web_authenticate h f) (w <| w_loginAttempts := l' |>) =
    (w <| w_loginAttempts := l' |> <| w_factors := fs |>, true) →
  run_prog (login h r x) w =
    (set_session (Sum256 (RawURL_Encode sess))
       (mkSession (RawURL_Encode csrf) (w_now w + sessionLifetime) None false None)
       (w <| w_loginAttempts := l' |> <| w_factors := fs |>),
     web_cookie (session_cookie h (RawURL_Encode sess) (sessionLifetime / Second)) (Redirect (bs "/"))).
Proof.
  intros Rp Rm Ro Rf Xs Xc Hi Hl Ha. unfold login, validOrigin. rewrite Rp, Rm, Ro, beq_refl.
  cbn [String.eqb Ascii.eqb Bool.eqb negb]. rewrite Rf, Xs, Xc. cbn [randomToken fmap option_fmap option_map].
  rewrite (run_bind _ _ _ _ _ (allow_login_runs h r w l' Hl)). cbn [negb].
  rewrite (run_bind _ _ _ _ _ Ha). cbn [negb].
  etransitivity; [apply run_bind, open_session_runs; exact Hi|reflexivity].
Qed.

(** The saved credentials load again. *)
Lemma stored_loads raw password salt hash secret moment db code origin u proxies refKey start :
  validateAccountName (TrimSpace raw) = Ok tt → hashPassword password salt = Ok hash →
  blen salt = 16 → blen secret = 20 → url_Parse origin = Some u → origin_ok u = true →
  ∃ db' h w, SaveAdministrator (setup_credential (TrimSpace raw) hash secret moment) db = Ok db' ∧
    NewConsole code origin proxies (Some refKey) start db' = Ok (h, w) ∧
    expectedOrigin h = origin_String u ∧ expectedHost h = Host u ∧
    NewFixedWindow 5 128 Minute = Ok (w_loginAttempts w) ∧
    ∀ later, credentials_at (w <| w_now := later |>) 0%nat (TrimSpace raw) password secret.
Proof.
  intros Hn Hh Hsa Hse Hu Ho.
  destruct (setup_credential_reads raw password salt hash secret moment 0%nat Hn Hsa Hh Hse) as [Hval _].
  destruct (setup_credential_reads raw password salt hash secret (unixMillis moment * Millisecond) 0%nat
    Hn Hsa Hh Hse) as (_ & hd & Hm & Hacc).
  unfold SaveAdministrator. rewrite Hval. cbn [rbind setup_credential ac_Name ac_PasswordHash ac_TOTPSecret].
  rewrite (name_not_empty _ Hn), (hash_not_empty _ _ _ Hh), (secret_not_empty _ Hse). cbn [orb].
  rewrite guard_pass by reflexivity. cbn [rbind]. do 3 eexists. split; [reflexivity|].
  unfold NewConsole, LoadAdministrator. cbn [administrator fmap option_fmap option_map upd
    adm_name adm_password_hash adm_totp_secret adm_updated_at_ms].
  unfold setup_credential in Hacc. cbn [ac_UpdatedAt] in *.
  match goal with |- context [accountFromCredential ?c 0] =>
    assert (accountFromCredential c 0 =
      Ok (mkAccount (TrimSpace raw) hd secret (Some 0%nat) (unixMillis moment * Millisecond) true)) as ->
      by exact Hacc end.
  cbn [rbind a_secret]. rewrite Hu, Ho. cbn [negb]. rewrite guard_pass by reflexivity. cbn [rbind].
  split; [reflexivity|]. split; [reflexivity|]. split; [reflexivity|]. split; [reflexivity|].
  intros later. split_and!; try reflexivity; [exact Hm|].
  exists (newTOTPVerifier secret). split_and!; [apply lookup_singleton_eq|reflexivity|done].
Qed.

(** C28: the credentials that the setup confirmed are the ones that sign in. A
    name and a password that the setup accepted are saved by the store, a console
    started on that store at any time reads them back, and a login with that
    name, that password and the code of the current step opens a session with
    full access, whatever the registry holds. *)
Theorem stored_credential_signs_in raw password salt hash secret moment db code origin u proxies refKey start
  later r x f sess csrf :
  validateAccountName (TrimSpace raw) = Ok tt → hashPassword password salt = Ok hash →
  blen salt = 16 → blen secret = 20 → url_Parse origin = Some u → origin_ok u = true →
  wr_Path r = "/login" → wr_Method r = "POST" → wr_Host r = Host u → wr_Origin r = origin_String u →
  form_of r = Some f →
  presents f (TrimSpace raw) password (totpCode secret (totpCounter later)) →
  rand_Session x = Some sess → rand_CSRF x = Some csrf →
  ∃ db' h w w' resp, SaveAdministrator (setup_credential (TrimSpace raw) hash secret moment) db = Ok db' ∧
    NewConsole code origin proxies (Some refKey) start db' = Ok (h, w) ∧
    run_prog (console_handle h r x) (w <| w_now := later |>) = (w', resp) ∧
    wp_Page resp = WRedirect (bs "/") ∧
    wp_Cookies resp = [session_cookie h (RawURL_Encode sess) (sessionLifetime / Second)] ∧
    w_sessions w' !! Sum256 (RawURL_Encode sess) =
      Some (mkSession (RawURL_Encode csrf) (later + sessionLifetime) None false None).
Proof.
  intros Hn Hh Hsa Hse Hu Ho Rp Rm Rh Ro Rf Hf Xs Xc.
  destruct (stored_loads raw password salt hash secret moment db code origin u proxies refKey start)
    as (db' & h & w & Hsave & Hnew & Eo & Eh & Hlim & Hcred); [done..|].
  destruct (Allow_fresh (clientAddress h r) later 5 128 Minute _ Hlim ltac:(lia)) as [l' Hl].
  set (w1 := w <| w_now := later |> <| w_loginAttempts := l' |>).
  assert (w_now w1 = later) as Ht by reflexivity. rewrite <-Ht in Hf.
  destruct (authenticate_runs h f w1 0%nat (TrimSpace raw) password secret (Hcred later) Hf)
    as [fs Hauth].
  destruct (Hcred later) as [Hi _]. rewrite <-Eo in Ro.
  pose proof (login_runs h r x f (w <| w_now := later |>) l' fs sess csrf Rp Rm Ro Rf Xs Xc Hi Hl Hauth)
    as Hrun.
  exists db', h, w. do 2 eexists. split; [exact Hsave|]. split; [exact Hnew|].
  unfold console_handle, console_securityHeaders. rewrite Rh, Eh, beq_refl. cbn [negb].
  unfold console_route. rewrite Rp, String.eqb_refl, (run_bind _ _ _ _ _ Hrun). split; [reflexivity|].
  split; [reflexivity|]. split; [reflexivity|]. apply lookup_insert_eq.
Qed.
End Login.
