(* ===== verification/AdminExamples.v ===== *)
(** The administration console on concrete requests: first use, restart and
    login, and a race between the two. scrypt and the time zones are models with
    the laws of their interfaces. *)

From S2P Require Import Prelude GoStd GoNet GoWeb GoCrypto GoForm GoUrl RateLimit ClientAddress.
From S2P Require Import DeliveryStore MembershipCodec WireModel Schema Admission MembershipStore StoreSteps.
From S2P Require Import StoreExamples AuthorityKey AdminCredential Interleave AdminService AdminViews AdminWeb.
From S2P Require Import AdminProofs AdminTraces AdminLogin.

#[local] Open Scope string_scope.
#[local] Open Scope Z_scope.

(** A key derivation with the laws, to evaluate. *)
#[export] Instance scrypt_model : Scrypt := {|
  scrypt_Key pw salt N r p n :=
    if n <? 0 then None
    else Some (take (Z.to_nat n) (Sum256 (pw ++ salt)%list ++ repeat Byte.x00 (Z.to_nat n))%list) |}.

#[export] Instance scrypt_model_laws : ScryptLaws.
Proof.
  constructor; cbn [scrypt_Key scrypt_model].
  - intros pw salt N r p n k. destruct (Z.ltb_spec n 0); [done|]. generalize (Sum256 (pw ++ salt)%list).
    intros s [= <-]. unfold blen. rewrite length_take, length_app, repeat_length. lia.
  - intros. eexists. reflexivity.
Qed.

#[export] Instance zones_model : Timezones := {|
  LoadLocation name := if beq name (bs "UTC") then Some (λ _, 0) else None |}.

#[local] Existing Instances pkcs8_model example_process.

#[export] Instance example_manager : Manager := service_manager (mkService (bs "/keys") ∅).

Definition origin_example : bytes := bs "http://127.0.0.1:8081".
Definition origin_url : URL := mkURL (bs "http") [] None (bs "127.0.0.1:8081") [] false [] [].

Definition morning : Z := 1700000000 * Second.

(** *** Requests *)

Definition form_text (fields : list (string * bytes)) : bytes :=
  foldr (λ x rest, (bs x.1 ++ bs "=" ++ QueryEscape x.2 ++ bs "&" ++ rest)%list) [] fields.

Definition web_post (path : string) (cookie : option bytes) (fields : list (string * bytes)) : WebRequest :=
  mkWebRequest "POST" path (bs "127.0.0.1:8081") (bs "http://127.0.0.1:8081")
    (bs "application/x-www-form-urlencoded") [] (form_text fields) cookie None
    (mkClientInfo (bs "127.0.0.1:4711") []).

Definition web_random (n : byte) : WebRandom :=
  mkWebRandom (Some (repeat n 32)) (Some (n :: repeat Byte.x00 31)) (Some (repeat n 16))
    (Some (repeat n 20)) (repeat n 32).
Definition cookie_of (n : byte) : bytes := RawURL_Encode (repeat n 32).
Definition token_of (n : byte) : bytes := RawURL_Encode (n :: repeat Byte.x00 31).

Definition default_login : WebRequest :=
  web_post "/login" None [("username", bs "admin"); ("password", bs "sevenmirror")].

Definition new_name : bytes := bs "alice".
Definition new_password : bytes := bs "correct horse battery".

Definition setup_request : WebRequest :=
  web_post "/setup" (Some (cookie_of Byte.x01))
    [("csrf_token", token_of Byte.x01); ("username", new_name); ("password", new_password);
     ("password_confirm", new_password)].
Definition code_now : bytes := totpCode (repeat Byte.x02 20) (totpCounter morning).
Definition factor_request : WebRequest :=
  web_post "/setup/totp" (Some (cookie_of Byte.x01))
    [("csrf_token", token_of Byte.x01); ("totp_code", code_now)].

(** *** First use *)

Definition fresh_console : result (Handler * world) :=
  NewConsole [] origin_example [] (Some (repeat Byte.x09 32)) morning empty_db.

Definition no_window : FixedWindow := mkFixedWindow ∅ 1 1 1.
Definition no_console : Handler * world :=
  (mkHandler [] [] false [] [] 0 (mkResolver []),
   mkWorld empty_db 0 defaultAccount false ∅ ∅ no_window no_window no_window).
Definition console0 : Handler := (from_ok no_console fresh_console).1.
Definition world0 : world := (from_ok no_console fresh_console).2.

Lemma fresh_console_ok : fresh_console = Ok (console0, world0).
Proof.
  assert (is_ok fresh_console = true) as Hok by (vm_compute; reflexivity).
  rewrite (is_ok_from no_console fresh_console Hok) at 1. unfold console0, world0.
  by destruct (from_ok no_console fresh_console).
Qed.

Definition advance {W A} (i n : nat) : list (command W A) := repeat (Advance i) n.
Definition begin (r : WebRequest) (n : byte) : command world WebResponse :=
  Start (console_handle console0 r (web_random n)).

(** The administrator signs in with the default password and chooses the new
    one. *)
Definition preparing : list (command world WebResponse) :=
  ([begin default_login Byte.x01] ++ advance 0 10 ++ [begin setup_request Byte.x02] ++ advance 1 10)%list.

(** Meanwhile another login with the default password is past the check of the
    password when the administrator confirms the code. *)
Definition racing : list (command world WebResponse) :=
  (preparing ++ [begin default_login Byte.x03] ++ advance 2 2 ++ [begin factor_request Byte.x04] ++
   advance 3 20 ++ advance 2 10)%list.

Definition prepared : world * list (prog world WebResponse) := schedule preparing (world0, []).
Definition raced : world * list (prog world WebResponse) := schedule racing (world0, []).

(** A schedule of requests to this console. *)
Definition requests_only (l : list (command world WebResponse)) : Prop :=
  Forall (λ c, match c with Start p => is_request console0 p | Advance _ => True end) l.

Lemma only_begin r n : requests_only [begin r n].
Proof. constructor; [|constructor]. by exists r, (web_random n). Qed.
Lemma only_advance i n : requests_only (advance i n).
Proof. by apply Forall_forall; intros c Hc; apply list_elem_of_In, repeat_spec in Hc as ->. Qed.
Lemma only_app l k : requests_only l → requests_only k → requests_only (l ++ k)%list.
Proof. intros Hl Hk. by apply Forall_app. Qed.
Hint Resolve only_begin only_advance only_app : console.

Lemma preparing_only : requests_only preparing.
Proof. unfold preparing. auto 6 with console. Qed.
Lemma racing_only : requests_only racing.
Proof. unfold racing. auto 10 using preparing_only with console. Qed.

Lemma schedule_runs l s : requests_only l → runs console0 s (schedule l s).
Proof. apply schedule_steps. Qed.

(** What the race leaves: new credentials, and a session of the other login. *)
Definition race_result (w : world) : bool :=
  a_initialized (w_account w) &&
  negb (passwordMatches (w_account w) defaultAdministratorPassword) &&
  match w_sessions w !! Sum256 (cookie_of Byte.x03) with
  | Some s => negb (se_mustInitialize s) && (w_now w <? se_expiresAt s)
  | None => false
  end.


(** *** Before the setup is confirmed *)

Definition approve_request : WebRequest :=
  web_post "/actions/approve" (Some (cookie_of Byte.x01))
    [("csrf_token", token_of Byte.x01); ("workspace_ref", bs "x"); ("device_ref", bs "y")].

Lemma default_account_confined_witness :
  ∃ resp, stops (console_handle console0 approve_request (web_random Byte.x05)) prepared.1 resp ∧ refusal resp.
Proof.
  apply (default_account_confined console0 [] origin_example [] (Some (repeat Byte.x09 32)) morning
           empty_db world0 prepared.1 prepared.2).
  - exact fresh_console_ok.
  - rewrite <-surjective_pairing. exact (schedule_runs _ _ preparing_only).
  - vm_compute. reflexivity.
  - unfold approve_request, web_post, setup_paths, setupPath, setupFactorPath. cbn [wr_Path]. set_solver.
Defined.

(** The manager is the service, whose laws are proved. *)
Lemma console_changes_authorized_witness :
  let p := console_handle console0 approve_request (web_random Byte.x05) in
  w_db (first_action p prepared.1) = w_db prepared.1 ∧
  (may_change console0 approve_request prepared.1 ∨ db_quiet (remaining p prepared.1)).
Proof. exact (console_changes_authorized console0 approve_request (web_random Byte.x05) prepared.1). Defined.

(** The same request is refused because of the setup, not for want of a session. *)
Example confined_by_setup :
  match remaining (console_handle console0 approve_request (web_random Byte.x05)) prepared.1 with
  | Ret resp => match wp_Page resp with WRedirect t => beq t (bs "/setup") | _ => false end
  | _ => false
  end = true.
Proof. vm_compute. reflexivity. Qed.

(** *** Codes *)

(** The pool just before and just after the confirmation accepts its code. *)
Definition confirming : list (command world WebResponse) :=
  (preparing ++ [begin factor_request Byte.x04] ++ advance 2 4)%list.
Definition before_code : world * list (prog world WebResponse) := schedule confirming (world0, []).
Definition after_code : world * list (prog world WebResponse) := schedule (advance 2 1) before_code.
Definition factor_of (w : world) : nat :=
  match w_sessions w !! Sum256 (cookie_of Byte.x01) with
  | Some s => match se_pending s with Some p => ps_secondFactor p | None => 9%nat end
  | None => 8%nat
  end.
Example code_accepted :
  (run_prog (verify_at (factor_of before_code.1) code_now) before_code.1).2 = true ∧
  (run_prog (verify_at (factor_of before_code.1) code_now) after_code.1).2 = false.
Proof. split; vm_compute; reflexivity. Qed.

Lemma confirming_only : requests_only confirming.
Proof. unfold confirming. auto 10 using preparing_only with console. Qed.

Lemma code_accepted_step : accepts 0%nat code_now before_code.1 after_code.1.
Proof. vm_compute. reflexivity. Qed.


(** *** After a restart *)

Definition secret_example : bytes := repeat Byte.x02 20.
Definition noon : Z := 1700030000 * Second.
Definition login_request : WebRequest :=
  web_post "/login" None
    [("username", bs " alice "); ("password", new_password);
     ("totp_code", totpCode secret_example (totpCounter noon))].

Lemma stored_credential_signs_in_witness :
  ∃ db' h w w' resp,
    SaveAdministrator (setup_credential (TrimSpace new_name)
      (from_ok [] (hashPassword new_password (repeat Byte.x02 16))) secret_example morning) empty_db = Ok db' ∧
    NewConsole [] origin_example [] (Some (repeat Byte.x09 32)) morning db' = Ok (h, w) ∧
    run_prog (console_handle h login_request (web_random Byte.x05)) (w <| w_now := noon |>) = (w', resp) ∧
    wp_Page resp = WRedirect (bs "/") ∧
    wp_Cookies resp = [session_cookie h (cookie_of Byte.x05) (sessionLifetime / Second)] ∧
    w_sessions w' !! Sum256 (cookie_of Byte.x05) =
      Some (mkSession (token_of Byte.x05) (noon + sessionLifetime) None false None).
Proof.
  apply (stored_credential_signs_in new_name new_password (repeat Byte.x02 16)
    (from_ok [] (hashPassword new_password (repeat Byte.x02 16))) secret_example morning empty_db []
    origin_example origin_url [] (repeat Byte.x09 32) morning noon login_request (web_random Byte.x05)
    (default [] (form_of login_request)) (repeat Byte.x05 32) (Byte.x05 :: repeat Byte.x00 31)).
  1-10: vm_compute; reflexivity.
  - vm_compute. reflexivity.
  - unfold presents. split_and!; vm_compute; reflexivity.
  - reflexivity.
  - reflexivity.
Defined.
